(* ===== verification/_CoqProject ===== *)
-Q . S2P
Prelude.v
Chain.v
Types.v
Logging.v
Resources.v
Float32.v
WrId.v
KvProtocol.v
KvStore.v
Verbs.v
CompletionDispatcher.v
RpcSlot.v
Buffer.v
Memory.v
BufferPool.v
Allocator.v
TimingWheel.v
QueuePair.v
Connection.v
RpcEndpoint.v
RpcTimeout.v
RpcLife.v
RpcReentry.v
MpscQueue.v
Handshake.v
Reactor.v
FlowControl.v
DoorbellBatcher.v
KvServer.v
KvServerLife.v
KvClient.v
Session.v
KvRun.v
KvMain.v
DemoPrograms.v
