(* ===== verification/Prelude.v ===== *)
(** * A verification development for the RDMA framework

    The framework is a C++17 library over the verbs API: devices, queue pairs and
    registered memory ([core], [memory]), connections and the TCP handshake that
    sets them up ([transport]), the completion dispatcher and RPC calls ([rpc]),
    and the polling loop that drives them ([reactor]). The examples build a
    key-value server and client on it. The development translates that code to
    executable definitions and proves what each part promises to the next, up to
    client and server together.

    ** How the code is rendered

    - An unsigned [w]-bit integer is a [Z] kept in range by [wrap w] where the
      code's arithmetic can wrap; bit operations are those of [Z].
    - A fixed array is a list read with [aget] and written with [aset]. [None] is
      undefined behaviour everywhere: an access outside an array or a buffer, a
      null or dangling pointer, a float that does not fit the integer it is
      converted to. A theorem that an operation returns [Some] says that it does
      none of this.
    - [Status] and [Result<T>] are values ([Types]): errors are results.
    - A mutable object is a record passed on; an object shared through pointers
      is a component of a world or of the server, named by an id or an address,
      so that aliasing is visible. Intrusive lists are indices into one array
      ([TimingWheel]) or [next] members in a store ([Chain]).
    - Callbacks and handlers are events in the result, in order. They do not
      re-enter the component that calls them, but for the endpoint's callbacks in
      [RpcReentry].
    - Loops are structural, or take fuel that a theorem shows to suffice: the
      probe loops of the store and the dispatcher take the size of the table, the
      bucket loops of the wheels the size of the entry pool, the SGL loop the
      number of elements, the transfer loops of the handshake the number of bytes
      and of interruptions still to come ([Send_total], [Receive_total]); and
      [next_walk] the number of nodes.
    - Concurrent code ([MpscQueue]) is a set of atomic steps interleaved freely,
      under sequential consistency. The acquire and release orders of the code
      are assumed to give that for the accesses they protect.

    ** What lies outside

    Code that is not in the repository is a type class, whose laws are documented
    behaviour of that code, with a concrete instance that the examples evaluate:
    - [QueuePair.Verbs]: posting requests and modifying queue pairs, with the
      requests accepted so far; [Connection.QpStateMachine] adds the state
      machine of a queue pair;
    - [Resources.VerbsObjects]: making and releasing the objects of the verbs
      library, with the table of those there are;
    - [Allocator.SystemMemory]: mappings and the heap;
    - [DoorbellBatcher.SendQueue]: posting a list of requests;
    - [Reactor.CompletionSource]: polling a completion queue;
    - [DemoPrograms.WorkQueues]: what links the two, requests and completions;
    - [KvRun.Deliveries]: the completion of a receive comes with the message that
      was written into its buffer;
    - [Handshake.Sockets]: the system calls of the handshake, with the number of
      interruptions to come bounded;
    - [BufferPool.BufferSource]: what a buffer pool promises to its clients. It is
      an interface inside the program: [LocalBufferPool_source] shows that the
      ring pool keeps it from any state in order, [lifo_pool_works] that [Create]
      with the policy LIFO starts in one. The endpoint, the server and the client
      are proved against it alone.
    Memory allocation and registration are parameters of [LocalBufferPool.Create],
    the parsed flags and the random draws arguments of the programs that use them.
    [KVServer.Initialize] and [KVClient.Connect] call the factory of their pool,
    an argument, with the configuration the code chooses; [BufferPool.ring_pool]
    is the factory of the code, [BufferPool.lifo_pool] the same with the policy
    LIFO.

    ** The files

    - [Prelude]: machine words, arrays, bytes, bit-field lemmas, automation.
      [Chain]: null-terminated chains. [Float32]: binary32 arithmetic.
      [Memory]: the bytes behind registered buffers.
    - [Types] ([common/status.h], [common/types.h]), [WrId] ([common/wr_id.h]),
      [KvProtocol] ([examples/kv_protocol.h]), [Verbs] (structures of the API),
      [Logging] ([common/logging.h]).
    - [KvStore] ([examples/kv_store.h]): hash table over a byte pool.
    - [CompletionDispatcher] ([rpc/completion_dispatcher.*]): two caches in front
      of an index of handlers.
    - [RpcSlot] ([rpc/rpc_slot.*]): packed slot headers and the slot pool.
    - [Buffer] ([memory/buffer.h], [core/memory_region.*]), [BufferPool]
      ([memory/buffer_pool.*]).
    - [Allocator] ([memory/hugepage_allocator.*], [memory_allocator.h]).
    - [Resources] ([core/device.*], [protection_domain.*], [completion_queue.*]):
      the owners of verbs objects, behind one interface [Owner], and the order in
      which the programs make and destroy them.
    - [TimingWheel] ([common/timing_wheel.h]): both wheels.
    - [QueuePair] ([core/queue_pair.*]), [DoorbellBatcher]
      ([core/doorbell_batcher.h]).
    - [Connection] ([transport/connection.*], [connection_manager.*]),
      [FlowControl] ([transport/flow_control.*]), [Handshake]
      ([transport/tcp_handshake.*], [handshake_channel.h]).
    - [RpcEndpoint] ([rpc/rpc_endpoint.*]): calls over a connection, the slots,
      the wheel and a buffer source. [RpcTimeout]: endpoint and wheel in the
      caller's loop. [RpcLife]: the whole endpoint under any interleaving of its
      operations, and the table of calls that specifies it. [RpcReentry]: the same
      with callbacks that send requests themselves. All three take the handles
      that completions deliver from outside, as far as [RpcLife.op_admissible] or
      [RpcTimeout.recent] asks something of them.
    - [MpscQueue] ([common/mpsc_queue.h]), [Reactor] ([reactor/reactor.*]).
    - [KvServer], [KvServerLife] ([examples/kv_server.*]), [KvClient]
      ([examples/kv_client.*]): the two programs on all of the above. [Session]:
      client and server together, over a network that delivers what is posted.
      [KvRun]: the loop of [KVServer::Run], reactor, dispatcher and server together.
      [KvMain] ([examples/kv_server_main.cpp], [kv_client_main.cpp]): the flags,
      their checks and the two [main] functions.
    - [DemoPrograms] ([examples/server.cpp], [examples/client.cpp]): the two
      [main] functions that use the library without the reactor.
    In each file a Module holds the translated operations under their C++ names;
    the specification, the lemmas, a concrete example and the properties follow.

    ** What is shown

    - Refinement of abstract specifications: the store is a finite map
      ([kv_store_refines_map]); the dispatcher is a map of handlers
      ([dispatcher_refines_map]); the wheels are a multiset of deadlines
      ([timing_wheel_refines], [hierarchical_wheel_refines]); the endpoint is a
      table of pending calls ([endpoint_refines_calls]); the ring buffer is a
      queue ([ring_fifo]); the server answers every request as an operation of
      the map ([server_answers]), and what the client encodes is what the server
      decodes and serves ([request_served]); a whole session between the two is
      a sequence of operations of the map, and the client's counters are the
      outcomes of those operations ([session_behaves_as_map]).
    - Invariants: slots and buffers are handed out once ([slot_pool_exclusive],
      [lifo_pool_exclusive]), connection ids are partitioned, credits are
      conserved ([credits_conserved]), tasks are run once under every
      interleaving ([tasks_called_once]), callers are called back once under every
      interleaving of the endpoint's operations and of what callbacks send
      ([clients_called_back_once]), verbs
      objects are owned once and released after what was made from them
      ([queues_owned_once], [setup_torn_down]), the server never gets stuck
      ([server_never_stuck]).
    - Functional behaviour: connections follow their state machine, SGL
      fragmentation covers the list, one poll of the reactor does what its parts
      do in order, requests leave the batcher in order ([batcher_fifo]).
    - Bounds: the completions a queue pair asks for never exceed half its
      completion queue ([signaled_outstanding_bounded]).
    - Termination and liveness: the handshake ends, a call completes once or, when
      it is not answered, times out once if its timeout could be scheduled and
      never otherwise ([lost_call_times_out]), and whatever else the endpoint does
      a scheduled call ends by its deadline ([calls_end_by_deadline]), the reactor
      drains its queues, a starved sender recovers; the server runs for as long as
      its flag is set, whatever clients and device do ([server_runs]); the demo
      programs and the key-value programs return and leave nothing open
      ([demo_programs_end_clean], [server_main_ends], [client_main_ends]).
    - Limits and failures, proved as such: the FIFO pool cannot take a buffer
      back, so the server and the client as configured serve nothing
      ([configured_pool_serves_nothing]); a benchmark larger than the pool never
      ends ([benchmark_never_ends]); response ids collide; a deadline beyond the
      wheel is reduced; a full-size scatter-gather PUT in the first round of the
      client, which the flags allow, overruns its buffer
      ([full_sgl_main_overruns]); the completion of a later fragment of a
      scatter-gather call reads outside the slots ([clients_called_back_once]); the
      demo server serves one client and echoes nothing ([demo_server_one_client]),
      the demo client sends 240 messages ([demo_client_stops]).

    ** What the theorems assume of a pool

    The pools that the key-value programs configure are FIFO pools, and the first
    buffer such a pool takes back is stored past its ring. What is shown of the
    server and the client beyond that - [server_answers], [request_served],
    [session_behaves_as_map], [server_never_stuck], [server_runs],
    [server_main_ends], [client_main_ends], [benchmark_never_ends],
    [response_ids_collide], [failed_connection_keeps_buffers] - is shown on a
    working pool ([BufferPool.working_pool]: one that keeps the contract of
    [BufferSource]): it holds of the programs with the policy LIFO, which the
    examples use, and not as they are configured. [configured_pool_serves_nothing]
    and [full_sgl_main_overruns] are about the configuration of the code itself.
    The demo programs never give a buffer back, and are proved with the FIFO pool
    they create.

    ** What is not modelled, and why

    - [reactor/numa.h]: it declares functions that are defined nowhere.
    - The formatting of the log, the calls that write to it other than those of
      [Reactor::Initialize], console output other than the demo programs' and the
      clock of the benchmark.
    - Floating point: every operation is rounded to binary32. A compiler that
      contracts a product and a sum into one rounding may differ in the last bit
      of a flow-control threshold.
    - Weak memory. Handlers that re-enter their caller, other than callbacks of the
      endpoint that send requests. *)

From Stdlib Require Export ZArith Lia.
From stdpp Require Export base option list gmap strings.

#[export] Set Default Goal Selector "!".
#[global] Open Scope Z_scope.

Declare Scope rdma_scope.
Delimit Scope rdma_scope with rdma.

(** ** Machine integers

    An unsigned [w]-bit C++ integer is a [Z] in [0, 2^w); arithmetic on it is
    followed by [wrap w]. *)

Definition wrap (w x : Z) : Z := x mod 2 ^ w.

Abbreviation u8 := (wrap 8).
Abbreviation u16 := (wrap 16).
Abbreviation u32 := (wrap 32).
Abbreviation u64 := (wrap 64).

Definition is_u (w x : Z) : Prop := 0 <= x < 2 ^ w.

(** Bitwise complement at width [w] ([~x] on an unsigned operand). *)
Definition notw (w x : Z) : Z := Z.lxor x (Z.ones w).

(** ** C arrays

    An array of fixed length is a list; reading or writing outside it is
    undefined behaviour, [None]. *)

Definition aget {A} (l : list A) (i : Z) : option A :=
  if decide (0 <= i) then l !! Z.to_nat i else None.

Definition aset {A} (l : list A) (i : Z) (x : A) : option (list A) :=
  if decide (0 <= i < Z.of_nat (length l)) then Some (<[Z.to_nat i := x]> l) else None.

(** [std::vector]: [back] and [pop_back] work on the end of the list. *)
Definition vec_pop_back {A} (l : list A) : option (list A * A) :=
  match rev l with
  | [] => None
  | x :: r => Some (rev r, x)
  end.

(** [memcpy(dst + off, src, n)]: undefined ([None]) when the source holds fewer
    than [n] bytes or the destination range leaves the object. *)
Definition memcpy {A} (dst : list A) (off : Z) (src : list A) (n : Z) : option (list A) :=
  if decide (0 <= off /\ 0 <= n <= Z.of_nat (length src) /\ off + n <= Z.of_nat (length dst))
  then Some (take (Z.to_nat off) dst ++ take (Z.to_nat n) src
             ++ drop (Z.to_nat (off + n)) dst)
  else None.

(** [n] bytes read from [src + off]. *)
Definition mread {A} (src : list A) (off n : Z) : option (list A) :=
  if decide (0 <= off /\ 0 <= n /\ off + n <= Z.of_nat (length src))
  then Some (take (Z.to_nat n) (drop (Z.to_nat off) src))
  else None.

(** Little-endian bytes of a word, and back: the in-memory layout of an integer
    field on the x86-64 and aarch64 hosts the framework runs on. *)
Fixpoint le_bytes (n : nat) (x : Z) : list Z :=
  match n with
  | O => []
  | S n => x mod 256 :: le_bytes n (x / 256)
  end.

Fixpoint le_word (l : list Z) : Z :=
  match l with
  | [] => 0
  | b :: l => b + 256 * le_word l
  end.

(** The [n] bytes at offset [off] of a structure, as a word. *)
Definition field (off n : nat) (l : list Z) : Z := le_word (take n (drop off l)).

Definition sumZ (l : list Z) : Z := foldr Z.add 0 l.

(** [x <- e ;; k] on [option] is stdpp's [mbind]; a step that is undefined
    behaviour is the guard of an [option]. *)
Definition ub_unless (b : bool) : option unit := if b then Some tt else None.

(** ** Automation *)

Create HintDb rdma.

(** [lia] after replacing division and remainder by their equations. *)
Ltac zdm := Z.div_mod_to_equations; lia.

(** Arithmetic on machine words: unfold the ranges, compute the powers of two
    and call [lia]. *)
Ltac solve_word := unfold is_u, wrap in *; simpl in *; first [lia | zdm].

(** A computable property of every element of a literal list. *)
Ltac forall_compute :=
  repeat (apply List.Forall_cons; [vm_compute; intuition discriminate|]); apply List.Forall_nil.

(** Case analysis on the first [match] of the goal, keeping the equation. *)
Ltac case_match_eqn := match goal with |- context [match ?x with _ => _ end] => destruct x eqn:? end.

(** Reduce the binds of defined steps, and nothing else. *)
Ltac sbind := cbn [mbind option_bind].

(** Invert [Some]-valued monadic equations. *)
Ltac inv_some :=
  repeat match goal with
    | H : Some _ = Some _ |- _ => injection H as H
    | H : None = Some _ |- _ => discriminate H
    | H : Some _ = None |- _ => discriminate H
    | H : mbind _ _ = Some _ |- _ => apply bind_Some in H as (? & ? & H)
    end; subst; simpl in *.

(** Invert a run of monadic code, step by step. *)
Ltac run_steps := repeat first
  [ progress simplify_eq
  | match goal with
    | H : _ ≫= _ = Some _ |- _ => apply bind_Some in H as (? & ? & H)
    | H : (let '(_, _) := ?x in _) = Some _ |- _ => destruct x
    | H : (if ?b then _ else _) = Some _ |- _ => destruct b eqn:?
    end ].

(** ** Words *)

Lemma wrap_range w x : 0 <= w -> is_u w (wrap w x).
Proof. intros Hw. apply Z.mod_pos_bound. apply Z.pow_pos_nonneg; lia. Qed.

Lemma wrap_id w x : is_u w x -> wrap w x = x.
Proof. intros H. apply Z.mod_small, H. Qed.

Lemma wrap_idem w x : wrap w (wrap w x) = wrap w x.
Proof.
  unfold wrap. destruct (decide (2 ^ w = 0)) as [->|].
  - rewrite !Z.mod_0_r. done.
  - by apply Z.mod_mod.
Qed.

(** Inner wraps are absorbed by an outer one. *)
Lemma wrap_add_l w x y : wrap w (wrap w x + y) = wrap w (x + y).
Proof. apply Zplus_mod_idemp_l. Qed.

(** [x & mask] for a mask of [k] ones. *)
Lemma land_mask k m x : 0 <= k -> m = Z.ones k -> Z.land x m = x mod 2 ^ k.
Proof. intros Hk ->. by apply Z.land_ones. Qed.

Lemma land_shiftl_low k a b : 0 <= k -> is_u k b -> Z.land (Z.shiftl a k) b = 0.
Proof.
  intros Hk Hb. apply Z.bits_inj'. intros n Hn.
  rewrite Z.land_spec, Z.bits_0. destruct (decide (n < k)).
  - by rewrite Z.shiftl_spec_low.
  - rewrite andb_comm. replace b with (b mod 2 ^ k) by (apply Z.mod_small, Hb).
    by rewrite Z.mod_pow2_bits_high by lia.
Qed.

(** [(a << k) | b] with [b] below the shift is an addition. *)
Lemma lor_shiftl_add k a b : 0 <= k -> is_u k b -> Z.lor (Z.shiftl a k) b = a * 2 ^ k + b.
Proof.
  intros Hk Hb. rewrite <- Z.shiftl_mul_pow2 by done.
  pose proof (land_shiftl_low k a b Hk Hb) as H0.
  rewrite Z.add_nocarry_lxor by done. by rewrite Z.lxor_lor.
Qed.

(** ** Arrays *)

Section arrays.
Context {A : Type}.
Implicit Types (l : list A) (i : Z) (x : A).

Lemma aget_Some l i x : aget l i = Some x <-> 0 <= i /\ l !! Z.to_nat i = Some x.
Proof. unfold aget. case_decide; [tauto|]. split; [done|]. intros [? _]. done. Qed.

Lemma aget_of_nat l (i : nat) x : l !! i = Some x -> aget l (Z.of_nat i) = Some x.
Proof. intros. apply aget_Some. rewrite Nat2Z.id. split; [lia|done]. Qed.

Lemma aget_lt l i x : aget l i = Some x -> 0 <= i < Z.of_nat (length l).
Proof. intros [Hi Hl]%aget_Some; apply lookup_lt_Some in Hl. lia. Qed.

Lemma aget_is_Some l i : 0 <= i < Z.of_nat (length l) -> exists x, aget l i = Some x.
Proof.
  intros Hi. destruct (lookup_lt_is_Some_2 l (Z.to_nat i)) as [x Hx]; [lia|].
  exists x. apply aget_Some. split; [lia|done].
Qed.

Lemma aset_Some l i x : 0 <= i < Z.of_nat (length l) -> aset l i x = Some (<[Z.to_nat i := x]> l).
Proof. intros. unfold aset. by rewrite decide_True. Qed.

Lemma aset_None l i x : ~ (0 <= i < Z.of_nat (length l)) -> aset l i x = None.
Proof. intros. unfold aset. by rewrite decide_False. Qed.

Lemma aset_inv l i x l' :
  aset l i x = Some l' -> 0 <= i < Z.of_nat (length l) /\ l' = <[Z.to_nat i := x]> l.
Proof. unfold aset. case_decide; [|done]. intros [= <-]. done. Qed.

Lemma aget_insert l i j x :
  0 <= i < Z.of_nat (length l) ->
  aget (<[Z.to_nat i := x]> l) j = if decide (i = j) then Some x else aget l j.
Proof.
  intros Hi. unfold aget. destruct (decide (0 <= j)) as [Hj|Hj].
  - case_decide as Hij.
    + subst. by rewrite list_lookup_insert_eq by lia.
    + rewrite list_lookup_insert_ne by lia. done.
  - rewrite decide_False by lia. done.
Qed.

(** Membership in an array is being read at some index. *)
Lemma elem_of_aget l x : x ∈ l <-> exists i, aget l i = Some x.
Proof.
  rewrite list_elem_of_lookup. split; intros [i Hi].
  - eauto using aget_of_nat.
  - apply aget_Some in Hi as [_ Hi]. eauto.
Qed.

Lemma vec_pop_back_snoc l x : vec_pop_back (l ++ [x]) = Some (l, x).
Proof. unfold vec_pop_back. rewrite rev_app_distr. simpl. by rewrite rev_involutive. Qed.

Lemma vec_pop_back_Some l l' x : vec_pop_back l = Some (l', x) <-> l = l' ++ [x].
Proof.
  split; [|intros ->; apply vec_pop_back_snoc].
  destruct l as [|y l0 _] using rev_ind; [done|].
  rewrite vec_pop_back_snoc. naive_solver.
Qed.
End arrays.

(** ** Lists *)

Section lists.
Context {A B : Type}.

(** Replacing one element of a list replaces it in the filtered list, up to
    order. *)
Lemma filter_insert_split (P : A -> Prop) `{!forall x, Decision (P x)} (l : list A) i x :
  l !! i = Some x ->
  exists l1 l2, filter P l = l1 ++ filter P [x] ++ l2
    /\ forall y, filter P (<[i := y]> l) = l1 ++ filter P [y] ++ l2.
Proof.
  intros Hi. exists (filter P (take i l)), (filter P (drop (S i) l)). split.
  - rewrite <- (take_drop_middle l i x Hi) at 1. rewrite filter_app. f_equal. apply (filter_app P [x]).
  - intros y. rewrite insert_take_drop by (by eapply lookup_lt_Some).
    rewrite filter_app. f_equal. apply (filter_app P [y]).
Qed.

(** A function that is injective on the positions satisfying [P] lists its
    values without repetition. *)
Lemma NoDup_fmap_filter (f : A -> B) (P : A -> Prop) `{!forall x, Decision (P x)} (l : list A) :
  (forall i j x y, l !! i = Some x -> l !! j = Some y -> P x -> P y -> f x = f y -> i = j) ->
  NoDup (f <$> filter P l).
Proof.
  intros Hf. induction l as [|a l IH]; [constructor|].
  rewrite filter_cons. assert (NoDup (f <$> filter P l)) as IHl.
  { apply IH. intros i j x y Hi Hj Px Py E. specialize (Hf (S i) (S j) x y Hi Hj Px Py E). lia. }
  case_decide as Pa; [|done]. rewrite fmap_cons. constructor; [|done].
  intros (y & E & Hy)%list_elem_of_fmap. apply list_elem_of_filter in Hy as [Py [j Hj]%list_elem_of_lookup].
  specialize (Hf 0%nat (S j) a y eq_refl Hj Pa Py E). lia.
Qed.

Lemma filter_Forall_id (P : A -> Prop) `{!forall x, Decision (P x)} (l : list A) :
  Forall P l -> filter P l = l.
Proof.
  induction 1 as [|x l Hx _ IH]; [done|]. rewrite filter_cons, decide_True by done. by f_equal.
Qed.

Lemma NoDup_fmap_inj_on (f : A -> B) (l : list A) x y :
  NoDup (f <$> l) -> x ∈ l -> y ∈ l -> f x = f y -> x = y.
Proof.
  intros Hn [i Hi]%list_elem_of_lookup [j Hj]%list_elem_of_lookup E.
  assert (i = j) as ->; [|congruence].
  eapply NoDup_lookup; [exact Hn| |]; rewrite list_lookup_fmap.
  - by rewrite Hi.
  - rewrite Hj. simpl. by f_equal.
Qed.

End lists.

(** A boolean property of a range, decided by evaluation. *)
Lemma forall_seqZ (P : Z -> bool) n :
  forallb P (seqZ 0 n) = true -> forall x, 0 <= x < n -> P x = true.
Proof. rewrite List.forallb_forall. intros H x Hx. apply H, list_elem_of_In, elem_of_seqZ. lia. Qed.

Lemma sumZ_cons x l : sumZ (x :: l) = x + sumZ l.
Proof. reflexivity. Qed.

Lemma sumZ_app l1 l2 : sumZ (l1 ++ l2) = sumZ l1 + sumZ l2.
Proof. induction l1 as [|x l1 IH]; simpl; [done|]. rewrite IH. lia. Qed.

(** A sum does not depend on the order of its terms. *)
#[export] Instance sumZ_Proper : Proper (Permutation ==> eq) sumZ.
Proof. intros l1 l2. unfold sumZ. induction 1; simpl; lia. Qed.

(** ** Bytes *)

Section bytes.
Context {A : Type}.
Implicit Types (dst src : list A) (off n : Z).

Lemma memcpy_Some dst off src n dst' :
  memcpy dst off src n = Some dst' ->
  length dst' = length dst /\ 0 <= off /\ 0 <= n <= Z.of_nat (length src)
  /\ off + n <= Z.of_nat (length dst).
Proof.
  unfold memcpy. case_decide; [|done]. intros [= <-].
  rewrite !length_app, !length_take, length_drop. lia.
Qed.

Lemma memcpy_defined dst off src n :
  0 <= off -> 0 <= n <= Z.of_nat (length src) -> off + n <= Z.of_nat (length dst) ->
  is_Some (memcpy dst off src n).
Proof. intros. unfold memcpy. rewrite decide_True by lia. done. Qed.

(** Reading back the bytes just written. *)
Lemma mread_memcpy dst off src n dst' :
  memcpy dst off src n = Some dst' -> mread dst' off n = Some (take (Z.to_nat n) src).
Proof.
  intros H. pose proof (memcpy_Some _ _ _ _ _ H) as (Hl & ? & ? & ?).
  unfold memcpy in H. rewrite decide_True in H by lia. injection H as <-.
  unfold mread. rewrite decide_True by lia. f_equal.
  rewrite drop_app_length' by (rewrite length_take; lia).
  rewrite take_app_length' by (rewrite length_take; lia). done.
Qed.

(** A write leaves every disjoint range alone. *)
Lemma mread_memcpy_disjoint dst off src n dst' off' n' :
  memcpy dst off src n = Some dst' -> off' + n' <= off \/ off + n <= off' ->
  mread dst' off' n' = mread dst off' n'.
Proof.
  intros H Hd. pose proof (memcpy_Some _ _ _ _ _ H) as (Hl & ? & ? & ?).
  unfold mread. rewrite Hl. case_decide as Hr; [|done]. f_equal.
  apply list_eq. intros i. rewrite !lookup_take. case_decide as Hi; [|done].
  rewrite !lookup_drop. unfold memcpy in H. rewrite decide_True in H by lia.
  injection H as <-. destruct Hd.
  - rewrite lookup_app_l by (rewrite length_take; lia). by rewrite lookup_take_lt by lia.
  - rewrite lookup_app_r by (rewrite length_take; lia). rewrite length_take.
    rewrite lookup_app_r by (rewrite length_take; lia). rewrite length_take, lookup_drop.
    f_equal. lia.
Qed.
(** Two adjacent writes are one write of the concatenation. *)
Lemma memcpy_app dst off d1 n1 d2 n2 dst1 :
  memcpy dst off d1 n1 = Some dst1 -> 0 <= n2 <= Z.of_nat (length d2) ->
  off + n1 + n2 <= Z.of_nat (length dst) ->
  memcpy dst1 (off + n1) d2 n2 = memcpy dst off (take (Z.to_nat n1) d1 ++ d2) (n1 + n2).
Proof.
  intros H1 Hn2 Hb. pose proof (memcpy_Some _ _ _ _ _ H1) as (Hl & ? & ? & ?).
  unfold memcpy in *. rewrite decide_True in H1 by lia. injection H1 as <-.
  rewrite !decide_True; [|rewrite length_app, length_take; lia|lia].
  f_equal.
  replace (Z.to_nat (off + n1 + n2)) with (Z.to_nat off + (Z.to_nat n1 + Z.to_nat n2))%nat by lia.
  replace (Z.to_nat (off + n1)) with (Z.to_nat off + Z.to_nat n1)%nat by lia.
  replace (Z.to_nat (off + (n1 + n2))) with (Z.to_nat off + Z.to_nat n1 + Z.to_nat n2)%nat by lia.
  replace (Z.to_nat (n1 + n2)) with (Z.to_nat n1 + Z.to_nat n2)%nat by lia.
  rewrite take_app_add', drop_app_add' by (rewrite length_take; lia).
  rewrite take_app_length', drop_app_add' by (rewrite length_take; lia).
  rewrite take_app_add' by (rewrite length_take; lia).
  by rewrite drop_drop, <- !app_assoc.
Qed.

End bytes.

Lemma le_bytes_length n x : length (le_bytes n x) = n.
Proof. revert x. induction n as [|n IH]; intros x; simpl; [done|]. by rewrite IH. Qed.

Lemma le_word_bytes n x : is_u (8 * Z.of_nat n) x -> le_word (le_bytes n x) = x.
Proof.
  revert x. induction n as [|n IH]; intros x Hx; [unfold is_u in Hx; simpl in *; lia|].
  cbn [le_bytes le_word]. rewrite IH; [zdm|].
  unfold is_u in *. replace (8 * Z.of_nat (S n)) with (8 * Z.of_nat n + 8) in Hx by lia.
  rewrite Z.pow_add_r in Hx by lia. zdm.
Qed.

Lemma le_bytes_u8 n x : Forall (is_u 8) (le_bytes n x).
Proof. revert x. induction n as [|n IH]; intros x; constructor; [|apply IH]. unfold is_u. zdm. Qed.

#[export] Hint Resolve wrap_range : rdma.
#[export] Hint Rewrite le_bytes_length @length_insert @length_app @length_take @length_drop : rdma.
