(* ===== verification/Chain.v ===== *)
(** * Intrusive lists

    Null-terminated chains of nodes through a member [next], as in the task
    queue and in lists of work requests. A store maps the address of a node to
    its [next]; 0 is the null pointer. *)

From S2P Require Import Prelude.

(** The nodes of the list from a pointer on. *)
Fixpoint next_chain (next : gmap Z Z) (h : Z) (l : list Z) : Prop :=
  match l with
  | [] => h = 0
  | i :: l => h = i /\ i <> 0 /\ exists n, next !! i = Some n /\ next_chain next n l
  end.

(** Following the pointers; [None] when a node was never written, or when the
    fuel, the number of nodes, does not suffice because the list is cyclic. *)
Fixpoint next_walk (fuel : nat) (next : gmap Z Z) (h : Z) : option (list Z) :=
  if h =? 0 then Some []
  else match fuel with
       | O => None
       | S fuel => n ← next !! h; l ← next_walk fuel next n; Some (h :: l)
       end.

Section chains.
Implicit Types (nx : gmap Z Z) (h i v : Z) (l : list Z).

Lemma next_chain_frame nx h l i v : i ∉ l -> next_chain nx h l -> next_chain (<[i := v]> nx) h l.
Proof.
  revert h. induction l as [|j l IH]; intros h Hi; simpl; [done|].
  apply not_elem_of_cons in Hi as [Hij Hi]. intros (-> & Hj & n & Hn & Hc).
  split; [done|]. split; [done|]. exists n. rewrite lookup_insert_ne by done. auto.
Qed.

Lemma next_chain_head nx h l : next_chain nx h l -> h = 0 <-> l = [].
Proof. destruct l as [|i l]; simpl; [done|]. intros (-> & Hi & _). done. Qed.

Lemma next_chain_nodes nx h l : next_chain nx h l -> Forall (fun i => i <> 0) l.
Proof.
  revert h. induction l as [|i l IH]; intros h; [constructor|]. intros (-> & Hi & n & _ & Hc).
  constructor; [done|by eapply IH].
Qed.

Lemma next_chain_length nx h l : next_chain nx h l -> NoDup l -> (length l <= size nx)%nat.
Proof.
  intros Hc Hn. rewrite <- size_dom, <- (size_list_to_set (C := gset Z)) by done.
  apply subseteq_size. intros i Hi%elem_of_list_to_set. apply elem_of_dom.
  revert h Hc. clear Hn. induction l as [|j l IH]; intros h Hc; [by apply elem_of_nil in Hi|].
  destruct Hc as (-> & _ & n & En & Hc). apply elem_of_cons in Hi as [->|Hi]; [by exists n|by eapply IH].
Qed.

Lemma next_walk_chain fuel nx h l :
  next_chain nx h l -> (length l <= fuel)%nat -> next_walk fuel nx h = Some l.
Proof.
  revert fuel h. induction l as [|i l IH]; intros fuel h Hc Hf; simpl in Hc.
  - subst h. by destruct fuel.
  - destruct Hc as (-> & Hi & n & En & Hc). destruct fuel as [|fuel]; [simpl in Hf; lia|].
    cbn [next_walk]. destruct (Z.eqb_spec i 0); [done|]. rewrite En. sbind.
    rewrite (IH fuel n Hc) by (simpl in Hf; lia). by sbind.
Qed.

(** Appending a node: its [next] is null and the last node points to it. *)
Lemma next_chain_snoc nx h l t i :
  next_chain nx h (l ++ [t]) -> NoDup (l ++ [t]) -> i ∉ l ++ [t] -> i <> 0 ->
  next_chain (<[i := 0]> (<[t := i]> nx)) h (l ++ [t; i]).
Proof.
  revert h. induction l as [|j l IH]; intros h Hc Hn Hi Hi0.
  - destruct Hc as (-> & Ht & _). apply not_elem_of_cons in Hi as [Hit _]. cbn [app next_chain].
    split_and!; [done|done|]. exists i. rewrite lookup_insert_ne, lookup_insert_eq by done.
    split; [done|]. split_and!; [done|done|]. exists 0. by rewrite lookup_insert_eq.
  - destruct Hc as (-> & Hj & n & En & Hc). simpl in Hn, Hi. apply NoDup_cons in Hn as [Hjn Hn].
    apply not_elem_of_cons in Hi as [Hij Hi]. cbn [app next_chain]. split_and!; [done|done|].
    exists n. rewrite !lookup_insert_ne by (set_solver). split; [done|by apply IH].
Qed.

End chains.
