(* ===== verification/Types.v ===== *)
(** * Common types: error codes, [Status], [Result], enumerations and constants

    Models [include/rdma/common/status.h] and [include/rdma/common/types.h]. *)

From stdpp Require Import pretty.
From S2P Require Import Prelude.

(** ** Status ([status.h]) *)

Module Err.

Inductive ErrorCode :=
  | OK | INVALID_ARGUMENT | NOT_FOUND | ALREADY_EXISTS | PERMISSION_DENIED
  | RESOURCE_EXHAUSTED | FAILED_PRECONDITION | ABORTED | OUT_OF_RANGE | UNIMPLEMENTED
  | INTERNAL | UNAVAILABLE | DATA_LOSS | IO_ERROR | TIMEOUT | CANCELLED
  | CONNECTION_REFUSED | CONNECTION_RESET.

#[export] Instance ErrorCode_eq_dec : EqDecision ErrorCode.
Proof. solve_decision. Defined.

(** The underlying [uint8_t] of an error code. *)
Definition ErrorCode_u8 (c : ErrorCode) : Z :=
  match c with
  | OK => 0 | INVALID_ARGUMENT => 1 | NOT_FOUND => 2 | ALREADY_EXISTS => 3
  | PERMISSION_DENIED => 4 | RESOURCE_EXHAUSTED => 5 | FAILED_PRECONDITION => 6
  | ABORTED => 7 | OUT_OF_RANGE => 8 | UNIMPLEMENTED => 9 | INTERNAL => 10
  | UNAVAILABLE => 11 | DATA_LOSS => 12 | IO_ERROR => 13 | TIMEOUT => 14
  | CANCELLED => 15 | CONNECTION_REFUSED => 16 | CONNECTION_RESET => 17
  end.

(** [message_] is a [unique_ptr<std::string>]: [None] when null. *)
Record Status := mkStatus { code_ : ErrorCode; errno_value_ : Z; message_ : option string }.

Definition Status_default : Status := mkStatus OK 0 None.
Definition Status_OK : Status := Status_default.

(** [Status(ErrorCode, const char* message = nullptr, int errno_val = 0)]. *)
Definition Status_make (code : ErrorCode) (message : option string) (errno_val : Z) : Status :=
  mkStatus code errno_val message.

Definition InvalidArgument (msg : string) : Status := Status_make INVALID_ARGUMENT (Some msg) 0.
Definition NotFound (msg : string) : Status := Status_make NOT_FOUND (Some msg) 0.
Definition ResourceExhausted (msg : string) : Status := Status_make RESOURCE_EXHAUSTED (Some msg) 0.
Definition IOError (msg : string) (errno_val : Z) : Status := Status_make IO_ERROR (Some msg) errno_val.
Definition Timeout (msg : string) : Status := Status_make TIMEOUT (Some msg) 0.
Definition Internal (msg : string) : Status := Status_make INTERNAL (Some msg) 0.
Definition Unavailable (msg : string) : Status := Status_make UNAVAILABLE (Some msg) 0.
Definition ConnectionRefused (msg : string) : Status := Status_make CONNECTION_REFUSED (Some msg) 0.
Definition ConnectionReset (msg : string) : Status := Status_make CONNECTION_RESET (Some msg) 0.
Definition Cancelled (msg : string) : Status := Status_make CANCELLED (Some msg) 0.

(** The copy constructor clones the message string. *)
Definition Status_copy (other : Status) : Status :=
  let s := mkStatus (code_ other) (errno_value_ other) None in
  match message_ other with
  | Some m => mkStatus (code_ s) (errno_value_ s) (Some m)
  | None => s
  end.

(** Copy assignment: [self] says whether both operands are the same object. *)
Definition Status_assign (this : Status) (self : bool) (other : Status) : Status :=
  if self then this
  else match message_ other with
       | Some m => mkStatus (code_ other) (errno_value_ other) (Some m)
       | None => mkStatus (code_ other) (errno_value_ other) None
       end.

Definition status_ok (s : Status) : bool := bool_decide (code_ s = OK).
Definition code (s : Status) : ErrorCode := code_ s.
Definition errno_value (s : Status) : Z := errno_value_ s.
Definition message (s : Status) : string := match message_ s with Some m => m | None => "" end.

Definition CodeToString (c : ErrorCode) : string :=
  match c with
  | OK => "OK"
  | INVALID_ARGUMENT => "Invalid argument"
  | NOT_FOUND => "Not found"
  | ALREADY_EXISTS => "Already exists"
  | PERMISSION_DENIED => "Permission denied"
  | RESOURCE_EXHAUSTED => "Resource exhausted"
  | FAILED_PRECONDITION => "Failed precondition"
  | ABORTED => "Aborted"
  | OUT_OF_RANGE => "Out of range"
  | UNIMPLEMENTED => "Unimplemented"
  | INTERNAL => "Internal error"
  | UNAVAILABLE => "Unavailable"
  | DATA_LOSS => "Data loss"
  | IO_ERROR => "I/O error"
  | TIMEOUT => "Timeout"
  | CANCELLED => "Cancelled"
  | CONNECTION_REFUSED => "Connection refused"
  | CONNECTION_RESET => "Connection reset"
  end.

(** [strerror] is the C library's; it is a parameter. *)
Definition ToString (strerror : Z -> string) (s : Status) : string :=
  if status_ok s then "OK"
  else
    let result := CodeToString (code_ s) in
    let result := match message_ s with
                  | Some m => result +:+ (": " +:+ m)
                  | None => result
                  end in
    if decide (errno_value_ s <> 0) then
      result +:+ (" (errno=" +:+ pretty (errno_value_ s) +:+ ": ")
        +:+ strerror (errno_value_ s) +:+ ")"
    else result.

End Err.

Export Err (Status, ErrorCode, status_ok, ErrorCode_eq_dec).

(** [Result<T>] is built from a value or from a status. *)
Inductive Result (T : Type) :=
  | RVal (value : T)
  | RErr (status : Status).
Arguments RVal {T} value.
Arguments RErr {T} status.

Definition Result_ok {T} (r : Result T) : bool :=
  match r with
  | RVal _ => true
  | RErr s => status_ok s
  end.

Definition Result_status {T} (r : Result T) : Status :=
  match r with
  | RVal _ => Err.Status_OK
  | RErr s => s
  end.

(** ** Enumerations and plain structures ([types.h]) *)

Inductive RpcOpcode :=
  | REQUEST_SEND | REQUEST_WRITE | REQUEST_READ | RESPONSE_SEND | RECV
  | CREDIT_UPDATE | KEEPALIVE.

Definition RpcOpcode_u8 (o : RpcOpcode) : Z :=
  match o with
  | REQUEST_SEND => 0 | REQUEST_WRITE => 1 | REQUEST_READ => 2 | RESPONSE_SEND => 3
  | RECV => 4 | CREDIT_UPDATE => 5 | KEEPALIVE => 6
  end.

#[export] Instance RpcOpcode_eq_dec : EqDecision RpcOpcode.
Proof. solve_decision. Defined.

Inductive ConnectionState := DISCONNECTED | CONNECTING | CONNECTED | ERROR | CLOSING.

#[export] Instance ConnectionState_eq_dec : EqDecision ConnectionState.
Proof. solve_decision. Defined.

Record RemoteMemoryInfo := { rmi_addr : Z; rmi_rkey : Z; rmi_length : Z }.

Record QpConnParams := {
  lid : Z;            (* uint16_t *)
  qp_num : Z;         (* uint32_t *)
  psn : Z;            (* uint32_t *)
  gid : list Z;       (* uint8_t[16] *)
  port_num : Z;       (* uint16_t *)
  gid_index : Z;      (* uint8_t *)
  mtu : Z;            (* uint32_t *)
}.

Inductive BufferAllocationPolicy := LIFO | FIFO | SLAB.

#[export] Instance BufferAllocationPolicy_eq_dec : EqDecision BufferAllocationPolicy.
Proof. solve_decision. Defined.

Inductive BatchMode := LATENCY | THROUGHPUT | ADAPTIVE.

#[export] Instance BatchMode_eq_dec : EqDecision BatchMode.
Proof. solve_decision. Defined.

Definition kCacheLineSize : Z := 64.
Definition kPageSize : Z := 4096.

(** ** Lemmas *)

Lemma ErrorCode_u8_inj c1 c2 : Err.ErrorCode_u8 c1 = Err.ErrorCode_u8 c2 -> c1 = c2.
Proof. by destruct c1, c2. Qed.

Lemma RpcOpcode_u8_range o : is_u 8 (RpcOpcode_u8 o).
Proof. destruct o; solve_word. Qed.

Lemma Status_copy_eq s : Err.Status_copy s = s.
Proof. by destruct s as [? ? []]. Qed.

Lemma Status_assign_eq this other self :
  (self = true -> this = other) -> Err.Status_assign this self other = other.
Proof. destruct self, other as [? ? []]; naive_solver. Qed.

(** The texts of the failing codes do not start like "OK". *)
Lemma CodeToString_app_neq_OK c s : c <> Err.OK -> String.append (Err.CodeToString c) s <> "OK".
Proof. by destruct c. Qed.

Lemma String_app_assoc s1 s2 s3 : String.append (String.append s1 s2) s3 = String.append s1 (String.append s2 s3).
Proof. induction s1 as [|a s1 IH]; [done|]. exact (f_equal (String a) IH). Qed.

Lemma status_ok_OK : status_ok Err.Status_OK = true.
Proof. done. Qed.

#[export] Hint Resolve RpcOpcode_u8_range : rdma.

(** ** Properties *)

(** [Status::ToString] prints "OK" for exactly the successful statuses:
    every other status, whatever its message and errno, prints its code's text
    first, and no failing code has a text beginning with "OK". *)
Theorem ToString_ok_iff strerror s : Err.ToString strerror s = "OK" <-> status_ok s = true.
Proof.
  unfold Err.ToString. destruct (status_ok s) eqn:E; [done|]. split; [|done].
  unfold status_ok, Err.status_ok in E. apply bool_decide_eq_false in E.
  destruct s as [c e m]; simpl in *. intros H. exfalso.
  destruct (decide _), m; rewrite ?String_app_assoc in H;
    try (by eapply CodeToString_app_neq_OK). by destruct c.
Qed.
