(* ===== verification/Logging.v ===== *)
(** * The log

    Models [include/rdma/common/logging.h]: the level, the four functions and the
    macros, with and without [RDMA_ENABLE_LOGGING]. What a call writes to standard
    error is kept unformatted, as the level, the place and the arguments. *)

From S2P Require Import Prelude.

Module Logger.

Inductive LogLevel := kDebug | kInfo | kWarn | kError.

Definition value (l : LogLevel) : Z := match l with kDebug => 0 | kInfo => 1 | kWarn => 2 | kError => 3 end.

(** The arguments that a format stands for. *)
Inductive Arg := AInt (n : Z) | AString (s : string).

Record Line := { level : string; file : string; line : Z; fmt : string; args : list Arg }.

(** [level_], and what has been written. *)
Record Logger := { level_ : LogLevel; written : list Line }.

Definition Logger_initial : Logger := {| level_ := kInfo; written := [] |}.

Definition SetLevel (l : Logger) (level : LogLevel) : Logger := {| level_ := level; written := written l |}.
Definition GetLevel (l : Logger) : LogLevel := level_ l.

Definition Log (l : Logger) (level file : string) (line : Z) (fmt : string) (args : list Arg) : Logger :=
  {| level_ := level_ l;
     written := written l ++ [{| level := level; file := file; line := line; fmt := fmt; args := args |}] |}.

Section logging.

(** [RDMA_ENABLE_LOGGING] is defined. *)
Variable enabled : bool.

Definition Debug (l : Logger) (file : string) (line : Z) (fmt : string) (args : list Arg) : Logger :=
  if enabled then if value (level_ l) <=? value kDebug then Log l "DEBUG" file line fmt args else l else l.

Definition Info (l : Logger) (file : string) (line : Z) (fmt : string) (args : list Arg) : Logger :=
  if enabled then if value (level_ l) <=? value kInfo then Log l "INFO" file line fmt args else l else l.

Definition Warn (l : Logger) (file : string) (line : Z) (fmt : string) (args : list Arg) : Logger :=
  if enabled then if value (level_ l) <=? value kWarn then Log l "WARN" file line fmt args else l else l.

(** Error messages are always written. *)
Definition Error (l : Logger) (file : string) (line : Z) (fmt : string) (args : list Arg) : Logger :=
  Log l "ERROR" file line fmt args.

(** The macros. *)
Definition RDMA_LOG_DEBUG (l : Logger) (file : string) (line : Z) (fmt : string) (args : list Arg) : Logger :=
  if enabled then Debug l file line fmt args else l.

Definition RDMA_LOG_INFO (l : Logger) (file : string) (line : Z) (fmt : string) (args : list Arg) : Logger :=
  if enabled then Info l file line fmt args else l.

Definition RDMA_LOG_WARN (l : Logger) (file : string) (line : Z) (fmt : string) (args : list Arg) : Logger :=
  if enabled then Warn l file line fmt args else l.

Definition RDMA_LOG_ERROR (l : Logger) (file : string) (line : Z) (fmt : string) (args : list Arg) : Logger :=
  Error l file line fmt args.

End logging.
End Logger.

(** ** Specification *)

Section specification.
Import Logger.

Inductive LogOp :=
  | OSetLevel (level : LogLevel)
  | OLog (severity : LogLevel) (file : string) (line : Z) (fmt : string) (args : list Arg).

Definition log_step (enabled : bool) (l : Logger) (o : LogOp) : Logger :=
  match o with
  | OSetLevel level => SetLevel l level
  | OLog kDebug file line fmt args => RDMA_LOG_DEBUG enabled l file line fmt args
  | OLog kInfo file line fmt args => RDMA_LOG_INFO enabled l file line fmt args
  | OLog kWarn file line fmt args => RDMA_LOG_WARN enabled l file line fmt args
  | OLog kError file line fmt args => RDMA_LOG_ERROR l file line fmt args
  end.

Definition severity_name (s : LogLevel) : string :=
  match s with kDebug => "DEBUG" | kInfo => "INFO" | kWarn => "WARN" | kError => "ERROR" end.

#[export] Instance LogLevel_eq_dec : EqDecision LogLevel.
Proof. solve_decision. Defined.

(** What a sequence of calls should write, from the level at its start. *)
Fixpoint log_spec (enabled : bool) (threshold : LogLevel) (os : list LogOp) : list Line :=
  match os with
  | [] => []
  | OSetLevel level :: os => log_spec enabled level os
  | OLog s file line fmt args :: os =>
      (if bool_decide (s = kError) || enabled && (value threshold <=? value s)
       then [{| level := severity_name s; file := file; line := line; fmt := fmt; args := args |}] else [])
      ++ log_spec enabled threshold os
  end.

End specification.

(** ** Lemmas *)

Section lemmas.
Import Logger.

Lemma log_step_spec enabled l o :
  level_ (log_step enabled l o) = match o with OSetLevel level => level | OLog _ _ _ _ _ => level_ l end
  /\ written (log_step enabled l o) = written l ++ log_spec enabled (level_ l) [o].
Proof.
  destruct o as [level|[] file line fmt args]; cbn [log_step log_spec]; [by rewrite app_nil_r|..];
    unfold RDMA_LOG_DEBUG, RDMA_LOG_INFO, RDMA_LOG_WARN, RDMA_LOG_ERROR, Debug, Info, Warn, Error;
    destruct enabled; cbn [bool_decide orb andb]; try (destruct (_ <=? _)); by rewrite ?app_nil_r.
Qed.

(** The log holds the errors, and the other messages of a build with logging that
    reach the level set when they were sent, in order. *)
Lemma log_filters enabled os l :
  written (foldl (log_step enabled) l os) = written l ++ log_spec enabled (level_ l) os.
Proof.
  revert l. induction os as [|o os IH]; intros l; cbn [foldl]; [by rewrite app_nil_r|].
  destruct (log_step_spec enabled l o) as [El Ew]. rewrite IH, El, Ew.
  destruct o as [level|s file line fmt args]; cbn [log_spec]; [by rewrite app_nil_r|].
  by rewrite app_nil_r, <- app_assoc.
Qed.

End lemmas.
