(* ===== verification/Resources.v ===== *)
(** * Devices, protection domains and completion queues

    Models [include/rdma/core/device.h], [protection_domain.h],
    [completion_queue.h] and their sources in [src/core]: the classes that own
    objects of the verbs library. Their destructors and moves are explicit
    operations. [None] is undefined behaviour: a handle released that is not, or
    no longer, an object of the library. *)

From S2P Require Import Prelude Types.

(** ** The verbs library, as far as it makes and releases objects *)

Inductive ObjectKind := ODeviceList | OContext | OPd | OChannel | OCq.

#[export] Instance ObjectKind_eq_dec : EqDecision ObjectKind.
Proof. solve_decision. Defined.

#[export] Instance ObjectKind_countable : Countable ObjectKind.
Proof.
  refine (inj_countable'
    (fun k => match k with ODeviceList => 0 | OContext => 1 | OPd => 2 | OChannel => 3 | OCq => 4 end)
    (fun n => match n with 0 => ODeviceList | 1 => OContext | 2 => OPd | 3 => OChannel | _ => OCq end) _).
  by intros [].
Defined.

(** An object: its kind and its handle, a pointer that is not null. *)
Abbreviation Object := (ObjectKind * Z)%type.

(** The objects there are, each with those it was made from. *)
Abbreviation Objects := (gmap Object (list Object)).

Definition in_use (objs : Objects) (x : Object) : Prop := exists y ps, objs !! y = Some ps /\ x ∈ ps.

(** What making an object does: a null handle leaves everything as it was. *)
Definition makes (objs objs' : Objects) (k : ObjectKind) (h : Z) (parents : list Object) : Prop :=
  if decide (h = 0) then objs' = objs
  else objs !! (k, h) = None /\ objs' = <[(k, h) := parents]> objs.

(** The attributes the framework reads; all C [int]s or unsigned words. *)
Record ibv_device_attr := {
  vendor_id : Z;
  vendor_part_id : Z;
  phys_port_cnt : Z;
  max_qp : Z;
  max_cq : Z;
  max_mr : Z;
  max_qp_wr : Z;
  max_sge : Z;
  max_cqe : Z;
}.

(** The calls. A handle of 0 is a null result; [errno] is read after a failure.
    [sys_release os k h] is [ibv_free_device_list], [ibv_close_device],
    [ibv_dealloc_pd], [ibv_destroy_comp_channel] or [ibv_destroy_cq] by the kind
    [k]; it is only known to release an object that no other was made from. *)
Class VerbsObjects (OS : Type) := {
  PortAttr : Type;
  Gid : Type;
  objects : OS -> Objects;
  errno : OS -> Z;
  ibv_get_device_list : OS -> OS * Z * list Z;
  ibv_get_device_name : OS -> Z -> string;
  ibv_get_device_guid : OS -> Z -> Z;
  ibv_open_device : OS -> Z -> OS * Z;
  ibv_query_device : OS -> Z -> OS * option ibv_device_attr;
  ibv_query_port : OS -> Z -> Z -> OS * option PortAttr;
  ibv_query_gid : OS -> Z -> Z -> Z -> OS * option Gid;
  ibv_alloc_pd : OS -> Z -> OS * Z;
  ibv_create_comp_channel : OS -> Z -> OS * Z;
  ibv_create_cq : OS -> Z -> Z -> Z -> Z -> OS * Z;
  ibv_req_notify_cq : OS -> Z -> bool -> OS * Z;
  ibv_ack_cq_events : OS -> Z -> Z -> OS;
  sys_release : OS -> ObjectKind -> Z -> OS;
  (** [std::ifstream] on a file of one number; [None] when it does not open. *)
  read_number : OS -> string -> option Z;
  get_device_list_law os : let '(os', l, devs) := ibv_get_device_list os in
    makes (objects os) (objects os') ODeviceList l [];
  open_device_law os d : let '(os', h) := ibv_open_device os d in makes (objects os) (objects os') OContext h [];
  query_device_law os c : objects (ibv_query_device os c).1 = objects os;
  query_port_law os c p : objects (ibv_query_port os c p).1 = objects os;
  query_gid_law os c p i : objects (ibv_query_gid os c p i).1 = objects os;
  alloc_pd_law os c : let '(os', h) := ibv_alloc_pd os c in makes (objects os) (objects os') OPd h [(OContext, c)];
  create_comp_channel_law os c :
    let '(os', h) := ibv_create_comp_channel os c in makes (objects os) (objects os') OChannel h [(OContext, c)];
  create_cq_law os c depth ch vec :
    let '(os', h) := ibv_create_cq os c depth ch vec in
    makes (objects os) (objects os') OCq h ((OContext, c) :: if decide (ch = 0) then [] else [(OChannel, ch)]);
  req_notify_law os c b : objects (ibv_req_notify_cq os c b).1 = objects os;
  ack_law os c n : objects (ibv_ack_cq_events os c n) = objects os;
  release_law os k h : is_Some (objects os !! (k, h)) -> ~ in_use (objects os) (k, h) ->
    objects (sys_release os k h) = delete (k, h) (objects os);
}.

(** Releasing a handle that is not an object is undefined. *)
Definition release {OS} `{!VerbsObjects OS} (os : OS) (k : ObjectKind) (h : Z) : option OS :=
  if decide (is_Some (objects os !! (k, h))) then Some (sys_release os k h) else None.

Module RdmaDevice.

Record RdmaDevice := {
  context_ : Z;
  device_attr_ : ibv_device_attr;
  name_ : string;
  numa_node_ : Z;
}.

(** [GetAvailableDevices] leaves the fields of a device it cannot open or query
    unwritten: [None]. *)
Record DeviceInfo := {
  name : string;
  guid : Z;
  info : option (Z * Z * Z);  (* vendor_id, vendor_part_id, num_ports *)
  numa_node : Z;
}.

Definition GetContext (d : RdmaDevice) : Z := context_ d.
Definition GetName (d : RdmaDevice) : string := name_ d.
Definition GetNumaNode (d : RdmaDevice) : Z := numa_node_ d.
Definition GetMaxQp (d : RdmaDevice) : Z := u32 (max_qp (device_attr_ d)).
Definition GetMaxCq (d : RdmaDevice) : Z := u32 (max_cq (device_attr_ d)).
Definition GetMaxMr (d : RdmaDevice) : Z := u32 (max_mr (device_attr_ d)).
Definition GetMaxQpWr (d : RdmaDevice) : Z := u32 (max_qp_wr (device_attr_ d)).
Definition GetMaxSge (d : RdmaDevice) : Z := u32 (max_sge (device_attr_ d)).
Definition GetMaxCqe (d : RdmaDevice) : Z := u32 (max_cqe (device_attr_ d)).

(** The move constructor: the new object and what is left of the other one, whose
    string is [rest], unspecified by the language. *)
Definition move (rest : string) (other : RdmaDevice) : RdmaDevice * RdmaDevice :=
  (other, {| context_ := 0; device_attr_ := device_attr_ other; name_ := rest; numa_node_ := numa_node_ other |}).

Section calls.
Context {OS : Type} `{!VerbsObjects OS}.
Implicit Types (os : OS).

Definition destroy os (d : RdmaDevice) : option OS :=
  if context_ d =? 0 then Some os else release os OContext (context_ d).

(** Move assignment; [self] says whether both operands are the same object. *)
Definition move_assign (rest : string) os (this : RdmaDevice) (self : bool) (other : RdmaDevice)
    : option (OS * RdmaDevice * RdmaDevice) :=
  if self then Some (os, this, other)
  else
    os ← (if context_ this =? 0 then Some os else release os OContext (context_ this));
    let '(this, other) := move rest other in
    Some (os, this, other).

Definition GetDeviceNumaNode os (device_name : string) : Z :=
  let path := ("/sys/class/infiniband/" +:+ device_name +:+ "/device/numa_node")%string in
  match read_number os path with Some numa_node => numa_node | None => -1 end.

Definition ValidateNicNuma os (nic_name : string) (expected_numa : Z) : bool :=
  GetDeviceNumaNode os nic_name =? expected_numa.

(** The end that [Open] and [OpenByNuma] share: open the device found, query it,
    and release the list; [numa] is the node to record. A device whose query
    failed is destroyed on return. *)
Definition open_target os (list target : Z) (numa : OS -> Z) : option (OS * Result RdmaDevice) :=
  let '(os, context) := ibv_open_device os target in
  if context =? 0 then
    os ← release os ODeviceList list;
    Some (os, RErr (Err.IOError "Failed to open RDMA device" (errno os)))
  else
    let name := ibv_get_device_name os target in
    let node := numa os in
    let '(os, attr) := ibv_query_device os context in
    match attr with
    | None =>
        os ← release os ODeviceList list;
        let status := Err.IOError "Failed to query device attributes" (errno os) in
        os ← release os OContext context;
        Some (os, RErr status)
    | Some attr =>
        os ← release os ODeviceList list;
        Some (os, RVal {| context_ := context; device_attr_ := attr; name_ := name; numa_node_ := node |})
    end.

(** [device_name] is [None] for a null pointer. *)
Definition Open os (device_name : option string) : option (OS * Result RdmaDevice) :=
  let '(os, device_list, devices) := ibv_get_device_list os in
  if device_list =? 0 then Some (os, RErr (Err.NotFound "No RDMA devices found"))
  else
    match devices with
    | [] => os ← release os ODeviceList device_list; Some (os, RErr (Err.NotFound "No RDMA devices found"))
    | first :: _ =>
        let target_device :=
          match device_name with
          | Some n => find (fun d => bool_decide (ibv_get_device_name os d = n)) devices
          | None => Some first
          end in
        match target_device with
        | None => os ← release os ODeviceList device_list; Some (os, RErr (Err.NotFound "RDMA device not found"))
        | Some target =>
            open_target os device_list target (fun os => GetDeviceNumaNode os (ibv_get_device_name os target))
        end
    end.

Definition OpenByNuma os (node : Z) : option (OS * Result RdmaDevice) :=
  let '(os, device_list, devices) := ibv_get_device_list os in
  if device_list =? 0 then Some (os, RErr (Err.NotFound "No RDMA devices found"))
  else
    match devices with
    | [] => os ← release os ODeviceList device_list; Some (os, RErr (Err.NotFound "No RDMA devices found"))
    | _ =>
        match find (fun d => GetDeviceNumaNode os (ibv_get_device_name os d) =? node) devices with
        | None =>
            os ← release os ODeviceList device_list;
            Some (os, RErr (Err.NotFound "No RDMA device found on specified NUMA node"))
        | Some target => open_target os device_list target (fun _ => node)
        end
    end.

(** One entry: the device is opened for its attributes and closed again. *)
Definition available_device os (d : Z) : option (OS * DeviceInfo) :=
  let nm := ibv_get_device_name os d in
  let entry attr :=
    {| name := nm; guid := ibv_get_device_guid os d; numa_node := GetDeviceNumaNode os nm; info := attr |} in
  let '(os, ctx) := ibv_open_device os d in
  if ctx =? 0 then Some (os, entry None)
  else
    let '(os, attr) := ibv_query_device os ctx in
    os ← release os OContext ctx;
    Some (os, entry ((fun a => (vendor_id a, vendor_part_id a, phys_port_cnt a)) <$> attr)).

Fixpoint available_devices os (devices : list Z) : option (OS * list DeviceInfo) :=
  match devices with
  | [] => Some (os, [])
  | d :: devices =>
      '(os, i) ← available_device os d;
      '(os, l) ← available_devices os devices;
      Some (os, i :: l)
  end.

Definition GetAvailableDevices os : option (OS * list DeviceInfo) :=
  let '(os, device_list, devices) := ibv_get_device_list os in
  if device_list =? 0 then Some (os, [])
  else
    '(os, l) ← available_devices os devices;
    os ← release os ODeviceList device_list;
    Some (os, l).

Definition QueryPort os (d : RdmaDevice) (port_num : Z) : OS * Result PortAttr :=
  let '(os, attr) := ibv_query_port os (context_ d) port_num in
  (os, match attr with Some a => RVal a | None => RErr (Err.IOError "Failed to query port" (errno os)) end).

Definition QueryGid os (d : RdmaDevice) (port_num gid_index : Z) : OS * Result Gid :=
  let '(os, gid) := ibv_query_gid os (context_ d) port_num gid_index in
  (os, match gid with Some g => RVal g | None => RErr (Err.IOError "Failed to query GID" (errno os)) end).

End calls.

End RdmaDevice.

(** A [RdmaDevice*] is the device it points to, [None] the null pointer. *)
Abbreviation RdmaDevice := RdmaDevice.RdmaDevice.

Module ProtectionDomain.

Record ProtectionDomain := { pd_ : Z; device_ : option RdmaDevice }.

Definition GetRawPD (p : ProtectionDomain) : Z := pd_ p.
Definition GetDevice (p : ProtectionDomain) : option RdmaDevice := device_ p.

Definition move (other : ProtectionDomain) : ProtectionDomain * ProtectionDomain :=
  (other, {| pd_ := 0; device_ := None |}).

Section calls.
Context {OS : Type} `{!VerbsObjects OS}.
Implicit Types (os : OS).

Definition destroy os (p : ProtectionDomain) : option OS :=
  if pd_ p =? 0 then Some os else release os OPd (pd_ p).

Definition move_assign os (this : ProtectionDomain) (self : bool) (other : ProtectionDomain)
    : option (OS * ProtectionDomain * ProtectionDomain) :=
  if self then Some (os, this, other)
  else
    os ← (if pd_ this =? 0 then Some os else release os OPd (pd_ this));
    let '(this, other) := move other in
    Some (os, this, other).

Definition Create os (device : option RdmaDevice) : OS * Result ProtectionDomain :=
  match device with
  | None => (os, RErr (Err.InvalidArgument "Invalid device"))
  | Some d =>
      if RdmaDevice.GetContext d =? 0 then (os, RErr (Err.InvalidArgument "Invalid device"))
      else
        let '(os, pd) := ibv_alloc_pd os (RdmaDevice.GetContext d) in
        if pd =? 0 then (os, RErr (Err.IOError "Failed to allocate protection domain" (errno os)))
        else (os, RVal {| pd_ := pd; device_ := device |})
  end.

End calls.

End ProtectionDomain.

Module CompletionQueue.

Record CompletionQueueConfig := { cq_depth : Z; comp_vector : Z; use_channel : bool }.

Definition CompletionQueueConfig_default : CompletionQueueConfig :=
  {| cq_depth := 65536; comp_vector := 0; use_channel := false |}.

Record CompletionQueue := {
  cq_ : Z;
  channel_ : Z;
  device_ : option RdmaDevice;
  depth_ : Z;
  outstanding_ : Z;
}.

Definition GetOutstanding (c : CompletionQueue) : Z := outstanding_ c.
Definition GetRawCQ (c : CompletionQueue) : Z := cq_ c.
Definition GetDepth (c : CompletionQueue) : Z := depth_ c.
Definition GetDevice (c : CompletionQueue) : option RdmaDevice := device_ c.
Definition GetChannel (c : CompletionQueue) : Z := channel_ c.

Definition move (other : CompletionQueue) : CompletionQueue * CompletionQueue :=
  (other, {| cq_ := 0; channel_ := 0; device_ := None; depth_ := depth_ other; outstanding_ := outstanding_ other |}).

Section calls.
Context {OS : Type} `{!VerbsObjects OS}.
Implicit Types (os : OS).

Definition destroy os (c : CompletionQueue) : option OS :=
  os ← (if cq_ c =? 0 then Some os else release os OCq (cq_ c));
  if channel_ c =? 0 then Some os else release os OChannel (channel_ c).

Definition move_assign os (this : CompletionQueue) (self : bool) (other : CompletionQueue)
    : option (OS * CompletionQueue * CompletionQueue) :=
  if self then Some (os, this, other)
  else
    os ← (if cq_ this =? 0 then Some os else release os OCq (cq_ this));
    os ← (if channel_ this =? 0 then Some os else release os OChannel (channel_ this));
    let '(this, other) := move other in
    Some (os, this, other).

Definition Create os (device : option RdmaDevice) (config : CompletionQueueConfig)
    : option (OS * Result CompletionQueue) :=
  match device with
  | None => Some (os, RErr (Err.InvalidArgument "Invalid device"))
  | Some d =>
      let context := RdmaDevice.GetContext d in
      if context =? 0 then Some (os, RErr (Err.InvalidArgument "Invalid device"))
      else
        let '(os, channel) := if use_channel config then ibv_create_comp_channel os context else (os, 0) in
        if use_channel config && (channel =? 0)
        then Some (os, RErr (Err.IOError "Failed to create completion channel" (errno os)))
        else
          let '(os, cq) := ibv_create_cq os context (cq_depth config) channel (comp_vector config) in
          if cq =? 0 then
            os ← (if channel =? 0 then Some os else release os OChannel channel);
            Some (os, RErr (Err.IOError "Failed to create completion queue" (errno os)))
          else
            Some (os, RVal {| cq_ := cq; channel_ := channel; device_ := device; depth_ := cq_depth config;
                              outstanding_ := 0 |})
  end.

Definition RequestNotification os (c : CompletionQueue) (solicited_only : bool) : OS * Status :=
  let '(os, ret) := ibv_req_notify_cq os (cq_ c) solicited_only in
  (os, if negb (ret =? 0) then Err.IOError "Failed to request CQ notification" (errno os) else Err.Status_OK).

Definition AckEvents os (c : CompletionQueue) (nevents : Z) : OS * Status :=
  (ibv_ack_cq_events os (cq_ c) nevents, Err.Status_OK).

End calls.

End CompletionQueue.

(** ** The resources of a program

    The members [device_], [pd_], [send_cq_] and [recv_cq_] of [KVServer] and
    [KVClient], null until set. *)

Module Resources.
Import ProtectionDomain CompletionQueue.

Record Resources := {
  device : option RdmaDevice;
  pd : option ProtectionDomain;
  send_cq : option CompletionQueue;
  recv_cq : option CompletionQueue;
}.

Section calls.
Context {OS : Type} `{!VerbsObjects OS}.
Implicit Types (os : OS).

(** The destructor of a [unique_ptr] or of a [Result]. *)
Definition reset {A} (destroy : OS -> A -> option OS) os (p : option A) : option OS :=
  match p with Some a => destroy os a | None => Some os end.

Definition result_ptr {A} (r : Result A) : option A := match r with RVal a => Some a | RErr _ => None end.

(** The start of [Initialize] and of [Connect]; [cq_depth] is 8192 or 4096. When
    one queue cannot be made, the other is destroyed with the local results. *)
Definition setup os (cq_depth : Z) : option (OS * Resources * bool) :=
  '(os, d) ← RdmaDevice.Open os None;
  match d with
  | RErr _ => Some (os, {| device := None; pd := None; send_cq := None; recv_cq := None |}, false)
  | RVal d =>
      let '(os, p) := ProtectionDomain.Create os (Some d) in
      match p with
      | RErr _ => Some (os, {| device := Some d; pd := None; send_cq := None; recv_cq := None |}, false)
      | RVal p =>
          let config := {| cq_depth := cq_depth; comp_vector := 0; use_channel := false |} in
          '(os, s) ← CompletionQueue.Create os (Some d) config;
          '(os, r) ← CompletionQueue.Create os (Some d) config;
          match s, r with
          | RVal s, RVal r =>
              Some (os, {| device := Some d; pd := Some p; send_cq := Some s; recv_cq := Some r |}, true)
          | _, _ =>
              os ← reset CompletionQueue.destroy os (result_ptr r);
              os ← reset CompletionQueue.destroy os (result_ptr s);
              Some (os, {| device := Some d; pd := Some p; send_cq := None; recv_cq := None |}, false)
          end
      end
  end.

(** The members are destroyed in the reverse of the order they are declared in. *)
Definition teardown os (r : Resources) : option OS :=
  os ← reset CompletionQueue.destroy os (recv_cq r);
  os ← reset CompletionQueue.destroy os (send_cq r);
  os ← reset ProtectionDomain.destroy os (pd r);
  reset RdmaDevice.destroy os (device r).

End calls.

End Resources.

Abbreviation ProtectionDomain := ProtectionDomain.ProtectionDomain.
Abbreviation CompletionQueue := CompletionQueue.CompletionQueue.

(** ** Specification *)

(** Every object was made from objects that are still there. *)
Definition closed (objs : Objects) : Prop :=
  forall y ps x, objs !! y = Some ps -> x ∈ ps -> is_Some (objs !! x).

Section specification.
Context {OS : Type} `{!VerbsObjects OS}.

(** Releasing in order. *)
Fixpoint release_all (os : OS) (l : list Object) : option OS :=
  match l with
  | [] => Some os
  | (k, h) :: l => os ← release os k h; release_all os l
  end.

Definition handle (k : ObjectKind) (h : Z) : list Object := if h =? 0 then [] else [(k, h)].

(** Objects that can be released in this order: each is used at most by those
    before it. *)
Definition releasable (objs : Objects) (l : list Object) : Prop :=
  NoDup l /\ (forall x, x ∈ l -> is_Some (objs !! x))
  /\ forall l1 x l2 y ps, l = l1 ++ x :: l2 -> objs !! y = Some ps -> x ∈ ps -> y ∈ l1.

(** [objs'] has, besides [objs], exactly the new objects [l], made from one
    another and from objects in [uses]. *)
Definition adds (uses : list Object) (objs objs' : Objects) (l : list Object) : Prop :=
  closed objs' /\ releasable objs' l
  /\ (forall x, x ∈ l -> objs !! x = None) /\ (forall x, x ∉ l -> objs' !! x = objs !! x)
  /\ forall y ps x, y ∈ l -> objs' !! y = Some ps -> x ∈ ps -> x ∈ l \/ x ∈ uses.

(** The objects are those of [base] and those owned, each by one owner. *)
Record owned_once (base : Objects) (os : OS) (own : Z -> list Object) : Prop := {
  oo_closed : closed (objects os);
  oo_releasable : forall i, releasable (objects os) (own i);
  oo_base : forall x ps, base !! x = Some ps -> objects os !! x = Some ps;
  oo_disjoint : forall i x, x ∈ own i -> base !! x = None /\ forall j, x ∈ own j -> i = j;
  oo_cover : forall x, is_Some (objects os !! x) -> is_Some (base !! x) \/ exists i, x ∈ own i;
}.

(** What a class promises that owns objects of the library: its destructor
    releases what it owns, a move hands that over, and its factory makes objects
    that the result owns, or none. *)
Class Owner (T : Type) := {
  Args : Type;
  uses : Args -> list Object;
  owned : T -> list Object;
  own_create : OS -> Args -> option (OS * Result T);
  own_destroy : OS -> T -> option OS;
  own_move : T -> T * T;
  own_move_assign : OS -> T -> bool -> T -> option (OS * T * T);
  own_destroy_law os t : own_destroy os t = release_all os (owned t);
  own_move_law t : owned (own_move t).1 = owned t /\ owned (own_move t).2 = [];
  own_assign_law os this other :
    own_move_assign os this false other
    = (os ← release_all os (owned this); Some (os, (own_move other).1, (own_move other).2));
  own_self_law os this other : own_move_assign os this true other = Some (os, this, other);
  own_create_law os a : closed (objects os) -> (forall x, x ∈ uses a -> is_Some (objects os !! x)) ->
    exists os' r, own_create os a = Some (os', r)
      /\ match r with RVal t => adds (uses a) (objects os) (objects os') (owned t) | RErr _ => objects os' = objects os end;
}.

Section owner.
Context {T : Type} `{!Owner T}.

(** A program that uses the class: its objects by address. A step that names an
    object that is not there, or makes one where there is one, is skipped. *)
Inductive OwnerOp := OpCreate (i : Z) (a : Args) | OpMove (i j : Z) | OpAssign (i j : Z) | OpDestroy (i : Z).

Definition owner_step (st : OS * gmap Z T) (o : OwnerOp) : option (OS * gmap Z T) :=
  let '(os, slots) := st in
  match o with
  | OpCreate i a =>
      if decide (is_Some (slots !! i)) then Some st
      else
        '(os, r) ← own_create os a;
        Some (os, match r with RVal t => <[i := t]> slots | RErr _ => slots end)
  | OpMove i j =>
      match slots !! i, slots !! j with
      | Some t, None => Some (os, <[j := (own_move t).1]> (<[i := (own_move t).2]> slots))
      | _, _ => Some st
      end
  | OpAssign i j =>
      match slots !! i, slots !! j with
      | Some this, Some other =>
          '(os, this, other) ← own_move_assign os this (bool_decide (i = j)) other;
          Some (os, if bool_decide (i = j) then slots else <[i := this]> (<[j := other]> slots))
      | _, _ => Some st
      end
  | OpDestroy i =>
      match slots !! i with
      | Some t => os ← own_destroy os t; Some (os, delete i slots)
      | None => Some st
      end
  end.

Fixpoint owner_run (st : OS * gmap Z T) (l : list OwnerOp) : option (OS * gmap Z T) :=
  match l with
  | [] => Some st
  | o :: l => st ← owner_step st o; owner_run st l
  end.

(** What the object at each address owns. *)
Definition slots_own (slots : gmap Z T) (i : Z) : list Object :=
  match slots !! i with Some t => owned t | None => [] end.

Definition create_ok (base : Objects) (o : OwnerOp) : Prop :=
  match o with OpCreate _ a => forall x, x ∈ uses a -> is_Some (base !! x) | _ => True end.

End owner.

End specification.

Arguments Owner OS {_} T.
Arguments OwnerOp {OS _} T {_}.

(** ** Lemmas *)

Section lemmas.
Context {OS : Type} `{!VerbsObjects OS}.
Implicit Types (os : OS) (objs : Objects).

Lemma release_Some os k h :
  is_Some (objects os !! (k, h)) -> ~ in_use (objects os) (k, h) ->
  exists os', release os k h = Some os' /\ objects os' = delete (k, h) (objects os).
Proof. intros H Hu. unfold release. rewrite decide_True by done. eexists. split; [done|]. by apply release_law. Qed.

Lemma closed_delete objs x : closed objs -> ~ in_use objs x -> closed (delete x objs).
Proof.
  intros Hc Hu y ps z [Hne Hy]%lookup_delete_Some Hz.
  rewrite lookup_delete_ne; [by eapply Hc|]. intros ->. apply Hu. by exists y, ps.
Qed.

Lemma closed_insert objs x ps : closed objs -> (forall y, y ∈ ps -> is_Some (objs !! y)) -> closed (<[x := ps]> objs).
Proof.
  intros Hc Hp y qs z Hy Hz. apply lookup_insert_is_Some'.
  destruct (decide (x = y)) as [->|Hne]; [rewrite lookup_insert_eq in Hy; simplify_eq; right; by apply Hp|].
  rewrite lookup_insert_ne in Hy by done. right. by eapply Hc.
Qed.

(** A new object is used by none. *)
Lemma fresh_unused objs x ps : closed objs -> objs !! x = None -> x ∉ ps -> ~ in_use (<[x := ps]> objs) x.
Proof.
  intros Hc Hx Hp (y & qs & Hy & Hq). destruct (decide (x = y)) as [->|Hne].
  - rewrite lookup_insert_eq in Hy. by simplify_eq.
  - rewrite lookup_insert_ne in Hy by done. destruct (Hc _ _ _ Hy Hq). congruence.
Qed.

Lemma release_all_Some os l :
  closed (objects os) -> releasable (objects os) l ->
  exists os', release_all os l = Some os' /\ closed (objects os')
    /\ forall x, objects os' !! x = if decide (x ∈ l) then None else objects os !! x.
Proof.
  revert os. induction l as [|[k h] l IH]; intros os Hc (Hd & Hl & Ho); cbn [release_all].
  { exists os. split; [done|]. split; [done|]. intros x. rewrite decide_False; [done|apply not_elem_of_nil]. }
  assert (Hu : ~ in_use (objects os) (k, h)).
  { intros (y & ps & Hy & Hp). pose proof (Ho [] _ _ _ _ eq_refl Hy Hp) as H. by apply not_elem_of_nil in H. }
  destruct (release_Some os k h) as (os1 & -> & E); [apply Hl; left|done|]. sbind.
  apply NoDup_cons in Hd as [Hn Hd].
  destruct (IH os1) as (os' & -> & Hc' & H).
  - rewrite E. by apply closed_delete.
  - split; [done|]. split.
    + intros x Hx. rewrite E, lookup_delete_ne; [apply Hl; by right|]. by intros <-.
    + intros l1 x l2 y ps -> Hy Hp. rewrite E in Hy. apply lookup_delete_Some in Hy as [Hne Hy].
      pose proof (Ho ((k, h) :: l1) _ _ _ _ eq_refl Hy Hp) as Hin. apply elem_of_cons in Hin as [->|?]; [by destruct Hne|done].
  - exists os'. split; [done|]. split; [done|]. intros x. rewrite H, E.
    destruct (decide (x = (k, h))) as [->|Hne].
    + rewrite (decide_True (P := _ ∈ (k, h) :: l)) by left. rewrite lookup_delete_eq. by case_decide.
    + rewrite lookup_delete_ne by done. repeat case_decide; set_solver.
Qed.

Lemma handle_ne k h : h <> 0 -> handle k h = [(k, h)].
Proof. intros Hh. unfold handle. by rewrite (proj2 (Z.eqb_neq _ _)). Qed.

Lemma makes_null objs objs' k h ps : makes objs objs' k h ps -> h = 0 -> objs' = objs.
Proof. intros Hm ->. exact Hm. Qed.

Lemma makes_new objs objs' k h ps :
  makes objs objs' k h ps -> h <> 0 -> objs !! (k, h) = None /\ objs' = <[(k, h) := ps]> objs.
Proof. unfold makes. intros Hm Hh. by rewrite decide_False in Hm. Qed.

Lemma adds_nil us objs : closed objs -> adds us objs objs [].
Proof.
  intros Hc. split; [done|].
  split; [|split; [intros x Hx; by apply not_elem_of_nil in Hx|split; [done|intros ??? Hx; by apply not_elem_of_nil in Hx]]].
  split; [constructor|]. split; [intros x Hx; by apply not_elem_of_nil in Hx|]. by intros [|? ?].
Qed.

Lemma adds_cons us objs objs1 objs2 l k h ps :
  adds us objs objs1 l -> makes objs1 objs2 k h ps -> h <> 0 ->
  (forall x, x ∈ ps -> is_Some (objs1 !! x) /\ (x ∈ l \/ x ∈ us)) -> adds us objs objs2 ((k, h) :: l).
Proof.
  intros (Hc & (Hd & Hl & Ho) & Hn & Hs & Hu) Hm Hh Hp. apply makes_new in Hm as [Hf ->]; [|done].
  assert (Hnl : (k, h) ∉ l) by (intros Hin; destruct (Hl _ Hin); congruence).
  assert (Hnp : (k, h) ∉ ps) by (intros Hin; destruct (Hp _ Hin) as [[] _]; congruence).
  split; [apply closed_insert; [done|]; intros y Hy; by apply Hp|]. split; [|split; [|split]].
  - split; [by constructor|]. split.
    + intros x [->|Hx]%elem_of_cons; [by rewrite lookup_insert_eq|]. rewrite lookup_insert_ne; [by apply Hl|].
      by intros <-.
    + intros [|z l1] x l2 y qs E Hy Hq; injection E as <- E.
      * exfalso. eapply fresh_unused; [exact Hc|exact Hf|exact Hnp|]. by exists y, qs.
      * destruct (decide (y = (k, h))) as [->|Hne]; [by left|]. right. rewrite lookup_insert_ne in Hy by done. by eapply Ho.
  - intros x [->|Hx]%elem_of_cons; [|by apply Hn]. rewrite <- (Hs _ Hnl). exact Hf.
  - intros x [Hne Hx]%not_elem_of_cons. rewrite lookup_insert_ne by done. by apply Hs.
  - intros y qs x [->|Hy]%elem_of_cons Hq Hx.
    + rewrite lookup_insert_eq in Hq. simplify_eq. destruct (Hp _ Hx) as [_ [?|?]]; [by left; right|by right].
    + rewrite lookup_insert_ne in Hq by (intros <-; done). destruct (Hu _ _ _ Hy Hq Hx); [by left; right|by right].
Qed.

Lemma adds_makes objs objs' k h ps :
  closed objs -> makes objs objs' k h ps -> h <> 0 -> (forall x, x ∈ ps -> is_Some (objs !! x)) -> adds ps objs objs' [(k, h)].
Proof. intros Hc Hm Hh Hp. eapply adds_cons; [by apply adds_nil|exact Hm|done|]. intros x Hx. split; [by apply Hp|by right]. Qed.

(** Making an object and releasing it leaves things as they were. *)
Lemma makes_release objs os k h ps :
  closed objs -> makes objs (objects os) k h ps -> h <> 0 -> (forall x, x ∈ ps -> is_Some (objs !! x)) ->
  exists os', release os k h = Some os' /\ objects os' = objs.
Proof.
  intros Hc Hm Hh Hp. pose proof (adds_makes _ _ _ _ _ Hc Hm Hh Hp) as (_ & (_ & Hl & Ho) & Hn & _).
  destruct (release_Some os k h) as (os' & E & E').
  - apply Hl. by left.
  - intros (y & qs & Hy & Hq). pose proof (Ho [] _ _ _ _ eq_refl Hy Hq) as H. by apply not_elem_of_nil in H.
  - exists os'. split; [done|]. rewrite E'.
    apply makes_new in Hm as [Hf ->]; [|done]. by apply delete_insert_id.
Qed.

Lemma release_handle os k h : release_all os (handle k h) = if h =? 0 then Some os else release os k h.
Proof. unfold handle. destruct (h =? 0); [done|]. cbn [release_all]. by destruct (release os k h). Qed.

Lemma release_all_app os l1 l2 : release_all os (l1 ++ l2) = (os ← release_all os l1; release_all os l2).
Proof.
  revert os. induction l1 as [|[k h] l1 IH]; intros os; cbn [app release_all]; [done|].
  destruct (release os k h); [|done]. sbind. apply IH.
Qed.

(** [Open] and [OpenByNuma] release their list; the device they return owns the
    context that was opened, and an error leaves nothing behind. *)
Lemma open_target_spec objs os list target numa :
  closed objs -> makes objs (objects os) ODeviceList list [] -> list <> 0 ->
  exists os' r, RdmaDevice.open_target os list target numa = Some (os', r)
    /\ match r with
       | RVal d => adds [] objs (objects os') (handle OContext (RdmaDevice.context_ d)) /\ RdmaDevice.context_ d <> 0
                   /\ RdmaDevice.name_ d = ibv_get_device_name (ibv_open_device os target).1 target
                   /\ RdmaDevice.numa_node_ d = numa (ibv_open_device os target).1
       | RErr _ => objects os' = objs
       end.
Proof.
  intros Hc Hm Hl. unfold RdmaDevice.open_target. pose proof (open_device_law os target) as Ho.
  destruct (ibv_open_device os target) as [os1 ctx]. cbn [fst]. destruct (Z.eqb_spec ctx 0) as [->|Hx].
  { change (objects os1 = objects os) in Ho. rewrite <- Ho in Hm.
    destruct (makes_release _ _ _ _ _ Hc Hm Hl) as (os2 & -> & E); [set_solver|]. sbind. by do 2 eexists. }
  pose proof (query_device_law os1 ctx) as Hq. destruct (ibv_query_device os1 ctx) as [os2 attr]. cbn [fst] in Hq.
  assert (Hrel : exists os3, release os2 ODeviceList list = Some os3
                   /\ makes objs (objects os3) OContext ctx []).
  { pose proof (adds_makes _ _ _ _ _ Hc Hm Hl) as Ha. destruct Ha as (Hc1 & _); [set_solver|].
    apply makes_new in Hm as [Hf Hm], Ho as [Hf' Ho]; [|done..].
    destruct (release_Some os2 ODeviceList list) as (os3 & E & E').
    - rewrite Hq, Ho, Hm, lookup_insert_ne by done. rewrite lookup_insert_eq. done.
    - rewrite Hq, Ho. intros (y & ps & Hy & Hp). destruct (decide (y = (OContext, ctx))) as [->|Hne].
      + rewrite lookup_insert_eq in Hy. simplify_eq. by apply not_elem_of_nil in Hp.
      + rewrite lookup_insert_ne in Hy by done. rewrite Hm in Hy.
        eapply (fresh_unused objs (ODeviceList, list)); [exact Hc|exact Hf|apply not_elem_of_nil|]. by exists y, ps.
    - exists os3. split; [exact E|]. rewrite E', Hq, Ho, Hm, delete_insert_ne by done.
      rewrite delete_insert_id by done. unfold makes. rewrite decide_False by done. split; [|done].
      rewrite Hm, lookup_insert_ne in Hf' by done. done. }
  destruct Hrel as (os3 & -> & Hm3). destruct attr as [a|]; sbind.
  - do 2 eexists. split; [done|]. cbn. split; [|done]. rewrite handle_ne by done.
    eapply adds_makes; [exact Hc|exact Hm3|done|set_solver].
  - destruct (makes_release _ _ _ _ _ Hc Hm3 Hx) as (os4 & -> & E); [set_solver|]. sbind. by do 2 eexists.
Qed.

Lemma list_release objs os l :
  closed objs -> makes objs (objects os) ODeviceList l [] -> l <> 0 ->
  exists os', release os ODeviceList l = Some os' /\ objects os' = objs.
Proof. intros Hc Hm Hl. eapply makes_release; [exact Hc|exact Hm|done|set_solver]. Qed.

Lemma Open_owns os device_name :
  closed (objects os) -> exists os' r, RdmaDevice.Open os device_name = Some (os', r)
    /\ match r with
       | RVal d => adds [] (objects os) (objects os') (handle OContext (RdmaDevice.context_ d)) /\ RdmaDevice.context_ d <> 0
       | RErr _ => objects os' = objects os
       end.
Proof.
  intros Hc. unfold RdmaDevice.Open. pose proof (get_device_list_law os) as Hl.
  destruct (ibv_get_device_list os) as [[os1 l] devs]. destruct (Z.eqb_spec l 0) as [->|Hne].
  { do 2 eexists. split; [done|]. by apply makes_null in Hl. }
  assert (Hrel := list_release _ _ _ Hc Hl Hne). destruct devs as [|d devs].
  { destruct Hrel as (os2 & -> & E). sbind. by do 2 eexists. }
  destruct (match device_name with Some _ => _ | None => _ end) as [t|].
  - destruct (open_target_spec _ os1 l t (fun os => RdmaDevice.GetDeviceNumaNode os (ibv_get_device_name os t)) Hc Hl Hne)
      as (os2 & r & E & H). do 2 eexists. split; [exact E|]. destruct r; [|done]. by destruct H as (H & H' & _).
  - destruct Hrel as (os2 & -> & E). sbind. by do 2 eexists.
Qed.

Lemma pd_Create_owns os d :
  closed (objects os) -> (forall x, x ∈ handle OContext (RdmaDevice.context_ d) -> is_Some (objects os !! x)) ->
  let '(os', r) := ProtectionDomain.Create os (Some d) in
  match r with
  | RVal p => adds (handle OContext (RdmaDevice.context_ d)) (objects os) (objects os') (handle OPd (ProtectionDomain.pd_ p))
  | RErr _ => objects os' = objects os
  end.
Proof.
  intros Hc Hd. unfold ProtectionDomain.Create, RdmaDevice.GetContext.
  destruct (Z.eqb_spec (RdmaDevice.context_ d) 0) as [|Hne]; [done|]. rewrite handle_ne in Hd by done.
  pose proof (alloc_pd_law os (RdmaDevice.context_ d)) as Hm. destruct (ibv_alloc_pd _ _) as [os1 pd].
  destruct (Z.eqb_spec pd 0) as [->|Hp]; [by apply makes_null in Hm|]. cbn [ProtectionDomain.pd_].
  rewrite !handle_ne by done. by apply adds_makes.
Qed.

Lemma cq_Create_owns os d config :
  closed (objects os) -> (forall x, x ∈ handle OContext (RdmaDevice.context_ d) -> is_Some (objects os !! x)) ->
  exists os' r, CompletionQueue.Create os (Some d) config = Some (os', r)
    /\ match r with
       | RVal c => adds (handle OContext (RdmaDevice.context_ d)) (objects os) (objects os')
                     (handle OCq (CompletionQueue.cq_ c) ++ handle OChannel (CompletionQueue.channel_ c))
       | RErr _ => objects os' = objects os
       end.
Proof.
  intros Hc Hps. unfold CompletionQueue.Create, RdmaDevice.GetContext.
  destruct (Z.eqb_spec (RdmaDevice.context_ d) 0) as [|Hne]; [by do 2 eexists|]. rewrite handle_ne in * by done.
  set (ctx := RdmaDevice.context_ d) in *.
  assert (Hch : exists os1 ch, (if CompletionQueue.use_channel config then ibv_create_comp_channel os ctx else (os, 0)) = (os1, ch)
            /\ (CompletionQueue.use_channel config && (ch =? 0) = true -> objects os1 = objects os)
            /\ makes (objects os) (objects os1) OChannel ch [(OContext, ctx)]).
  { pose proof (create_comp_channel_law os ctx) as Hm. destruct (CompletionQueue.use_channel config).
    - destruct (ibv_create_comp_channel os ctx) as [os1 ch]. do 2 eexists. split; [done|]. split; [|done].
      intros Hz%Z.eqb_eq. by apply makes_null in Hm.
    - do 2 eexists. split; [done|]. split; [done|]. unfold makes. by rewrite decide_True. }
  destruct Hch as (os1 & ch & -> & Hn & Hm). destruct (_ && _) eqn:Ez; [do 2 eexists; split; [done|by apply Hn]|].
  assert (Ha : adds [(OContext, ctx)] (objects os) (objects os1) (handle OChannel ch)).
  { destruct (decide (ch = 0)) as [Hz|Hz]; [|rewrite handle_ne by done; by apply adds_makes].
    unfold handle. rewrite (proj2 (Z.eqb_eq _ _) Hz). apply makes_null in Hm; [|done]. rewrite Hm. by apply adds_nil. }
  pose proof (create_cq_law os1 ctx (CompletionQueue.cq_depth config) ch (CompletionQueue.comp_vector config)) as Hq.
  destruct (ibv_create_cq _ _ _ _ _) as [os2 cq]. destruct (Z.eqb_spec cq 0) as [Hcq|Hcq].
  - apply makes_null in Hq; [|done]. rewrite <- Hq in Hm.
    destruct (Z.eqb_spec ch 0) as [Hz|Hz]; sbind.
    + do 2 eexists. split; [done|]. by apply makes_null in Hm.
    + destruct (makes_release _ _ _ _ _ Hc Hm Hz Hps) as (os3 & -> & E). sbind. by do 2 eexists.
  - do 2 eexists. split; [done|]. cbn [CompletionQueue.cq_ CompletionQueue.channel_].
    rewrite (handle_ne OCq) by done. cbn [app]. eapply adds_cons; [exact Ha|exact Hq|done|].
    destruct Ha as (_ & (_ & Hl & _) & Hf & Hs & _). intros x Hx. apply elem_of_cons in Hx as [->|Hx].
    + split; [|right; by left]. rewrite Hs; [by apply Hps; left|]. unfold handle. destruct (ch =? 0); [apply not_elem_of_nil|].
      rewrite list_elem_of_singleton. congruence.
    + case_decide as Hz; [by apply not_elem_of_nil in Hx|]. rewrite handle_ne in Hl |- * by done. split; [by apply Hl|by left].
Qed.

Lemma OpenByNuma_owns os node :
  closed (objects os) -> exists os' r, RdmaDevice.OpenByNuma os node = Some (os', r)
    /\ match r with
       | RVal d => adds [] (objects os) (objects os') (handle OContext (RdmaDevice.context_ d))
                   /\ RdmaDevice.numa_node_ d = node
       | RErr _ => objects os' = objects os
       end.
Proof.
  intros Hc. unfold RdmaDevice.OpenByNuma. pose proof (get_device_list_law os) as Hl.
  destruct (ibv_get_device_list os) as [[os1 l] devs]. destruct (Z.eqb_spec l 0) as [->|Hne].
  { do 2 eexists. split; [done|]. by apply makes_null in Hl. }
  assert (Hrel := list_release _ _ _ Hc Hl Hne). destruct devs as [|d devs].
  { destruct Hrel as (os2 & -> & E). sbind. by do 2 eexists. }
  destruct (find _ _) as [t|].
  - destruct (open_target_spec _ os1 l t (fun _ => node) Hc Hl Hne) as (os2 & r & E & H).
    do 2 eexists. split; [exact E|]. destruct r; [|done]. by destruct H as (H & _ & _ & H').
  - destruct Hrel as (os2 & -> & E). sbind. by do 2 eexists.
Qed.

(** Opening a device for its attributes leaves nothing behind. *)
Lemma available_device_spec os d :
  closed (objects os) -> exists os' i, RdmaDevice.available_device os d = Some (os', i) /\ objects os' = objects os
    /\ RdmaDevice.name i = ibv_get_device_name os d /\ RdmaDevice.guid i = ibv_get_device_guid os d.
Proof.
  intros Hc. unfold RdmaDevice.available_device. pose proof (open_device_law os d) as Ho.
  destruct (ibv_open_device os d) as [os1 ctx]. destruct (Z.eqb_spec ctx 0) as [->|Hx].
  { do 2 eexists. split; [done|]. by apply makes_null in Ho. }
  pose proof (query_device_law os1 ctx) as Hq. destruct (ibv_query_device os1 ctx) as [os2 attr]. cbn [fst] in Hq.
  rewrite <- Hq in Ho. destruct (makes_release _ _ _ _ _ Hc Ho Hx) as (os3 & -> & E); [set_solver|]. sbind.
  do 2 eexists. split; [done|]. by split.
Qed.

Lemma available_devices_spec os devs objs :
  closed objs -> objects os = objs -> exists os' l, RdmaDevice.available_devices os devs = Some (os', l)
    /\ objects os' = objs /\ length l = length devs.
Proof.
  intros Hc. revert os. induction devs as [|d devs IH]; intros os Ho; cbn [RdmaDevice.available_devices]; [by do 2 eexists|].
  destruct (available_device_spec os d) as (os1 & i & -> & E & _); [by rewrite Ho|]. sbind.
  destruct (IH os1) as (os2 & l & -> & E2 & Hl); [congruence|]. sbind. do 2 eexists. split; [done|]. split; [done|].
  cbn. congruence.
Qed.

Lemma release_owned us objs os l :
  closed objs -> adds us objs (objects os) l -> exists os', release_all os l = Some os' /\ objects os' = objs.
Proof.
  intros Hc (Hc' & Hr & Hn & Hs & _). destruct (release_all_Some os l Hc' Hr) as (os' & E & _ & H).
  exists os'. split; [done|]. apply map_eq. intros x. rewrite H. case_decide; [by rewrite Hn|by apply Hs].
Qed.

Lemma device_destroy os d : RdmaDevice.destroy os d = release_all os (handle OContext (RdmaDevice.context_ d)).
Proof. by rewrite release_handle. Qed.

Lemma pd_destroy os p : ProtectionDomain.destroy os p = release_all os (handle OPd (ProtectionDomain.pd_ p)).
Proof. by rewrite release_handle. Qed.

Lemma cq_destroy os c :
  CompletionQueue.destroy os c
  = release_all os (handle OCq (CompletionQueue.cq_ c) ++ handle OChannel (CompletionQueue.channel_ c)).
Proof.
  rewrite release_all_app, release_handle. unfold CompletionQueue.destroy.
  destruct (CompletionQueue.cq_ c =? 0); [sbind; by rewrite release_handle|].
  destruct (release _ _ _); [sbind; by rewrite release_handle|done].
Qed.

End lemmas.

(** ** The three classes as owners *)

Section owners.
Context {OS : Type} `{!VerbsObjects OS}.

Program Definition RdmaDevice_owner (rest : string) : Owner OS RdmaDevice := {|
  Args := option string;
  uses _ := [];
  owned d := handle OContext (RdmaDevice.context_ d);
  own_create := RdmaDevice.Open;
  own_destroy := RdmaDevice.destroy;
  own_move := RdmaDevice.move rest;
  own_move_assign := RdmaDevice.move_assign rest;
|}.
Next Obligation. intros rest os t. apply device_destroy. Qed.
Next Obligation. intros rest t. done. Qed.
Next Obligation. intros rest os this other. unfold RdmaDevice.move_assign. rewrite release_handle. by destruct (_ =? 0). Qed.
Next Obligation. done. Qed.
Next Obligation.
  intros rest os a Hc _. destruct (Open_owns os a Hc) as (os' & r & E & H). exists os', r. split; [exact E|].
  destruct r; [by destruct H|done].
Qed.

Program Definition ProtectionDomain_owner : Owner OS ProtectionDomain := {|
  Args := RdmaDevice;
  uses d := handle OContext (RdmaDevice.context_ d);
  owned p := handle OPd (ProtectionDomain.pd_ p);
  own_create os d := Some (ProtectionDomain.Create os (Some d));
  own_destroy := ProtectionDomain.destroy;
  own_move := ProtectionDomain.move;
  own_move_assign := ProtectionDomain.move_assign;
|}.
Next Obligation. intros os t. apply pd_destroy. Qed.
Next Obligation. done. Qed.
Next Obligation. intros os this other. unfold ProtectionDomain.move_assign. rewrite release_handle. by destruct (_ =? 0). Qed.
Next Obligation. done. Qed.
Next Obligation.
  intros os d Hc Hd. pose proof (pd_Create_owns os d Hc Hd) as H. cbn beta.
  destruct (ProtectionDomain.Create os (Some d)) as [os' r]. exists os', r. by split.
Qed.

Program Definition CompletionQueue_owner : Owner OS CompletionQueue := {|
  Args := RdmaDevice * CompletionQueue.CompletionQueueConfig;
  uses a := handle OContext (RdmaDevice.context_ a.1);
  owned c := handle OCq (CompletionQueue.cq_ c) ++ handle OChannel (CompletionQueue.channel_ c);
  own_create os a := CompletionQueue.Create os (Some a.1) a.2;
  own_destroy := CompletionQueue.destroy;
  own_move := CompletionQueue.move;
  own_move_assign := CompletionQueue.move_assign;
|}.
Next Obligation. intros os t. apply cq_destroy. Qed.
Next Obligation. done. Qed.
Next Obligation.
  intros os this other. cbn beta. rewrite <- cq_destroy. unfold CompletionQueue.move_assign, CompletionQueue.destroy.
  destruct (if _ =? 0 then _ else _); [|done]. sbind. by destruct (_ =? 0).
Qed.
Next Obligation. done. Qed.
Next Obligation. intros os [d config] Hc Hd. by apply cq_Create_owns. Qed.

End owners.

(** ** Each object is owned once *)

Section ownership.
Context {OS : Type} `{!VerbsObjects OS}.
Implicit Types (os : OS) (own : Z -> list Object).

Lemma owned_once_ext base os os' own own' :
  owned_once base os own -> objects os' = objects os -> (forall i, own' i = own i) -> owned_once base os' own'.
Proof.
  intros [H1 H2 H3 H4 H5] E Eo. split; rewrite ?E; [done|intros i; rewrite Eo; apply H2|done| |].
  - intros i x. rewrite Eo. intros Hx. destruct (H4 _ _ Hx) as [Hb Hj]. split; [done|]. intros j. rewrite Eo. apply Hj.
  - intros x Hx. destruct (H5 x Hx) as [?|[i Hi]]; [by left|]. right. exists i. by rewrite Eo.
Qed.

Lemma oo_release base os own i :
  owned_once base os own ->
  exists os', release_all os (own i) = Some os' /\ owned_once base os' (fun k => if decide (k = i) then [] else own k).
Proof.
  intros H. destruct (release_all_Some os (own i) (oo_closed _ _ _ H) (oo_releasable _ _ _ H i)) as (os' & E & Hc & Hl).
  exists os'. split; [done|].
  assert (Hother : forall k x, k <> i -> x ∈ own k -> objects os' !! x = objects os !! x).
  { intros k x Hk Hx. rewrite Hl, decide_False; [done|]. intros Hx'. by destruct (oo_disjoint _ _ _ H _ _ Hx) as [_ Hj];
      apply Hk, Hj. }
  split; [done| | | |].
  - intros k. case_decide as Hk.
    { split; [constructor|]. split; [intros x Hx; by apply not_elem_of_nil in Hx|]. by intros [|? ?]. }
    destruct (oo_releasable _ _ _ H k) as (Hd & Hi & Ho). split; [done|]. split.
    + intros x Hx. rewrite (Hother k) by done. by apply Hi.
    + intros l1 x l2 y ps E' Hy Hp. rewrite Hl in Hy. case_decide; [done|]. by eapply Ho.
  - intros x ps Hx. rewrite Hl, decide_False; [by apply (oo_base _ _ _ H)|]. intros Hin.
    destruct (oo_disjoint _ _ _ H _ _ Hin). congruence.
  - intros k x. case_decide; [intros Hx; by apply not_elem_of_nil in Hx|]. intros Hx.
    destruct (oo_disjoint _ _ _ H _ _ Hx) as [Hb Hj]. split; [done|]. intros j. case_decide; [|apply Hj].
    intros Hx'. by apply not_elem_of_nil in Hx'.
  - intros x Hx. rewrite Hl in Hx. case_decide as Hin; [by destruct Hx|].
    destruct (oo_cover _ _ _ H x Hx) as [?|[k Hk]]; [by left|]. right. exists k. rewrite decide_False; [done|]. by intros ->.
Qed.

Lemma oo_move base os own i j :
  owned_once base os own -> own j = [] -> i <> j ->
  owned_once base os (fun k => if decide (k = j) then own i else if decide (k = i) then [] else own k).
Proof.
  intros [H1 H2 H3 H4 H5] Hj Hij. split; [done| |done| |].
  - intros k. case_decide; [apply H2|]. case_decide; [|apply H2]. rewrite <- Hj. apply H2.
  - intros k x Hx.
    assert (Hown : exists k', x ∈ own k' /\ k = if decide (k' = i) then j else k').
    { case_decide; [subst; exists i; by rewrite decide_True|]. case_decide; [by apply not_elem_of_nil in Hx|].
      exists k. by rewrite decide_False. }
    destruct Hown as (k' & Hk & ->). destruct (H4 _ _ Hk) as [Hb Hu]. split; [done|]. intros l Hl.
    assert (Hown : exists l', x ∈ own l' /\ l = if decide (l' = i) then j else l').
    { case_decide; [subst; exists i; by rewrite decide_True|]. case_decide; [by apply not_elem_of_nil in Hl|].
      exists l. by rewrite decide_False. }
    destruct Hown as (l' & Hl' & ->). by rewrite (Hu _ Hl').
  - intros x Hx. destruct (H5 x Hx) as [?|[k Hk]]; [by left|]. right. destruct (decide (k = i)) as [->|Hne].
    + exists j. by rewrite decide_True.
    + exists k. rewrite !decide_False; [done|done|]. intros ->. rewrite Hj in Hk. by apply not_elem_of_nil in Hk.
Qed.

Lemma oo_add base os os' own i us l :
  owned_once base os own -> own i = [] -> adds us (objects os) (objects os') l ->
  (forall x, x ∈ us -> is_Some (base !! x)) ->
  owned_once base os' (fun k => if decide (k = i) then l else own k).
Proof.
  intros H Hi (Hc & Hr & Hn & Hs & Hu) Hus.
  assert (Hl : forall k x, x ∈ own k -> x ∉ l).
  { intros k x Hk Hx. destruct (oo_releasable _ _ _ H k) as (_ & Hlive & _). destruct (Hlive _ Hk).
    rewrite Hn in * by done. done. }
  assert (Hb : forall x, is_Some (base !! x) -> x ∉ l).
  { intros x [ps Hx] Hin. apply (oo_base _ _ _ H) in Hx. by rewrite Hn in Hx. }
  split; [done| | | |].
  - intros k. case_decide; [done|]. destruct (oo_releasable _ _ _ H k) as (Hd & Hi' & Ho). split; [done|]. split.
    + intros x Hx. rewrite Hs by (by eapply Hl). by apply Hi'.
    + intros l1 x l2 y ps E Hy Hp. destruct (decide (y ∈ l)) as [Hin|Hin]; [|rewrite Hs in Hy by done; by eapply Ho].
      exfalso. assert (Hx : x ∈ own k) by (rewrite E; set_solver).
      destruct (Hu _ _ _ Hin Hy Hp) as [Hx'|Hx']; [by apply (Hl _ _ Hx)|].
      destruct (oo_disjoint _ _ _ H _ _ Hx) as [Hbx _]. destruct (Hus _ Hx'). congruence.
  - intros x ps Hx. rewrite Hs by (by apply Hb; eexists). by apply (oo_base _ _ _ H).
  - intros k x. case_decide as Hk.
    + intros Hx. split; [destruct (base !! x) eqn:E; [|done]; exfalso; by apply (Hb x); [eexists|]|].
      intros j. case_decide; [congruence|]. intros Hj. by destruct (Hl _ _ Hj).
    + intros Hx. destruct (oo_disjoint _ _ _ H _ _ Hx) as [Hbx Hj]. split; [done|]. intros j.
      case_decide; [|apply Hj]. intros Hx'. by destruct (Hl _ _ Hx).
  - intros x Hx. destruct (decide (x ∈ l)) as [Hin|Hin]; [right; exists i; by rewrite decide_True|].
    rewrite Hs in Hx by done. destruct (oo_cover _ _ _ H x Hx) as [?|[k Hk]]; [by left|]. right. exists k.
    rewrite decide_False; [done|]. intros ->. rewrite Hi in Hk. by apply not_elem_of_nil in Hk.
Qed.

Lemma oo_nothing base os own :
  owned_once base os own -> (forall i, own i = []) -> objects os = base.
Proof.
  intros H Hn. apply map_eq. intros x. destruct (base !! x) eqn:E; [by apply (oo_base _ _ _ H)|].
  destruct (objects os !! x) eqn:E'; [|done]. destruct (oo_cover _ _ _ H x) as [[]|[i Hi]]; [by eexists|congruence|].
  rewrite Hn in Hi. by apply not_elem_of_nil in Hi.
Qed.

Context {T : Type} `{!Owner OS T}.
Implicit Types (slots : gmap Z T).

Lemma slots_own_insert slots i t k :
  slots_own (<[i := t]> slots) k = if decide (k = i) then owned t else slots_own slots k.
Proof.
  unfold slots_own. case_decide as H; [subst; by rewrite lookup_insert_eq|]. by rewrite lookup_insert_ne.
Qed.

Lemma slots_own_delete slots i k :
  slots_own (delete i slots) k = if decide (k = i) then [] else slots_own slots k.
Proof.
  unfold slots_own. case_decide as H; [subst; by rewrite lookup_delete_eq|]. by rewrite lookup_delete_ne.
Qed.

Lemma slots_own_Some slots i t : slots !! i = Some t -> slots_own slots i = owned t.
Proof. unfold slots_own. by intros ->. Qed.

Lemma slots_own_None slots i : slots !! i = None -> slots_own slots i = [].
Proof. unfold slots_own. by intros ->. Qed.

Lemma owner_step_once base os slots o :
  owned_once base os (slots_own slots) -> create_ok base o ->
  exists os' slots', owner_step (os, slots) o = Some (os', slots') /\ owned_once base os' (slots_own slots').
Proof.
  intros H Ho. destruct o as [i a|i j|i j|i]; cbn [owner_step].
  - case_decide as Hi; [by do 2 eexists|]. apply eq_None_not_Some in Hi.
    destruct (own_create_law os a (oo_closed _ _ _ H)) as (os' & r & -> & Hr).
    { intros x Hx. destruct (Ho x Hx) as [ps Hp]. exists ps. by apply (oo_base _ _ _ H). }
    sbind. do 2 eexists. split; [done|]. destruct r as [t|s]; [|by eapply owned_once_ext].
    eapply owned_once_ext; [eapply oo_add; [exact H|by apply slots_own_None|exact Hr|exact Ho]|done|].
    intros k. apply slots_own_insert.
  - destruct (slots !! i) as [t|] eqn:Hi; [|by do 2 eexists]. destruct (slots !! j) as [u|] eqn:Hj; [by do 2 eexists|].
    do 2 eexists. split; [done|]. destruct (own_move_law t) as [Hm1 Hm2].
    eapply owned_once_ext; [apply (oo_move _ _ _ i j H); [by apply slots_own_None|congruence]|done|].
    intros k. rewrite !slots_own_insert, Hm1, Hm2. by rewrite (slots_own_Some _ _ _ Hi).
  - destruct (slots !! i) as [t|] eqn:Hi; [|by do 2 eexists]. destruct (slots !! j) as [u|] eqn:Hj; [|by do 2 eexists].
    destruct (decide (i = j)) as [->|Hne].
    { rewrite bool_decide_eq_true_2 by done. rewrite own_self_law. sbind. by do 2 eexists. }
    rewrite bool_decide_eq_false_2 by done. rewrite own_assign_law.
    destruct (oo_release _ _ _ i H) as (os' & E & H'). rewrite (slots_own_Some _ _ _ Hi) in E. rewrite E. sbind.
    do 2 eexists. split; [done|]. destruct (own_move_law u) as [Hm1 Hm2].
    eapply owned_once_ext; [apply (oo_move _ _ _ j i H'); [by rewrite decide_True|done]|done|].
    intros k. cbn beta. rewrite !slots_own_insert, Hm1, Hm2, (decide_False (P := j = i)) by done.
    rewrite (slots_own_Some _ _ _ Hj). repeat case_decide; try done.
  - destruct (slots !! i) as [t|] eqn:Hi; [|by do 2 eexists]. rewrite own_destroy_law.
    destruct (oo_release _ _ _ i H) as (os' & E & H'). rewrite (slots_own_Some _ _ _ Hi) in E. rewrite E. sbind.
    do 2 eexists. split; [done|]. eapply owned_once_ext; [exact H'|done|]. intros k. apply slots_own_delete.
Qed.

Lemma owner_run_once base os slots l :
  owned_once base os (slots_own slots) -> Forall (create_ok base) l ->
  exists os' slots', owner_run (os, slots) l = Some (os', slots') /\ owned_once base os' (slots_own slots').
Proof.
  intros H Hl. revert os slots H. induction Hl as [|o l Ho Hl IH]; intros os slots H; cbn [owner_run]; [by do 2 eexists|].
  destruct (owner_step_once _ _ _ _ H Ho) as (os1 & slots1 & -> & H1). sbind. by apply IH.
Qed.

Lemma owned_once_start os : closed (objects os) -> owned_once (objects os) os (slots_own (∅ : gmap Z T)).
Proof.
  intros Hc. assert (Hn : forall i, slots_own (∅ : gmap Z T) i = []) by (intros i; by apply slots_own_None).
  split; [done| |done| |].
  - intros i. rewrite Hn. split; [constructor|]. split; [intros x Hx; by apply not_elem_of_nil in Hx|]. by intros [|? ?].
  - intros i x. rewrite Hn. intros Hx. by apply not_elem_of_nil in Hx.
  - intros x Hx. by left.
Qed.

(** Destroying what is left. *)
Lemma owner_destroy_all base os slots ks :
  owned_once base os (slots_own slots) -> (forall i, is_Some (slots !! i) -> i ∈ ks) ->
  exists os', owner_run (os, slots) (OpDestroy <$> ks) = Some (os', ∅) /\ objects os' = base.
Proof.
  revert os slots. induction ks as [|i ks IH]; intros os slots H Hk.
  - assert (slots = ∅) as ->.
    { apply map_eq. intros i. rewrite lookup_empty. destruct (slots !! i) eqn:E; [|done].
      exfalso. apply (not_elem_of_nil i), Hk. by eexists. }
    exists os. split; [done|]. eapply oo_nothing; [exact H|]. intros i. by apply slots_own_None.
  - cbn [fmap list_fmap owner_run]. destruct (owner_step_once base os slots (OpDestroy i) H I) as (os1 & slots1 & E & H1).
    rewrite E. sbind. apply IH; [exact H1|]. cbn [owner_step] in E. intros k Hs.
    assert (slots1 = delete i slots) as ->.
    { destruct (slots !! i) eqn:Ei; [destruct (own_destroy os t); [by simplify_option_eq|done]|].
      simplify_eq. by rewrite delete_id. }
    destruct (decide (k = i)) as [->|Hne]; [rewrite lookup_delete_eq in Hs; by destruct Hs|].
    rewrite lookup_delete_ne in Hs by done. apply Hk, elem_of_cons in Hs as [?|?]; done.
Qed.

End ownership.

(** ** Setting up and tearing down *)

Section setup.
Context {OS : Type} `{!VerbsObjects OS}.
Import Resources.
Implicit Types (os : OS) (objs : Objects).

Lemma adds_keeps us objs objs' l x : adds us objs objs' l -> is_Some (objs !! x) -> is_Some (objs' !! x).
Proof.
  intros (_ & _ & Hn & Hs & _) Hx. rewrite Hs; [done|]. intros Hin. rewrite Hn in Hx by done. by destruct Hx.
Qed.

Lemma adds_closed us objs objs' l : adds us objs objs' l -> closed objs'.
Proof. by intros []. Qed.

Lemma adds_live us objs objs' l x : adds us objs objs' l -> x ∈ l -> is_Some (objs' !! x).
Proof. intros (_ & (_ & Hl & _) & _) Hx. by apply Hl. Qed.

(** What a pointer or a result owns. *)
Definition ptr_owned {A} (owned : A -> list Object) (p : option A) : list Object :=
  match p with Some a => owned a | None => [] end.

Definition cq_owned (c : CompletionQueue) : list Object :=
  handle OCq (CompletionQueue.cq_ c) ++ handle OChannel (CompletionQueue.channel_ c).

Lemma reset_cq us objs os p :
  closed objs -> adds us objs (objects os) (ptr_owned cq_owned p) ->
  exists os', reset CompletionQueue.destroy os p = Some os' /\ objects os' = objs.
Proof.
  intros Hc Ha. destruct p as [c|]; cbn [reset ptr_owned] in *.
  - rewrite cq_destroy. by eapply release_owned.
  - exists os. split; [done|]. apply (release_owned _ _ _ _ Hc) in Ha as (os' & E & E'). cbn [release_all] in E. congruence.
Qed.

Lemma cq_Create_ptr os d config :
  closed (objects os) -> (forall x, x ∈ handle OContext (RdmaDevice.context_ d) -> is_Some (objects os !! x)) ->
  exists os' r, CompletionQueue.Create os (Some d) config = Some (os', r)
    /\ adds (handle OContext (RdmaDevice.context_ d)) (objects os) (objects os') (ptr_owned cq_owned (result_ptr r)).
Proof.
  intros Hc Hd. destruct (cq_Create_owns os d config Hc Hd) as (os' & r & E & H). exists os', r. split; [done|].
  destruct r; [exact H|]. rewrite H. by apply adds_nil.
Qed.

(** What [setup] leaves can be torn down, member by member. *)
Lemma setup_spec os cq_depth :
  closed (objects os) ->
  exists os' r ok os'', setup os cq_depth = Some (os', r, ok)
    /\ (ok = true <-> exists d p s q, r = {| device := Some d; pd := Some p; send_cq := Some s; recv_cq := Some q |})
    /\ teardown os' r = Some os'' /\ objects os'' = objects os.
Proof.
  intros Hc. unfold setup. destruct (Open_owns os None Hc) as (os1 & [d|s] & -> & H); sbind.
  2:{ do 4 eexists. split; [done|]. split; [split; [done|naive_solver]|]. by split. }
  destruct H as [H1 Hctx]. pose proof (adds_closed _ _ _ _ H1) as Hc1.
  assert (Hd1 : forall x, x ∈ handle OContext (RdmaDevice.context_ d) -> is_Some (objects os1 !! x))
    by (intros x Hx; by eapply adds_live).
  assert (Hdev : forall o, objects o = objects os1 ->
            exists o', RdmaDevice.destroy o d = Some o' /\ objects o' = objects os).
  { intros o Ho. rewrite device_destroy. eapply release_owned; [exact Hc|]. rewrite Ho. exact H1. }
  pose proof (pd_Create_owns os1 d Hc1 Hd1) as Hp. destruct (ProtectionDomain.Create os1 (Some d)) as [os2 [p|s]].
  2:{ destruct (Hdev os2 Hp) as (o' & E & E'). do 4 eexists. split; [done|]. split; [split; [done|naive_solver]|].
      unfold teardown. cbn [reset recv_cq send_cq pd device]. sbind. by rewrite E. }
  pose proof (adds_closed _ _ _ _ Hp) as Hc2.
  assert (Hd2 : forall x, x ∈ handle OContext (RdmaDevice.context_ d) -> is_Some (objects os2 !! x))
    by (intros x Hx; eapply adds_keeps; [exact Hp|by apply Hd1]).
  assert (Hpd : forall o, objects o = objects os2 ->
            exists o', (o ← ProtectionDomain.destroy o p; RdmaDevice.destroy o d) = Some o' /\ objects o' = objects os).
  { intros o Ho. rewrite pd_destroy. destruct (release_owned _ (objects os1) o _ Hc1 ltac:(rewrite Ho; exact Hp)) as (o1 & -> & E).
    sbind. by apply Hdev. }
  set (config := {| CompletionQueue.cq_depth := cq_depth; CompletionQueue.comp_vector := 0; CompletionQueue.use_channel := false |}).
  destruct (cq_Create_ptr os2 d config Hc2 Hd2) as (os3 & s & -> & Hs). sbind.
  pose proof (adds_closed _ _ _ _ Hs) as Hc3.
  destruct (cq_Create_ptr os3 d config Hc3) as (os4 & q & -> & Hq);
    [intros x Hx; eapply adds_keeps; [exact Hs|by apply Hd2]|]. sbind.
  assert (Hcqs : exists o, (os ← reset CompletionQueue.destroy os4 (result_ptr q); reset CompletionQueue.destroy os (result_ptr s))
            = Some o /\ objects o = objects os2).
  { destruct (reset_cq _ _ _ _ Hc3 Hq) as (o1 & -> & E). sbind. eapply reset_cq; [exact Hc2|]. rewrite E. exact Hs. }
  destruct Hcqs as (o & Eo & Ho). destruct (Hpd o Ho) as (o' & Eo' & Ho').
  assert (Hfail : exists os' r ok os'',
    (os ← reset CompletionQueue.destroy os4 (result_ptr q); os ← reset CompletionQueue.destroy os (result_ptr s);
     Some (os, {| device := Some d; pd := Some p; send_cq := None; recv_cq := None |}, false)) = Some (os', r, ok)
    /\ (ok = true <-> exists d p s q, r = {| device := Some d; pd := Some p; send_cq := Some s; recv_cq := Some q |})
    /\ teardown os' r = Some os'' /\ objects os'' = objects os).
  { destruct (reset CompletionQueue.destroy os4 (result_ptr q)) as [o1|]; [|done]. cbn [mbind option_bind] in Eo |- *.
    rewrite Eo. sbind. do 4 eexists. split; [done|]. split; [split; [done|naive_solver]|]. by split. }
  destruct s as [s|], q as [q|]; try exact Hfail. clear Hfail.
  do 4 eexists. split; [done|]. split; [split; [by do 4 eexists|done]|]. unfold teardown. cbn [recv_cq send_cq pd device].
  cbn [result_ptr] in Eo. destruct (reset CompletionQueue.destroy os4 (Some q)) as [o1|]; [|done].
  cbn [mbind option_bind] in Eo |- *. rewrite Eo. split; [exact Eo'|exact Ho'].
Qed.

End setup.

(** ** A concrete library *)

Section example.

(** The state is the table of objects; handles are counted up. Two devices. *)
Definition toy_make (objs : Objects) (k : ObjectKind) (ps : list Object) : Objects * Z :=
  let h := Z.of_nat (base.size objs) + 1 in
  if decide (objs !! (k, h) = None) then (<[(k, h) := ps]> objs, h) else (objs, 0).

Definition toy_attr : ibv_device_attr :=
  {| vendor_id := 713; vendor_part_id := 4123; phys_port_cnt := 1; max_qp := 131072; max_cq := 65536; max_mr := 65536;
     max_qp_wr := 32768; max_sge := 30; max_cqe := 4194303 |}.

Lemma toy_makes objs k ps : let '(objs', h) := toy_make objs k ps in makes objs objs' k h ps.
Proof.
  unfold toy_make. case_decide as H; unfold makes; [|by rewrite decide_True]. rewrite decide_False by lia. by split.
Qed.

#[local] Program Instance toy_verbs : VerbsObjects Objects := {|
  PortAttr := Z;
  Gid := Z;
  objects os := os;
  errno _ := 5;
  ibv_get_device_list os := let '(os, l) := toy_make os ODeviceList [] in (os, l, [1; 2]);
  ibv_get_device_name _ d := if d =? 1 then "mlx5_0" else "mlx5_1";
  ibv_get_device_guid _ d := d;
  ibv_open_device os d := toy_make os OContext [];
  ibv_query_device os c := (os, Some toy_attr);
  ibv_query_port os c p := (os, Some p);
  ibv_query_gid os c p i := (os, Some i);
  ibv_alloc_pd os c := toy_make os OPd [(OContext, c)];
  ibv_create_comp_channel os c := toy_make os OChannel [(OContext, c)];
  ibv_create_cq os c _ ch _ :=
    toy_make os OCq ((OContext, c) :: if decide (ch = 0) then [] else [(OChannel, ch)]);
  ibv_req_notify_cq os _ _ := (os, 0);
  ibv_ack_cq_events os _ _ := os;
  sys_release os k h := delete (k, h) os;
  read_number _ p := if bool_decide (p = "/sys/class/infiniband/mlx5_1/device/numa_node") then Some 1 else Some 0;
|}.
Next Obligation. intros os. cbn. pose proof (toy_makes os ODeviceList []) as H. by destruct (toy_make _ _ _). Qed.
Next Obligation. intros os d. apply toy_makes. Qed.
Next Obligation. done. Qed.
Next Obligation. done. Qed.
Next Obligation. done. Qed.
Next Obligation. intros os c. apply toy_makes. Qed.
Next Obligation. intros os c. apply toy_makes. Qed.
Next Obligation. intros os c depth ch vec. apply toy_makes. Qed.
Next Obligation. done. Qed.
Next Obligation. done. Qed.
Next Obligation. done. Qed.

Definition toy_device : RdmaDevice :=
  {| RdmaDevice.context_ := 1; RdmaDevice.device_attr_ := toy_attr; RdmaDevice.name_ := "mlx5_0"; RdmaDevice.numa_node_ := 0 |}.

(** A program with queues that moves one into another. *)
Definition with_channel : CompletionQueue.CompletionQueueConfig :=
  {| CompletionQueue.cq_depth := 16; CompletionQueue.comp_vector := 0; CompletionQueue.use_channel := true |}.

Definition queue_program : list (OwnerOp (Owner0 := CompletionQueue_owner) CompletionQueue) :=
  [@OpCreate Objects _ _ CompletionQueue_owner 0 (toy_device, with_channel);
   @OpCreate Objects _ _ CompletionQueue_owner 1 (toy_device, CompletionQueue.CompletionQueueConfig_default);
   OpAssign 1 0; OpMove 1 2; OpDestroy 0].

Lemma closed_empty : closed (∅ : Objects).
Proof. intros y ps x Hy. by rewrite lookup_empty in Hy. Qed.

Lemma closed_context : closed {[(OContext, 1) := []]}.
Proof. intros y ps x [_ <-]%lookup_singleton_Some Hx. by apply not_elem_of_nil in Hx. Qed.

End example.

(** ** Properties *)

Section properties.

(** C25: Whatever a program does with completion queues - make them, move them, assign
    one to another or to itself, destroy them - no handle is ever released twice
    or while in use, each queue and channel of the library is owned by exactly
    one object, and when the last object is destroyed nothing is left. *)
Theorem queues_owned_once {OS} `{!VerbsObjects OS} (os : OS) ops :
  closed (objects os) -> Forall (create_ok (Owner0 := CompletionQueue_owner) (objects os)) ops ->
  exists os' slots, owner_run (Owner0 := CompletionQueue_owner) (os, ∅) ops = Some (os', slots)
    /\ owned_once (objects os) os' (slots_own (Owner0 := CompletionQueue_owner) slots)
    /\ exists os'', owner_run (Owner0 := CompletionQueue_owner) (os', slots) (OpDestroy <$> (map_to_list slots).*1)
           = Some (os'', ∅) /\ objects os'' = objects os.
Proof.
  intros Hc Ho.
  destruct (owner_run_once (Owner0 := CompletionQueue_owner) _ os ∅ ops (owned_once_start os Hc) Ho) as (os' & slots & E & H).
  exists os', slots. split; [exact E|]. split; [exact H|]. eapply owner_destroy_all; [exact H|].
  intros i [t Hi]. apply list_elem_of_fmap. exists (i, t). split; [done|]. by apply elem_of_map_to_list.
Qed.

#[local] Existing Instance toy_verbs.

Lemma queues_owned_once_witness :
  exists os' slots, owner_run (Owner0 := CompletionQueue_owner) ({[(OContext, 1) := []]} : Objects, ∅) queue_program
      = Some (os', slots)
    /\ exists os'', owner_run (Owner0 := CompletionQueue_owner) (os', slots) (OpDestroy <$> (map_to_list slots).*1)
           = Some (os'', ∅) /\ os'' = {[(OContext, 1) := []]}.
Proof.
  destruct (queues_owned_once ({[(OContext, 1) := []]} : Objects) queue_program closed_context) as (os' & slots & E & _ & H).
  - repeat constructor; intros x ->%list_elem_of_singleton; eexists; reflexivity.
  - exists os', slots. split; [exact E|exact H].
Defined.

(** C26: Setting up never leaks. Whatever step of opening the device, allocating the
    domain and making the two queues fails, [setup] returns and reports success
    exactly when all four members are set; and destroying the members in the
    order C++ does, each before what it was made from, releases exactly what was
    made. *)
Theorem setup_torn_down {OS} `{!VerbsObjects OS} (os : OS) cq_depth :
  closed (objects os) ->
  exists os' r ok os'', Resources.setup os cq_depth = Some (os', r, ok)
    /\ (ok = true <-> exists d p s q, r = {| Resources.device := Some d; Resources.pd := Some p;
                                            Resources.send_cq := Some s; Resources.recv_cq := Some q |})
    /\ Resources.teardown os' r = Some os'' /\ objects os'' = objects os.
Proof. apply setup_spec. Qed.

Lemma setup_torn_down_witness :
  exists os' r ok os'', Resources.setup (∅ : Objects) 4096 = Some (os', r, ok)
    /\ Resources.teardown os' r = Some os'' /\ os'' = ∅.
Proof.
  destruct (setup_torn_down (VerbsObjects0 := toy_verbs) (∅ : Objects) 4096 closed_empty) as (os' & r & ok & os'' & E & _ & E' & H).
  exists os', r, ok, os''. split; [exact E|]. split; [exact E'|exact H].
Defined.

(** Listing the devices leaves nothing open and has one entry per device. *)
Lemma GetAvailableDevices_spec {OS} `{!VerbsObjects OS} (os : OS) :
  closed (objects os) -> exists os' l, RdmaDevice.GetAvailableDevices os = Some (os', l) /\ objects os' = objects os
    /\ length l = if (ibv_get_device_list os).1.2 =? 0 then O else length (ibv_get_device_list os).2.
Proof.
  intros Hc. unfold RdmaDevice.GetAvailableDevices. pose proof (get_device_list_law os) as Hl.
  destruct (ibv_get_device_list os) as [[os1 l] devs]. cbn [fst snd]. destruct (Z.eqb_spec l 0) as [Hz|Hz].
  { do 2 eexists. split; [done|]. by apply makes_null in Hl. }
  assert (Hc1 : closed (objects os1)) by (eapply adds_closed, adds_makes; [exact Hc|exact Hl|done|set_solver]).
  destruct (available_devices_spec os1 devs _ Hc1 eq_refl) as (os2 & infos & -> & E & Hn). sbind. rewrite <- E in Hl.
  destruct (list_release _ _ _ Hc Hl Hz) as (os3 & -> & E'). sbind. do 2 eexists. by split.
Qed.

(** The entry of a device that cannot be opened has fields nobody wrote. *)
Example unopened_device_info :
  exists os, RdmaDevice.available_device (VerbsObjects0 := toy_verbs) os 1
    = Some (os, {| RdmaDevice.name := "mlx5_0"; RdmaDevice.guid := 1; RdmaDevice.info := None; RdmaDevice.numa_node := 0 |}).
Proof. exists {[(OContext, 2) := []]}. reflexivity. Qed.

End properties.
