(* ===== verification/Float32.v ===== *)
(** * Arithmetic on [float]

    IEEE 754 binary32 with rounding to nearest, ties to even, as the sources use
    it: conversions from and to unsigned integers, the four operations and the
    order. Expressions are evaluated operation by operation, each rounded. *)

From Stdlib Require Export SpecFloat.
From S2P Require Import Prelude.

Module Float32.

Definition float : Type := spec_float.

(** [static_cast<float>(n)]. *)
Definition of_Z (n : Z) : float := binary_normalize 24 128 n 0 false.

Definition add : float -> float -> float := SFadd 24 128.
Definition sub : float -> float -> float := SFsub 24 128.
Definition mul : float -> float -> float := SFmul 24 128.
Definition div : float -> float -> float := SFdiv 24 128.
Definition ltb : float -> float -> bool := SFltb.

(** The literal [n/d] correctly rounded, as in [0.8f]. *)
Definition literal (n d : Z) : float := div (of_Z n) (of_Z d).

Definition f0_8 : float := literal 8 10.
Definition f0_2 : float := literal 2 10.

(** [static_cast<float>(d)] of a [double]. *)
Definition of_double (d : spec_float) : float :=
  match d with
  | S754_finite s m e => binary_normalize 24 128 (if s then Z.neg m else Z.pos m) e s
  | _ => d
  end.

(** The integral part of [m * 2 ^ e]. *)
Definition trunc (m : positive) (e : Z) : Z := Z.shiftl (Z.pos m) e.

(** [static_cast<uint32_t>(f)]: truncation, undefined when the result is not a
    [uint32_t]. *)
Definition to_u32 (f : float) : option Z :=
  match f with
  | S754_zero _ => Some 0
  | S754_finite s m e =>
      let n := if s then - trunc m e else trunc m e in
      if decide (0 <= n < 2 ^ 32) then Some n else None
  | _ => None
  end.

End Float32.

Example f0_2_bits : Float32.f0_2 = S754_finite false 13421773 (-26).
Proof. reflexivity. Qed.

(** The [double] 0.1 as a [float]. *)
Example tenth : Float32.of_double (SFdiv 53 1024 (binary_normalize 53 1024 1 0 false) (binary_normalize 53 1024 10 0 false))
  = Float32.literal 1 10.
Proof. vm_compute. reflexivity. Qed.

Example quarter_of_1024 :
  Float32.to_u32 (Float32.mul (Float32.of_Z 1024) (Float32.literal 25 100)) = Some 256.
Proof. reflexivity. Qed.
