(* ===== verification/WrId.v ===== *)
(** * Work-request identifiers and immediate data

    Models [include/rdma/common/wr_id.h]: the 64-bit [wr_id] carried by every
    work request and its completion, and the 32-bit immediate-data codec. *)

From S2P Require Import Prelude Types.

Module WrId.

(** [ 16 bits conn_id | 8 bits opcode | 8 bits generation | 32 bits slot_index ] *)
Definition Encode (conn_id : Z) (opcode : RpcOpcode) (generation slot_index : Z) : Z :=
  Z.lor (Z.lor (Z.lor (u64 (Z.shiftl conn_id 48)) (u64 (Z.shiftl (RpcOpcode_u8 opcode) 40)))
               (u64 (Z.shiftl generation 32)))
        slot_index.

Definition GetConnId (wr_id : Z) : Z := u16 (Z.shiftr wr_id 48).

(** The raw [uint8_t] value of the enumeration: a C++ [RpcOpcode] obtained by
    [static_cast] need not be one of the named constants. *)
Definition GetOpcode (wr_id : Z) : Z := Z.land (Z.shiftr wr_id 40) 255.

Definition GetGeneration (wr_id : Z) : Z := u8 (Z.land (Z.shiftr wr_id 32) 255).

Definition GetSlotIndex (wr_id : Z) : Z := u32 (Z.land wr_id 4294967295).

End WrId.

Module ImmDataCodec.

(** [ 16 bits conn_id | 8 bits opcode | 8 bits slot_index_low ] *)
Definition Encode (conn_id opcode slot_hint : Z) : Z :=
  Z.lor (Z.lor (u32 (Z.shiftl conn_id 16)) (u32 (Z.shiftl opcode 8))) slot_hint.

Definition GetConnId (imm_data : Z) : Z := u16 (Z.shiftr imm_data 16).
Definition GetOpcode (imm_data : Z) : Z := u8 (Z.land (Z.shiftr imm_data 8) 255).
Definition GetSlotHint (imm_data : Z) : Z := u8 (Z.land imm_data 255).

End ImmDataCodec.

(** ** Arithmetic form of the codecs *)

(** [hi << k | lo] for a multiple of [2^k] and a [k]-bit value is their sum. *)
Lemma lor_mult_add k a b : 0 <= k -> is_u k b -> Z.lor (a * 2 ^ k) b = a * 2 ^ k + b.
Proof. intros. rewrite <- Z.shiftl_mul_pow2 at 1 by done. by apply lor_shiftl_add. Qed.

Lemma WrId_Encode_arith c o g s :
  is_u 16 c -> is_u 8 g -> is_u 32 s ->
  WrId.Encode c o g s = c * 2 ^ 48 + RpcOpcode_u8 o * 2 ^ 40 + g * 2 ^ 32 + s.
Proof.
  intros Hc Hg Hs. pose proof (RpcOpcode_u8_range o) as Ho.
  unfold WrId.Encode. rewrite !Z.shiftl_mul_pow2 by lia.
  rewrite !wrap_id by solve_word.
  rewrite (lor_mult_add 48) by solve_word.
  replace (c * 2 ^ 48 + RpcOpcode_u8 o * 2 ^ 40)
    with ((c * 2 ^ 8 + RpcOpcode_u8 o) * 2 ^ 40) by lia.
  rewrite (lor_mult_add 40) by solve_word.
  replace ((c * 2 ^ 8 + RpcOpcode_u8 o) * 2 ^ 40 + g * 2 ^ 32)
    with (((c * 2 ^ 8 + RpcOpcode_u8 o) * 2 ^ 8 + g) * 2 ^ 32) by lia.
  rewrite (lor_mult_add 32) by solve_word. lia.
Qed.

Lemma WrId_get_arith w :
  WrId.GetConnId w = w / 2 ^ 48 mod 2 ^ 16 /\ WrId.GetOpcode w = w / 2 ^ 40 mod 2 ^ 8
  /\ WrId.GetGeneration w = w / 2 ^ 32 mod 2 ^ 8 /\ WrId.GetSlotIndex w = w mod 2 ^ 32.
Proof.
  unfold WrId.GetConnId, WrId.GetOpcode, WrId.GetGeneration, WrId.GetSlotIndex.
  rewrite (land_mask 32 4294967295) by (lia || reflexivity).
  rewrite !(land_mask 8 255) by (lia || reflexivity). rewrite !Z.shiftr_div_pow2 by lia.
  fold (wrap 32 w). fold (wrap 8 (w / 2 ^ 32)). rewrite !wrap_idem. done.
Qed.

Lemma WrId_Encode_range c o g s :
  is_u 16 c -> is_u 8 g -> is_u 32 s -> is_u 64 (WrId.Encode c o g s).
Proof.
  intros. rewrite WrId_Encode_arith by done. pose proof (RpcOpcode_u8_range o). solve_word.
Qed.

Lemma ImmData_Encode_arith c o h :
  is_u 16 c -> is_u 8 o -> is_u 8 h -> ImmDataCodec.Encode c o h = c * 2 ^ 16 + o * 2 ^ 8 + h.
Proof.
  intros. unfold ImmDataCodec.Encode. rewrite !Z.shiftl_mul_pow2 by lia.
  rewrite !wrap_id by solve_word. rewrite (lor_mult_add 16) by solve_word.
  replace (c * 2 ^ 16 + o * 2 ^ 8) with ((c * 2 ^ 8 + o) * 2 ^ 8) by lia.
  rewrite (lor_mult_add 8) by solve_word. lia.
Qed.

Lemma WrId_GetSlotIndex_Encode c o g s :
  is_u 16 c -> is_u 8 g -> is_u 32 s -> WrId.GetSlotIndex (WrId.Encode c o g s) = s.
Proof.
  intros. destruct (WrId_get_arith (WrId.Encode c o g s)) as (_ & _ & _ & ->).
  rewrite WrId_Encode_arith by done. solve_word.
Qed.

Lemma WrId_GetConnId_Encode c o g s :
  is_u 16 c -> is_u 8 g -> is_u 32 s -> WrId.GetConnId (WrId.Encode c o g s) = c.
Proof.
  intros. destruct (WrId_get_arith (WrId.Encode c o g s)) as (-> & _).
  rewrite WrId_Encode_arith by done. pose proof (RpcOpcode_u8_range o). solve_word.
Qed.

Lemma WrId_GetOpcode_Encode c o g s :
  is_u 16 c -> is_u 8 g -> is_u 32 s -> WrId.GetOpcode (WrId.Encode c o g s) = RpcOpcode_u8 o.
Proof.
  intros. destruct (WrId_get_arith (WrId.Encode c o g s)) as (_ & -> & _).
  rewrite WrId_Encode_arith by done. pose proof (RpcOpcode_u8_range o). solve_word.
Qed.

(** ** Properties *)

(** the completion handlers recover exactly the connection, opcode,
    generation and slot that were packed in a [wr_id]: for every in-range
    quadruple the packed value is a 64-bit word and the four decoders are
    inverse to [Encode]. *)
Theorem WrId_roundtrip c o g s :
  is_u 16 c -> is_u 8 g -> is_u 32 s ->
  is_u 64 (WrId.Encode c o g s)
  /\ WrId.GetConnId (WrId.Encode c o g s) = c
  /\ WrId.GetOpcode (WrId.Encode c o g s) = RpcOpcode_u8 o
  /\ WrId.GetGeneration (WrId.Encode c o g s) = g
  /\ WrId.GetSlotIndex (WrId.Encode c o g s) = s.
Proof.
  intros Hc Hg Hs. split; [by apply WrId_Encode_range|].
  destruct (WrId_get_arith (WrId.Encode c o g s)) as (-> & -> & -> & ->).
  rewrite WrId_Encode_arith by done. pose proof (RpcOpcode_u8_range o).
  repeat split; solve_word.
Qed.

Lemma WrId_roundtrip_witness :
  WrId.GetSlotIndex (WrId.Encode 65534 RECV 255 4294967295) = 4294967295.
Proof. apply (WrId_roundtrip 65534 RECV 255 4294967295); unfold is_u; lia. Defined.

(** the immediate-data codec round-trips every in-range triple through a
    32-bit word. *)
Theorem ImmData_roundtrip c o h :
  is_u 16 c -> is_u 8 o -> is_u 8 h ->
  is_u 32 (ImmDataCodec.Encode c o h)
  /\ ImmDataCodec.GetConnId (ImmDataCodec.Encode c o h) = c
  /\ ImmDataCodec.GetOpcode (ImmDataCodec.Encode c o h) = o
  /\ ImmDataCodec.GetSlotHint (ImmDataCodec.Encode c o h) = h.
Proof.
  intros. unfold ImmDataCodec.GetConnId, ImmDataCodec.GetOpcode, ImmDataCodec.GetSlotHint.
  rewrite !(land_mask 8 255) by (lia || reflexivity). rewrite !Z.shiftr_div_pow2 by lia.
  rewrite ImmData_Encode_arith by done. repeat split; solve_word.
Qed.

Lemma ImmData_roundtrip_witness : ImmDataCodec.GetOpcode (ImmDataCodec.Encode 7 5 9) = 5.
Proof. apply (ImmData_roundtrip 7 5 9); unfold is_u; lia. Defined.
