(* ===== verification/KvProtocol.v ===== *)
(** * The key-value wire protocol

    Models [examples/kv_protocol.h]: the 16-byte request and response headers,
    the segment descriptors, the value-size rules. A header is a C structure
    overlaid on the bytes of an RDMA buffer; [*_bytes] and [*_of_bytes] are that
    overlay (no padding, little-endian host). *)

From S2P Require Import Prelude.

Module kv.

Inductive OpType := GET | PUT | GET_RESPONSE | PUT_RESPONSE.

Definition OpType_u8 (o : OpType) : Z :=
  match o with GET => 1 | PUT => 2 | GET_RESPONSE => 3 | PUT_RESPONSE => 4 end.

Inductive Status := OK | NOT_FOUND | NO_SPACE | INVALID_REQUEST | INTERNAL_ERROR.

#[export] Instance Status_eq_dec : EqDecision Status.
Proof. solve_decision. Defined.

Definition Status_u8 (s : Status) : Z :=
  match s with
  | OK => 0 | NOT_FOUND => 1 | NO_SPACE => 2 | INVALID_REQUEST => 3 | INTERNAL_ERROR => 4
  end.

(** Request header. *)
Record RequestHeader := {
  rq_op_type : Z;         (* uint8_t *)
  rq_segment_count : Z;   (* uint8_t *)
  rq_reserved : Z;        (* uint16_t *)
  rq_value_size : Z;      (* uint32_t *)
  rq_key : Z;             (* uint64_t *)
}.

Definition RequestHeader_size : Z := 16.

Definition SetGet (k : Z) : RequestHeader :=
  {| rq_op_type := OpType_u8 GET; rq_segment_count := 0; rq_reserved := 0;
     rq_value_size := 0; rq_key := k |}.

Definition SetPut (k size segments : Z) : RequestHeader :=
  {| rq_op_type := OpType_u8 PUT; rq_segment_count := segments; rq_reserved := 0;
     rq_value_size := size; rq_key := k |}.

Definition RequestHeader_bytes (h : RequestHeader) : list Z :=
  le_bytes 1 (rq_op_type h) ++ le_bytes 1 (rq_segment_count h) ++ le_bytes 2 (rq_reserved h)
  ++ le_bytes 4 (rq_value_size h) ++ le_bytes 8 (rq_key h).

Definition RequestHeader_of_bytes (l : list Z) : RequestHeader :=
  {| rq_op_type := field 0 1 l; rq_segment_count := field 1 1 l; rq_reserved := field 2 2 l;
     rq_value_size := field 4 4 l; rq_key := field 8 8 l |}.

(** Response header. *)
Record ResponseHeader := {
  rs_op_type : Z;         (* uint8_t *)
  rs_status : Z;          (* uint8_t *)
  rs_reserved : Z;        (* uint16_t *)
  rs_value_size : Z;      (* uint32_t *)
  rs_key : Z;             (* uint64_t *)
}.

Definition ResponseHeader_size : Z := 16.

Definition SetGetResponse (k : Z) (s : Status) (size : Z) : ResponseHeader :=
  {| rs_op_type := OpType_u8 GET_RESPONSE; rs_status := Status_u8 s; rs_reserved := 0;
     rs_value_size := size; rs_key := k |}.

Definition SetPutResponse (k : Z) (s : Status) : ResponseHeader :=
  {| rs_op_type := OpType_u8 PUT_RESPONSE; rs_status := Status_u8 s; rs_reserved := 0;
     rs_value_size := 0; rs_key := k |}.

Definition ResponseHeader_bytes (h : ResponseHeader) : list Z :=
  le_bytes 1 (rs_op_type h) ++ le_bytes 1 (rs_status h) ++ le_bytes 2 (rs_reserved h)
  ++ le_bytes 4 (rs_value_size h) ++ le_bytes 8 (rs_key h).

Definition ResponseHeader_of_bytes (l : list Z) : ResponseHeader :=
  {| rs_op_type := field 0 1 l; rs_status := field 1 1 l; rs_reserved := field 2 2 l;
     rs_value_size := field 4 4 l; rs_key := field 8 8 l |}.

(** Segment descriptor of a non-contiguous PUT. *)
Record SegmentDescriptor := { sd_offset : Z; sd_length : Z }.

Definition SegmentDescriptor_size : Z := 8.

Definition SegmentDescriptor_bytes (d : SegmentDescriptor) : list Z :=
  le_bytes 4 (sd_offset d) ++ le_bytes 4 (sd_length d).

Definition MIN_VALUE_SIZE : Z := 4096.
Definition MAX_VALUE_SIZE : Z := 65536.
Definition VALUE_ALIGN : Z := 4096.
Definition MAX_SEGMENTS : Z := 16.
Definition MAX_REQUEST_SIZE : Z :=
  RequestHeader_size + MAX_SEGMENTS * SegmentDescriptor_size + MAX_VALUE_SIZE.
Definition MAX_RESPONSE_SIZE : Z := ResponseHeader_size + MAX_VALUE_SIZE.

Definition IsValidValueSize (size : Z) : bool :=
  (MIN_VALUE_SIZE <=? size) && (size <=? MAX_VALUE_SIZE) && (size mod VALUE_ALIGN =? 0).

(** All operands are [uint32_t]. *)
Definition AlignValueSize (size : Z) : Z :=
  u32 (u32 (u32 (size + VALUE_ALIGN) - 1) / VALUE_ALIGN * VALUE_ALIGN).

(** The raw enumeration value in the first byte. *)
Definition GetOpType (header : list Z) : Z := field 0 1 header.

End kv.

(** Well-typed headers: every field fits its C type. *)
Definition request_wf (h : kv.RequestHeader) : Prop :=
  is_u 8 (kv.rq_op_type h) /\ is_u 8 (kv.rq_segment_count h) /\ is_u 16 (kv.rq_reserved h)
  /\ is_u 32 (kv.rq_value_size h) /\ is_u 64 (kv.rq_key h).

Definition response_wf (h : kv.ResponseHeader) : Prop :=
  is_u 8 (kv.rs_op_type h) /\ is_u 8 (kv.rs_status h) /\ is_u 16 (kv.rs_reserved h)
  /\ is_u 32 (kv.rs_value_size h) /\ is_u 64 (kv.rs_key h).

(** ** Lemmas *)

Section headers.
Import kv.

(** The fields of the common header layout 1+1+2+4+8, whatever follows it. *)
Lemma header_fields a b c d e rest :
  is_u 8 a -> is_u 8 b -> is_u 16 c -> is_u 32 d -> is_u 64 e ->
  let l := (le_bytes 1 a ++ le_bytes 1 b ++ le_bytes 2 c ++ le_bytes 4 d ++ le_bytes 8 e) ++ rest in
  field 0 1 l = a /\ field 1 1 l = b /\ field 2 2 l = c /\ field 4 4 l = d /\ field 8 8 l = e.
Proof.
  intros Ha Hb Hc Hd He l.
  repeat split; [exact (le_word_bytes 1 a Ha) | exact (le_word_bytes 1 b Hb)
    | exact (le_word_bytes 2 c Hc) | exact (le_word_bytes 4 d Hd) | exact (le_word_bytes 8 e He)].
Qed.

Lemma IsValidValueSize_spec size :
  IsValidValueSize size = true <->
  MIN_VALUE_SIZE <= size <= MAX_VALUE_SIZE /\ size mod VALUE_ALIGN = 0.
Proof. unfold IsValidValueSize. rewrite !andb_true_iff, !Z.leb_le, Z.eqb_eq. tauto. Qed.

End headers.

Lemma ResponseHeader_bytes_length h : length (kv.ResponseHeader_bytes h) = 16%nat.
Proof. unfold kv.ResponseHeader_bytes. autorewrite with rdma. done. Qed.

Lemma RequestHeader_bytes_length h : length (kv.RequestHeader_bytes h) = 16%nat.
Proof. unfold kv.RequestHeader_bytes. autorewrite with rdma. done. Qed.

(** A header is read back, whatever follows it. *)
Lemma RequestHeader_of_bytes_app h rest :
  request_wf h -> kv.RequestHeader_of_bytes (kv.RequestHeader_bytes h ++ rest) = h.
Proof.
  intros (A1 & A2 & A3 & A4 & A5). destruct (header_fields _ _ _ _ _ rest A1 A2 A3 A4 A5) as (E1 & E2 & E3 & E4 & E5).
  destruct h. apply (f_equal5 kv.Build_RequestHeader); assumption.
Qed.

Lemma ResponseHeader_of_bytes_app h rest :
  response_wf h -> kv.ResponseHeader_of_bytes (kv.ResponseHeader_bytes h ++ rest) = h.
Proof.
  intros (A1 & A2 & A3 & A4 & A5). destruct (header_fields _ _ _ _ _ rest A1 A2 A3 A4 A5) as (E1 & E2 & E3 & E4 & E5).
  destruct h. apply (f_equal5 kv.Build_ResponseHeader); assumption.
Qed.

(** ** Properties *)

(** the receiver of a message reads back the header the sender wrote, for
    both header kinds, whatever payload follows the 16 bytes; a well-formed
    header occupies exactly [sizeof(RequestHeader)] bytes. *)
Theorem headers_roundtrip rq rs rest :
  request_wf rq -> response_wf rs ->
  kv.RequestHeader_of_bytes (kv.RequestHeader_bytes rq ++ rest) = rq
  /\ kv.ResponseHeader_of_bytes (kv.ResponseHeader_bytes rs ++ rest) = rs
  /\ Z.of_nat (length (kv.RequestHeader_bytes rq)) = kv.RequestHeader_size
  /\ Z.of_nat (length (kv.ResponseHeader_bytes rs)) = kv.ResponseHeader_size.
Proof.
  intros Hq Hs. rewrite RequestHeader_bytes_length, ResponseHeader_bytes_length.
  by rewrite RequestHeader_of_bytes_app, ResponseHeader_of_bytes_app.
Qed.

Lemma headers_roundtrip_witness :
  kv.RequestHeader_of_bytes (kv.RequestHeader_bytes (kv.SetPut 77 8192 3) ++ [1; 2; 3])
  = kv.SetPut 77 8192 3.
Proof.
  apply (headers_roundtrip (kv.SetPut 77 8192 3) (kv.SetPutResponse 77 kv.OK) [1; 2; 3]);
    vm_compute; intuition discriminate.
Defined.

(** [AlignValueSize] returns the least multiple of 4096 that is not below
    its argument as long as that multiple is a [uint32_t]; on the last 4095
    values the 32-bit addition wraps and the result is 0. *)
Theorem AlignValueSize_spec size :
  is_u 32 size ->
  (size <= 2 ^ 32 - kv.VALUE_ALIGN ->
     size <= kv.AlignValueSize size < size + kv.VALUE_ALIGN
     /\ kv.AlignValueSize size mod kv.VALUE_ALIGN = 0)
  /\ (2 ^ 32 - kv.VALUE_ALIGN < size -> kv.AlignValueSize size = 0).
Proof.
  unfold is_u, kv.AlignValueSize, kv.VALUE_ALIGN, wrap. intros Hs. split; intros Hb.
  - destruct (decide (size = 2 ^ 32 - 4096)) as [->|Hne]; [vm_compute; intuition congruence|].
    rewrite (Z.mod_small (size + 4096)) by lia.
    rewrite (Z.mod_small (size + 4096 - 1)) by lia. rewrite Z.mod_small by zdm. zdm.
  - destruct (decide (size + 4096 = 2 ^ 32)); zdm.
Qed.

Lemma AlignValueSize_spec_witness : kv.AlignValueSize 4097 mod kv.VALUE_ALIGN = 0.
Proof. apply (AlignValueSize_spec 4097); unfold is_u, kv.VALUE_ALIGN; lia. Defined.
