(* ===== verification/KvStore.v ===== *)
(** * The key-value store

    Models [examples/kv_store.h]: an open-addressing hash table with linear
    probing over a pre-allocated pool of fixed-size value slots and a stack of
    free slots. The pool is one byte array, as in the code, so that every
    [memcpy] is checked against its bounds: an operation returns [None] exactly
    when the C++ would read or write outside an object. *)

From S2P Require Import Prelude Float32 KvProtocol.

Module KVStore.

Record StoreConfig := {
  total_storage_size : Z;   (* size_t *)
  slot_size : Z;            (* size_t *)
  cfg_hash_table_size : Z;  (* size_t, 0 = auto-calculate *)
}.

Record Entry := {
  key : Z;                  (* uint64_t *)
  slot_index : Z;           (* uint32_t *)
  value_size : Z;           (* uint32_t *)
  occupied : bool;
  deleted : bool;
}.

Record KVStore := {
  config_ : StoreConfig;
  storage_pool_ : list Z;       (* uint8_t[total_storage_size] *)
  hash_table_ : list Entry;
  free_slots_ : list Z;         (* vector<uint32_t>, back at the end *)
  num_slots_ : Z;
  hash_table_size_ : Z;
  hash_mask_ : Z;
  used_slots_ : Z;
  used_bytes_ : Z;
}.

(** [KVStore() = default]. *)
Definition KVStore_default (config : StoreConfig) : KVStore :=
  {| config_ := config; storage_pool_ := []; hash_table_ := []; free_slots_ := [];
     num_slots_ := 0; hash_table_size_ := 0; hash_mask_ := 0; used_slots_ := 0; used_bytes_ := 0 |}.

Definition empty_entry : Entry :=
  {| key := 0; slot_index := 0; value_size := 0; occupied := false; deleted := false |}.

(** FNV-1a over the eight bytes of the key. *)
Definition FNV_PRIME : Z := 0x100000001b3.
Definition FNV_OFFSET : Z := 0xcbf29ce484222325.

Fixpoint hash_loop (n : nat) (hash key : Z) : Z :=
  match n with
  | O => hash
  | S n => hash_loop n (u64 (Z.lxor hash (Z.land key 255) * FNV_PRIME)) (Z.shiftr key 8)
  end.

Definition HashKey (key : Z) : Z := hash_loop 8 FNV_OFFSET key.

Definition NextPowerOfTwo (n : Z) : Z :=
  if n =? 0 then 1
  else
    let n := n - 1 in
    let n := Z.lor n (Z.shiftr n 1) in
    let n := Z.lor n (Z.shiftr n 2) in
    let n := Z.lor n (Z.shiftr n 4) in
    let n := Z.lor n (Z.shiftr n 8) in
    let n := Z.lor n (Z.shiftr n 16) in
    let n := Z.lor n (Z.shiftr n 32) in
    u64 (n + 1).

(** Offset of a slot in the pool ([GetSlotPtr] minus the pool's base). *)
Definition GetSlotPtr (s : KVStore) (slot_index : Z) : Z :=
  u64 (slot_index * slot_size (config_ s)).

(** [FindEntry]: the [for] loop makes at most [hash_table_size_] probes. The
    result is the index of the entry, [Some None] for the null pointer; [None]
    is a read outside the table. *)
Fixpoint FindEntry_loop (s : KVStore) (k : Z) (n : nat) (index : Z) : option (option Z) :=
  match n with
  | O => Some None
  | S n =>
      entry ← aget (hash_table_ s) index;
      if negb (occupied entry) then Some None
      else if (key entry =? k) && negb (deleted entry) then Some (Some index)
      else FindEntry_loop s k n (Z.land (u64 (index + 1)) (hash_mask_ s))
  end.

Definition FindEntry (s : KVStore) (k : Z) : option (option Z) :=
  FindEntry_loop s k (Z.to_nat (hash_table_size_ s)) (Z.land (HashKey k) (hash_mask_ s)).

(** The second loop of [Put] and [PutSGL]: the first entry that is empty or a
    tombstone. *)
Fixpoint FindFree_loop (s : KVStore) (n : nat) (index : Z) : option (option Z) :=
  match n with
  | O => Some None
  | S n =>
      entry ← aget (hash_table_ s) index;
      if negb (occupied entry) || deleted entry then Some (Some index)
      else FindFree_loop s n (Z.land (u64 (index + 1)) (hash_mask_ s))
  end.

Definition FindFree (s : KVStore) (k : Z) : option (option Z) :=
  FindFree_loop s (Z.to_nat (hash_table_size_ s)) (Z.land (HashKey k) (hash_mask_ s)).

(** The entry pointer together with the test
    [existing && existing->occupied && !existing->deleted]. *)
Definition FindLive (s : KVStore) (k : Z) : option (option (Z * Entry)) :=
  found ← FindEntry s k;
  match found with
  | None => Some None
  | Some i =>
      e ← aget (hash_table_ s) i;
      Some (if occupied e && negb (deleted e) then Some (i, e) else None)
  end.

Definition set_pool (s : KVStore) (pool : list Z) : KVStore :=
  {| config_ := config_ s; storage_pool_ := pool; hash_table_ := hash_table_ s;
     free_slots_ := free_slots_ s; num_slots_ := num_slots_ s;
     hash_table_size_ := hash_table_size_ s; hash_mask_ := hash_mask_ s;
     used_slots_ := used_slots_ s; used_bytes_ := used_bytes_ s |}.

Definition set_table (s : KVStore) (table : list Entry) : KVStore :=
  {| config_ := config_ s; storage_pool_ := storage_pool_ s; hash_table_ := table;
     free_slots_ := free_slots_ s; num_slots_ := num_slots_ s;
     hash_table_size_ := hash_table_size_ s; hash_mask_ := hash_mask_ s;
     used_slots_ := used_slots_ s; used_bytes_ := used_bytes_ s |}.

Definition set_free (s : KVStore) (free : list Z) : KVStore :=
  {| config_ := config_ s; storage_pool_ := storage_pool_ s; hash_table_ := hash_table_ s;
     free_slots_ := free; num_slots_ := num_slots_ s;
     hash_table_size_ := hash_table_size_ s; hash_mask_ := hash_mask_ s;
     used_slots_ := used_slots_ s; used_bytes_ := used_bytes_ s |}.

Definition set_used (s : KVStore) (slots bytes : Z) : KVStore :=
  {| config_ := config_ s; storage_pool_ := storage_pool_ s; hash_table_ := hash_table_ s;
     free_slots_ := free_slots_ s; num_slots_ := num_slots_ s;
     hash_table_size_ := hash_table_size_ s; hash_mask_ := hash_mask_ s;
     used_slots_ := slots; used_bytes_ := bytes |}.

Definition set_value_size (e : Entry) (size : Z) : Entry :=
  {| key := key e; slot_index := slot_index e; value_size := size;
     occupied := occupied e; deleted := deleted e |}.

Definition new_entry (k slot size : Z) : Entry :=
  {| key := k; slot_index := slot; value_size := size; occupied := true; deleted := false |}.

(** [Initialize]: a zero [slot_size] divides by zero ([None]); [alloc] is [new (std::nothrow) uint8_t[n]], the null pointer
    being [None]; the contents of a fresh block are unspecified. The vectors
    keep what an earlier call left in them: [resize] then reset for the table,
    [push_back] for the free list. *)
Definition Initialize (alloc : Z -> option (list Z)) (s : KVStore) (config : StoreConfig)
    : option (bool * KVStore) :=
  if slot_size config =? 0 then None else Some (
  let num_slots := total_storage_size config / slot_size config in
  let s := {| config_ := config; storage_pool_ := storage_pool_ s; hash_table_ := hash_table_ s;
              free_slots_ := free_slots_ s; num_slots_ := num_slots;
              hash_table_size_ := hash_table_size_ s; hash_mask_ := hash_mask_ s;
              used_slots_ := used_slots_ s; used_bytes_ := used_bytes_ s |} in
  if num_slots =? 0 then (false, s)
  else
    let size := if cfg_hash_table_size config =? 0 then NextPowerOfTwo (u64 (num_slots * 2))
                else NextPowerOfTwo (cfg_hash_table_size config) in
    let s := {| config_ := config; storage_pool_ := storage_pool_ s; hash_table_ := hash_table_ s;
                free_slots_ := free_slots_ s; num_slots_ := num_slots;
                hash_table_size_ := size; hash_mask_ := u64 (size - 1);
                used_slots_ := used_slots_ s; used_bytes_ := used_bytes_ s |} in
    match alloc (total_storage_size config) with
    | None => (false, set_pool s [])
    | Some pool =>
        let s := set_pool s pool in
        let s := set_table s (replicate (Z.to_nat size) empty_entry) in
        let s := set_free s (free_slots_ s ++
                             ((λ i, u32 (num_slots - 1 - i)) <$> seqZ 0 num_slots)) in
        (true, set_used s 0 0)
    end).

(** [PUT]. *)
Definition Put (s : KVStore) (k : Z) (value_data : list Z) (size : Z)
    : option (kv.Status * KVStore) :=
  if negb (kv.IsValidValueSize size) then Some (kv.INVALID_REQUEST, s)
  else if bool_decide (free_slots_ s = []) then Some (kv.NO_SPACE, s)
  else
    live ← FindLive s k;
    match live with
    | Some (i, existing) =>
        pool ← memcpy (storage_pool_ s) (GetSlotPtr s (slot_index existing)) value_data size;
        let s := set_pool s pool in
        let bytes := u64 (used_bytes_ s - value_size existing) in
        table ← aset (hash_table_ s) i (set_value_size existing size);
        let s := set_table s table in
        Some (kv.OK, set_used s (used_slots_ s) (u64 (bytes + size)))
    | None =>
        found ← FindFree s k;
        match found with
        | Some i =>
            '(free, slot) ← vec_pop_back (free_slots_ s);
            let s := set_free s free in
            pool ← memcpy (storage_pool_ s) (GetSlotPtr s slot) value_data size;
            let s := set_pool s pool in
            table ← aset (hash_table_ s) i (new_entry k slot size);
            let s := set_table s table in
            Some (kv.OK, set_used s (u64 (used_slots_ s + 1)) (u64 (used_bytes_ s + size)))
        | None => Some (kv.NO_SPACE, s)
        end
    end.

(** An [iovec]: the bytes readable from [iov_base], and the length. *)
Record iovec := { iov_base : list Z; iov_len : Z }.

(** [calculated_size += segments[i].iov_len] on a [uint32_t]. *)
Definition CalculatedSize (segments : list iovec) : Z :=
  foldl (λ acc seg, u32 (acc + iov_len seg)) 0 segments.

Fixpoint CopySegments (pool : list Z) (slot_ptr offset : Z) (segments : list iovec)
    : option (list Z) :=
  match segments with
  | [] => Some pool
  | seg :: segments =>
      pool ← memcpy pool (slot_ptr + offset) (iov_base seg) (iov_len seg);
      CopySegments pool slot_ptr (u64 (offset + iov_len seg)) segments
  end.

(** [PUT] with scatter-gather. *)
Definition PutSGL (s : KVStore) (k : Z) (segments : list iovec) (total_size : Z)
    : option (kv.Status * KVStore) :=
  if negb (kv.IsValidValueSize total_size) || bool_decide (segments = [])
  then Some (kv.INVALID_REQUEST, s)
  else if negb (CalculatedSize segments =? total_size) then Some (kv.INVALID_REQUEST, s)
  else if bool_decide (free_slots_ s = []) then Some (kv.NO_SPACE, s)
  else
    let finish (s : KVStore) (slot : Z) :=
      pool ← CopySegments (storage_pool_ s) (GetSlotPtr s slot) 0 segments;
      let s := set_pool s pool in
      Some (kv.OK, set_used s (used_slots_ s) (u64 (used_bytes_ s + total_size))) in
    live ← FindLive s k;
    match live with
    | Some (i, existing) =>
        let s := set_used s (used_slots_ s) (u64 (used_bytes_ s - value_size existing)) in
        table ← aset (hash_table_ s) i (set_value_size existing total_size);
        finish (set_table s table) (slot_index existing)
    | None =>
        found ← FindFree s k;
        match found with
        | Some i =>
            '(free, slot) ← vec_pop_back (free_slots_ s);
            let s := set_free s free in
            table ← aset (hash_table_ s) i (new_entry k slot total_size);
            let s := set_table s table in
            finish (set_used s (u64 (used_slots_ s + 1)) (used_bytes_ s)) slot
        | None => Some (kv.NO_SPACE, s)
        end
    end.

(** [GET]: the copied bytes accompany [OK]. *)
Definition Get (s : KVStore) (k buffer_size : Z) : option (kv.Status * list Z) :=
  live ← FindLive s k;
  match live with
  | None => Some (kv.NOT_FOUND, [])
  | Some (_, entry) =>
      if buffer_size <? value_size entry then Some (kv.INVALID_REQUEST, [])
      else
        v ← mread (storage_pool_ s) (GetSlotPtr s (slot_index entry)) (value_size entry);
        Some (kv.OK, v)
  end.

Definition GetInfo (s : KVStore) (k : Z) : option (kv.Status * Z) :=
  live ← FindLive s k;
  Some match live with
       | None => (kv.NOT_FOUND, 0)
       | Some (_, entry) => (kv.OK, value_size entry)
       end.

(** The pool offset of the value and its size; [Some None] is the null pointer. *)
Definition GetValuePtr (s : KVStore) (k : Z) : option (option (Z * Z)) :=
  live ← FindLive s k;
  Some match live with
       | None => None
       | Some (_, entry) => Some (GetSlotPtr s (slot_index entry), value_size entry)
       end.

(** The statistics. *)
Definition GetUsedSlots (s : KVStore) : Z := used_slots_ s.
Definition GetTotalSlots (s : KVStore) : Z := num_slots_ s.
Definition GetUsedBytes (s : KVStore) : Z := used_bytes_ s.
Definition GetTotalBytes (s : KVStore) : Z := total_storage_size (config_ s).

Definition GetLoadFactor (s : KVStore) : Float32.float :=
  if 0 <? num_slots_ s then Float32.div (Float32.of_Z (used_slots_ s)) (Float32.of_Z (num_slots_ s)) else Float32.of_Z 0.

End KVStore.

(** ** Specification

    The store promises a finite map from keys to values that holds at most
    [num_slots_] keys. [view] reads that map off the table and the pool without
    probing. *)

Section spec.
Import KVStore.

Definition live_entries (s : KVStore) : list Entry :=
  filter (λ e, occupied e = true) (hash_table_ s).

(** The value bytes an entry points to. *)
Definition value_of (s : KVStore) (e : Entry) : list Z :=
  default [] (mread (storage_pool_ s) (slot_index e * slot_size (config_ s)) (value_size e)).

Definition view (s : KVStore) : gmap Z (list Z) :=
  list_to_map ((λ e, (key e, value_of s e)) <$> live_entries s).

Definition spec_Put (cap : Z) (m : gmap Z (list Z)) (k : Z) (v : list Z) (size : Z)
    : kv.Status * gmap Z (list Z) :=
  if negb (kv.IsValidValueSize size) then (kv.INVALID_REQUEST, m)
  else if Z.of_nat (base.size m) =? cap then (kv.NO_SPACE, m)
  else (kv.OK, <[k := take (Z.to_nat size) v]> m).

Definition spec_Get (m : gmap Z (list Z)) (k buffer_size : Z) : kv.Status * list Z :=
  match m !! k with
  | None => (kv.NOT_FOUND, [])
  | Some v => if buffer_size <? Z.of_nat (length v) then (kv.INVALID_REQUEST, []) else (kv.OK, v)
  end.

(** Position of the [j]-th probe for key [k]. *)
Definition probe (s : KVStore) (k j : Z) : Z := (HashKey k + j) mod hash_table_size_ s.

(** The shape of the table, enough for the probe loops. *)
Record shape (s : KVStore) : Prop := {
  sh_size : exists b, 0 <= b <= 63 /\ hash_table_size_ s = 2 ^ b;
  sh_mask : hash_mask_ s = hash_table_size_ s - 1;
  sh_len : Z.of_nat (length (hash_table_ s)) = hash_table_size_ s;
}.

(** The representation invariant. *)
Record inv (s : KVStore) : Prop := {
  inv_shape : shape s;
  inv_deleted : forall i e, aget (hash_table_ s) i = Some e -> deleted e = false;
  inv_chain : forall i e, aget (hash_table_ s) i = Some e -> occupied e = true ->
    exists j, 0 <= j < hash_table_size_ s /\ i = probe s (key e) j
      /\ forall j', 0 <= j' < j ->
           exists e', aget (hash_table_ s) (probe s (key e) j') = Some e' /\ occupied e' = true;
  inv_key : forall i i' e e', aget (hash_table_ s) i = Some e -> aget (hash_table_ s) i' = Some e' ->
    occupied e = true -> occupied e' = true -> key e = key e' -> i = i';
  inv_value : forall e, e ∈ live_entries s -> 0 <= value_size e <= slot_size (config_ s);
  inv_slots : free_slots_ s ++ (slot_index <$> live_entries s) ≡ₚ seqZ 0 (num_slots_ s);
  inv_pool : Z.of_nat (length (storage_pool_ s)) = total_storage_size (config_ s);
  inv_fits : num_slots_ s * slot_size (config_ s) <= total_storage_size (config_ s) < 2 ^ 64;
  inv_slot_size : 0 < slot_size (config_ s);
  inv_cap : 0 < num_slots_ s <= hash_table_size_ s;
  inv_used : used_slots_ s = Z.of_nat (length (live_entries s));
  inv_bytes : used_bytes_ s = u64 (sumZ (value_size <$> live_entries s));
}.

(** The state after writing entry [e] at index [i] of the table. *)
Definition store_at (s : KVStore) (i : Z) (e : Entry) (pool : list Z) (free : list Z)
    (used bytes : Z) : KVStore :=
  {| config_ := config_ s; storage_pool_ := pool; hash_table_ := <[Z.to_nat i := e]> (hash_table_ s);
     free_slots_ := free; num_slots_ := num_slots_ s; hash_table_size_ := hash_table_size_ s;
     hash_mask_ := hash_mask_ s; used_slots_ := used; used_bytes_ := bytes |}.

(** A usable configuration: at least one slot, slot numbers that fit the
    [uint32_t] of an entry, and a table (automatic, or given) with room for a key
    per slot. *)
Definition config_ok (c : StoreConfig) : Prop :=
  0 < slot_size c /\ is_u 64 (total_storage_size c)
  /\ 1 <= total_storage_size c / slot_size c <= 2 ^ 32
  /\ (cfg_hash_table_size c = 0
      \/ total_storage_size c / slot_size c <= cfg_hash_table_size c <= 2 ^ 63).

(** The memory allocator gives a block of the size asked for. *)
Definition alloc_ok (alloc : Z -> option (list Z)) (n : Z) : Prop :=
  exists pool, alloc n = Some pool /\ Z.of_nat (length pool) = n.

(** The bytes a scatter list denotes, and a list whose bases hold their lengths. *)
Definition gather (segments : list iovec) : list Z :=
  concat ((λ seg, take (Z.to_nat (iov_len seg)) (iov_base seg)) <$> segments).

Definition segment_ok (seg : iovec) : Prop := 0 <= iov_len seg <= Z.of_nat (length (iov_base seg)).

(** Total size of the stored values. *)
Definition total_bytes (m : gmap Z (list Z)) : Z :=
  sumZ ((λ kv, Z.of_nat (length kv.2)) <$> map_to_list m).

(** Requests of a client and the two machines that answer them. *)
Inductive request :=
  | RPut (k : Z) (v : list Z) (size : Z)
  | RGet (k buffer_size : Z).

Definition request_ok (slot : Z) (r : request) : Prop :=
  match r with
  | RPut k v size => 0 <= size <= Z.of_nat (length v) /\ size <= slot
  | RGet _ _ => True
  end.

Definition serve (s : KVStore) (r : request) : option ((kv.Status * list Z) * KVStore) :=
  match r with
  | RPut k v size => '(st, s') ← Put s k v size; Some ((st, []), s')
  | RGet k b => out ← Get s k b; Some (out, s)
  end.

Definition spec_serve (cap : Z) (m : gmap Z (list Z)) (r : request)
    : (kv.Status * list Z) * gmap Z (list Z) :=
  match r with
  | RPut k v size => let '(st, m') := spec_Put cap m k v size in ((st, []), m')
  | RGet k b => (spec_Get m k b, m)
  end.

Fixpoint serve_all (s : KVStore) (rs : list request) : option (list (kv.Status * list Z) * KVStore) :=
  match rs with
  | [] => Some ([], s)
  | r :: rs =>
      '(out, s) ← serve s r;
      '(outs, s) ← serve_all s rs;
      Some (out :: outs, s)
  end.

Fixpoint spec_serve_all (cap : Z) (m : gmap Z (list Z)) (rs : list request)
    : list (kv.Status * list Z) * gmap Z (list Z) :=
  match rs with
  | [] => ([], m)
  | r :: rs =>
      let '(out, m) := spec_serve cap m r in
      let '(outs, m) := spec_serve_all cap m rs in
      (out :: outs, m)
  end.

End spec.

(** ** Probing *)

(** The hash is never unfolded by a proof: nothing depends on its values. *)
#[global] Opaque KVStore.HashKey.

Section probing.
Import KVStore.
Implicit Types (s : KVStore) (e : Entry).

Lemma probe_range s k j : shape s -> 0 <= probe s k j < hash_table_size_ s.
Proof.
  intros [(b & Hb & Hs) _ _]. apply Z.mod_pos_bound. rewrite Hs. apply Z.pow_pos_nonneg; lia.
Qed.

Lemma shape_size_bound s : shape s -> 0 < hash_table_size_ s <= 2 ^ 63.
Proof.
  intros [(b & Hb & ->) _ _]. split; [apply Z.pow_pos_nonneg; lia|].
  apply Z.pow_le_mono_r; lia.
Qed.

Lemma land_mask_size s x : shape s -> Z.land x (hash_mask_ s) = x mod hash_table_size_ s.
Proof.
  intros [(b & Hb & Hs) -> _]. rewrite Hs.
  replace (2 ^ b - 1) with (Z.ones b) by (rewrite Z.ones_equiv; lia). apply Z.land_ones. lia.
Qed.

(** The loop starts at the first probe and steps to the next one. *)
Lemma probe_start s k : shape s -> Z.land (HashKey k) (hash_mask_ s) = probe s k 0.
Proof. intros Hs. rewrite land_mask_size by done. unfold probe. f_equal. lia. Qed.

Lemma probe_next s k j :
  shape s -> Z.land (u64 (probe s k j + 1)) (hash_mask_ s) = probe s k (j + 1).
Proof.
  intros Hs. pose proof (probe_range s k j Hs). pose proof (shape_size_bound s Hs).
  rewrite land_mask_size by done. rewrite wrap_id by (unfold is_u; lia). unfold probe.
  rewrite Zplus_mod_idemp_l. f_equal. lia.
Qed.

(** Every position of the table is probed. *)
Lemma probe_surj s k i :
  shape s -> 0 <= i < hash_table_size_ s -> exists j, 0 <= j < hash_table_size_ s /\ i = probe s k j.
Proof.
  intros Hs Hi. exists ((i - HashKey k) mod hash_table_size_ s).
  pose proof (shape_size_bound s Hs). split; [apply Z.mod_pos_bound; lia|].
  unfold probe. rewrite Zplus_mod_idemp_r. replace (HashKey k + (i - HashKey k)) with i by lia.
  symmetry. by apply Z.mod_small.
Qed.

Lemma probe_entry s k j : shape s -> exists e, aget (hash_table_ s) (probe s k j) = Some e.
Proof.
  intros Hs. apply aget_is_Some. pose proof (probe_range s k j Hs). destruct Hs as [_ _ Hl]. lia.
Qed.

(** What the lookup loop returns from probe [j] on: a live entry of the key, or
    the null pointer when no probe up to the first empty entry holds the key. *)
Lemma FindEntry_loop_spec s k n j :
  shape s -> 0 <= j -> j + Z.of_nat n = hash_table_size_ s ->
  match FindEntry_loop s k n (probe s k j) with
  | None => False
  | Some (Some i) => exists e, aget (hash_table_ s) i = Some e /\ occupied e = true
                       /\ key e = k /\ deleted e = false
  | Some None => forall m e, j <= m < hash_table_size_ s ->
      (forall m', j <= m' < m -> exists e', aget (hash_table_ s) (probe s k m') = Some e'
                                   /\ occupied e' = true) ->
      aget (hash_table_ s) (probe s k m) = Some e -> occupied e = true -> deleted e = false ->
      key e <> k
  end.
Proof.
  intros Hs. revert j. induction n as [|n IH]; intros j Hj Hn; cbn [FindEntry_loop].
  { intros m e Hm. lia. }
  destruct (probe_entry s k j Hs) as [e He]. rewrite He. cbn.
  destruct (occupied e) eqn:Ho; cbn.
  2:{ intros m e' Hm Hocc He' Ho'. destruct (decide (m = j)) as [->|]; [congruence|].
      destruct (Hocc j) as (e'' & ? & ?); [lia|]. congruence. }
  destruct ((key e =? k) && negb (deleted e)) eqn:Ek.
  { apply andb_true_iff in Ek as [?%Z.eqb_eq ?%negb_true_iff]. eauto. }
  rewrite probe_next by done. specialize (IH (j + 1) ltac:(lia) ltac:(lia)).
  destruct (FindEntry_loop _ _ _ _) as [[i|]|]; [done| |done].
  intros m e' Hm Hocc He' Ho' Hd'. destruct (decide (m = j)) as [->|].
  - assert (e' = e) as -> by congruence. rewrite Hd', andb_true_r in Ek. by apply Z.eqb_neq in Ek.
  - apply (IH m e'); [lia| |done..]. intros m' ?. apply Hocc. lia.
Qed.

Lemma FindFree_loop_spec s k n j :
  shape s -> 0 <= j -> j + Z.of_nat n = hash_table_size_ s ->
  match FindFree_loop s n (probe s k j) with
  | None => False
  | Some (Some i) => exists m e, j <= m < hash_table_size_ s /\ i = probe s k m
      /\ aget (hash_table_ s) i = Some e /\ (occupied e = false \/ deleted e = true)
      /\ forall m', j <= m' < m ->
           exists e', aget (hash_table_ s) (probe s k m') = Some e' /\ occupied e' = true
  | Some None => forall m, j <= m < hash_table_size_ s ->
      exists e, aget (hash_table_ s) (probe s k m) = Some e /\ occupied e = true
  end.
Proof.
  intros Hs. revert j. induction n as [|n IH]; intros j Hj Hn; cbn [FindFree_loop].
  { intros m Hm. lia. }
  destruct (probe_entry s k j Hs) as [e He]. rewrite He. cbn.
  destruct (negb (occupied e) || deleted e) eqn:Ho; cbn.
  { exists j, e. split; [lia|]. split; [done|]. split; [done|]. split; [|intros; lia].
    apply orb_true_iff in Ho as [?%negb_true_iff|?]; auto. }
  apply orb_false_iff in Ho as [Ho%negb_false_iff _].
  rewrite probe_next by done. specialize (IH (j + 1) ltac:(lia) ltac:(lia)).
  assert (forall m', j <= m' -> m' < j + 1 ->
            exists e', aget (hash_table_ s) (probe s k m') = Some e' /\ occupied e' = true) as Hj'.
  { intros m' ??. assert (m' = j) as -> by lia. eauto. }
  destruct (FindFree_loop _ _ _) as [[i|]|]; [| |done].
  - destruct IH as (m & e' & Hm & -> & He' & Hfree & Hocc). exists m, e'.
    split; [lia|]. do 3 (split; [done|]). intros m' ?.
    destruct (decide (m' = j)); [apply Hj'|apply Hocc]; lia.
  - intros m Hm. destruct (decide (m = j)); [apply Hj'|apply IH]; lia.
Qed.

(** [FindLive] finds the live entry of a key, and nothing else. *)
Lemma FindLive_spec s k :
  inv s ->
  (exists i e, FindLive s k = Some (Some (i, e)) /\ aget (hash_table_ s) i = Some e
     /\ occupied e = true /\ key e = k)
  \/ (FindLive s k = Some None
      /\ forall i e, aget (hash_table_ s) i = Some e -> occupied e = true -> key e <> k).
Proof.
  intros Hi. pose proof (inv_shape s Hi) as Hs. pose proof (shape_size_bound s Hs).
  pose proof (FindEntry_loop_spec s k (Z.to_nat (hash_table_size_ s)) 0 Hs ltac:(lia) ltac:(lia)) as HF.
  unfold FindLive, FindEntry. rewrite probe_start by done.
  destruct (FindEntry_loop _ _ _ _) as [[i|]|]; [| |done]; cbn.
  - left. destruct HF as (e & He & Ho & Hk & Hd). exists i, e. rewrite He. cbn. by rewrite Ho, Hd.
  - right. split; [done|]. intros i e He Ho Hk. subst k.
    destruct (inv_chain s Hi i e He Ho) as (j & Hj & -> & Hocc).
    by eapply (HF j e); eauto using inv_deleted.
Qed.

Lemma FindFree_spec s k :
  inv s ->
  (exists m e, FindFree s k = Some (Some (probe s k m)) /\ 0 <= m < hash_table_size_ s
     /\ aget (hash_table_ s) (probe s k m) = Some e /\ occupied e = false
     /\ forall m', 0 <= m' < m ->
          exists e', aget (hash_table_ s) (probe s k m') = Some e' /\ occupied e' = true)
  \/ (FindFree s k = Some None
      /\ forall i e, aget (hash_table_ s) i = Some e -> occupied e = true).
Proof.
  intros Hi. pose proof (inv_shape s Hi) as Hs. pose proof (shape_size_bound s Hs).
  pose proof (FindFree_loop_spec s k (Z.to_nat (hash_table_size_ s)) 0 Hs ltac:(lia) ltac:(lia)) as HF.
  unfold FindFree. rewrite probe_start by done.
  destruct (FindFree_loop _ _ _) as [[i|]|]; [| |done].
  - left. destruct HF as (m & e & Hm & -> & He & [Ho|Hd] & Hocc); [by eauto 8|].
    rewrite (inv_deleted s Hi _ _ He) in Hd. done.
  - right. split; [done|]. intros i e He.
    destruct (probe_surj s k i Hs) as (j & Hj & ->).
    { apply aget_lt in He. destruct Hs as [_ _ Hl]. lia. }
    destruct (HF j Hj) as (e' & ? & ?). congruence.
Qed.

End probing.

(** ** The map view *)

Section view.
Import KVStore.
Implicit Types (s : KVStore) (e : Entry).

Lemma elem_of_live s e :
  e ∈ live_entries s <-> exists i, aget (hash_table_ s) i = Some e /\ occupied e = true.
Proof.
  unfold live_entries. rewrite list_elem_of_filter, elem_of_aget. naive_solver.
Qed.

Lemma live_keys_NoDup s : inv s -> NoDup (key <$> live_entries s).
Proof.
  intros Hi. apply NoDup_fmap_filter. intros i j e e' He He' Ho Ho' Hk.
  assert (Z.of_nat i = Z.of_nat j); [|lia].
  eapply (inv_key s Hi); eauto using aget_of_nat.
Qed.

Lemma view_keys s : ((λ e, (key e, value_of s e)) <$> live_entries s).*1 = key <$> live_entries s.
Proof. rewrite <- list_fmap_compose. done. Qed.

Lemma view_lookup s k v :
  inv s ->
  view s !! k = Some v <->
  exists i e, aget (hash_table_ s) i = Some e /\ occupied e = true /\ key e = k /\ value_of s e = v.
Proof.
  intros Hi. unfold view. rewrite <- elem_of_list_to_map.
  2:{ rewrite view_keys. by apply live_keys_NoDup. }
  rewrite list_elem_of_fmap. setoid_rewrite elem_of_live. naive_solver.
Qed.

Lemma view_lookup_None s k :
  inv s ->
  (forall i e, aget (hash_table_ s) i = Some e -> occupied e = true -> key e <> k) ->
  view s !! k = None.
Proof.
  intros Hi Hk. apply eq_None_not_Some. intros (v & (i & e & He & Ho & Hek & _)%view_lookup);
    [|done]. by eapply Hk.
Qed.

Lemma view_size s : inv s -> base.size (view s) = length (live_entries s).
Proof.
  intros Hi. unfold view. rewrite map_size_list_to_map, length_fmap; [done|].
  rewrite view_keys. by apply live_keys_NoDup.
Qed.

Lemma free_and_view s :
  inv s -> Z.of_nat (length (free_slots_ s)) + Z.of_nat (base.size (view s)) = num_slots_ s.
Proof.
  intros Hi. rewrite view_size by done. pose proof (Permutation_length (inv_slots s Hi)) as Hl.
  rewrite length_app, length_fmap, length_seqZ in Hl. pose proof (inv_cap s Hi). lia.
Qed.

Lemma slots_NoDup s : inv s -> NoDup (free_slots_ s ++ (slot_index <$> live_entries s)).
Proof. intros Hi. rewrite (inv_slots s Hi). apply NoDup_seqZ. Qed.

Lemma slot_range s x :
  inv s -> x ∈ free_slots_ s ++ (slot_index <$> live_entries s) -> 0 <= x < num_slots_ s.
Proof. intros Hi. rewrite (inv_slots s Hi), elem_of_seqZ. lia. Qed.

Lemma live_slot_range s i e :
  inv s -> aget (hash_table_ s) i = Some e -> occupied e = true -> 0 <= slot_index e < num_slots_ s.
Proof.
  intros Hi He Ho. apply (slot_range s); [done|]. apply elem_of_app. right.
  apply list_elem_of_fmap. exists e. split; [done|]. apply elem_of_live. eauto.
Qed.

(** Distinct live entries own distinct slots. *)
Lemma live_slot_inj s i i' e e' :
  inv s -> aget (hash_table_ s) i = Some e -> aget (hash_table_ s) i' = Some e' ->
  occupied e = true -> occupied e' = true -> slot_index e = slot_index e' -> i = i'.
Proof.
  intros Hi He He' Ho Ho' Hs. eapply (inv_key s Hi); eauto. f_equal.
  pose proof (slots_NoDup s Hi) as Hn. apply NoDup_app in Hn as (_ & _ & Hn).
  eapply (NoDup_fmap_inj_on slot_index); [exact Hn| | |done]; apply elem_of_live; eauto.
Qed.

Lemma GetSlotPtr_eq s slot :
  inv s -> 0 <= slot < num_slots_ s -> GetSlotPtr s slot = slot * slot_size (config_ s).
Proof.
  intros Hi Hs. unfold GetSlotPtr. apply wrap_id. unfold is_u. pose proof (inv_fits s Hi).
  pose proof (inv_slot_size s Hi). nia.
Qed.

Lemma GetSlotPtr_config s s' slot :
  config_ s' = config_ s -> GetSlotPtr s' slot = GetSlotPtr s slot.
Proof. unfold GetSlotPtr. by intros ->. Qed.

(** A slot lies inside the pool. *)
Lemma slot_in_pool s slot size :
  inv s -> 0 <= slot < num_slots_ s -> 0 <= size <= slot_size (config_ s) ->
  0 <= slot * slot_size (config_ s)
  /\ slot * slot_size (config_ s) + size <= Z.of_nat (length (storage_pool_ s)).
Proof.
  intros Hi Hs Hz. rewrite (inv_pool s Hi). pose proof (inv_fits s Hi).
  assert ((slot + 1) * slot_size (config_ s) <= num_slots_ s * slot_size (config_ s))
    by (apply Z.mul_le_mono_nonneg_r; lia). nia.
Qed.

Lemma value_of_length s i e :
  inv s -> aget (hash_table_ s) i = Some e -> occupied e = true ->
  mread (storage_pool_ s) (GetSlotPtr s (slot_index e)) (value_size e) = Some (value_of s e)
  /\ Z.of_nat (length (value_of s e)) = value_size e.
Proof.
  intros Hi He Ho. pose proof (live_slot_range s i e Hi He Ho) as Hr.
  rewrite GetSlotPtr_eq by done. assert (e ∈ live_entries s) as Hl by (apply elem_of_live; eauto).
  pose proof (slot_in_pool s _ _ Hi Hr (inv_value s Hi e Hl)) as Hp.
  pose proof (inv_value s Hi e Hl). unfold value_of, mread. rewrite decide_True by lia. simpl.
  split; [done|]. rewrite length_take, length_drop. lia.
Qed.

(** Writing a value into the slot of the entry stored at [i] updates the map at
    its key only. *)
Lemma view_store s i e0 e data pool free used bytes :
  inv s -> inv (store_at s i e pool free used bytes) ->
  aget (hash_table_ s) i = Some e0 -> (occupied e0 = true -> key e0 = key e) ->
  occupied e = true ->
  memcpy (storage_pool_ s) (slot_index e * slot_size (config_ s)) data (value_size e) = Some pool ->
  view (store_at s i e pool free used bytes)
  = <[key e := take (Z.to_nat (value_size e)) data]> (view s).
Proof.
  intros Hi Hi' He0 Hk Ho Hcpy. set (s' := store_at _ _ _ _ _ _ _) in *.
  assert (forall j, aget (hash_table_ s') j = if decide (i = j) then Some e else aget (hash_table_ s) j)
    as Hget by (intros j; apply aget_insert; by eapply aget_lt).
  assert (value_of s' e = take (Z.to_nat (value_size e)) data) as Hv.
  { unfold value_of. simpl. by erewrite mread_memcpy. }
  assert (forall j e', j <> i -> aget (hash_table_ s) j = Some e' -> occupied e' = true ->
            value_of s' e' = value_of s e') as Hother.
  { intros j e' Hj He' Ho'. unfold value_of. simpl. erewrite mread_memcpy_disjoint; [done..|].
    assert (e' ∈ live_entries s) as Hl by (apply elem_of_live; eauto).
    assert (e ∈ live_entries s') as Hl'.
    { apply elem_of_live. exists i. rewrite Hget, decide_True; done. }
    pose proof (inv_value s Hi e' Hl). pose proof (inv_value s' Hi' e Hl') as Hz. simpl in Hz.
    assert (slot_index e' <> slot_index e).
    { intros E. apply Hj. eapply (live_slot_inj s' j i e' e); [done|..|done].
      - by rewrite Hget, decide_False.
      - by rewrite Hget, decide_True.
      - done.
      - done. }
    nia. }
  apply map_eq. intros k. apply option_eq. intros v. rewrite view_lookup by done.
  rewrite lookup_insert. case_decide as Hkk.
  - subst k. split.
    + intros (j & e' & He' & Ho' & Hk' & Hv'). rewrite Hget in He'.
      assert (j = i) as ->.
      { eapply (inv_key s' Hi' j i e' e); rewrite ?Hget; [done| |done..]. by rewrite decide_True. }
      rewrite decide_True in He' by done. congruence.
    + intros [= <-]. exists i, e. rewrite Hget, decide_True; done.
  - rewrite view_lookup by done. split; intros (j & e' & He' & Ho' & Hk' & Hv').
    + rewrite Hget in He'. case_decide as Hij; [congruence|].
      exists j, e'. erewrite <- Hother; eauto.
    + exists j, e'. assert (j <> i) as Hj by (intros ->; rewrite He0 in He'; naive_solver).
      rewrite Hget, decide_False by done. erewrite Hother; eauto.
Qed.

End view.

(** ** Writing an entry *)

Section store.
Import KVStore.
Implicit Types (s : KVStore) (e : Entry).

Lemma store_get s i e pool free used bytes j e0 :
  aget (hash_table_ s) i = Some e0 ->
  aget (hash_table_ (store_at s i e pool free used bytes)) j
  = if decide (i = j) then Some e else aget (hash_table_ s) j.
Proof. intros He0. apply aget_insert. by eapply aget_lt. Qed.

Lemma live_store s i e0 e pool free used bytes :
  aget (hash_table_ s) i = Some e0 -> occupied e = true ->
  exists l1 l2, live_entries s = l1 ++ (if occupied e0 then [e0] else []) ++ l2
    /\ live_entries (store_at s i e pool free used bytes) = l1 ++ [e] ++ l2.
Proof.
  intros [_ Hi]%aget_Some Ho.
  destruct (filter_insert_split (λ e, occupied e = true) _ _ _ Hi) as (l1 & l2 & E1 & E2).
  exists l1, l2. unfold live_entries. rewrite E1. simpl hash_table_. rewrite E2.
  rewrite !filter_cons, !filter_nil, Ho. split; [|done]. by destruct (occupied e0).
Qed.

Lemma inv_store s i e0 e pool free used bytes :
  let s' := store_at s i e pool free used bytes in
  inv s -> aget (hash_table_ s) i = Some e0 -> occupied e = true -> deleted e = false ->
  (exists j, 0 <= j < hash_table_size_ s /\ i = probe s (key e) j
     /\ forall j', 0 <= j' < j ->
          exists e', aget (hash_table_ s) (probe s (key e) j') = Some e' /\ occupied e' = true) ->
  (forall i' e', aget (hash_table_ s) i' = Some e' -> occupied e' = true -> key e' = key e -> i' = i) ->
  0 <= value_size e <= slot_size (config_ s) ->
  free ++ (slot_index <$> live_entries s') ≡ₚ seqZ 0 (num_slots_ s) ->
  length pool = length (storage_pool_ s) ->
  used = Z.of_nat (length (live_entries s')) ->
  bytes = u64 (sumZ (value_size <$> live_entries s')) -> inv s'.
Proof.
  intros s' Hi He0 Ho Hd Hc Hu Hv Hf Hp Hus Hb.
  assert (forall j, aget (hash_table_ s') j = if decide (i = j) then Some e else aget (hash_table_ s) j)
    as Hget by (intros; by eapply store_get).
  assert (forall k j, probe s' k j = probe s k j) as Hpr by done.
  (* occupied positions stay occupied *)
  assert (forall j, (exists e', aget (hash_table_ s) j = Some e' /\ occupied e' = true) ->
            exists e', aget (hash_table_ s') j = Some e' /\ occupied e' = true) as Hocc.
  { intros j (e' & ? & ?). rewrite Hget. case_decide; eauto. }
  constructor.
  - destruct (inv_shape s Hi) as [H1 H2 H3]. split; [done..|]. simpl. by rewrite length_insert.
  - intros j e'. rewrite Hget. case_decide; [congruence|]. by apply (inv_deleted s Hi).
  - intros j e'. rewrite Hget. case_decide as Hij.
    + intros [= <-] _. subst j. destruct Hc as (m & Hm & E & Hoc). exists m.
      split; [exact Hm|]. split; [exact E|]. intros j' Hj'. rewrite Hpr. by apply Hocc, Hoc.
    + intros He' Ho'. destruct (inv_chain s Hi j e' He' Ho') as (m & Hm & E & Hoc). exists m.
      split; [exact Hm|]. split; [exact E|]. intros j' Hj'. rewrite Hpr. by apply Hocc, Hoc.
  - intros j j' e1 e2. rewrite !Hget. do 2 case_decide; [congruence|..].
    + intros [= <-] He2 _ Ho2 Hk. subst j. symmetry. by eapply Hu.
    + intros He1 [= <-] Ho1 _ Hk. subst j'. by eapply Hu.
    + by apply (inv_key s Hi).
  - intros e' (j & Hj & Ho')%elem_of_live. rewrite Hget in Hj. case_decide; [naive_solver|].
    apply (inv_value s Hi e'). apply elem_of_live. eauto.
  - exact Hf.
  - simpl. rewrite Hp. apply (inv_pool s Hi).
  - apply (inv_fits s Hi).
  - apply (inv_slot_size s Hi).
  - apply (inv_cap s Hi).
  - exact Hus.
  - exact Hb.
Qed.

(** The update of an existing key. *)
Lemma inv_update s i e0 size pool :
  let s' := store_at s i (set_value_size e0 size) pool (free_slots_ s) (used_slots_ s)
              (u64 (u64 (used_bytes_ s - value_size e0) + size)) in
  inv s -> aget (hash_table_ s) i = Some e0 -> occupied e0 = true ->
  0 <= size <= slot_size (config_ s) -> length pool = length (storage_pool_ s) -> inv s'.
Proof.
  intros s' Hi He0 Ho Hs Hp.
  destruct (live_store s i e0 (set_value_size e0 size) pool (free_slots_ s) (used_slots_ s)
    (u64 (u64 (used_bytes_ s - value_size e0) + size)) He0 Ho) as (l1 & l2 & E1 & E2).
  rewrite Ho in E1. apply (inv_store s i e0); [done|done|done| | | |done| |done| |].
  - exact (inv_deleted s Hi i e0 He0).
  - apply (inv_chain s Hi i e0 He0 Ho).
  - intros i' e' He' Ho' Hk. by eapply (inv_key s Hi).
  - rewrite E2, <- (inv_slots s Hi), E1, !fmap_app. done.
  - rewrite E2, (inv_used s Hi), E1, !length_app. done.
  - rewrite E2, (inv_bytes s Hi), E1, !fmap_app, !sumZ_app. simpl. rewrite wrap_add_l.
    rewrite <- Z.add_opp_r, <- Z.add_assoc, wrap_add_l. f_equal. lia.
Qed.

(** The insertion of a fresh key in the first free entry of its probe sequence. *)
Lemma inv_insert s k m e0 free slot size pool :
  let s' := store_at s (probe s k m) (new_entry k slot size) pool free
              (u64 (used_slots_ s + 1)) (u64 (used_bytes_ s + size)) in
  inv s -> 0 <= m < hash_table_size_ s ->
  aget (hash_table_ s) (probe s k m) = Some e0 -> occupied e0 = false ->
  (forall m', 0 <= m' < m ->
     exists e', aget (hash_table_ s) (probe s k m') = Some e' /\ occupied e' = true) ->
  (forall i e, aget (hash_table_ s) i = Some e -> occupied e = true -> key e <> k) ->
  free_slots_ s = free ++ [slot] ->
  0 <= size <= slot_size (config_ s) -> length pool = length (storage_pool_ s) -> inv s'.
Proof.
  intros s' Hi Hm He0 Ho Hocc Hk Hf Hs Hp.
  destruct (live_store s (probe s k m) e0 (new_entry k slot size) pool free
    (u64 (used_slots_ s + 1)) (u64 (used_bytes_ s + size)) He0 eq_refl) as (l1 & l2 & E1 & E2).
  rewrite Ho in E1. simpl in E1.
  apply (inv_store s (probe s k m) e0); [done|done|done|done| | |done| |done| |].
  - by exists m.
  - intros i' e' He' Ho' Hk'. by destruct (Hk i' e' He' Ho').
  - rewrite E2, <- (inv_slots s Hi), E1, Hf, !fmap_app, <- app_assoc. simpl.
    apply Permutation_app_head. by rewrite <- Permutation_middle.
  - rewrite E2, (inv_used s Hi), E1, !length_app. simpl.
    pose proof (free_and_view s Hi) as Hn. rewrite view_size in Hn by done.
    rewrite E1, Hf, !length_app in Hn. pose proof (inv_cap s Hi).
    pose proof (shape_size_bound s (inv_shape s Hi)).
    rewrite wrap_id; [lia|]. unfold is_u. simpl in Hn. lia.
  - rewrite E2, (inv_bytes s Hi), E1, !fmap_app, !sumZ_app. simpl. rewrite wrap_add_l.
    f_equal. lia.
Qed.

End store.

(** ** The operations against the specification *)

Section operations.
Import KVStore.
Implicit Types (s : KVStore) (e : Entry).

Lemma free_nil_iff s :
  inv s -> (free_slots_ s = [] <-> Z.of_nat (base.size (view s)) = num_slots_ s).
Proof.
  intros Hi. pose proof (free_and_view s Hi). destruct (free_slots_ s); simpl in *; split; intros; try done; lia.
Qed.

(** A fresh key finds an empty entry whenever a slot is free. *)
Lemma free_entry s k :
  inv s -> free_slots_ s <> [] ->
  exists m e, FindFree s k = Some (Some (probe s k m)) /\ 0 <= m < hash_table_size_ s
    /\ aget (hash_table_ s) (probe s k m) = Some e /\ occupied e = false
    /\ forall m', 0 <= m' < m ->
         exists e', aget (hash_table_ s) (probe s k m') = Some e' /\ occupied e' = true.
Proof.
  intros Hi Hf. destruct (FindFree_spec s k Hi) as [H|[_ Hall]]; [done|]. exfalso.
  assert (live_entries s = hash_table_ s) as Hl.
  { apply filter_Forall_id, Forall_forall. intros e [i He]%elem_of_aget. by eapply Hall. }
  pose proof (free_and_view s Hi) as Hn. rewrite view_size, Hl in Hn by done.
  pose proof (sh_len s (inv_shape s Hi)). pose proof (inv_cap s Hi).
  destruct (free_slots_ s); [done|]. simpl in Hn. lia.
Qed.

Lemma last_slot_range s free slot :
  inv s -> free_slots_ s = free ++ [slot] -> 0 <= slot < num_slots_ s.
Proof.
  intros Hi Hf. apply (slot_range s); [done|]. rewrite Hf. set_solver.
Qed.

(** [Put] on a key that is present: the value is overwritten in its slot. *)
Lemma Put_update s k data size i e :
  inv s -> kv.IsValidValueSize size = true -> free_slots_ s <> [] ->
  FindLive s k = Some (Some (i, e)) -> aget (hash_table_ s) i = Some e -> occupied e = true ->
  0 <= size <= Z.of_nat (length data) -> size <= slot_size (config_ s) ->
  exists pool,
    memcpy (storage_pool_ s) (slot_index e * slot_size (config_ s)) data size = Some pool
    /\ Put s k data size = Some (kv.OK, store_at s i (set_value_size e size) pool (free_slots_ s)
         (used_slots_ s) (u64 (u64 (used_bytes_ s - value_size e) + size))).
Proof.
  intros Hi Hv Hf HL He Ho Hsz Hfit. pose proof (live_slot_range s i e Hi He Ho) as Hr.
  pose proof (slot_in_pool s _ size Hi Hr ltac:(lia)) as Hp.
  destruct (memcpy_defined (storage_pool_ s) (slot_index e * slot_size (config_ s)) data size)
    as [pool Hcpy]; [lia..|].
  exists pool. split; [done|]. unfold Put. rewrite Hv, bool_decide_false, HL by done. cbn [mbind option_bind negb].
  rewrite GetSlotPtr_eq, Hcpy by done. cbn [mbind option_bind]. 
  rewrite aset_Some by (by eapply aget_lt). reflexivity.
Qed.

(** [Put] on a fresh key: the top of the free stack becomes its slot. *)
Lemma Put_insert s k data size i e free slot :
  inv s -> kv.IsValidValueSize size = true -> free_slots_ s = free ++ [slot] ->
  FindLive s k = Some None -> FindFree s k = Some (Some i) -> aget (hash_table_ s) i = Some e ->
  0 <= size <= Z.of_nat (length data) -> size <= slot_size (config_ s) ->
  exists pool,
    memcpy (storage_pool_ s) (slot * slot_size (config_ s)) data size = Some pool
    /\ Put s k data size = Some (kv.OK, store_at s i (new_entry k slot size) pool free
         (u64 (used_slots_ s + 1)) (u64 (used_bytes_ s + size))).
Proof.
  intros Hi Hv Hf HL HF He Hsz Hfit. pose proof (last_slot_range s free slot Hi Hf) as Hr.
  pose proof (slot_in_pool s _ size Hi Hr ltac:(lia)) as Hp.
  destruct (memcpy_defined (storage_pool_ s) (slot * slot_size (config_ s)) data size)
    as [pool Hcpy]; [lia..|].
  exists pool. split; [done|]. unfold Put.
  rewrite Hv, bool_decide_false, HL by (rewrite Hf; by destruct free). cbn [mbind option_bind negb].
  rewrite HF, Hf, vec_pop_back_snoc. cbn [mbind option_bind].
  replace (GetSlotPtr (set_free s free) slot) with (GetSlotPtr s slot) by reflexivity.
  rewrite GetSlotPtr_eq by done. cbn [set_free storage_pool_]. rewrite Hcpy. cbn [mbind option_bind].
  cbn [set_pool set_free hash_table_]. rewrite aset_Some by (by eapply aget_lt). reflexivity.
Qed.

Lemma Put_spec s k data size :
  inv s -> 0 <= size <= Z.of_nat (length data) -> size <= slot_size (config_ s) ->
  exists st s', Put s k data size = Some (st, s') /\ inv s' /\ num_slots_ s' = num_slots_ s
    /\ config_ s' = config_ s /\ spec_Put (num_slots_ s) (view s) k data size = (st, view s').
Proof.
  intros Hi Hsz Hfit. unfold spec_Put.
  destruct (kv.IsValidValueSize size) eqn:Hv; cbn [negb].
  2:{ exists kv.INVALID_REQUEST, s. unfold Put. by rewrite Hv. }
  destruct (decide (free_slots_ s = [])) as [Hf|Hf].
  { exists kv.NO_SPACE, s. unfold Put. rewrite Hv, bool_decide_true by done.
    apply free_nil_iff in Hf as ->; [|done]. by rewrite Z.eqb_refl. }
  rewrite (proj2 (Z.eqb_neq _ _)) by (by rewrite <- free_nil_iff).
  destruct (FindLive_spec s k Hi) as [(i & e & HL & He & Ho & <-)|[HL Hk]].
  - destruct (Put_update s (key e) data size i e) as (pool & Hcpy & ->); try done.
    pose proof (inv_update s i e size pool Hi He Ho ltac:(lia)
      (proj1 (memcpy_Some _ _ _ _ _ Hcpy))) as Hi'.
    eexists _, _. do 4 (split; [done|]). f_equal. symmetry.
    by eapply (view_store s i e (set_value_size e size)).
  - destruct (free_entry s k Hi Hf) as (m & e & HF & Hm & He & Ho & Hocc).
    destruct (exists_last Hf) as (free & slot & Epop).
    destruct (Put_insert s k data size (probe s k m) e free slot) as (pool & Hcpy & ->); try done.
    pose proof (inv_insert s k m e free slot size pool Hi Hm He Ho Hocc Hk Epop ltac:(lia)
      (proj1 (memcpy_Some _ _ _ _ _ Hcpy))) as Hi'.
    eexists _, _. do 4 (split; [done|]). f_equal. symmetry.
    eapply (view_store s (probe s k m) e (new_entry k slot size)); [done..| |done|done].
    by rewrite Ho.
Qed.

Lemma Get_spec s k buffer_size :
  inv s -> Get s k buffer_size = Some (spec_Get (view s) k buffer_size).
Proof.
  intros Hi. unfold Get, spec_Get.
  destruct (FindLive_spec s k Hi) as [(i & e & -> & He & Ho & Hk)|[-> Hk]]; simpl.
  - destruct (value_of_length s i e Hi He Ho) as [Hr Hl].
    rewrite (proj2 (view_lookup s k (value_of s e) Hi)) by eauto 8. rewrite Hl, Hr.
    by destruct (buffer_size <? value_size e).
  - by rewrite view_lookup_None.
Qed.

Lemma GetInfo_spec s k :
  inv s -> GetInfo s k = Some match view s !! k with
                              | Some v => (kv.OK, Z.of_nat (length v))
                              | None => (kv.NOT_FOUND, 0)
                              end.
Proof.
  intros Hi. unfold GetInfo.
  destruct (FindLive_spec s k Hi) as [(i & e & -> & He & Ho & Hk)|[-> Hk]]; simpl.
  - destruct (value_of_length s i e Hi He Ho) as [Hr Hl].
    rewrite (proj2 (view_lookup s k (value_of s e) Hi)) by eauto 8. by rewrite Hl.
  - by rewrite view_lookup_None.
Qed.

Lemma serve_spec s r :
  inv s -> request_ok (slot_size (config_ s)) r ->
  exists out s', serve s r = Some (out, s') /\ inv s' /\ num_slots_ s' = num_slots_ s
    /\ config_ s' = config_ s /\ spec_serve (num_slots_ s) (view s) r = (out, view s').
Proof.
  intros Hi Hr. destruct r as [k v size|k b]; simpl in *.
  - destruct (Put_spec s k v size Hi) as (st & s' & -> & ? & ? & ? & ->); [lia..|]. eauto 10.
  - rewrite Get_spec by done. eauto 10.
Qed.

Lemma serve_all_spec s rs :
  inv s -> Forall (request_ok (slot_size (config_ s))) rs ->
  exists outs s', serve_all s rs = Some (outs, s') /\ inv s' /\ num_slots_ s' = num_slots_ s
    /\ spec_serve_all (num_slots_ s) (view s) rs = (outs, view s').
Proof.
  intros Hi Hrs. revert s Hi Hrs. induction rs as [|r rs IH]; intros s Hi Hrs; simpl; [by exists [], s|].
  apply Forall_cons in Hrs as [Hr Hrs].
  destruct (serve_spec s r Hi Hr) as (out & s1 & -> & Hi1 & Hn & Hc & ->). simpl.
  destruct (IH s1 Hi1) as (outs & s2 & -> & Hi2 & Hn2 & E); [by rewrite Hc|].
  rewrite Hn in E, Hn2. rewrite E. simpl. eauto 8.
Qed.

End operations.

(** ** Initialisation *)

Section initialize.
Import KVStore.

(** One smearing step: after it, bit [j] is set when one of the [2 * k] bits
    from [j] up was set in [m]. *)
Lemma smear_step m x k :
  0 < k ->
  (forall j, 0 <= j -> Z.testbit x j = true <-> exists d, 0 <= d < k /\ Z.testbit m (j + d) = true) ->
  forall j, 0 <= j ->
    Z.testbit (Z.lor x (Z.shiftr x k)) j = true
    <-> exists d, 0 <= d < 2 * k /\ Z.testbit m (j + d) = true.
Proof.
  intros Hk Hx j Hj. rewrite Z.lor_spec, Z.shiftr_spec, orb_true_iff, !Hx by lia. split.
  - intros [(d & ? & Hd)|(d & ? & Hd)]; [exists d|exists (k + d)]; (split; [lia|]); [done|].
    by rewrite Z.add_assoc.
  - intros (d & ? & Hd). destruct (decide (d < k)); [left; exists d|right; exists (d - k)];
      (split; [lia|]); [done|]. by replace (j + k + (d - k)) with (j + d) by lia.
Qed.

Lemma smear_ones m x :
  0 < m < 2 ^ 64 ->
  (forall j, 0 <= j -> Z.testbit x j = true <-> exists d, 0 <= d < 64 /\ Z.testbit m (j + d) = true) ->
  x = Z.ones (Z.log2 m + 1).
Proof.
  intros Hm Hx. pose proof (Z.log2_nonneg m). assert (Z.log2 m < 64) by (apply Z.log2_lt_pow2; lia).
  apply Z.bits_inj'. intros j Hj. apply eq_true_iff_eq. rewrite Hx by done.
  rewrite Z.testbit_ones_nonneg by lia. rewrite Z.ltb_lt. split.
  - intros (d & ? & Hd). destruct (decide (Z.log2 m < j + d)); [|lia].
    by rewrite Z.bits_above_log2 in Hd by lia.
  - intros Hjm. exists (Z.log2 m - j). split; [lia|].
    replace (j + (Z.log2 m - j)) with (Z.log2 m) by lia. apply Z.bit_log2. lia.
Qed.

Lemma NextPowerOfTwo_log2 n : 1 <= n < 2 ^ 64 -> NextPowerOfTwo n = u64 (2 ^ Z.log2_up n).
Proof.
  intros Hn. unfold NextPowerOfTwo. rewrite (proj2 (Z.eqb_neq _ _)) by lia. cbv zeta. f_equal.
  destruct (decide (n = 1)) as [->|Hn1]; [done|].
  set (m := n - 1). transitivity (Z.ones (Z.log2 m + 1) + 1); [f_equal; apply smear_ones; [lia|]|].
  - apply (smear_step m _ 32); [lia|]. apply (smear_step m _ 16); [lia|].
    apply (smear_step m _ 8); [lia|]. apply (smear_step m _ 4); [lia|].
    apply (smear_step m _ 2); [lia|]. apply (smear_step m _ 1); [lia|].
    intros j Hj. split.
    + intros. exists 0. rewrite Z.add_0_r. split; [lia|done].
    + intros (d & ? & Hd). assert (d = 0) as -> by lia. by rewrite Z.add_0_r in Hd.
  - rewrite Z.ones_equiv. unfold Z.log2_up. rewrite (proj2 (Z.compare_lt_iff 1 n)) by lia.
    replace (Z.pred n) with m by (unfold m; lia). unfold Z.succ. lia.
Qed.

(** The table is a power of two with room for every slot. *)
Lemma table_size_ok c :
  config_ok c ->
  exists b, 0 <= b <= 63
    /\ (if cfg_hash_table_size c =? 0
        then NextPowerOfTwo (u64 (total_storage_size c / slot_size c * 2))
        else NextPowerOfTwo (cfg_hash_table_size c)) = 2 ^ b
    /\ total_storage_size c / slot_size c <= 2 ^ b.
Proof.
  intros (_ & _ & Hn & Hc). set (num := total_storage_size c / slot_size c) in *.
  assert (forall n, num <= n <= 2 ^ 63 -> exists b, 0 <= b <= 63 /\ NextPowerOfTwo n = 2 ^ b
            /\ num <= 2 ^ b) as Hpow.
  { intros n Hb. exists (Z.log2_up n). pose proof (Z.log2_up_nonneg n).
    assert (Z.log2_up n <= 63) by (apply Z.log2_up_le_pow2; lia).
    assert (n <= 2 ^ Z.log2_up n) by (apply Z.log2_up_le_pow2; lia).
    assert (2 ^ Z.log2_up n <= 2 ^ 63) by (apply Z.pow_le_mono_r; lia).
    rewrite NextPowerOfTwo_log2, wrap_id by (unfold is_u; lia). split; [lia|]. split; [done|lia]. }
  destruct (Z.eqb_spec (cfg_hash_table_size c) 0) as [_|Hne].
  - apply Hpow. rewrite wrap_id by (unfold is_u; lia). lia.
  - apply Hpow. lia.
Qed.

Lemma free_slots_perm num :
  0 <= num <= 2 ^ 32 -> (λ i, u32 (num - 1 - i)) <$> seqZ 0 num ≡ₚ seqZ 0 num.
Proof.
  intros Hn. assert (forall i, i ∈ seqZ 0 num -> u32 (num - 1 - i) = num - 1 - i) as Hid.
  { intros i Hi%elem_of_seqZ. apply wrap_id. unfold is_u. lia. }
  apply NoDup_Permutation; [|apply NoDup_seqZ|].
  - apply NoDup_fmap_2_strong; [|apply NoDup_seqZ]. intros x y Hx Hy. rewrite !Hid by done. lia.
  - intros x. rewrite list_elem_of_fmap. split.
    + intros (i & -> & Hi). rewrite Hid by done. rewrite elem_of_seqZ in *. lia.
    + intros Hx. exists (num - 1 - x). assert (num - 1 - x ∈ seqZ 0 num)
        by (rewrite elem_of_seqZ in *; lia). split; [rewrite Hid by done; lia|done].
Qed.

Lemma Initialize_spec alloc c :
  config_ok c -> alloc_ok alloc (total_storage_size c) ->
  exists s, Initialize alloc (KVStore_default c) c = Some (true, s) /\ inv s /\ view s = ∅
    /\ num_slots_ s = total_storage_size c / slot_size c /\ config_ s = c.
Proof.
  intros Hc (pool & Ha & Hp). destruct (table_size_ok c Hc) as (b & Hb & Hsz & Hcap).
  destruct Hc as (Hss & Ht & Hn & _). unfold Initialize.
  rewrite (proj2 (Z.eqb_neq _ _)) by lia. cbv zeta.
  rewrite (proj2 (Z.eqb_neq _ _)) by lia. rewrite Hsz, Ha.
  set (num := total_storage_size c / slot_size c) in *.
  eexists. split; [reflexivity|].
  assert (0 < 2 ^ b <= 2 ^ 63) by (split; [lia|apply Z.pow_le_mono_r; lia]).
  assert (forall i e, aget (replicate (Z.to_nat (2 ^ b)) empty_entry) i = Some e -> e = empty_entry)
    as Hrep by (intros i e [_ [-> _]%lookup_replicate]%aget_Some; done).
  assert (filter (λ e, occupied e = true) (replicate (Z.to_nat (2 ^ b)) empty_entry) = []) as Hlive.
  { clear. induction (Z.to_nat (2 ^ b)) as [|n IH]; [done|]. exact IH. }
  split; [|split; [|done]].
  2:{ unfold view, live_entries. cbn. by rewrite Hlive. }
  constructor; cbn.
  - constructor; cbn; [by exists b|apply wrap_id; unfold is_u; lia|]. rewrite length_replicate. lia.
  - by intros i e ->%Hrep.
  - by intros i e ->%Hrep.
  - by intros i i' e e' ->%Hrep ->%Hrep.
  - intros e. unfold live_entries. cbn. rewrite Hlive. by intros ?%elem_of_nil.
  - unfold live_entries. cbn. rewrite Hlive, app_nil_r. apply free_slots_perm. lia.
  - done.
  - unfold is_u in Ht. split; [|lia]. rewrite Z.mul_comm. apply Z.mul_div_le. lia.
  - done.
  - lia.
  - unfold live_entries. cbn. by rewrite Hlive.
  - unfold live_entries. cbn. by rewrite Hlive.
Qed.

End initialize.

(** ** Scatter-gather writes *)

Section sgl.
Import KVStore.

Lemma gather_length segments :
  Forall segment_ok segments -> Z.of_nat (length (gather segments)) = sumZ (iov_len <$> segments).
Proof.
  unfold gather. induction 1 as [|seg l Hseg _ IH]; [done|]. unfold segment_ok in Hseg.
  rewrite !fmap_cons, sumZ_cons. cbn [concat]. rewrite length_app, length_take. lia.
Qed.

Lemma sumZ_lens_nonneg segments : Forall segment_ok segments -> 0 <= sumZ (iov_len <$> segments).
Proof. intros H. rewrite <- gather_length by done. lia. Qed.

Lemma CalculatedSize_sum segments : CalculatedSize segments = u32 (sumZ (iov_len <$> segments)).
Proof.
  unfold CalculatedSize. cut (forall acc, foldl (λ acc seg, u32 (acc + iov_len seg)) (u32 acc) segments
    = u32 (acc + sumZ (iov_len <$> segments))).
  { intros H. exact (H 0). }
  induction segments as [|seg l IH]; intros acc; cbn [foldl]; [by rewrite Z.add_0_r|].
  rewrite fmap_cons, sumZ_cons, wrap_add_l, IH. f_equal. lia.
Qed.

(** Copying the segments one after the other is one copy of the gathered bytes. *)
Lemma CopySegments_gather pool p off segments :
  Forall segment_ok segments -> 0 <= p -> 0 <= off -> Z.of_nat (length pool) < 2 ^ 64 ->
  p + off + sumZ (iov_len <$> segments) <= Z.of_nat (length pool) ->
  CopySegments pool p off segments
  = memcpy pool (p + off) (gather segments) (sumZ (iov_len <$> segments)).
Proof.
  intros Hs. revert pool off. induction Hs as [|seg l Hseg Hl IH]; intros pool off Hp Ho H64 Hb;
    cbn [CopySegments].
  { unfold memcpy. rewrite decide_True by (cbn in *; lia).
    change (gather []) with (@nil Z). change (sumZ (iov_len <$> [])) with 0.
    rewrite Z.add_0_r, take_nil. cbn [app]. by rewrite take_drop. }
  pose proof (sumZ_lens_nonneg l Hl) as Hnn. pose proof Hseg as Hseg'. unfold segment_ok in Hseg'.
  rewrite fmap_cons, sumZ_cons in *. destruct (memcpy_defined pool (p + off) (iov_base seg) (iov_len seg)) as [pool1 H1]; [lia..|].
  pose proof (proj1 (memcpy_Some _ _ _ _ _ H1)) as Hlen.
  rewrite H1. cbn [mbind option_bind]. rewrite wrap_id by (unfold is_u; lia).
  rewrite IH by lia. rewrite Z.add_assoc. pose proof (gather_length l Hl).
  rewrite (memcpy_app pool (p + off) (iov_base seg) (iov_len seg)) by (done || lia). done.
Qed.

End sgl.

Section accounting.
Import KVStore.

Lemma used_bytes_view s : inv s -> used_bytes_ s = u64 (total_bytes (view s)).
Proof.
  intros Hi. rewrite (inv_bytes s Hi). f_equal. unfold total_bytes, view.
  rewrite map_to_list_to_map by (rewrite view_keys; by apply live_keys_NoDup).
  rewrite <- list_fmap_compose. f_equal. apply list_fmap_ext. intros n e He. cbn.
  assert (e ∈ live_entries s) as (i & Hg & Ho)%elem_of_live by (eapply list_elem_of_lookup_2; eauto).
  by destruct (value_of_length s i e Hi Hg Ho) as [_ ->].
Qed.

(** A configuration with four 4 KiB slots, for the examples. *)
Definition small_config : StoreConfig :=
  {| total_storage_size := 16384; slot_size := 4096; cfg_hash_table_size := 0 |}.

Definition zero_alloc (n : Z) : option (list Z) := Some (replicate (Z.to_nat n) 0).

Definition block (b : Z) : list Z := replicate (Z.to_nat 4096) b.

Definition full_requests : list request :=
  [RPut 1 (block 1) 4096; RPut 2 (block 2) 4096; RPut 3 (block 3) 4096; RPut 4 (block 4) 4096].

Lemma small_config_ok : config_ok small_config.
Proof. unfold config_ok, is_u. split_and!; try (vm_compute; congruence). by left. Qed.

Lemma zero_alloc_ok n : 0 <= n -> alloc_ok zero_alloc n.
Proof. intros Hn. eexists. split; [done|]. rewrite length_replicate. lia. Qed.

Definition small_store : KVStore :=
  match Initialize zero_alloc (KVStore_default small_config) small_config with
  | Some (_, s) => s
  | None => KVStore_default small_config
  end.

Lemma small_store_inv : inv small_store.
Proof.
  unfold small_store.
  destruct (Initialize_spec zero_alloc small_config small_config_ok (zero_alloc_ok 16384 ltac:(lia)))
    as (s & -> & Hi & _). exact Hi.
Qed.

End accounting.

(** ** Properties *)

Section properties.
Import KVStore.

(** C1: the store is a bounded map. From [Initialize] on, whatever sequence of
    [Put] and [Get] requests is served, no operation reads or writes outside the
    table, the pool or the free list, and the answers (status and bytes) are
    those of a finite map from keys to values that holds at most [num_slots_]
    keys: [Get] returns exactly the last value put, [NO_SPACE] is answered
    exactly when the map is full, keys never disturb one another. *)
Theorem kv_store_refines_map alloc c rs :
  config_ok c -> alloc_ok alloc (total_storage_size c) ->
  Forall (request_ok (slot_size c)) rs ->
  exists s outs s',
    Initialize alloc (KVStore_default c) c = Some (true, s)
    /\ serve_all s rs = Some (outs, s')
    /\ spec_serve_all (total_storage_size c / slot_size c) ∅ rs = (outs, view s').
Proof.
  intros Hc Ha Hrs. destruct (Initialize_spec alloc c Hc Ha) as (s & HI & Hi & Hv & Hn & Hcf).
  destruct (serve_all_spec s rs Hi) as (outs & s' & Hs & _ & _ & Hspec); [by rewrite Hcf|].
  rewrite Hn, Hv in Hspec. by exists s, outs, s'.
Qed.

Lemma kv_store_refines_map_witness :
  exists s outs s',
    Initialize zero_alloc (KVStore_default small_config) small_config = Some (true, s)
    /\ serve_all s [RPut 7 (block 1) 4096; RPut 23 (block 2) 4096; RPut 7 (block 3) 4096;
                     RGet 7 65536; RGet 8 65536; RPut 9 (block 1) 4095] = Some (outs, s')
    /\ outs = [(kv.OK, []); (kv.OK, []); (kv.OK, []); (kv.OK, block 3); (kv.NOT_FOUND, []);
               (kv.INVALID_REQUEST, [])].
Proof.
  destruct (kv_store_refines_map zero_alloc small_config
    [RPut 7 (block 1) 4096; RPut 23 (block 2) 4096; RPut 7 (block 3) 4096;
     RGet 7 65536; RGet 8 65536; RPut 9 (block 1) 4095]) as (s & outs & s' & HI & Hs & E).
  - exact small_config_ok.
  - apply zero_alloc_ok. vm_compute. discriminate.
  - forall_compute.
  - exists s, outs, s'. split; [exact HI|]. split; [exact Hs|].
    apply (f_equal fst) in E. cbn [fst] in E. rewrite <- E. vm_compute. reflexivity.
Defined.

(** the bookkeeping that the server prints is exact after any requests:
    [GetUsedSlots] is the number of keys present, used and free slots add up to
    [num_slots_], and [GetUsedBytes] is the total size of the stored values. *)
Theorem kv_store_accounting alloc c rs s outs s' :
  config_ok c -> alloc_ok alloc (total_storage_size c) ->
  Forall (request_ok (slot_size c)) rs ->
  Initialize alloc (KVStore_default c) c = Some (true, s) -> serve_all s rs = Some (outs, s') ->
  used_slots_ s' = Z.of_nat (base.size (view s'))
  /\ used_slots_ s' + Z.of_nat (length (free_slots_ s')) = total_storage_size c / slot_size c
  /\ used_bytes_ s' = u64 (total_bytes (view s')).
Proof.
  intros Hc Ha Hrs HI Hs. destruct (Initialize_spec alloc c Hc Ha) as (s1 & HI1 & Hi & Hv & Hn & Hcf).
  rewrite HI1 in HI. injection HI as ->.
  destruct (serve_all_spec s rs Hi) as (outs1 & s1 & HR & Hi' & Hn' & _); [by rewrite Hcf|].
  rewrite HR in Hs. injection Hs as -> ->.
  pose proof (free_and_view s' Hi') as Hfv. rewrite (inv_used s' Hi'), <- view_size by done.
  split; [done|]. split; [lia|]. by apply used_bytes_view.
Qed.

Lemma kv_store_accounting_witness :
  exists s outs s', serve_all s [RPut 7 (block 1) 4096; RPut 7 (block 2) 4096] = Some (outs, s')
    /\ used_slots_ s' = Z.of_nat (base.size (view s')).
Proof.
  destruct (Initialize_spec zero_alloc small_config small_config_ok (zero_alloc_ok 16384 ltac:(lia)))
    as (s & HI & Hi & _ & _ & Hcf).
  assert (Forall (request_ok (slot_size small_config))
            [RPut 7 (block 1) 4096; RPut 7 (block 2) 4096]) as Hrs
    by (forall_compute).
  destruct (serve_all_spec s [RPut 7 (block 1) 4096; RPut 7 (block 2) 4096] Hi)
    as (outs & s' & Hs & _); [by rewrite Hcf|].
  exists s, outs, s'. split; [exact Hs|].
  eapply (kv_store_accounting zero_alloc small_config _ s outs s' small_config_ok
    (zero_alloc_ok 16384 ltac:(lia)) Hrs HI Hs).
Defined.

(** C37: scatter-gather writes are plain writes. When the segment lengths add up
    to [total_size] without exceeding 32 bits, [PutSGL] answers and changes the
    store exactly as [Put] of the concatenated segments does. *)
Theorem PutSGL_equiv s k segments total_size :
  inv s -> segments <> [] -> Forall segment_ok segments ->
  sumZ (iov_len <$> segments) = total_size -> total_size < 2 ^ 32 ->
  total_size <= slot_size (config_ s) ->
  PutSGL s k segments total_size = Put s k (gather segments) total_size.
Proof.
  intros Hi Hne Hs Hsum H32 Hfit. pose proof (sumZ_lens_nonneg _ Hs) as Hnn.
  pose proof (gather_length _ Hs) as Hgl.
  assert (CalculatedSize segments = total_size) as Hcalc
    by (rewrite CalculatedSize_sum, Hsum; apply wrap_id; unfold is_u; lia).
  assert (forall s' slot, storage_pool_ s' = storage_pool_ s -> 0 <= slot < num_slots_ s ->
    CopySegments (storage_pool_ s') (slot * slot_size (config_ s)) 0 segments
    = memcpy (storage_pool_ s) (slot * slot_size (config_ s)) (gather segments) total_size) as Hcpy.
  { intros s' slot -> Hr. pose proof (slot_in_pool s slot total_size Hi Hr ltac:(lia)).
    pose proof (inv_pool s Hi). pose proof (inv_fits s Hi).
    rewrite CopySegments_gather by (done || lia). by rewrite Z.add_0_r, Hsum. }
  unfold PutSGL. destruct (kv.IsValidValueSize total_size) eqn:Hv.
  2:{ unfold Put. by rewrite Hv. }
  rewrite (bool_decide_false (segments = [])), Hcalc, Z.eqb_refl by done. cbn [negb orb].
  destruct (decide (free_slots_ s = [])) as [Hf|Hf].
  { unfold Put. by rewrite Hv, !bool_decide_true. }
  rewrite bool_decide_false by done.
  destruct (FindLive_spec s k Hi) as [(i & e & HL & He & Ho & <-)|[HL Hk]].
  - destruct (Put_update s (key e) (gather segments) total_size i e) as (pool & Hm & ->); try done; [lia|].
    pose proof (live_slot_range s i e Hi He Ho) as Hr.
    rewrite HL. cbn [mbind option_bind]. cbn [set_used hash_table_].
    rewrite aset_Some by (by eapply aget_lt). cbn [mbind option_bind].
    rewrite (GetSlotPtr_config s), GetSlotPtr_eq by done.
    rewrite Hcpy, Hm by done. reflexivity.
  - destruct (free_entry s k Hi Hf) as (m & e & HF & _ & He & _).
    revert HF He. generalize (probe s k m). intros i HF He.
    destruct (exists_last Hf) as (free & slot & Epop).
    destruct (Put_insert s k (gather segments) total_size i e free slot)
      as (pool & Hm & ->); try done; [lia|].
    pose proof (last_slot_range s free slot Hi Epop) as Hr.
    rewrite HL. cbn [mbind option_bind]. rewrite HF, Epop, vec_pop_back_snoc. cbn [mbind option_bind].
    cbn [set_free hash_table_]. rewrite aset_Some by (by eapply aget_lt). cbn [mbind option_bind].
    rewrite (GetSlotPtr_config s), GetSlotPtr_eq by done.
    rewrite Hcpy, Hm by done. reflexivity.
Qed.

Lemma PutSGL_equiv_witness :
  PutSGL small_store 5 [{| iov_base := block 1; iov_len := 1096 |}; {| iov_base := block 2; iov_len := 3000 |}] 4096
  = Put small_store 5 (take 1096 (block 1) ++ take 3000 (block 2)) 4096.
Proof.
  rewrite (PutSGL_equiv small_store 5 [{| iov_base := block 1; iov_len := 1096 |};
    {| iov_base := block 2; iov_len := 3000 |}] 4096); [|exact small_store_inv|done| |done|done|].
  - unfold gather. cbn [fmap list_fmap concat iov_len iov_base]. by rewrite app_nil_r.
  - forall_compute.
  - vm_compute. discriminate.
Defined.

(** the [uint32_t] accumulator of [PutSGL] wraps, so the size check can be
    passed by a segment of 4 GiB and 4 KiB: on any store with a free slot and a
    pool smaller than that, such a request is accepted by every check and then
    copied outside the pool (undefined behaviour), whatever its key. *)
Theorem PutSGL_length_wrap s k base :
  inv s -> free_slots_ s <> [] -> total_storage_size (config_ s) < 2 ^ 32 ->
  PutSGL s k [{| iov_base := base; iov_len := 2 ^ 32 + 4096 |}] 4096 = None.
Proof.
  intros Hi Hf Hsmall. unfold PutSGL.
  replace (negb (kv.IsValidValueSize 4096)) with false by reflexivity.
  rewrite bool_decide_false by done. cbn [orb].
  replace (negb (CalculatedSize _ =? 4096)) with false by reflexivity.
  rewrite bool_decide_false by done.
  assert (forall s' slot, storage_pool_ s' = storage_pool_ s -> 0 <= GetSlotPtr s' slot ->
    CopySegments (storage_pool_ s') (GetSlotPtr s' slot) 0
      [{| iov_base := base; iov_len := 2 ^ 32 + 4096 |}] = None) as Hub.
  { intros s' slot -> Hp. cbn [CopySegments iov_base iov_len]. unfold memcpy.
    rewrite decide_False; [done|]. pose proof (inv_pool s Hi). lia. }
  assert (forall s' slot, 0 <= GetSlotPtr s' slot) as Hp
    by (intros; apply (wrap_range 64); lia).
  destruct (FindLive_spec s k Hi) as [(i & e & -> & He & Ho & _)|[-> Hk]]; cbn [mbind option_bind].
  - destruct (aset _ _ _) as [t|]; [|done]. cbn [mbind option_bind]. by rewrite Hub.
  - destruct (free_entry s k Hi Hf) as (m & e & HF & _). revert HF. generalize (probe s k m).
    intros i ->. cbn [mbind option_bind].
    destruct (exists_last Hf) as (free & slot & ->). rewrite vec_pop_back_snoc. cbn [mbind option_bind].
    destruct (aset _ _ _) as [t|]; [|done]. cbn [mbind option_bind]. by rewrite Hub.
Qed.

Lemma PutSGL_length_wrap_witness :
  PutSGL small_store 1 [{| iov_base := block 7; iov_len := 2 ^ 32 + 4096 |}] 4096 = None.
Proof.
  apply PutSGL_length_wrap; [exact small_store_inv|vm_compute; discriminate|vm_compute; reflexivity].
Defined.

(** [NextPowerOfTwo] returns the least power of two that is not below its
    argument, 1 for 0; above [2^63] the final increment overflows and the result
    is 0. *)
Theorem NextPowerOfTwo_spec n :
  is_u 64 n ->
  (n <= 2 ^ 63 -> exists b, 0 <= b /\ NextPowerOfTwo n = 2 ^ b /\ n <= 2 ^ b
                    /\ forall b', 0 <= b' -> n <= 2 ^ b' -> 2 ^ b <= 2 ^ b')
  /\ (2 ^ 63 < n -> NextPowerOfTwo n = 0).
Proof.
  intros Hn. unfold is_u in Hn. split; intros Hb.
  - destruct (decide (n = 0)) as [->|].
    { exists 0. split; [lia|]. split; [done|]. split; [lia|].
      intros b' ? _. pose proof (Z.pow_pos_nonneg 2 b'). lia. }
    exists (Z.log2_up n). rewrite NextPowerOfTwo_log2 by lia. pose proof (Z.log2_up_nonneg n).
    assert (Z.log2_up n <= 63) by (apply Z.log2_up_le_pow2; lia).
    assert (2 ^ Z.log2_up n <= 2 ^ 63) by (apply Z.pow_le_mono_r; lia).
    split; [done|]. split; [apply wrap_id; unfold is_u; split; [apply Z.pow_nonneg; lia|lia]|].
    split; [apply Z.log2_up_le_pow2; lia|].
    intros b' ? Hb'. apply Z.pow_le_mono_r; [lia|]. apply Z.log2_up_le_pow2; lia.
  - rewrite NextPowerOfTwo_log2 by lia.
    assert (Z.log2_up n <= 64) by (apply Z.log2_up_le_pow2; lia).
    assert (63 < Z.log2_up n) by (apply Z.log2_up_lt_pow2; lia).
    by replace (Z.log2_up n) with 64 by lia.
Qed.

Lemma NextPowerOfTwo_spec_witness :
  NextPowerOfTwo 16385 = 32768 /\ NextPowerOfTwo (2 ^ 63 + 1) = 0.
Proof.
  split; [vm_compute; reflexivity|]. apply (NextPowerOfTwo_spec (2 ^ 63 + 1)); unfold is_u; lia.
Defined.

(** a full store refuses to overwrite a key it holds: [Put] tests the free
    list before it looks the key up, so that once every slot is taken each
    [Put] of a valid size answers [NO_SPACE] and leaves the store as it was. *)
Theorem Put_full_rejects_update s k data size :
  inv s -> kv.IsValidValueSize size = true -> Z.of_nat (base.size (view s)) = num_slots_ s ->
  Put s k data size = Some (kv.NO_SPACE, s).
Proof.
  intros Hi Hv Hfull. unfold Put. rewrite Hv.
  rewrite bool_decide_true by (by apply free_nil_iff). done.
Qed.

Lemma Put_full_rejects_update_witness :
  exists s, is_Some (view s !! 3) /\ Put s 3 (block 9) 4096 = Some (kv.NO_SPACE, s).
Proof.
  destruct (serve_all_spec small_store full_requests small_store_inv) as (outs & s & _ & Hi & Hn & E);
    [unfold full_requests; forall_compute|].
  exists s. apply (f_equal snd) in E. cbn [snd] in E. split.
  - rewrite <- E. vm_compute. eauto.
  - apply Put_full_rejects_update; [exact Hi|reflexivity|].
    rewrite Hn, <- E. vm_compute. reflexivity.
Defined.

End properties.
