(* ===== verification/Verbs.v ===== *)
(** * The verbs structures the framework fills in and reads

    Field types of [infiniband/verbs.h] as far as the sources use them. The verbs
    calls themselves ([ibv_post_send], [ibv_modify_qp], ...) belong to a library
    outside the repository: they are parameters of the definitions that call
    them. *)

From S2P Require Import Prelude.

(** Work completion. [wc_status] is the raw [ibv_wc_status]; success is 0. *)
Record ibv_wc := { wc_wr_id : Z; wc_status : Z; wc_byte_len : Z; wc_imm_data : Z }.

Definition IBV_WC_SUCCESS : Z := 0.

(** Scatter-gather element. *)
Record ibv_sge := { sge_addr : Z; sge_length : Z; sge_lkey : Z }.

Inductive ibv_wr_opcode :=
  | IBV_WR_RDMA_WRITE | IBV_WR_RDMA_WRITE_WITH_IMM | IBV_WR_SEND | IBV_WR_RDMA_READ.

(** Send flags: the two bits the framework sets. *)
Record ibv_send_flags := { SIGNALED : bool; INLINE : bool }.

Record ibv_send_wr := {
  wr_id : Z;
  opcode : ibv_wr_opcode;
  send_flags : ibv_send_flags;
  sg_list : list ibv_sge;
  imm_data : Z;
  remote_addr : Z;
  rkey : Z;
}.

Record ibv_recv_wr := { rwr_id : Z; rsg_list : list ibv_sge }.

(** An [iovec] as a pair of address and length. *)
Record iovec := { iov_base : Z; iov_len : Z }.
