(* ===== verification/CompletionDispatcher.v ===== *)
(** * The completion dispatcher

    Models [include/rdma/rpc/completion_dispatcher.h] and
    [src/rpc/completion_dispatcher.cpp]: a two-way set-associative cache, an
    open-addressed hash cache and a two-level index from connection ids to
    handlers. Pointers are [Z], null is 0. A handler call is an [Event]; what a
    handler does to other objects is outside this component, and handlers do not
    re-enter the dispatcher. [None] is undefined behaviour: an access outside an
    array or a call through a null function pointer. *)

From S2P Require Import Prelude Types WrId Verbs.

Module CompletionDispatcher.

Definition kL0SetCount : Z := 32.
Definition kL0SetMask : Z := kL0SetCount - 1.
Definition kHotCacheSize : Z := 64.
Definition kHotCacheMask : Z := kHotCacheSize - 1.
Definition UINT16_MAX : Z := 65535.

(** The two ways of an L0 set; an array of [kL0Ways] elements is a pair. *)
Inductive Way := W0 | W1.

Definition wget {A} (w : Way) (p : A * A) : A := match w with W0 => p.1 | W1 => p.2 end.
Definition wset {A} (w : Way) (x : A) (p : A * A) : A * A :=
  match w with W0 => (x, p.2) | W1 => (p.1, x) end.

Record L0CacheSet := {
  conn_ids : Z * Z;         (* uint16_t *)
  access_counts : Z * Z;    (* uint8_t *)
  generations : Z * Z;      (* uint8_t *)
  ctxs : Z * Z;
  handlers : Z * Z;
}.

Record ConnectionEntry := { ce_ctx : Z; ce_handler : Z }.

Record HotCacheEntry := {
  hc_conn_id : Z;           (* uint16_t *)
  hc_access_count : Z;      (* uint16_t *)
  hc_ctx : Z;
  hc_handler : Z;
}.

Record CompletionDispatcher := {
  l0_cache_ : list L0CacheSet;
  hot_cache_ : list HotCacheEntry;
  buckets_ : list (option (list ConnectionEntry));   (* null bucket: None *)
  error_ctx : Z;
  error_handler : Z;
}.

Inductive Event :=
  | ECall (handler ctx : Z) (wc : ibv_wc)
  | EError (handler ctx conn_id status : Z).

Definition empty_set : L0CacheSet :=
  {| conn_ids := (0xFFFF, 0xFFFF); access_counts := (0, 0); generations := (0, 0);
     ctxs := (0, 0); handlers := (0, 0) |}.

Definition empty_hot : HotCacheEntry :=
  {| hc_conn_id := 0xFFFF; hc_access_count := 0; hc_ctx := 0; hc_handler := 0 |}.

Definition CompletionDispatcher_new : CompletionDispatcher :=
  {| l0_cache_ := replicate (Z.to_nat kL0SetCount) empty_set;
     hot_cache_ := replicate (Z.to_nat kHotCacheSize) empty_hot;
     buckets_ := replicate (Z.to_nat 256) None; error_ctx := 0; error_handler := 0 |}.

Definition set_l0 (d : CompletionDispatcher) (c : list L0CacheSet) : CompletionDispatcher :=
  {| l0_cache_ := c; hot_cache_ := hot_cache_ d; buckets_ := buckets_ d;
     error_ctx := error_ctx d; error_handler := error_handler d |}.

Definition set_hot (d : CompletionDispatcher) (c : list HotCacheEntry) : CompletionDispatcher :=
  {| l0_cache_ := l0_cache_ d; hot_cache_ := c; buckets_ := buckets_ d;
     error_ctx := error_ctx d; error_handler := error_handler d |}.

Definition set_buckets (d : CompletionDispatcher) (b : list (option (list ConnectionEntry)))
    : CompletionDispatcher :=
  {| l0_cache_ := l0_cache_ d; hot_cache_ := hot_cache_ d; buckets_ := b;
     error_ctx := error_ctx d; error_handler := error_handler d |}.

Definition SetErrorHandler (d : CompletionDispatcher) (ctx handler : Z) : CompletionDispatcher :=
  {| l0_cache_ := l0_cache_ d; hot_cache_ := hot_cache_ d; buckets_ := buckets_ d;
     error_ctx := ctx; error_handler := handler |}.

(** Write one way of a set: the assignments shared by [RegisterConnection] and
    [MaybePromoteToL0]. *)
Definition fill_way (set : L0CacheSet) (w : Way) (conn_id ctx handler : Z) : L0CacheSet :=
  {| conn_ids := wset w conn_id (conn_ids set);
     access_counts := wset w 128 (access_counts set);
     generations := wset w (u8 (wget w (generations set) + 1)) (generations set);
     ctxs := wset w ctx (ctxs set);
     handlers := wset w handler (handlers set) |}.

Definition set_access (set : L0CacheSet) (w : Way) (n : Z) : L0CacheSet :=
  {| conn_ids := conn_ids set; access_counts := wset w n (access_counts set);
     generations := generations set; ctxs := ctxs set; handlers := handlers set |}.

(** [conn_id * 0x9E3779B9u & kHotCacheMask], in 32-bit unsigned arithmetic. *)
Definition Hash (conn_id : Z) : Z := Z.land (u32 (conn_id * 0x9E3779B9)) kHotCacheMask.

(** Position of probe number [probe]. *)
Definition hot_pos (conn_id : Z) (probe : Z) : Z := Z.land (Hash conn_id + probe) kHotCacheMask.

Fixpoint Find_loop (hot : list HotCacheEntry) (conn_id : Z) (n : nat) (probe : Z)
    : option (option Z) :=
  match n with
  | O => Some None
  | S n =>
      e ← aget hot (hot_pos conn_id probe);
      if hc_conn_id e =? conn_id then Some (Some (hot_pos conn_id probe))
      else if hc_conn_id e =? 0xFFFF then Some None
      else Find_loop hot conn_id n (probe + 1)
  end.

(** The index of the entry; [Some None] is the null pointer. *)
Definition FindInHotCache (d : CompletionDispatcher) (conn_id : Z) : option (option Z) :=
  Find_loop (hot_cache_ d) conn_id 4 0.

(** The probe loop of [InsertHotCache]: [inl] the position of the existing
    entry, [inr] the position to replace. *)
Fixpoint Insert_loop (hot : list HotCacheEntry) (conn_id : Z) (n : nat) (probe best_pos min_access : Z)
    : option (Z + Z) :=
  match n with
  | O => Some (inr best_pos)
  | S n =>
      let pos := hot_pos conn_id probe in
      e ← aget hot pos;
      if hc_conn_id e =? conn_id then Some (inl pos)
      else if hc_conn_id e =? 0xFFFF then Some (inr pos)
      else if hc_access_count e <? min_access
           then Insert_loop hot conn_id n (probe + 1) pos (hc_access_count e)
           else Insert_loop hot conn_id n (probe + 1) best_pos min_access
  end.

Definition InsertHotCache (d : CompletionDispatcher) (conn_id ctx handler : Z)
    : option CompletionDispatcher :=
  found ← Insert_loop (hot_cache_ d) conn_id 4 0 (Hash conn_id) UINT16_MAX;
  match found with
  | inl pos =>
      e ← aget (hot_cache_ d) pos;
      hot ← aset (hot_cache_ d) pos
        {| hc_conn_id := hc_conn_id e; hc_access_count := u16 (hc_access_count e + 1);
           hc_ctx := ctx; hc_handler := handler |};
      Some (set_hot d hot)
  | inr pos =>
      hot ← aset (hot_cache_ d) pos
        {| hc_conn_id := conn_id; hc_access_count := 1; hc_ctx := ctx; hc_handler := handler |};
      Some (set_hot d hot)
  end.

(** The way [RegisterConnection] writes: an existing or empty way, else the one
    with the smaller access count. *)
Fixpoint Register_way (set : L0CacheSet) (ways : list Way) (conn_id : Z) (lru_way : Way)
    (min_access : Z) : Way :=
  match ways with
  | [] => lru_way
  | w :: ways =>
      if wget w (conn_ids set) =? conn_id then w
      else if wget w (conn_ids set) =? 0xFFFF then w
      else if wget w (access_counts set) <? min_access
           then Register_way set ways conn_id w (wget w (access_counts set))
           else Register_way set ways conn_id lru_way min_access
  end.

Definition RegisterConnection (d : CompletionDispatcher) (conn_id ctx handler : Z)
    : option CompletionDispatcher :=
  let bucket_idx := u8 (Z.shiftr conn_id 8) in
  let slot_idx := u8 (Z.land conn_id 255) in
  bucket ← aget (buckets_ d) bucket_idx;
  let bucket := default (replicate (Z.to_nat 256) {| ce_ctx := 0; ce_handler := 0 |}) bucket in
  bucket ← aset bucket slot_idx {| ce_ctx := ctx; ce_handler := handler |};
  buckets ← aset (buckets_ d) bucket_idx (Some bucket);
  let d := set_buckets d buckets in
  let set_idx := Z.land conn_id kL0SetMask in
  set ← aget (l0_cache_ d) set_idx;
  let target_way := Register_way set [W0; W1] conn_id W0 255 in
  l0 ← aset (l0_cache_ d) set_idx (fill_way set target_way conn_id ctx handler);
  InsertHotCache (set_l0 d l0) conn_id ctx handler.

(** Invalidate the first way that holds the id. *)
Definition clear_way (set : L0CacheSet) (w : Way) : L0CacheSet :=
  {| conn_ids := wset w 0xFFFF (conn_ids set); access_counts := access_counts set;
     generations := generations set; ctxs := wset w 0 (ctxs set);
     handlers := wset w 0 (handlers set) |}.

Fixpoint Unregister_ways (set : L0CacheSet) (ways : list Way) (conn_id : Z) : L0CacheSet :=
  match ways with
  | [] => set
  | w :: ways =>
      if wget w (conn_ids set) =? conn_id then clear_way set w
      else Unregister_ways set ways conn_id
  end.

(** Invalidate the first probed entry that holds the id; unlike the lookup, the
    loop does not stop at an empty entry. *)
Fixpoint Unregister_hot (hot : list HotCacheEntry) (conn_id : Z) (n : nat) (probe : Z)
    : option (list HotCacheEntry) :=
  match n with
  | O => Some hot
  | S n =>
      let pos := hot_pos conn_id probe in
      e ← aget hot pos;
      if hc_conn_id e =? conn_id then
        aset hot pos {| hc_conn_id := 0xFFFF; hc_access_count := hc_access_count e;
                        hc_ctx := 0; hc_handler := 0 |}
      else Unregister_hot hot conn_id n (probe + 1)
  end.

Definition UnregisterConnection (d : CompletionDispatcher) (conn_id : Z)
    : option CompletionDispatcher :=
  let bucket_idx := u8 (Z.shiftr conn_id 8) in
  let slot_idx := u8 (Z.land conn_id 255) in
  bucket ← aget (buckets_ d) bucket_idx;
  d ← match bucket with
      | Some bucket =>
          bucket ← aset bucket slot_idx {| ce_ctx := 0; ce_handler := 0 |};
          buckets ← aset (buckets_ d) bucket_idx (Some bucket);
          Some (set_buckets d buckets)
      | None => Some d
      end;
  let set_idx := Z.land conn_id kL0SetMask in
  set ← aget (l0_cache_ d) set_idx;
  l0 ← aset (l0_cache_ d) set_idx (Unregister_ways set [W0; W1] conn_id);
  let d := set_l0 d l0 in
  hot ← Unregister_hot (hot_cache_ d) conn_id 4 0;
  Some (set_hot d hot).

(** The way [MaybePromoteToL0] writes; [None] when the id is already cached. *)
Fixpoint Promote_way (set : L0CacheSet) (ways : list Way) (conn_id : Z) : option Way :=
  match ways with
  | [] => Some (if fst (access_counts set) <=? snd (access_counts set) then W0 else W1)
  | w :: ways =>
      if wget w (conn_ids set) =? 0xFFFF then Some w
      else if wget w (conn_ids set) =? conn_id then None
      else Promote_way set ways conn_id
  end.

Definition MaybePromoteToL0 (d : CompletionDispatcher) (conn_id ctx handler : Z)
    : option CompletionDispatcher :=
  let set_idx := Z.land conn_id kL0SetMask in
  set ← aget (l0_cache_ d) set_idx;
  match Promote_way set [W0; W1] conn_id with
  | None => Some d
  | Some w =>
      l0 ← aset (l0_cache_ d) set_idx (fill_way set w conn_id ctx handler);
      Some (set_l0 d l0)
  end.

(** A call through a function pointer. *)
Definition call (handler ctx : Z) (wc : ibv_wc) : option Event :=
  if handler =? 0 then None else Some (ECall handler ctx wc).

Definition DispatchFromL2 (d : CompletionDispatcher) (conn_id : Z) (wc : ibv_wc)
    : option (CompletionDispatcher * list Event) :=
  let bucket_idx := u8 (Z.shiftr conn_id 8) in
  let slot_idx := u8 (Z.land conn_id 255) in
  bucket ← aget (buckets_ d) bucket_idx;
  match bucket with
  | None => Some (d, [])
  | Some bucket =>
      entry ← aget bucket slot_idx;
      if ce_handler entry =? 0 then Some (d, [])
      else
        ev ← call (ce_handler entry) (ce_ctx entry) wc;
        d ← InsertHotCache d conn_id (ce_ctx entry) (ce_handler entry);
        Some (d, [ev])
  end.

(** Hit in way [w] of an L0 set. *)
Definition L0_hit (set : L0CacheSet) (w other : Way) (wc : ibv_wc) : option (L0CacheSet * Event) :=
  let set := set_access set w 255 in
  ev ← call (wget w (handlers set)) (wget w (ctxs set)) wc;
  let n := wget other (access_counts set) in
  Some (if 0 <? n then set_access set other (n - 1) else set, ev).

Definition Dispatch (d : CompletionDispatcher) (wc : ibv_wc)
    : option (CompletionDispatcher * list Event) :=
  let conn_id := WrId.GetConnId (wc_wr_id wc) in
  if negb (wc_status wc =? IBV_WC_SUCCESS) then
    Some (d, if error_handler d =? 0 then []
             else [EError (error_handler d) (error_ctx d) conn_id (wc_status wc)])
  else
    let set_idx := Z.land conn_id kL0SetMask in
    set ← aget (l0_cache_ d) set_idx;
    if wget W0 (conn_ids set) =? conn_id then
      '(set, ev) ← L0_hit set W0 W1 wc;
      l0 ← aset (l0_cache_ d) set_idx set;
      Some (set_l0 d l0, [ev])
    else if wget W1 (conn_ids set) =? conn_id then
      '(set, ev) ← L0_hit set W1 W0 wc;
      l0 ← aset (l0_cache_ d) set_idx set;
      Some (set_l0 d l0, [ev])
    else
      found ← FindInHotCache d conn_id;
      match found with
      | Some pos =>
          entry ← aget (hot_cache_ d) pos;
          ev ← call (hc_handler entry) (hc_ctx entry) wc;
          hot ← aset (hot_cache_ d) pos
            {| hc_conn_id := hc_conn_id entry; hc_access_count := u16 (hc_access_count entry + 1);
               hc_ctx := hc_ctx entry; hc_handler := hc_handler entry |};
          d ← MaybePromoteToL0 (set_hot d hot) conn_id (hc_ctx entry) (hc_handler entry);
          Some (d, [ev])
      | None => DispatchFromL2 d conn_id wc
      end.

(** The array and [count] as a list. *)
Fixpoint DispatchBatchSimple (d : CompletionDispatcher) (wcs : list ibv_wc)
    : option (CompletionDispatcher * list Event) :=
  match wcs with
  | [] => Some (d, [])
  | wc :: wcs =>
      '(d, evs) ← Dispatch d wc;
      '(d, evs') ← DispatchBatchSimple d wcs;
      Some (d, evs ++ evs')
  end.

(** [DispatchBatch] indexes the array; the slot and the connection it prefetches
    four and eight elements ahead change no state and are left out. *)
Fixpoint DispatchBatch_loop (d : CompletionDispatcher) (wc_array : list ibv_wc) (n : nat) (i : Z)
    : option (CompletionDispatcher * list Event) :=
  match n with
  | O => Some (d, [])
  | S n =>
      wc ← aget wc_array i;
      '(d, evs) ← Dispatch d wc;
      '(d, evs') ← DispatchBatch_loop d wc_array n (i + 1);
      Some (d, evs ++ evs')
  end.

Definition DispatchBatch (d : CompletionDispatcher) (wc_array : list ibv_wc) (count : Z)
    : option (CompletionDispatcher * list Event) :=
  DispatchBatch_loop d wc_array (Z.to_nat count) 0.

Definition GetConnectionFromL0 (d : CompletionDispatcher) (conn_id : Z) : option Z :=
  set ← aget (l0_cache_ d) (Z.land conn_id kL0SetMask);
  Some (wget W0 (ctxs set)).

End CompletionDispatcher.

(** ** Specification

    The dispatcher promises to be a map from connection ids to handlers. *)

(** Context and handler of each registered connection. *)
Abbreviation registry := (gmap Z (Z * Z)).

Section specification.
Import CompletionDispatcher.

Inductive Op :=
  | ORegister (conn_id ctx handler : Z)
  | OUnregister (conn_id : Z)
  | ODispatch (wc : ibv_wc)
  | OSetError (ctx handler : Z).

Definition step (d : CompletionDispatcher) (o : Op) : option (CompletionDispatcher * list Event) :=
  match o with
  | ORegister c x h => d ← RegisterConnection d c x h; Some (d, [])
  | OUnregister c => d ← UnregisterConnection d c; Some (d, [])
  | ODispatch wc => Dispatch d wc
  | OSetError x h => Some (SetErrorHandler d x h, [])
  end.

Fixpoint run (d : CompletionDispatcher) (os : list Op)
    : option (CompletionDispatcher * list Event) :=
  match os with
  | [] => Some (d, [])
  | o :: os =>
      '(d, evs) ← step d o;
      '(d, evs') ← run d os;
      Some (d, evs ++ evs')
  end.

(** The specification's state: the registry and the error handler. *)
Record Spec := { sp_map : registry; sp_err : Z * Z }.

Definition spec_dispatch (s : Spec) (wc : ibv_wc) : list Event :=
  let c := WrId.GetConnId (wc_wr_id wc) in
  if wc_status wc =? IBV_WC_SUCCESS then
    match sp_map s !! c with Some (x, h) => [ECall h x wc] | None => [] end
  else if (sp_err s).2 =? 0 then [] else [EError (sp_err s).2 (sp_err s).1 c (wc_status wc)].

Definition spec_step (s : Spec) (o : Op) : Spec * list Event :=
  match o with
  | ORegister c x h => ({| sp_map := <[c := (x, h)]> (sp_map s); sp_err := sp_err s |}, [])
  | OUnregister c => ({| sp_map := delete c (sp_map s); sp_err := sp_err s |}, [])
  | ODispatch wc => (s, spec_dispatch s wc)
  | OSetError x h => ({| sp_map := sp_map s; sp_err := (x, h) |}, [])
  end.

Fixpoint spec_run (s : Spec) (os : list Op) : Spec * list Event :=
  match os with
  | [] => (s, [])
  | o :: os =>
      let '(s, evs) := spec_step s o in
      let '(s, evs') := spec_run s os in
      (s, evs ++ evs')
  end.

Definition spec_new : Spec := {| sp_map := ∅; sp_err := (0, 0) |}.

(** Ids are 16-bit and 0xFFFF, the marker of an empty entry, is not one;
    handlers are not null. *)
Definition op_ok (o : Op) : bool :=
  match o with
  | ORegister c x h => (0 <=? c) && (c <? 0xFFFF) && negb (h =? 0)
  | OUnregister c => (0 <=? c) && (c <? 0xFFFF)
  | ODispatch wc => negb (WrId.GetConnId (wc_wr_id wc) =? 0xFFFF)
  | OSetError _ _ => true
  end.

(** The traces on which the caches stay consistent: connections are registered
    before the first one is removed, and a dispatch after a removal ends the
    removals. *)
Inductive Phase := PRegister | PRemove | PDispatch.

Definition next_phase (p : Phase) (o : Op) : option Phase :=
  match o, p with
  | OSetError _ _, _ => Some p
  | ORegister _ _ _, PRegister => Some PRegister
  | ORegister _ _ _, _ => None
  | OUnregister _, PDispatch => None
  | OUnregister _, _ => Some PRemove
  | ODispatch _, PRegister => Some PRegister
  | ODispatch _, _ => Some PDispatch
  end.

Fixpoint disciplined (p : Phase) (os : list Op) : bool :=
  match os with
  | [] => true
  | o :: os => op_ok o && match next_phase p o with Some p => disciplined p os | None => false end
  end.

(** *** Representation invariant *)

(** The entry the two-level index holds. *)
Definition l2_lookup (bs : list (option (list ConnectionEntry))) (c : Z) : option (Z * Z) :=
  b ← aget bs (c / 256);
  b ← b;
  e ← aget b (c mod 256);
  if ce_handler e =? 0 then None else Some (ce_ctx e, ce_handler e).

Definition bucket_ok (b : option (list ConnectionEntry)) : Prop :=
  match b with Some b => length b = 256%nat | None => True end.

(** Every cached association is in the registry. *)
Definition l0_agrees (m : registry) (i : Z) (set : L0CacheSet) : Prop :=
  forall w, wget w (conn_ids set) <> 0xFFFF ->
    Z.land (wget w (conn_ids set)) kL0SetMask = i
    /\ m !! wget w (conn_ids set) = Some (wget w (ctxs set), wget w (handlers set)).

Definition hot_agrees (m : registry) (e : HotCacheEntry) : Prop :=
  hc_conn_id e <> 0xFFFF -> m !! hc_conn_id e = Some (hc_ctx e, hc_handler e).

Record coherent (d : CompletionDispatcher) (m : registry) : Prop := {
  co_l0_len : length (l0_cache_ d) = 32%nat;
  co_hot_len : length (hot_cache_ d) = 64%nat;
  co_l2_len : length (buckets_ d) = 256%nat;
  co_l2_ok : Forall bucket_ok (buckets_ d);
  co_l2 : forall c, is_u 16 c -> l2_lookup (buckets_ d) c = m !! c;
  co_dom : forall c x h, m !! c = Some (x, h) -> 0 <= c < 0xFFFF /\ h <> 0;
  co_l0 : forall i set, aget (l0_cache_ d) i = Some set -> l0_agrees m i set;
  co_hot : forall p e, aget (hot_cache_ d) p = Some e -> hot_agrees m e;
}.

Definition hid (hot : list HotCacheEntry) (p : Z) : option Z := hc_conn_id <$> aget hot p.

(** Every hot entry sits on its id's probe sequence, and the probes before it
    hold other ids satisfying [Q]. *)
Definition placed (Q : Z -> Prop) (hot : list HotCacheEntry) : Prop :=
  forall p c, hid hot p = Some c -> c <> 0xFFFF ->
    exists j, 0 <= j < 4 /\ p = hot_pos c j
      /\ forall k, 0 <= k < j -> exists c', hid hot (hot_pos c k) = Some c' /\ c' <> c /\ Q c'.

Definition set_distinct (set : L0CacheSet) : Prop :=
  (conn_ids set).1 = (conn_ids set).2 -> (conn_ids set).1 = 0xFFFF.

(** No id is cached twice. *)
Definition unique (d : CompletionDispatcher) : Prop :=
  placed (fun _ => True) (hot_cache_ d) /\ Forall set_distinct (l0_cache_ d).

(** No id is cached twice and no empty entry precedes a full one. *)
Definition set_packed (set : L0CacheSet) : Prop :=
  set_distinct set /\ ((conn_ids set).1 = 0xFFFF -> (conn_ids set).2 = 0xFFFF).

Definition tidy (d : CompletionDispatcher) : Prop :=
  placed (fun c => c <> 0xFFFF) (hot_cache_ d) /\ Forall set_packed (l0_cache_ d).

Definition phase_inv (p : Phase) (d : CompletionDispatcher) : Prop :=
  match p with PRegister => tidy d | PRemove => unique d | PDispatch => True end.

Definition represents (d : CompletionDispatcher) (s : Spec) : Prop :=
  coherent d (sp_map s) /\ sp_err s = (error_ctx d, error_handler d).

(** *** Example traces *)

Definition completion (conn_id slot status : Z) : ibv_wc :=
  {| wc_wr_id := WrId.Encode conn_id RECV 0 slot; wc_status := status;
     wc_byte_len := 0; wc_imm_data := 0 |}.

(** Five connections that share an L0 set and an L1 probe sequence, dispatched
    before and after an update and a removal. *)
Definition busy_trace : list Op :=
  let ids := [0; 64; 128; 192; 256] in
  ((fun c => ORegister c (1000 + c) 7) <$> ids)
  ++ ((fun c => ODispatch (completion c 3 IBV_WC_SUCCESS)) <$> ids ++ [256; 256; 512])
  ++ [OSetError 5 6; ORegister 64 2064 9; ODispatch (completion 64 4 IBV_WC_SUCCESS);
      ODispatch (completion 128 4 12); OUnregister 64; OUnregister 128;
      ODispatch (completion 64 5 IBV_WC_SUCCESS); ODispatch (completion 256 5 IBV_WC_SUCCESS)].

(** A reconnecting client: the id 32 is registered again after a neighbour left
    an empty way in its L0 set, and then removed. *)
Definition reuse_trace : list Op :=
  [ORegister 0 100 7; ORegister 32 200 7; OUnregister 0; ORegister 32 300 7; OUnregister 32;
   ODispatch (completion 32 0 IBV_WC_SUCCESS)].

End specification.

(** ** Lemmas *)

Section lemmas.
Import CompletionDispatcher.
Implicit Types (d : CompletionDispatcher) (m : registry) (c : Z).

Lemma hot_pos_eq c j : 0 <= j -> hot_pos c j = (Hash c + j) mod 64.
Proof. intros. unfold hot_pos. by rewrite (land_mask 6) by (done || lia). Qed.

Lemma hot_pos_range c j : 0 <= j -> 0 <= hot_pos c j < 64.
Proof. intros. rewrite hot_pos_eq by done. apply Z.mod_pos_bound. lia. Qed.

Lemma Hash_range c : 0 <= Hash c < 64.
Proof. unfold Hash. rewrite (land_mask 6) by (done || lia). apply Z.mod_pos_bound. lia. Qed.

Lemma hot_pos_0 c : hot_pos c 0 = Hash c.
Proof. pose proof (Hash_range c). rewrite hot_pos_eq by lia. rewrite Z.mod_small; lia. Qed.

Lemma set_idx_range c : 0 <= Z.land c kL0SetMask < 32.
Proof. rewrite (land_mask 5) by (done || lia). apply Z.mod_pos_bound. lia. Qed.

Lemma bucket_idx_eq c : is_u 16 c -> u8 (Z.shiftr c 8) = c / 256.
Proof. intros. rewrite Z.shiftr_div_pow2 by lia. apply wrap_id. solve_word. Qed.

Lemma slot_idx_eq c : u8 (Z.land c 255) = c mod 256.
Proof. rewrite (land_mask 8) by (done || lia). apply wrap_idem. Qed.

Lemma hid_insert hot p e q : 0 <= p < Z.of_nat (length hot) ->
  hid (<[Z.to_nat p := e]> hot) q = if decide (p = q) then Some (hc_conn_id e) else hid hot q.
Proof. intros. unfold hid. rewrite aget_insert by done. by case_decide. Qed.

Lemma hid_Some hot p e : aget hot p = Some e -> hid hot p = Some (hc_conn_id e).
Proof. unfold hid. by intros ->. Qed.

Lemma placed_mono (Q R : Z -> Prop) hot : (forall c, Q c -> R c) -> placed Q hot -> placed R hot.
Proof.
  intros QR H p c Hp Hc. destruct (H p c Hp Hc) as (j & ? & ? & Hk).
  exists j. split_and!; [lia|lia|done|]. intros k ?. destruct (Hk k) as (c' & ? & ? & ?); [done|].
  eauto.
Qed.

(** An entry is never cached in two positions. *)
Lemma placed_unique Q hot p q c :
  placed Q hot -> hid hot p = Some c -> hid hot q = Some c -> c <> 0xFFFF -> p = q.
Proof.
  intros H Hp Hq Hc.
  destruct (H p c Hp Hc) as (j & ? & -> & Hj), (H q c Hq Hc) as (k & ? & -> & Hk).
  destruct (decide (j < k)) as [?|?]; [|destruct (decide (k < j)) as [?|?]].
  - destruct (Hk j) as (c' & ? & ? & _); [lia|congruence].
  - destruct (Hj k) as (c' & ? & ? & _); [lia|congruence].
  - f_equal. lia.
Qed.

(** Rewriting an entry with its own id keeps every position. *)
Lemma placed_same_id Q hot p e :
  hid hot p = Some (hc_conn_id e) -> 0 <= p < Z.of_nat (length hot) ->
  placed Q hot -> placed Q (<[Z.to_nat p := e]> hot).
Proof.
  intros Hp Hr H.
  assert (Hh : forall q, hid (<[Z.to_nat p := e]> hot) q = hid hot q).
  { intros q. rewrite hid_insert by done. case_decide; [by subst|done]. }
  intros q c. rewrite Hh. intros Hq Hc. destruct (H q c Hq Hc) as (j & ? & ? & Hk).
  exists j. split_and!; [lia|lia|done|]. intros k Hkj. rewrite Hh. by apply Hk.
Qed.

(** Writing a new id at the first free probe, or over another entry. *)
Lemma placed_new_id hot j c e :
  length hot = 64%nat -> 0 <= j < 4 -> c <> 0xFFFF -> hc_conn_id e = c ->
  (forall q, hid hot q <> Some c) ->
  (forall k, 0 <= k < j -> exists c', hid hot (hot_pos c k) = Some c' /\ c' <> c /\ c' <> 0xFFFF) ->
  placed (fun c => c <> 0xFFFF) hot ->
  placed (fun c => c <> 0xFFFF) (<[Z.to_nat (hot_pos c j) := e]> hot).
Proof.
  intros Hl Hj Hc He Hno Hbefore H q c' Hq Hc'.
  pose proof (hot_pos_range c j) as Hr.
  rewrite hid_insert in Hq by lia. case_decide as Eq.
  - injection Hq as <-. rewrite He in *. subst q. exists j. split_and!; [lia|lia|done|].
    intros k Hk. rewrite hid_insert by lia. destruct (Hbefore k Hk) as (c' & Hc1 & ? & ?).
    case_decide as E; [|eauto]. exfalso.
    rewrite !hot_pos_eq in E by lia. zdm.
  - destruct (H q c' Hq Hc') as (i & ? & -> & Hi). exists i. split_and!; [lia|lia|done|].
    intros k Hk. rewrite hid_insert by lia. destruct (Hi k Hk) as (c'' & ? & ? & ?).
    case_decide; [|eauto]. exists (hc_conn_id e). split_and!; [done| |lia].
    rewrite He. intros ->. by apply (Hno (hot_pos c' i)).
Qed.

(** *** The probe loops *)

(** No earlier probe holds [c] or is empty. *)
Definition passed hot c (n : Z) : Prop :=
  forall k, 0 <= k < n -> exists c', hid hot (hot_pos c k) = Some c' /\ c' <> c /\ c' <> 0xFFFF.

Lemma passed_S hot c n c' :
  passed hot c n -> 0 <= n -> hid hot (hot_pos c n) = Some c' -> c' <> c -> c' <> 0xFFFF ->
  passed hot c (n + 1).
Proof.
  intros H Hn Hc' ? ? k Hk. destruct (decide (k = n)) as [->|]; [eauto|]. apply H. lia.
Qed.

Lemma hot_read hot c j : length hot = 64%nat -> 0 <= j ->
  exists e, aget hot (hot_pos c j) = Some e /\ hid hot (hot_pos c j) = Some (hc_conn_id e).
Proof.
  intros Hl Hj. pose proof (hot_pos_range c j Hj). destruct (aget_is_Some hot (hot_pos c j)) as [e He]; [lia|].
  exists e. split; [done|]. by apply hid_Some.
Qed.

Lemma Find_loop_spec hot c n j : length hot = 64%nat -> 0 <= j ->
  exists r, Find_loop hot c n j = Some r
    /\ match r with Some p => hid hot p = Some c | None => True end.
Proof.
  intros Hl. revert j. induction n as [|n IH]; intros j Hj; simpl; [by exists None|].
  destruct (hot_read hot c j Hl Hj) as (e & He & Hi). rewrite He. simpl.
  case (Z.eqb_spec (hc_conn_id e) c) as [<-|Hne]; [by eexists|].
  case (Z.eqb_spec (hc_conn_id e) 0xFFFF) as [Hn|Hn]; [by exists None|].
  apply IH. lia.
Qed.

(** The probe loop of the insertion stops on the entry of [c], on an empty
    entry, or chooses a victim among four entries of other connections. *)
Lemma Insert_loop_spec hot c n j best mn :
  length hot = 64%nat -> 0 <= j -> j + Z.of_nat n = 4 -> passed hot c j ->
  (exists b, 0 <= b < 4 /\ b <= j /\ best = hot_pos c b) ->
  exists r, Insert_loop hot c n j best mn = Some r
    /\ match r with
       | inl p => exists i, 0 <= i < 4 /\ p = hot_pos c i /\ hid hot p = Some c
       | inr p => exists i, 0 <= i < 4 /\ p = hot_pos c i /\ passed hot c i
                   /\ (hid hot p = Some 0xFFFF \/ passed hot c 4)
       end.
Proof.
  intros Hl. revert j best mn. induction n as [|n IH]; intros j best mn Hj Hn Hp (b & Hb & Hbj & ->).
  { simpl. eexists. split; [done|]. exists b. assert (j = 4) as -> by lia.
    split_and!; [lia|lia|done| |tauto]. intros k Hk. apply Hp. lia. }
  simpl. destruct (hot_read hot c j Hl Hj) as (e & He & Hi). rewrite He. simpl.
  case (Z.eqb_spec (hc_conn_id e) c) as [<-|Hne].
  { eexists. split; [done|]. exists j. split_and!; [lia|lia|done|done]. }
  case (Z.eqb_spec (hc_conn_id e) 0xFFFF) as [Hn'|Hn'].
  { eexists. split; [done|]. exists j. split_and!; [lia|lia|done|done|].
    left. by rewrite Hi, Hn'. }
  assert (Hp' : passed hot c (j + 1)) by (eapply passed_S; eauto).
  destruct (hc_access_count e <? mn).
  - apply IH; [lia|lia|done|]. exists j. split_and!; [lia|lia|lia|done].
  - apply IH; [lia|lia|done|]. exists b. split_and!; [lia|lia|lia|done].
Qed.

(** A victim chosen by the loop means that no entry holds [c]. *)
Lemma victim_absent hot c i :
  placed (fun c => c <> 0xFFFF) hot -> c <> 0xFFFF -> 0 <= i < 4 ->
  passed hot c i -> hid hot (hot_pos c i) = Some 0xFFFF \/ passed hot c 4 ->
  forall q, hid hot q <> Some c.
Proof.
  intros H Hc Hi Hp Hv q Hq. destruct (H q c Hq Hc) as (j & Hj & -> & Hjk).
  destruct Hv as [Hv|Hv]; [|destruct (Hv j) as (? & ? & ? & ?); [lia|congruence]].
  destruct (decide (j < i)) as [?|?]; [destruct (Hp j) as (? & ? & ? & ?); [lia|congruence]|].
  destruct (decide (j = i)) as [->|?]; [congruence|].
  destruct (Hjk i) as (? & ? & ? & ?); [lia|congruence].
Qed.

Lemma InsertHotCache_spec d c x h :
  length (hot_cache_ d) = 64%nat -> c <> 0xFFFF ->
  exists hot, InsertHotCache d c x h = Some (set_hot d hot) /\ length hot = 64%nat
    /\ (forall q e, aget hot q = Some e ->
          (hc_conn_id e = c /\ hc_ctx e = x /\ hc_handler e = h) \/ aget (hot_cache_ d) q = Some e)
    /\ (placed (fun c => c <> 0xFFFF) (hot_cache_ d) ->
          placed (fun c => c <> 0xFFFF) hot
          /\ forall q e, aget hot q = Some e -> hc_conn_id e = c -> hc_ctx e = x /\ hc_handler e = h).
Proof.
  intros Hl Hc. unfold InsertHotCache. set (hot := hot_cache_ d) in *.
  destruct (Insert_loop_spec hot c 4 0 (Hash c) UINT16_MAX) as (r & -> & Hr);
    [done|lia|lia|intros k; lia|exists 0; by rewrite hot_pos_0|]. simpl.
  assert (Hins : forall p e, 0 <= p < 64 -> hc_conn_id e = c -> hc_ctx e = x -> hc_handler e = h ->
            forall q e', aget (<[Z.to_nat p := e]> hot) q = Some e' ->
            q = p /\ hc_conn_id e' = c /\ hc_ctx e' = x /\ hc_handler e' = h
            \/ q <> p /\ aget hot q = Some e').
  { intros p e Hp ? ? ? q e' He'. rewrite aget_insert in He' by lia. case_decide; [|by eauto].
    left. naive_solver. }
  destruct r as [p|p].
  - destruct Hr as (i & Hi & -> & Hid). pose proof (hot_pos_range c i) as Hp.
    destruct (hot_read hot c i Hl) as (e & -> & He); [lia|]. simpl.
    rewrite aset_Some by lia. simpl. eexists. split; [done|].
    assert (hc_conn_id e = c) as Hec by congruence.
    split; [by rewrite length_insert|]. split.
    + intros q e' He'. apply Hins in He'; naive_solver lia.
    + intros Hpl. split; [apply placed_same_id; [by rewrite He|lia|done]|].
      intros q e' He' Hq. pose proof He' as He2. apply Hins in He'; [|lia|done..].
      destruct He' as [?|[Hne He']]; [tauto|]. exfalso. apply Hne.
      eapply placed_unique; [done| |by rewrite He, Hec|done]. by rewrite (hid_Some _ _ _ He'), Hq.
  - destruct Hr as (i & Hi & -> & Hpass & Hv). pose proof (hot_pos_range c i) as Hp.
    rewrite aset_Some by lia. simpl. eexists. split; [done|].
    split; [by rewrite length_insert|]. split.
    + intros q e' He'. apply Hins in He'; naive_solver lia.
    + intros Hpl. pose proof (victim_absent hot c i Hpl Hc Hi Hpass Hv) as Hno.
      split; [by apply placed_new_id|].
      intros q e' He' Hq. apply Hins in He'; [|lia|done..].
      destruct He' as [?|[_ He']]; [tauto|]. exfalso. apply (Hno q). by rewrite (hid_Some _ _ _ He'), Hq.
Qed.

(** *** The set-associative cache *)

Lemma l0_read d i : length (l0_cache_ d) = 32%nat -> 0 <= i < 32 -> exists set, aget (l0_cache_ d) i = Some set.
Proof. intros. apply aget_is_Some. lia. Qed.

(** Filling one way with an association of the registry. *)
Lemma fill_way_agrees m i set w c x h :
  l0_agrees m i set -> Z.land c kL0SetMask = i -> m !! c = Some (x, h) ->
  l0_agrees m i (fill_way set w c x h).
Proof.
  intros H Hi Hm w'. specialize (H w').
  destruct w, w'; simpl in *; intros Hne; try (by apply H); by split.
Qed.

Lemma Register_way_spec set c :
  set_packed set -> c <> 0xFFFF ->
  let w := Register_way set [W0; W1] c W0 255 in
  forall x h, set_packed (fill_way set w c x h)
    /\ forall w', wget w' (conn_ids (fill_way set w c x h)) = c -> w' = w.
Proof.
  intros [Hd Hp] Hc w x h. subst w. unfold set_packed, set_distinct in *. simpl.
  destruct set as [[i0 i1] [a0 a1] gs cs hs]. simpl in *.
  repeat (case Z.eqb_spec; intros ?; simpl; try subst);
    repeat (case Z.ltb_spec; intros ?; simpl; try subst);
    split; intros; try (destruct w'; simpl in *); naive_solver lia.
Qed.

Lemma Promote_way_spec set c :
  wget W0 (conn_ids set) <> c -> wget W1 (conn_ids set) <> c -> c <> 0xFFFF ->
  exists w, Promote_way set [W0; W1] c = Some w
    /\ forall x h, set_packed set -> set_packed (fill_way set w c x h).
Proof.
  intros H0 H1 Hc. unfold set_packed, set_distinct in *. simpl.
  destruct set as [[i0 i1] [a0 a1] gs cs hs]. simpl in *.
  repeat (case Z.eqb_spec; intros ?; simpl; try subst); try done;
    eexists; (split; [done|]); intros; repeat (case Z.leb_spec; intros ?; simpl; try subst);
    simpl; naive_solver lia.
Qed.

(** *** Preservation of coherence *)

Lemma coherent_set_l0 d m i set l0 :
  coherent d m -> aset (l0_cache_ d) i set = Some l0 -> l0_agrees m i set ->
  coherent (set_l0 d l0) m.
Proof.
  intros [] [Hi ->]%aset_inv Ha. constructor; simpl; try done; [by rewrite length_insert|].
  intros j s'. rewrite aget_insert by done. case_decide; [|by eauto]. intros [= <-]. by subst.
Qed.

Lemma coherent_set_hot d m hot :
  coherent d m -> length hot = 64%nat ->
  (forall p e, aget hot p = Some e -> hot_agrees m e) -> coherent (set_hot d hot) m.
Proof. intros [] ??. by constructor. Qed.

Lemma InsertHotCache_coherent d m c x h :
  coherent d m -> m !! c = Some (x, h) ->
  exists d', InsertHotCache d c x h = Some d' /\ coherent d' m /\ (tidy d -> tidy d')
    /\ (error_ctx d', error_handler d') = (error_ctx d, error_handler d).
Proof.
  intros Hco Hm. destruct (co_dom _ _ Hco _ _ _ Hm) as [Hc _].
  destruct (InsertHotCache_spec d c x h) as (hot & -> & Hl & Hin & Hpl); [apply Hco|lia|].
  eexists. split; [done|]. split_and!; [| |done].
  - apply coherent_set_hot; [done..|]. intros p e [(<- & <- & <-)|He]%Hin; [by intros _|].
    by eapply co_hot.
  - intros [Hp H0]. split; [apply Hpl, Hp|done].
Qed.

Lemma tidy_set_l0 d i set l0 :
  tidy d -> aset (l0_cache_ d) i set = Some l0 -> set_packed set -> tidy (set_l0 d l0).
Proof. intros [Hp H0] [Hi ->]%aset_inv Hs. split; [done|]. simpl. by apply Forall_insert. Qed.

Lemma MaybePromoteToL0_coherent d m c x h set :
  coherent d m -> m !! c = Some (x, h) ->
  aget (l0_cache_ d) (Z.land c kL0SetMask) = Some set ->
  wget W0 (conn_ids set) <> c -> wget W1 (conn_ids set) <> c ->
  exists d', MaybePromoteToL0 d c x h = Some d' /\ coherent d' m /\ (tidy d -> tidy d')
    /\ (error_ctx d', error_handler d') = (error_ctx d, error_handler d).
Proof.
  intros Hco Hm Hset H0 H1. destruct (co_dom _ _ Hco _ _ _ Hm) as [Hc _].
  unfold MaybePromoteToL0. rewrite Hset. sbind.
  destruct (Promote_way_spec set c H0 H1) as (w & -> & Hpk); [lia|].
  pose proof (set_idx_range c). rewrite aset_Some by (rewrite (co_l0_len _ _ Hco); lia). simpl.
  eexists. split; [done|]. assert (E := aset_Some (l0_cache_ d) (Z.land c kL0SetMask) (fill_way set w c x h)).
  rewrite (co_l0_len _ _ Hco) in E. specialize (E ltac:(lia)). split_and!; [| |done].
  - eapply coherent_set_l0; [done..|]. apply fill_way_agrees; [by eapply co_l0|done..].
  - intros Ht. eapply tidy_set_l0; [done..|]. apply Hpk.
    apply aget_Some in Hset as [_ Hset]. destruct Ht as [_ Ht]. rewrite Forall_lookup in Ht. eauto.
Qed.

(** A hit changes access counts only. *)
Lemma L0_hit_spec set w other wc :
  wget w (handlers set) <> 0 ->
  exists set', L0_hit set w other wc
               = Some (set', ECall (wget w (handlers set)) (wget w (ctxs set)) wc)
    /\ conn_ids set' = conn_ids set /\ ctxs set' = ctxs set /\ handlers set' = handlers set.
Proof.
  intros Hh. unfold L0_hit, call. simpl. case Z.eqb_spec; [done|]. intros _. simpl.
  eexists. split; [done|]. by case_match.
Qed.

Lemma L0_hit_dispatch d m c set w other wc :
  coherent d m -> c <> 0xFFFF -> wget w (conn_ids set) = c ->
  aget (l0_cache_ d) (Z.land c kL0SetMask) = Some set ->
  exists d', ('(set, ev) ← L0_hit set w other wc;
              l0 ← aset (l0_cache_ d) (Z.land c kL0SetMask) set;
              Some (set_l0 d l0, [ev]))
             = Some (d', match m !! c with Some (x, h) => [ECall h x wc] | None => [] end)
    /\ coherent d' m /\ (tidy d -> tidy d') /\ (error_ctx d', error_handler d') = (error_ctx d, error_handler d).
Proof.
  intros Hco Hc Hw Hset. destruct (co_l0 _ _ Hco _ _ Hset w) as [_ Hm]; [congruence|].
  rewrite Hw in Hm. rewrite Hm. destruct (co_dom _ _ Hco _ _ _ Hm) as [_ Hh].
  destruct (L0_hit_spec set w other wc Hh) as (set' & -> & Hi & Hx & Hhs). simpl.
  pose proof (set_idx_range c) as Hr. pose proof (co_l0_len _ _ Hco) as Hl.
  assert (E := aset_Some (l0_cache_ d) (Z.land c kL0SetMask) set'). rewrite Hl in E.
  specialize (E ltac:(lia)). rewrite E. simpl. eexists. split; [done|]. split_and!; [| |done].
  - eapply coherent_set_l0; [done..|]. intros w'. rewrite Hi, Hx, Hhs. by eapply co_l0.
  - intros Ht. eapply tidy_set_l0; [done..|]. unfold set_packed, set_distinct. rewrite Hi.
    apply aget_Some in Hset as [_ Hset]. destruct Ht as [_ Ht]. rewrite Forall_lookup in Ht. by apply (Ht _ _ Hset).
Qed.

Lemma l2_bucket_entry d m c : coherent d m -> is_u 16 c ->
  exists b, aget (buckets_ d) (c / 256) = Some b
    /\ match b with Some b => exists e, aget b (c mod 256) = Some e | None => True end.
Proof.
  intros Hco Hc. destruct (aget_is_Some (buckets_ d) (c / 256)) as [b Hb].
  { rewrite (co_l2_len _ _ Hco). solve_word. }
  exists b. split; [done|]. destruct b as [b|]; [|done]. apply aget_is_Some.
  pose proof (co_l2_ok _ _ Hco) as H. rewrite Forall_lookup in H. apply aget_Some in Hb as [_ Hb].
  specialize (H _ _ Hb). simpl in H. rewrite H. solve_word.
Qed.

Lemma DispatchFromL2_spec d m c wc :
  coherent d m -> is_u 16 c ->
  exists d', DispatchFromL2 d c wc
             = Some (d', match m !! c with Some (x, h) => [ECall h x wc] | None => [] end)
    /\ coherent d' m /\ (tidy d -> tidy d') /\ (error_ctx d', error_handler d') = (error_ctx d, error_handler d).
Proof.
  intros Hco Hc. unfold DispatchFromL2. rewrite bucket_idx_eq, slot_idx_eq by done.
  pose proof (co_l2 _ _ Hco c Hc) as Hm. unfold l2_lookup in Hm.
  destruct (l2_bucket_entry d m c Hco Hc) as (b & Hb & He). rewrite Hb in *. simpl in *.
  destruct b as [b|]; simpl in *; [|rewrite <- Hm; by eauto 10].
  destruct He as [e He]. rewrite He in *. simpl in *.
  destruct (ce_handler e =? 0) eqn:Eh; [rewrite <- Hm; by eauto 10|].
  unfold call. rewrite Eh. simpl.
  destruct (InsertHotCache_coherent d m c (ce_ctx e) (ce_handler e) Hco (eq_sym Hm)) as (d' & E & ?).
  rewrite E. simpl. rewrite <- Hm. by exists d'.
Qed.

(** A successful completion runs exactly the handler of the registry, whichever
    cache answers. *)
Lemma Dispatch_success d m wc :
  coherent d m -> wc_status wc = IBV_WC_SUCCESS -> WrId.GetConnId (wc_wr_id wc) <> 0xFFFF ->
  exists d', Dispatch d wc
             = Some (d', match m !! WrId.GetConnId (wc_wr_id wc) with
                         | Some (x, h) => [ECall h x wc] | None => [] end)
    /\ coherent d' m /\ (tidy d -> tidy d')
    /\ (error_ctx d', error_handler d') = (error_ctx d, error_handler d).
Proof.
  intros Hco Hs Hne. unfold Dispatch. rewrite Hs. simpl negb.
  set (c := WrId.GetConnId (wc_wr_id wc)) in *.
  assert (is_u 16 c) as Hc by (apply wrap_range; lia).
  destruct (l0_read d (Z.land c kL0SetMask) (co_l0_len _ _ Hco) (set_idx_range c)) as [set Hset].
  rewrite Hset. sbind.
  case (Z.eqb_spec (wget W0 (conn_ids set)) c) as [H0|H0]; [by eapply L0_hit_dispatch|].
  case (Z.eqb_spec (wget W1 (conn_ids set)) c) as [H1|H1]; [by eapply L0_hit_dispatch|].
  unfold FindInHotCache.
  destruct (Find_loop_spec (hot_cache_ d) c 4 0 (co_hot_len _ _ Hco)) as (r & -> & Hr); [lia|].
  destruct r as [p|]; [|by apply DispatchFromL2_spec].
  unfold hid in Hr. destruct (aget (hot_cache_ d) p) as [e|] eqn:He; [|done]. simpl in Hr. injection Hr as Hr.
  pose proof (co_hot _ _ Hco p e He) as Hm. unfold hot_agrees in Hm. rewrite Hr in Hm.
  specialize (Hm Hne). rewrite Hm. destruct (co_dom _ _ Hco _ _ _ Hm) as [_ Hh].
  unfold call. sbind. rewrite He. sbind. case Z.eqb_spec; [done|]. intros _. sbind.
  pose proof (aget_lt _ _ _ He) as Hp. rewrite aset_Some by done. sbind.
  set (hot' := <[_ := _]> (hot_cache_ d)).
  assert (coherent (set_hot d hot') m) as Hco'.
  { apply coherent_set_hot; [done|by unfold hot'; rewrite length_insert, (co_hot_len _ _ Hco)|].
    intros q e'. unfold hot'. rewrite aget_insert by done. case_decide; [|by eapply co_hot].
    intros [= <-]. unfold hot_agrees. simpl. by rewrite Hr. }
  destruct (MaybePromoteToL0_coherent (set_hot d hot') m c (hc_ctx e) (hc_handler e) set)
    as (d' & -> & Hd' & Ht & He'); [done..|].
  simpl. exists d'. split_and!; [done..| |done].
  intros [Hpl H0']. apply Ht. split; [|done]. apply placed_same_id; [|done|done].
  by rewrite (hid_Some _ _ _ He).
Qed.

(** *** Registration *)

Lemma l2_lookup_insert bs c c' b e :
  is_u 16 c -> is_u 16 c' -> length bs = 256%nat -> aget bs (c / 256) = Some b -> bucket_ok b ->
  l2_lookup (<[Z.to_nat (c / 256) :=
      Some (<[Z.to_nat (c mod 256) := e]> (default (replicate 256 {| ce_ctx := 0; ce_handler := 0 |}) b))]> bs) c'
  = if decide (c = c') then if ce_handler e =? 0 then None else Some (ce_ctx e, ce_handler e)
    else l2_lookup bs c'.
Proof.
  intros Hc Hc' Hl Hb Hok. unfold l2_lookup.
  set (b0 := default (replicate 256 {| ce_ctx := 0; ce_handler := 0 |}) b).
  assert (length b0 = 256%nat) as Hb0.
  { unfold b0. destruct b as [b|]; cbn [default from_option]; [exact Hok|]. by rewrite length_replicate. }
  assert (0 <= c / 256 < 256 /\ 0 <= c mod 256 < 256) as [? ?] by (unfold is_u in *; zdm).
  rewrite aget_insert by lia. destruct (decide (c / 256 = c' / 256)) as [E|E].
  - sbind. rewrite aget_insert by lia. destruct (decide (c mod 256 = c' mod 256)) as [E'|E'].
    + sbind. rewrite decide_True by zdm. done.
    + rewrite decide_False by congruence. rewrite <- E, Hb. sbind. unfold b0.
      destruct b as [b|]; [done|]. cbn [default from_option].
      destruct (aget _ (c' mod 256)) as [e'|] eqn:He; [|done].
      apply aget_Some in He as [_ He]. apply lookup_replicate in He as [-> _]. done.
  - rewrite decide_False by congruence. done.
Qed.

(** Both updates of the two-level index. *)
Lemma coherent_set_l2 d m c b e b1 bs :
  coherent d m -> is_u 16 c -> aget (buckets_ d) (c / 256) = Some b ->
  aset (default (replicate 256 {| ce_ctx := 0; ce_handler := 0 |}) b) (c mod 256) e = Some b1 ->
  aset (buckets_ d) (c / 256) (Some b1) = Some bs ->
  Forall bucket_ok bs /\ length bs = 256%nat
  /\ forall c', is_u 16 c' ->
       l2_lookup bs c' = if decide (c = c') then if ce_handler e =? 0 then None else Some (ce_ctx e, ce_handler e)
                         else m !! c'.
Proof.
  intros Hco Hc Hb [? ->]%aset_inv [? ->]%aset_inv.
  assert (bucket_ok b) as Hok.
  { pose proof (co_l2_ok _ _ Hco) as H'. rewrite Forall_lookup in H'. apply aget_Some in Hb as [_ Hb]. eauto. }
  split_and!.
  - apply Forall_insert; [apply Hco|]. unfold bucket_ok. rewrite length_insert.
    destruct b; cbn [default from_option]; [done|]. by rewrite length_replicate.
  - rewrite length_insert. apply Hco.
  - intros c' Hc'. rewrite (l2_lookup_insert _ _ _ b) by (done || apply Hco).
    case_decide; [done|]. by apply Hco.
Qed.

Lemma bucket_write d m c e :
  coherent d m -> is_u 16 c ->
  exists b, aget (buckets_ d) (c / 256) = Some b
    /\ exists b1, aset (default (replicate 256 {| ce_ctx := 0; ce_handler := 0 |}) b) (c mod 256) e = Some b1
    /\ exists bs, aset (buckets_ d) (c / 256) (Some b1) = Some bs.
Proof.
  intros Hco Hc. destruct (l2_bucket_entry d m c Hco Hc) as (b & Hb & He). exists b. split; [done|].
  assert (0 <= c mod 256 < 256) by (unfold is_u in *; zdm).
  eexists. split.
  { apply aset_Some. destruct b as [b|]; unfold default, from_option, id; [|rewrite length_replicate; lia].
    destruct He as [? He%aget_lt]. done. }
  eexists. apply aset_Some. by apply aget_lt in Hb.
Qed.

Lemma RegisterConnection_spec d m c x h :
  coherent d m -> tidy d -> 0 <= c < 0xFFFF -> h <> 0 ->
  exists d', RegisterConnection d c x h = Some d' /\ coherent d' (<[c := (x, h)]> m) /\ tidy d'
    /\ (error_ctx d', error_handler d') = (error_ctx d, error_handler d).
Proof.
  intros Hco [Hpl H0] Hc Hh. assert (is_u 16 c) as Hu by solve_word.
  unfold RegisterConnection. rewrite bucket_idx_eq, slot_idx_eq by done.
  change (Z.to_nat 256) with 256%nat.
  destruct (bucket_write d m c {| ce_ctx := x; ce_handler := h |} Hco Hu) as (b & Hb & b1 & Hb1 & bs & Hbs).
  rewrite Hb. sbind. rewrite Hb1. sbind. rewrite Hbs. sbind.
  destruct (coherent_set_l2 _ _ _ _ _ _ _ Hco Hu Hb Hb1 Hbs) as (Hok & Hlen & Hl2). simpl ce_handler in Hl2.
  destruct (l0_read d (Z.land c kL0SetMask) (co_l0_len _ _ Hco) (set_idx_range c)) as [set Hset].
  cbn [l0_cache_ set_buckets]. rewrite Hset. sbind.
  pose proof (aget_lt _ _ _ Hset) as Hr. rewrite aset_Some by done. sbind.
  set (w := Register_way _ _ _ _ _). set (l0 := <[_ := _]> (l0_cache_ d)).
  assert (set_packed set) as Hsp.
  { apply aget_Some in Hset as [_ Hset]. rewrite Forall_lookup in H0. eauto. }
  destruct (Register_way_spec set c Hsp) with (x := x) (h := h) as [Hpk Hway]; [lia|]. fold w in Hpk, Hway.
  destruct (InsertHotCache_spec (set_l0 (set_buckets d bs) l0) c x h) as (hot & -> & Hhl & Hin & Htd);
    [apply Hco|lia|]. simpl in Htd, Hin. destruct (Htd Hpl) as [Hpl' Hnew].
  eexists. split; [done|]. split_and!; [|split; [done|by apply Forall_insert]|done].
  constructor; simpl; [..|done| | | |]; try done.
  - unfold l0. rewrite length_insert. apply Hco.
  - intros c' Hc'. rewrite Hl2 by done. case Z.eqb_spec; [done|]. intros _.
    case_decide; [subst; by rewrite lookup_insert_eq|by rewrite lookup_insert_ne].
  - intros c' x' h'. destruct (decide (c = c')) as [<-|]; [|rewrite lookup_insert_ne by done; by apply Hco].
    rewrite lookup_insert_eq. intros [= <- <-]. split; [lia|done].
  - intros i set'. unfold l0. rewrite aget_insert by done. case_decide as Hi.
    + intros [= <-] w'. destruct (decide (wget w' (conn_ids (fill_way set w c x h)) = c)) as [E|E].
      * rewrite E. intros _. split; [done|]. rewrite lookup_insert_eq. rewrite (Hway _ E). by destruct w.
      * intros Hne. rewrite lookup_insert_ne by done. subst i.
        pose proof (co_l0 _ _ Hco _ _ Hset w') as Ha. clear -E Hne Ha.
        destruct w, w'; simpl in *; try done; by apply Ha.
    + intros Hs w' Hne. rewrite lookup_insert_ne; [by apply (co_l0 _ _ Hco _ _ Hs)|].
      intros E. apply Hi. rewrite E. by apply (co_l0 _ _ Hco _ _ Hs).
  - intros p e He Hne. destruct (decide (hc_conn_id e = c)) as [E|E].
    + destruct (Hnew _ _ He E) as [<- <-]. by rewrite E, lookup_insert_eq.
    + rewrite lookup_insert_ne by done. destruct (Hin _ _ He) as [(? & _)|He']; [done|].
      by apply (co_hot _ _ Hco _ _ He').
Qed.

(** *** Removal *)

Lemma Unregister_hot_spec hot c n j :
  length hot = 64%nat -> c <> 0xFFFF -> placed (fun _ => True) hot ->
  0 <= j -> j + Z.of_nat n = 4 -> (forall k, 0 <= k < j -> hid hot (hot_pos c k) <> Some c) ->
  exists hot', Unregister_hot hot c n j = Some hot' /\ length hot' = 64%nat
    /\ placed (fun _ => True) hot'
    /\ forall q e, aget hot' q = Some e ->
         hc_conn_id e = 0xFFFF \/ (aget hot q = Some e /\ hc_conn_id e <> c).
Proof.
  intros Hl Hc Hpl. revert j. induction n as [|n IH]; intros j Hj Hn Hno; simpl.
  - exists hot. split_and!; [done..|]. intros q e He. right. split; [done|]. intros Hec.
    destruct (Hpl q c) as (i & Hi & -> & _); [by rewrite (hid_Some _ _ _ He), Hec|done|].
    apply (Hno i); [lia|]. by rewrite (hid_Some _ _ _ He), Hec.
  - destruct (hot_read hot c j Hl Hj) as (e & He & Hi). rewrite He. sbind.
    case (Z.eqb_spec (hc_conn_id e) c) as [E|E].
    2: { apply IH; [lia|lia|]. intros k Hk. destruct (decide (k = j)) as [->|]; [congruence|]. apply Hno. lia. }
    pose proof (hot_pos_range c j Hj) as Hp. rewrite aset_Some by lia.
    eexists. split; [done|]. split; [by rewrite length_insert|]. split.
    + intros q c'. rewrite hid_insert by lia. simpl. case_decide; [congruence|]. intros Hq Hc'.
      destruct (Hpl q c' Hq Hc') as (i & ? & ? & Hk). exists i. split_and!; [lia|lia|done|].
      intros k Hki. rewrite hid_insert by lia. case_decide; [simpl; eauto|]. by apply Hk.
    + intros q e'. rewrite aget_insert by lia. case_decide as Hq.
      * intros [= <-]. by left.
      * intros He'. right. split; [done|]. intros E'. apply Hq.
        eapply placed_unique; [done|by rewrite Hi, E|by rewrite (hid_Some _ _ _ He'), E'|done].
Qed.

Lemma Unregister_ways_spec set c :
  set_distinct set -> c <> 0xFFFF ->
  let set' := Unregister_ways set [W0; W1] c in
  set_distinct set'
  /\ forall w, wget w (conn_ids set') = 0xFFFF
       \/ (wget w (conn_ids set') = wget w (conn_ids set) /\ wget w (conn_ids set) <> c
           /\ wget w (ctxs set') = wget w (ctxs set) /\ wget w (handlers set') = wget w (handlers set)).
Proof.
  intros Hd Hc. unfold set_distinct in *. destruct set as [[i0 i1] ac gs [x0 x1] [h0 h1]]. simpl in *.
  repeat (case Z.eqb_spec; intros ?; simpl; try subst); split;
    try (intros w; destruct w; simpl); naive_solver lia.
Qed.

Lemma UnregisterConnection_spec d m c :
  coherent d m -> unique d -> 0 <= c < 0xFFFF ->
  exists d', UnregisterConnection d c = Some d' /\ coherent d' (delete c m) /\ unique d'
    /\ (error_ctx d', error_handler d') = (error_ctx d, error_handler d).
Proof.
  intros Hco [Hpl H0] Hc. assert (is_u 16 c) as Hu by solve_word.
  unfold UnregisterConnection. rewrite bucket_idx_eq, slot_idx_eq by done.
  destruct (bucket_write d m c {| ce_ctx := 0; ce_handler := 0 |} Hco Hu) as (b & Hb & b1 & Hb1 & bs & Hbs).
  rewrite Hb. sbind.
  assert (exists bs, (match b with
      | Some bucket =>
          bucket ← aset bucket (c mod 256) {| ce_ctx := 0; ce_handler := 0 |};
          buckets ← aset (buckets_ d) (c / 256) (Some bucket);
          Some (set_buckets d buckets)
      | None => Some d
      end) = Some (set_buckets d bs)
      /\ Forall bucket_ok bs /\ length bs = 256%nat
      /\ forall c', is_u 16 c' -> l2_lookup bs c' = delete c m !! c') as (bs' & -> & Hok & Hlen & Hl2).
  { destruct b as [b|].
    - change (default _ (Some b)) with b in Hb1. rewrite Hb1. sbind. rewrite Hbs. sbind.
      destruct (coherent_set_l2 _ _ _ (Some b) _ _ _ Hco Hu Hb Hb1 Hbs) as (? & ? & Hl2).
      exists bs. split_and!; [done..|]. intros c' Hc'. rewrite Hl2 by done.
      case_decide; [subst; by rewrite lookup_delete_eq|by rewrite lookup_delete_ne].
    - exists (buckets_ d). split_and!; [by destruct d|apply Hco|apply Hco|].
      intros c' Hc'. rewrite (co_l2 _ _ Hco) by done. destruct (decide (c = c')) as [<-|];
        [|by rewrite lookup_delete_ne].
      rewrite lookup_delete_eq, <- (co_l2 _ _ Hco) by done. unfold l2_lookup. by rewrite Hb. }
  sbind. cbn [l0_cache_ set_buckets].
  destruct (l0_read d (Z.land c kL0SetMask) (co_l0_len _ _ Hco) (set_idx_range c)) as [set Hset].
  rewrite Hset. sbind. pose proof (aget_lt _ _ _ Hset) as Hr. rewrite aset_Some by done. sbind.
  cbn [hot_cache_ set_l0 set_buckets].
  destruct (Unregister_hot_spec (hot_cache_ d) c 4 0) as (hot & -> & Hhl & Hpl' & Hin);
    [apply Hco|lia|done|lia|lia|lia|]. sbind.
  destruct (Unregister_ways_spec set c) as [Hd' Hw];
    [apply aget_Some in Hset as [_ Hset]; rewrite Forall_lookup in H0; eauto|lia|].
  eexists. split; [done|]. split_and!; [|split; [done|by apply Forall_insert]|done].
  clear Hb1 Hbs. generalize dependent (Unregister_ways set [W0; W1] c). intros set1 Hd' Hw. constructor; cbn [l0_cache_ hot_cache_ buckets_ set_l0 set_hot set_buckets]; try done.
  - rewrite length_insert. apply Hco.
  - intros c' x' h' [_ ?]%lookup_delete_Some. by eapply co_dom.
  - intros i set'. rewrite aget_insert by done. case_decide as Hi.
    + intros [= <-] w Hne. destruct (Hw w) as [?|(E & Hwc & -> & ->)]; [done|]. rewrite E in *.
      rewrite lookup_delete_ne by congruence. subst i. by apply (co_l0 _ _ Hco _ _ Hset).
    + intros Hs w Hne. destruct (co_l0 _ _ Hco _ _ Hs w Hne) as [? ?].
      rewrite lookup_delete_ne by congruence. done.
  - intros p e He Hne. destruct (Hin _ _ He) as [?|[He' ?]]; [done|].
    rewrite lookup_delete_ne by congruence. by apply (co_hot _ _ Hco _ _ He').
Qed.

(** *** Traces *)

Lemma tidy_unique d : tidy d -> unique d.
Proof.
  intros [Hp H0]. split; [by eapply placed_mono|].
  eapply Forall_impl; [exact H0|]. by intros s [? _].
Qed.

Lemma represents_new : represents CompletionDispatcher_new spec_new /\ tidy CompletionDispatcher_new.
Proof.
  assert (Hrep : forall {A} n (x : A) i y, aget (replicate n x) i = Some y -> y = x).
  { intros A n x i y [_ [H _]%lookup_replicate]%aget_Some. done. }
  assert (Hm : forall c, sp_map spec_new !! c = None) by (intros; apply lookup_empty).
  split; [split; [|done]|split].
  - constructor; cbn [CompletionDispatcher_new l0_cache_ hot_cache_ buckets_]; [done|done|done| | | | |].
    + by apply Forall_replicate.
    + intros c Hc. rewrite Hm. unfold l2_lookup. destruct (aget _ _) as [b|] eqn:E; [|done].
      by apply Hrep in E as ->.
    + intros c x h. by rewrite Hm.
    + intros i set ->%Hrep w. by destruct w.
    + intros p e ->%Hrep. by intros ?.
  - intros p c Hp Hc. unfold hid in Hp. cbn [CompletionDispatcher_new hot_cache_] in Hp.
    destruct (aget _ p) as [e|] eqn:E; [|done]. apply Hrep in E as ->. simpl in Hp. congruence.
  - by apply Forall_replicate.
Qed.

Lemma represents_step p d s o p' :
  represents d s -> phase_inv p d -> op_ok o = true -> next_phase p o = Some p' ->
  exists d', step d o = Some (d', (spec_step s o).2)
    /\ represents d' (spec_step s o).1 /\ phase_inv p' d'.
Proof.
  intros [Hco He] Hinv Hok Hp. destruct o as [c x h|c|wc|x h];
    cbn [step spec_step fst snd op_ok next_phase sp_map sp_err] in *.
  - destruct p; try done. injection Hp as <-.
    destruct (RegisterConnection_spec d (sp_map s) c x h) as (d' & -> & Hc' & Ht' & E);
      [exact Hco|exact Hinv|lia|lia|].
    sbind. exists d'. split; [reflexivity|]. split; [|exact Ht']. split; [exact Hc'|]. simpl. congruence.
  - assert (unique d) as Hu.
    { destruct p; [by apply tidy_unique|exact Hinv|discriminate]. }
    destruct (UnregisterConnection_spec d (sp_map s) c) as (d' & -> & Hc' & Hu' & E);
      [exact Hco|exact Hu|lia|].
    sbind. exists d'. split; [reflexivity|]. split; [split; [exact Hc'|]; simpl; congruence|].
    destruct p; try discriminate; injection Hp as <-; exact Hu'.
  - unfold spec_dispatch. case (Z.eqb_spec (wc_status wc) IBV_WC_SUCCESS) as [Hs|Hs].
    + destruct (Dispatch_success d (sp_map s) wc) as (d' & -> & Hc' & Ht & E);
        [exact Hco|exact Hs|lia|].
      exists d'. split; [reflexivity|]. split; [split; [exact Hc'|]; congruence|].
      destruct p; injection Hp as <-; [exact (Ht Hinv)|exact I|exact I].
    + unfold Dispatch. case (Z.eqb_spec (wc_status wc) IBV_WC_SUCCESS); [done|]. intros _. simpl negb.
      cbv iota. rewrite He. exists d. split; [reflexivity|]. split; [split; assumption|].
      destruct p; injection Hp as <-; [exact Hinv|exact I|exact I].
  - exists (SetErrorHandler d x h). split; [done|]. split; [split; [|done]; by destruct Hco|].
    injection Hp as <-. exact Hinv.
Qed.

Lemma DispatchBatch_loop_simple wcs1 wcs d :
  DispatchBatch_loop d (wcs1 ++ wcs) (length wcs) (Z.of_nat (length wcs1)) = DispatchBatchSimple d wcs.
Proof.
  revert wcs1 d. induction wcs as [|wc wcs IH]; intros wcs1 d; [done|].
  cbn [length DispatchBatch_loop DispatchBatchSimple]. unfold aget at 1.
  rewrite decide_True, Nat2Z.id, list_lookup_middle by (done || lia). sbind.
  destruct (Dispatch d wc) as [[d1 evs]|]; [|done]. sbind.
  replace (Z.of_nat (length wcs1) + 1) with (Z.of_nat (length (wcs1 ++ [wc]))) by (rewrite length_app; simpl; lia).
  replace (wcs1 ++ wc :: wcs) with ((wcs1 ++ [wc]) ++ wcs) by by rewrite <- app_assoc.
  by rewrite IH.
Qed.

Lemma DispatchBatch_simple d wcs : DispatchBatch d wcs (Z.of_nat (length wcs)) = DispatchBatchSimple d wcs.
Proof. unfold DispatchBatch. rewrite Nat2Z.id. apply (DispatchBatch_loop_simple []). Qed.

Lemma DispatchBatchSimple_spec d s wcs :
  represents d s -> Forall (fun wc => WrId.GetConnId (wc_wr_id wc) <> 0xFFFF) wcs ->
  exists d', DispatchBatchSimple d wcs = Some (d', wcs ≫= spec_dispatch s) /\ represents d' s.
Proof.
  intros Hr Hok. revert d Hr. induction Hok as [|wc wcs Hc _ IH]; intros d Hr; cbn [DispatchBatchSimple]; [by exists d|].
  rewrite bind_cons.
  destruct (represents_step PDispatch d s (ODispatch wc) PDispatch Hr I) as (d1 & E & Hr1 & _);
    [|reflexivity|]. { cbn [op_ok]. by case Z.eqb_spec. }
  cbn [step spec_step snd fst] in *. rewrite E. sbind.
  destruct (IH d1 Hr1) as (d2 & E2 & Hr2). rewrite E2. sbind. by exists d2.
Qed.

End lemmas.

(** ** Properties *)

Section properties.
Import CompletionDispatcher.

(** A completion for the reserved id 0xFFFF is taken for one of the empty entries
    of the first cache, and calls a null handler. *)
Theorem sentinel_id_undefined wc :
  wc_status wc = IBV_WC_SUCCESS -> WrId.GetConnId (wc_wr_id wc) = 0xFFFF -> Dispatch CompletionDispatcher_new wc = None.
Proof.
  intros Hs Hc. unfold Dispatch. rewrite Hs, Hc. cbn [negb Z.eqb]. 
  change (Z.land 65535 kL0SetMask) with kL0SetMask. cbn [CompletionDispatcher_new l0_cache_].
  destruct (aget _ _) as [set|] eqn:E; [|done]. apply aget_Some in E as [_ [-> _]%lookup_replicate]. reflexivity.
Qed.

Lemma sentinel_id_undefined_witness :
  Dispatch CompletionDispatcher_new {| wc_wr_id := 0xFFFF * 2 ^ 48; wc_status := 0; wc_byte_len := 0; wc_imm_data := 0 |} = None.
Proof. apply sentinel_id_undefined; reflexivity. Defined.

(** C13: The three-level dispatcher refines a map from connection ids to
    handlers: on every trace that removes connections only after the
    registrations are done (and dispatches after the last removal), the
    dispatcher has no undefined behaviour and calls, for every completion,
    exactly the handler of the registry - whichever of the L0 sets, the L1 hash
    table and the L2 index answers - and the error handler for every failed
    completion. Ids have 16 bits, and the trace does not register, remove or
    dispatch 0xFFFF, the marker of an empty entry of the caches, nor register a
    null handler: a completion with that id finds an empty way and calls a null
    handler ([sentinel_id_undefined]). *)
Theorem dispatcher_refines_map (os : list Op) :
  disciplined PRegister os = true ->
  exists d, run CompletionDispatcher_new os = Some (d, (spec_run spec_new os).2)
    /\ represents d (spec_run spec_new os).1.
Proof.
  assert (H : forall os p d s, represents d s -> phase_inv p d -> disciplined p os = true ->
    exists d', run d os = Some (d', (spec_run s os).2) /\ represents d' (spec_run s os).1).
  { clear os. induction os as [|o os IH]; intros p d s Hr Hp Hd; simpl in *; [eauto|].
    apply andb_prop in Hd as [Hok Hd]. destruct (next_phase p o) as [p'|] eqn:E; [|done].
    destruct (represents_step p d s o p' Hr Hp Hok E) as (d' & -> & Hr' & Hp'). sbind.
    destruct (IH p' d' _ Hr' Hp' Hd) as (d'' & E' & Hr''). rewrite E'. sbind.
    destruct (spec_step s o) as [s1 evs1]. simpl in *. destruct (spec_run s1 os) as [s2 evs2]. simpl in *.
    eauto. }
  intros Hd. destruct represents_new as [Hr Ht]. by apply (H os PRegister).
Qed.

Lemma dispatcher_refines_map_witness :
  disciplined PRegister busy_trace = true
  /\ exists d, run CompletionDispatcher_new busy_trace = Some (d, (spec_run spec_new busy_trace).2)
      /\ represents d (spec_run spec_new busy_trace).1.
Proof.
  assert (H : disciplined PRegister busy_trace = true) by (vm_compute; reflexivity).
  split; [exact H|]. exact (dispatcher_refines_map busy_trace H).
Defined.

(** A batch of completions is dispatched as the sequence of its elements, in
    order and completely: in every state that represents a registry, no element
    is lost, repeated or given to another connection, failed completions go to
    the error handler, and the registry is still represented afterwards. *)
Theorem batch_dispatches_all (d : CompletionDispatcher) (s : Spec) (wcs : list ibv_wc) :
  represents d s ->
  Forall (fun wc => WrId.GetConnId (wc_wr_id wc) <> 0xFFFF) wcs ->
  exists d', DispatchBatchSimple d wcs = Some (d', wcs ≫= spec_dispatch s)
    /\ DispatchBatch d wcs (Z.of_nat (length wcs)) = Some (d', wcs ≫= spec_dispatch s)
    /\ represents d' s.
Proof.
  intros Hr Hok. rewrite DispatchBatch_simple.
  destruct (DispatchBatchSimple_spec d s wcs Hr Hok) as (d' & E & H). by exists d'.
Qed.

Lemma batch_dispatches_all_witness :
  exists d', DispatchBatchSimple CompletionDispatcher_new
               [completion 3 0 IBV_WC_SUCCESS; completion 4 1 12]
             = Some (d', [completion 3 0 IBV_WC_SUCCESS; completion 4 1 12] ≫= spec_dispatch spec_new)
    /\ represents d' spec_new.
Proof.
  destruct (batch_dispatches_all CompletionDispatcher_new spec_new
    [completion 3 0 IBV_WC_SUCCESS; completion 4 1 12] (proj1 represents_new)) as (d' & E & _ & H).
  { repeat constructor; vm_compute; discriminate. }
  exists d'. split; [exact E|exact H].
Defined.

(** The discipline of the refinement is needed. The lookup and the
    registration of a connection stop at the first empty entry, while a removal
    leaves an empty entry in front of live ones; registering an id again then
    caches it twice and removing it clears one copy only. On the trace of a
    client that reconnects and leaves, every operation is well formed and the
    registry ends without connection 32, yet the completion for it is handed to
    the handler and context of the first registration. *)
Theorem stale_handler_after_unregister :
  forallb op_ok reuse_trace = true
  /\ sp_map (spec_run spec_new reuse_trace).1 !! 32 = None
  /\ (spec_run spec_new reuse_trace).2 = []
  /\ option_map snd (run CompletionDispatcher_new reuse_trace)
     = Some [ECall 7 200 (completion 32 0 IBV_WC_SUCCESS)].
Proof. vm_compute. split_and!; reflexivity. Qed.

End properties.
