(* ===== verification/RpcSlot.v ===== *)
(** * RPC slots

    Models [include/rdma/rpc/rpc_slot.h] and [src/rpc/rpc_slot.cpp]: the packed
    16-byte slot header and the fixed pool of slots behind a stack of free
    indices. A [RpcSlotHot*] is the index of the slot; [None] is an access
    outside one of the arrays. Padding bytes are never read and are left out. *)

From S2P Require Import Prelude Types.

Module RpcSlotHot.

Record RpcSlotHot := {
  slot_gen_packed : Z;      (* uint32_t *)
  flags : Z;                (* uint8_t *)
  conn_id : Z;              (* uint16_t *)
  total_wr_count : Z;       (* uint8_t *)
  completed_wr_count : Z;   (* uint8_t *)
  error_code : Z;           (* uint8_t *)
  timeout_tick : Z;         (* uint32_t *)
}.

Definition kStateMask : Z := 0xC0.
Definition kStateShift : Z := 6.
Definition kWrTypeMask : Z := 0x38.
Definition kWrTypeShift : Z := 3.
Definition kSignaledBit : Z := 0x04.

Definition kStateFree : Z := 0.
Definition kStateInUse : Z := 1.
Definition kStateCompleting : Z := 2.

Definition kSlotIndexMask : Z := 0x000FFFFF.
Definition kGenerationShift : Z := 20.
Definition kGenerationMask : Z := 0xFFF.
Definition kMaxSlotIndex : Z := 2 ^ 20 - 1.

Definition set_flags (h : RpcSlotHot) (f : Z) : RpcSlotHot :=
  {| slot_gen_packed := slot_gen_packed h; flags := f; conn_id := conn_id h;
     total_wr_count := total_wr_count h; completed_wr_count := completed_wr_count h;
     error_code := error_code h; timeout_tick := timeout_tick h |}.

Definition set_packed (h : RpcSlotHot) (p : Z) : RpcSlotHot :=
  {| slot_gen_packed := p; flags := flags h; conn_id := conn_id h;
     total_wr_count := total_wr_count h; completed_wr_count := completed_wr_count h;
     error_code := error_code h; timeout_tick := timeout_tick h |}.

Definition set_conn_id (h : RpcSlotHot) (c : Z) : RpcSlotHot :=
  {| slot_gen_packed := slot_gen_packed h; flags := flags h; conn_id := c;
     total_wr_count := total_wr_count h; completed_wr_count := completed_wr_count h;
     error_code := error_code h; timeout_tick := timeout_tick h |}.

(** Write the three completion fields. *)
Definition set_counts (h : RpcSlotHot) (total completed error : Z) : RpcSlotHot :=
  {| slot_gen_packed := slot_gen_packed h; flags := flags h; conn_id := conn_id h;
     total_wr_count := total; completed_wr_count := completed;
     error_code := error; timeout_tick := timeout_tick h |}.

Definition GetState (h : RpcSlotHot) : Z := Z.shiftr (Z.land (flags h) kStateMask) kStateShift.

(** The right-hand sides are computed in [int] and truncated to [uint8_t]. *)
Definition SetState (h : RpcSlotHot) (state : Z) : RpcSlotHot :=
  set_flags h (u8 (Z.lor (Z.land (flags h) (Z.lnot kStateMask))
                         (Z.land (Z.shiftl state kStateShift) kStateMask))).

Definition GetWrType (h : RpcSlotHot) : Z := Z.shiftr (Z.land (flags h) kWrTypeMask) kWrTypeShift.

Definition SetWrType (h : RpcSlotHot) (wr_type : Z) : RpcSlotHot :=
  set_flags h (u8 (Z.lor (Z.land (flags h) (Z.lnot kWrTypeMask))
                         (Z.land (Z.shiftl wr_type kWrTypeShift) kWrTypeMask))).

Definition IsSignaled (h : RpcSlotHot) : bool := negb (Z.land (flags h) kSignaledBit =? 0).

Definition SetSignaled (h : RpcSlotHot) (signaled : bool) : RpcSlotHot :=
  if signaled then set_flags h (u8 (Z.lor (flags h) kSignaledBit))
  else set_flags h (u8 (Z.land (flags h) (Z.lnot kSignaledBit))).

Definition GetSlotIndex (h : RpcSlotHot) : Z := Z.land (slot_gen_packed h) kSlotIndexMask.

Definition GetGeneration (h : RpcSlotHot) : Z :=
  u16 (Z.land (Z.shiftr (slot_gen_packed h) kGenerationShift) kGenerationMask).

Definition SetSlotIndex (h : RpcSlotHot) (idx : Z) : RpcSlotHot :=
  set_packed h (Z.lor (Z.land (slot_gen_packed h) (notw 32 kSlotIndexMask))
                      (Z.land idx kSlotIndexMask)).

Definition IncrementGeneration (h : RpcSlotHot) : RpcSlotHot :=
  let gen := u32 (Z.shiftr (slot_gen_packed h) kGenerationShift + 1) in
  set_packed h (Z.lor (Z.land (slot_gen_packed h) kSlotIndexMask)
                      (u32 (Z.shiftl (Z.land gen kGenerationMask) kGenerationShift))).

Definition GetSlotGenPacked (h : RpcSlotHot) : Z := slot_gen_packed h.

Definition IsCompleted (h : RpcSlotHot) : bool := total_wr_count h <=? completed_wr_count h.
Definition IsFree (h : RpcSlotHot) : bool := GetState h =? kStateFree.

Definition MarkCompleted (h : RpcSlotHot) : RpcSlotHot :=
  set_counts h (total_wr_count h) (u8 (completed_wr_count h + 1)) (error_code h).

Definition ValidateGeneration (h : RpcSlotHot) (expected_gen : Z) : bool :=
  GetGeneration h =? expected_gen.

End RpcSlotHot.

Export RpcSlotHot (RpcSlotHot).

Module RpcSlotPool.
Import RpcSlotHot.

Record RpcSlotContext := {
  callback_fn : Z;          (* function pointer, 0 is null *)
  callback_ctx : Z;
  recv_buffer : Z;
  recv_length : Z;
  extended_info_index : Z;
}.

Record WrDetail := { wr_posted : Z; wr_completed : Z; wr_status : Z }.

Record ExtendedSlotInfo := {
  rpc_id : Z;
  start_tsc : Z;
  user_data : Z;
  request_size : Z;
  response_size : Z;
  wr_details : list WrDetail;
}.

Definition kMaxSlots : Z := 65536.
Definition UINT32_MAX : Z := 4294967295.

Record RpcSlotPool := {
  slots_hot_ : list RpcSlotHot;
  slots_context_ : list RpcSlotContext;
  extended_info_ : list ExtendedSlotInfo;
  free_stack_ : list Z;
  stack_top_ : Z;
}.

Definition zero_extended : ExtendedSlotInfo :=
  {| rpc_id := 0; start_tsc := 0; user_data := 0; request_size := 0; response_size := 0;
     wr_details := replicate 4 {| wr_posted := 0; wr_completed := 0; wr_status := 0 |} |}.

(** Slot [i] after the [memset] and the loop of the constructor. *)
Definition new_hot (i : Z) : RpcSlotHot :=
  {| slot_gen_packed := i; flags := 0; conn_id := 0; total_wr_count := 0;
     completed_wr_count := 0; error_code := 0; timeout_tick := 0 |}.

Definition new_context (i : Z) : RpcSlotContext :=
  {| callback_fn := 0; callback_ctx := 0; recv_buffer := 0; recv_length := 0;
     extended_info_index := i |}.

(** The constructor, for a number [n] of slots. *)
Definition make_pool (n : Z) : RpcSlotPool :=
  {| slots_hot_ := new_hot <$> seqZ 0 n;
     slots_context_ := new_context <$> seqZ 0 n;
     extended_info_ := replicate (Z.to_nat n) zero_extended;
     free_stack_ := (fun i => n - 1 - i) <$> seqZ 0 n;
     stack_top_ := n |}.

Definition RpcSlotPool_new : RpcSlotPool := make_pool kMaxSlots.

Definition set_hot (p : RpcSlotPool) (l : list RpcSlotHot) : RpcSlotPool :=
  {| slots_hot_ := l; slots_context_ := slots_context_ p; extended_info_ := extended_info_ p;
     free_stack_ := free_stack_ p; stack_top_ := stack_top_ p |}.

Definition set_context (p : RpcSlotPool) (l : list RpcSlotContext) : RpcSlotPool :=
  {| slots_hot_ := slots_hot_ p; slots_context_ := l; extended_info_ := extended_info_ p;
     free_stack_ := free_stack_ p; stack_top_ := stack_top_ p |}.

Definition set_stack (p : RpcSlotPool) (stack : list Z) (top : Z) : RpcSlotPool :=
  {| slots_hot_ := slots_hot_ p; slots_context_ := slots_context_ p;
     extended_info_ := extended_info_ p; free_stack_ := stack; stack_top_ := top |}.

Definition GetHot (p : RpcSlotPool) (slot_index : Z) : option RpcSlotHot :=
  aget (slots_hot_ p) slot_index.

Definition GetContext (p : RpcSlotPool) (slot_index : Z) : option RpcSlotContext :=
  aget (slots_context_ p) slot_index.

Definition GetExtendedInfo (p : RpcSlotPool) (slot_index : Z) : option ExtendedSlotInfo :=
  aget (extended_info_ p) slot_index.

(** Assignment through the pointer that [GetHot] returns. *)
Definition PutHot (p : RpcSlotPool) (slot_index : Z) (h : RpcSlotHot) : option RpcSlotPool :=
  l ← aset (slots_hot_ p) slot_index h; Some (set_hot p l).

Definition PutContext (p : RpcSlotPool) (slot_index : Z) (c : RpcSlotContext) : option RpcSlotPool :=
  l ← aset (slots_context_ p) slot_index c; Some (set_context p l).

(** [{index, static_cast<uint8_t>(generation)}]. *)
Definition Allocate (p : RpcSlotPool) : option (RpcSlotPool * (Z * Z)) :=
  if stack_top_ p =? 0 then Some (p, (UINT32_MAX, 0))
  else
    let top := stack_top_ p - 1 in
    index ← aget (free_stack_ p) top;
    hot ← GetHot p index;
    let hot := SetState hot kStateInUse in
    let hot := set_counts hot (total_wr_count hot) 0 0 in
    p ← PutHot (set_stack p (free_stack_ p) top) index hot;
    Some (p, (index, u8 (GetGeneration hot))).

Definition Free (p : RpcSlotPool) (slot_index : Z) : option RpcSlotPool :=
  hot ← GetHot p slot_index;
  p ← PutHot p slot_index (IncrementGeneration (SetState hot kStateFree));
  stack ← aset (free_stack_ p) (stack_top_ p) slot_index;
  Some (set_stack p stack (stack_top_ p + 1)).

(** The slot if its generation is the expected one; [Some None] is null. *)
Definition GetHotChecked (p : RpcSlotPool) (slot_index expected_gen : Z) : option (option RpcSlotHot) :=
  hot ← GetHot p slot_index;
  Some (if ValidateGeneration hot expected_gen then Some hot else None).

Definition AvailableCount (p : RpcSlotPool) : Z := stack_top_ p.

End RpcSlotPool.

(** ** Specification

    Clients of the pool hold the slots they allocated, update them, and free
    each one once. The ghost fields count how often a slot was freed and log
    every handle ever returned with that count. *)

Section specification.
Import RpcSlotHot RpcSlotPool.

Record Client := {
  cl_pool : RpcSlotPool;
  cl_held : list (Z * Z);              (* index and 8-bit generation *)
  cl_frees : Z -> Z;                   (* ghost: frees of each slot *)
  cl_log : list (Z * Z * Z);           (* ghost: index, frees so far, generation *)
}.

Inductive SlotUpdate :=
  | UWrType (t : Z) | USignaled (b : bool) | UConn (c : Z) | UCounts (total completed error : Z)
  | UComplete.

Definition update (h : RpcSlotHot) (u : SlotUpdate) : RpcSlotHot :=
  match u with
  | UWrType t => SetWrType h t
  | USignaled b => SetSignaled h b
  | UConn c => set_conn_id h c
  | UCounts t c e => set_counts h t c e
  | UComplete => MarkCompleted h
  end.

Inductive ClientOp := CAllocate | CFree (k : nat) | CUpdate (k : nat) (u : SlotUpdate).

Definition client_step (s : Client) (o : ClientOp) : option Client :=
  match o with
  | CAllocate =>
      '(p, (i, g)) ← Allocate (cl_pool s);
      Some (if i =? UINT32_MAX then s
            else {| cl_pool := p; cl_held := (i, g) :: cl_held s; cl_frees := cl_frees s;
                    cl_log := (i, cl_frees s i, g) :: cl_log s |})
  | CFree k =>
      match cl_held s !! k with
      | None => Some s
      | Some (i, _) =>
          p ← Free (cl_pool s) i;
          Some {| cl_pool := p; cl_held := delete k (cl_held s);
                  cl_frees := fun j => if j =? i then cl_frees s j + 1 else cl_frees s j;
                  cl_log := cl_log s |}
      end
  | CUpdate k u =>
      match cl_held s !! k with
      | None => Some s
      | Some (i, _) =>
          h ← GetHot (cl_pool s) i;
          p ← PutHot (cl_pool s) i (update h u);
          Some {| cl_pool := p; cl_held := cl_held s; cl_frees := cl_frees s; cl_log := cl_log s |}
      end
  end.

Fixpoint client_run (s : Client) (os : list ClientOp) : option Client :=
  match os with
  | [] => Some s
  | o :: os => s ← client_step s o; client_run s os
  end.

Definition client_new (n : Z) : Client :=
  {| cl_pool := make_pool n; cl_held := []; cl_frees := fun _ => 0; cl_log := [] |}.

Definition free_slots (p : RpcSlotPool) : list Z := take (Z.to_nat (stack_top_ p)) (free_stack_ p).

(** The free stack and the held slots partition the slots; a slot's header knows
    its index, its state and its generation. *)
Record client_inv (n : Z) (s : Client) : Prop := {
  ci_hot : Z.of_nat (length (slots_hot_ (cl_pool s))) = n;
  ci_context : Z.of_nat (length (slots_context_ (cl_pool s))) = n;
  ci_stack : Z.of_nat (length (free_stack_ (cl_pool s))) = n;
  ci_top : 0 <= stack_top_ (cl_pool s) <= n;
  ci_part : free_slots (cl_pool s) ++ (cl_held s).*1 ≡ₚ seqZ 0 n;
  ci_slot : forall i h, GetHot (cl_pool s) i = Some h ->
    is_u 8 (flags h)
    /\ slot_gen_packed h = cl_frees s i mod 4096 * 2 ^ 20 + i
    /\ GetState h = if decide (i ∈ (cl_held s).*1) then kStateInUse else kStateFree;
  ci_held : forall i g, (i, g) ∈ cl_held s -> g = cl_frees s i mod 256;
  ci_frees : forall i, 0 <= cl_frees s i;
  ci_log : forall i f g, (i, f, g) ∈ cl_log s -> 0 <= i < n /\ 0 <= f <= cl_frees s i /\ g = f mod 256;
}.

(** [k] requests one after the other, each freeing its slot, then one more. *)
Fixpoint worn_slot_trace (k : nat) : list ClientOp :=
  match k with O => [CAllocate] | S k => CAllocate :: CFree 0 :: worn_slot_trace k end.

Definition head_handle (s : Client) : option (Z * Z) := head (cl_held s).

Definition check_head (s : Client) : option (option RpcSlotHot) :=
  '(i, g) ← head_handle s; GetHotChecked (cl_pool s) i g.

End specification.

(** ** Lemmas *)

Section lemmas.
Import RpcSlotHot RpcSlotPool.

(** The three fields of [flags] as one word, and their updates: checked on every
    value of the byte. *)
Definition unpack (f : Z) : Z * Z * bool :=
  let h := set_flags (new_hot 0) f in (GetState h, GetWrType h, IsSignaled h).

Lemma flags_tables :
  (forall f, 0 <= f < 256 -> forall v, 0 <= v < 4 ->
     let h := set_flags (new_hot 0) f in
     unpack (flags (SetState h v)) = (v, GetWrType h, IsSignaled h)
     /\ is_u 8 (flags (SetState h v)))
  /\ (forall f, 0 <= f < 256 -> forall t, 0 <= t < 8 ->
     let h := set_flags (new_hot 0) f in
     unpack (flags (SetWrType h t)) = (GetState h, t, IsSignaled h)
     /\ is_u 8 (flags (SetWrType h t)))
  /\ (forall f, 0 <= f < 256 -> forall b,
     let h := set_flags (new_hot 0) f in
     unpack (flags (SetSignaled h b)) = (GetState h, GetWrType h, b)
     /\ is_u 8 (flags (SetSignaled h b))).
Proof.
  split_and!.
  - intros f Hf v Hv. cbv zeta. split; [|by apply wrap_range].
    assert (H : forallb (fun f => forallb (fun v =>
      bool_decide (unpack (flags (SetState (set_flags (new_hot 0) f) v))
        = (v, GetWrType (set_flags (new_hot 0) f), IsSignaled (set_flags (new_hot 0) f))))
      (seqZ 0 4)) (seqZ 0 256) = true) by (vm_compute; reflexivity).
    apply (forall_seqZ _ 256) with (x := f) in H; [|done]. cbv beta in H.
    by apply (forall_seqZ _ 4 H), bool_decide_eq_true in Hv.
  - intros f Hf t Ht. cbv zeta. split; [|by apply wrap_range].
    assert (H : forallb (fun f => forallb (fun t =>
      bool_decide (unpack (flags (SetWrType (set_flags (new_hot 0) f) t))
        = (GetState (set_flags (new_hot 0) f), t, IsSignaled (set_flags (new_hot 0) f))))
      (seqZ 0 8)) (seqZ 0 256) = true) by (vm_compute; reflexivity).
    apply (forall_seqZ _ 256) with (x := f) in H; [|done]. cbv beta in H.
    by apply (forall_seqZ _ 8 H), bool_decide_eq_true in Ht.
  - intros f Hf b. cbv zeta. split; [|destruct b; by apply wrap_range].
    assert (H : forallb (fun f => forallb (fun b =>
      bool_decide (unpack (flags (SetSignaled (set_flags (new_hot 0) f) b))
        = (GetState (set_flags (new_hot 0) f), GetWrType (set_flags (new_hot 0) f), b)))
      [true; false]) (seqZ 0 256) = true) by (vm_compute; reflexivity).
    apply (forall_seqZ _ 256) with (x := f) in H; [|done]. cbv beta in H.
    rewrite List.forallb_forall in H. specialize (H b). apply bool_decide_eq_true in H; [done|].
    destruct b; simpl; tauto.
Qed.

(** The bit fields of the packed [flags] byte are independent: each setter
    stores its value and leaves the two other fields - and every other field of
    the header - as they were, for every byte value. *)
Theorem flags_fields_independent (h : RpcSlotHot) (v t : Z) (b : bool) :
  is_u 8 (flags h) -> 0 <= v < 4 -> 0 <= t < 8 ->
  (GetState (SetState h v), GetWrType (SetState h v), IsSignaled (SetState h v))
    = (v, GetWrType h, IsSignaled h)
  /\ (GetState (SetWrType h t), GetWrType (SetWrType h t), IsSignaled (SetWrType h t))
     = (GetState h, t, IsSignaled h)
  /\ (GetState (SetSignaled h b), GetWrType (SetSignaled h b), IsSignaled (SetSignaled h b))
     = (GetState h, GetWrType h, b)
  /\ Forall (fun h' => is_u 8 (flags h') /\ h' = set_flags h (flags h'))
       [SetState h v; SetWrType h t; SetSignaled h b].
Proof.
  intros Hf Hv Ht. destruct flags_tables as (Hs & Hw & Hg).
  specialize (Hs _ Hf v Hv). specialize (Hw _ Hf t Ht). specialize (Hg _ Hf b).
  split_and!; [apply Hs|apply Hw| |].
  - destruct Hg as [Hg _]. unfold SetSignaled in *. by destruct b.
  - assert (is_u 8 (flags (SetSignaled h b)) /\ SetSignaled h b = set_flags h (flags (SetSignaled h b)))
      by (unfold SetSignaled; destruct b; split; [by apply wrap_range|done|by apply wrap_range|done]).
    repeat (apply Forall_cons; split; [|]); [..|by apply Forall_nil]; try done;
      (split; [by apply wrap_range|done]).
Qed.

Lemma GetState_SetState h v : is_u 8 (flags h) -> 0 <= v < 4 -> GetState (SetState h v) = v.
Proof.
  intros Hf Hv. destruct flags_tables as (Hs & _ & _). destruct (Hs _ Hf v Hv) as [E _].
  by injection E.
Qed.

(** *** Generation arithmetic *)

Lemma packed_generation h g i :
  slot_gen_packed h = g * 2 ^ 20 + i -> 0 <= g < 4096 -> is_u 20 i -> GetGeneration h = g.
Proof.
  intros E Hg Hi. unfold GetGeneration, kGenerationMask, kGenerationShift.
  rewrite (land_mask 12) by (done || lia). rewrite Z.shiftr_div_pow2 by lia. rewrite E.
  rewrite wrap_id; unfold is_u in *; zdm.
Qed.

Lemma packed_index h g i :
  slot_gen_packed h = g * 2 ^ 20 + i -> is_u 20 i -> GetSlotIndex h = i.
Proof.
  intros E Hi. unfold GetSlotIndex, kSlotIndexMask. rewrite (land_mask 20) by (done || lia).
  rewrite E. unfold is_u in *. zdm.
Qed.

Lemma IncrementGeneration_packed h g i :
  slot_gen_packed h = g * 2 ^ 20 + i -> 0 <= g < 4096 -> is_u 20 i ->
  slot_gen_packed (IncrementGeneration h) = ((g + 1) mod 4096) * 2 ^ 20 + i.
Proof.
  intros E Hg Hi. unfold IncrementGeneration. cbn [slot_gen_packed set_packed].
  unfold kSlotIndexMask, kGenerationMask, kGenerationShift. rewrite E.
  rewrite (land_mask 20) by (done || lia). rewrite (land_mask 12) by (done || lia).
  rewrite Z.shiftr_div_pow2 by lia.
  replace ((g * 2 ^ 20 + i) mod 2 ^ 20) with i by (unfold is_u in *; zdm).
  replace ((g * 2 ^ 20 + i) / 2 ^ 20) with g by (unfold is_u in *; zdm).
  rewrite (wrap_id 32 (g + 1)) by solve_word.
  rewrite wrap_id by (rewrite Z.shiftl_mul_pow2 by lia; unfold is_u; zdm).
  rewrite Z.lor_comm. by apply lor_shiftl_add.
Qed.

(** *** The pool *)

Lemma client_new_inv n : 0 <= n <= 2 ^ 20 -> client_inv n (client_new n).
Proof.
  intros Hn. constructor; cbn [client_new cl_pool cl_held cl_frees cl_log make_pool
    slots_hot_ slots_context_ free_stack_ stack_top_]; try lia.
  - rewrite length_fmap, length_seqZ. lia.
  - rewrite length_fmap, length_seqZ. lia.
  - rewrite length_fmap, length_seqZ. lia.
  - unfold free_slots. cbn [stack_top_ free_stack_ make_pool]. rewrite app_nil_r.
    rewrite take_ge by (rewrite length_fmap, length_seqZ; lia).
    apply NoDup_Permutation; [|apply NoDup_seqZ|].
    + apply NoDup_fmap_2_strong; [|apply NoDup_seqZ]. lia.
    + intros x. rewrite list_elem_of_fmap, elem_of_seqZ. split.
      * intros (y & -> & Hy%elem_of_seqZ). lia.
      * intros Hx. exists (n - 1 - x). rewrite elem_of_seqZ. lia.
  - unfold GetHot. cbn [slots_hot_ make_pool]. intros i h [Hi Hh]%aget_Some.
    rewrite list_lookup_fmap in Hh. apply fmap_Some in Hh as (j & Hj%lookup_seqZ & ->).
    split_and!; [done|cbn [new_hot slot_gen_packed]; change (0 mod 4096) with 0; lia|done].
  - set_solver.
  - set_solver.
Qed.

Lemma held_range n s i : client_inv n s -> i ∈ (cl_held s).*1 -> 0 <= i < n.
Proof.
  intros Hinv Hi. assert (i ∈ seqZ 0 n) as H%elem_of_seqZ; [|lia].
  rewrite <- (ci_part _ _ Hinv). set_solver.
Qed.

Lemma slot_read n s i : client_inv n s -> 0 <= i < n -> exists h, GetHot (cl_pool s) i = Some h.
Proof. intros Hinv Hi. apply aget_is_Some. rewrite (ci_hot _ _ Hinv). lia. Qed.

Lemma PutHot_Some p i h : 0 <= i < Z.of_nat (length (slots_hot_ p)) ->
  PutHot p i h = Some (set_hot p (<[Z.to_nat i := h]> (slots_hot_ p))).
Proof. intros. unfold PutHot. by rewrite aset_Some. Qed.

(** The slot on top of the stack: in range, and held by nobody. *)
Lemma top_slot n s :
  client_inv n s -> 0 < stack_top_ (cl_pool s) ->
  exists i, aget (free_stack_ (cl_pool s)) (stack_top_ (cl_pool s) - 1) = Some i /\ 0 <= i < n /\ i ∉ (cl_held s).*1
    /\ free_slots (cl_pool s) = take (Z.to_nat (stack_top_ (cl_pool s) - 1)) (free_stack_ (cl_pool s)) ++ [i].
Proof.
  intros Hinv H0. pose proof (ci_top _ _ Hinv) as Htop. set (top := stack_top_ (cl_pool s) - 1).
  assert (0 <= top < n /\ stack_top_ (cl_pool s) = top + 1) as [Htr Ets] by (unfold top; lia).
  destruct (aget_is_Some (free_stack_ (cl_pool s)) top) as [i Hi]; [rewrite (ci_stack _ _ Hinv); lia|].
  assert (free_slots (cl_pool s) = take (Z.to_nat top) (free_stack_ (cl_pool s)) ++ [i]) as Hfree.
  { unfold free_slots. rewrite Ets. replace (Z.to_nat (top + 1)) with (S (Z.to_nat top)) by lia.
    apply aget_Some in Hi as [_ Hi']. by apply take_S_r. }
  assert (i ∈ seqZ 0 n) as Hir%elem_of_seqZ.
  { rewrite <- (ci_part _ _ Hinv). rewrite Hfree. set_solver. }
  exists i. split_and!; [done|lia|lia| |done].
  assert (NoDup (free_slots (cl_pool s) ++ (cl_held s).*1)) as Hnd.
  { rewrite (ci_part _ _ Hinv). apply NoDup_seqZ. }
  rewrite Hfree in Hnd. apply NoDup_app in Hnd as (_ & Hd & _). apply Hd. set_solver.
Qed.

(** The handle [Allocate] returns, and the slot it takes from the stack. *)
Lemma Allocate_step n s :
  client_inv n s -> 0 <= n <= 2 ^ 20 ->
  exists s', client_step s CAllocate = Some s' /\ client_inv n s'
    /\ (stack_top_ (cl_pool s) = 0 -> s' = s)
    /\ (0 < stack_top_ (cl_pool s) -> exists i,
          cl_held s' = (i, cl_frees s i mod 256) :: cl_held s /\ i ∉ (cl_held s).*1
          /\ aget (free_stack_ (cl_pool s)) (stack_top_ (cl_pool s) - 1) = Some i
          /\ free_stack_ (cl_pool s') = free_stack_ (cl_pool s)
          /\ stack_top_ (cl_pool s') = stack_top_ (cl_pool s) - 1 /\ cl_frees s' = cl_frees s).
Proof.
  intros Hinv Hn. pose proof (ci_top _ _ Hinv) as Htop. cbn [client_step]. unfold Allocate.
  case (Z.eqb_spec (stack_top_ (cl_pool s)) 0) as [E0|E0].
  { sbind. exists s. split_and!; [done..|lia]. }
  destruct (top_slot n s Hinv) as (i & Hi & Hir & Hnh & Hfree); [lia|].
  set (top := stack_top_ (cl_pool s) - 1) in *.
  destruct (slot_read n s i Hinv) as [h Hh]; [lia|]. 
  destruct (ci_slot _ _ Hinv i h Hh) as (Hf & Hpk & _).
  rewrite Hi. sbind. rewrite Hh. sbind.
  rewrite PutHot_Some by (cbn; rewrite (ci_hot _ _ Hinv); lia). sbind.
  cbv beta iota. case (Z.eqb_spec i UINT32_MAX); [unfold UINT32_MAX; lia|]. intros _.
  set (h' := set_counts _ _ _ _). assert (GetGeneration h' = cl_frees s i mod 4096) as Hg.
  { apply (packed_generation _ _ i); [exact Hpk|apply Z.mod_pos_bound; lia|unfold is_u; lia]. }
  assert (u8 (GetGeneration h') = cl_frees s i mod 256) as ->.
  { rewrite Hg. unfold wrap. change (2 ^ 8) with 256. zdm. }
  eexists. split; [done|]. split_and!; [|lia|intros _; exists i; done].
  constructor; cbn [cl_pool cl_held cl_frees cl_log set_hot set_stack slots_hot_ slots_context_
    free_stack_ stack_top_]; try apply Hinv.
  - rewrite length_insert. apply Hinv.
  - lia.
  - unfold free_slots. cbn [set_hot set_stack free_stack_ stack_top_].
    rewrite <- (ci_part _ _ Hinv).  rewrite Hfree, fmap_cons. cbn [fst].
    rewrite <- app_assoc. done.
  - unfold GetHot. cbn [set_hot slots_hot_ set_stack]. intros j hj.
    rewrite aget_insert by (rewrite (ci_hot _ _ Hinv); lia). rewrite fmap_cons. cbn [fst].
    case_decide as Hij.
    + intros [= <-]. subst j. rewrite decide_True by set_solver.
      split_and!; [by apply wrap_range|exact Hpk|].
      unfold h'. apply (GetState_SetState h kStateInUse); [done|unfold kStateInUse; lia].
    + intros Hj. destruct (ci_slot _ _ Hinv j hj Hj) as (? & ? & ->). split_and!; [done..|].
      apply decide_ext. set_solver.
  - intros j g [[= -> ->]|Hj]%elem_of_cons; [done|]. by apply Hinv.
  - intros j f g [[= -> -> ->]|Hj]%elem_of_cons; [|by apply Hinv].
    pose proof (ci_frees _ _ Hinv i). split_and!; lia.
Qed.

Lemma held_count n s : client_inv n s -> 0 <= n ->
  stack_top_ (cl_pool s) + Z.of_nat (length (cl_held s)) = n.
Proof.
  intros Hinv Hn. pose proof (Permutation_length (ci_part _ _ Hinv)) as H.
  rewrite length_app, length_fmap, length_seqZ in H. unfold free_slots in H.
  rewrite length_take in H. pose proof (ci_top _ _ Hinv). pose proof (ci_stack _ _ Hinv). lia.
Qed.

Lemma held_NoDup n s : client_inv n s -> NoDup (cl_held s).*1.
Proof.
  intros Hinv. assert (NoDup (free_slots (cl_pool s) ++ (cl_held s).*1)) as Hnd.
  { rewrite (ci_part _ _ Hinv). apply NoDup_seqZ. }
  by apply NoDup_app in Hnd as (_ & _ & ?).
Qed.

Lemma held_removed n s k i g : client_inv n s -> cl_held s !! k = Some (i, g) ->
  (cl_held s).*1 ≡ₚ i :: (delete k (cl_held s)).*1 /\ i ∉ (delete k (cl_held s)).*1
  /\ forall j y, (j, y) ∈ delete k (cl_held s) -> j <> i /\ (j, y) ∈ cl_held s.
Proof.
  intros Hinv Hk. assert ((cl_held s).*1 ≡ₚ i :: (delete k (cl_held s)).*1) as Hperm.
  { rewrite <- fmap_cons with (f := fst) (x := (i, g)). by apply fmap_Permutation, delete_Permutation. }
  assert (NoDup (i :: (delete k (cl_held s)).*1)) as [Hni _]%NoDup_cons.
  { rewrite <- Hperm. by apply (held_NoDup n). }
  split; [done|]. split; [done|]. intros j y Hj. split.
  - intros ->. apply Hni, list_elem_of_fmap. by exists (i, y).
  - rewrite (delete_Permutation _ _ _ Hk). set_solver.
Qed.

Lemma Free_step n s k i g :
  client_inv n s -> 0 <= n <= 2 ^ 20 -> cl_held s !! k = Some (i, g) ->
  exists s', client_step s (CFree k) = Some s' /\ client_inv n s'
    /\ cl_held s' = delete k (cl_held s)
    /\ free_stack_ (cl_pool s') = <[Z.to_nat (stack_top_ (cl_pool s)) := i]> (free_stack_ (cl_pool s))
    /\ stack_top_ (cl_pool s') = stack_top_ (cl_pool s) + 1
    /\ forall j, cl_frees s' j = if j =? i then cl_frees s j + 1 else cl_frees s j.
Proof.
  intros Hinv Hn Hk. cbn [client_step]. rewrite Hk. unfold Free.
  pose proof (held_count n s Hinv ltac:(lia)) as Hcount. pose proof (ci_top _ _ Hinv) as Htop.
  assert (0 < length (cl_held s))%nat as Hpos by (apply lookup_lt_Some in Hk; lia).
  assert (i ∈ (cl_held s).*1) as Hih.
  { apply list_elem_of_fmap. exists (i, g). split; [done|]. by eapply list_elem_of_lookup_2. }
  pose proof (held_range n s i Hinv Hih) as Hir.
  destruct (slot_read n s i Hinv Hir) as [h Hh]. rewrite Hh. sbind.
  destruct (ci_slot _ _ Hinv i h Hh) as (Hf & Hpk & _).
  rewrite PutHot_Some by (rewrite (ci_hot _ _ Hinv); lia). sbind.
  cbn [set_hot free_stack_ stack_top_]. rewrite aset_Some by (rewrite (ci_stack _ _ Hinv); lia). sbind.
  eexists. split; [done|]. split; [|done].
  destruct (held_removed n s k i g Hinv Hk) as (Hperm & Hni & Hsub).
  constructor; cbn [cl_pool cl_held cl_frees cl_log set_hot set_stack slots_hot_ slots_context_
    free_stack_ stack_top_]; try apply Hinv.
  - rewrite length_insert. apply Hinv.
  - rewrite length_insert. apply Hinv.
  - lia.
  - unfold free_slots. cbn [set_hot set_stack free_stack_ stack_top_].
    replace (Z.to_nat (stack_top_ (cl_pool s) + 1)) with (S (Z.to_nat (stack_top_ (cl_pool s)))) by lia.
    rewrite (take_S_r _ _ i) by (apply list_lookup_insert_eq; pose proof (ci_stack _ _ Hinv); lia).
    rewrite take_insert_ge by lia. rewrite <- (ci_part _ _ Hinv), Hperm, <- app_assoc. done.
  - unfold GetHot. cbn [set_hot slots_hot_ set_stack]. intros j hj.
    rewrite aget_insert by (rewrite (ci_hot _ _ Hinv); lia). case_decide as Hij.
    + intros [= <-]. subst j. rewrite decide_False by done. rewrite Z.eqb_refl.
      split_and!; [by apply wrap_range| |].
      * pose proof (ci_frees _ _ Hinv i).
        rewrite (IncrementGeneration_packed _ (cl_frees s i mod 4096) i);
          [|exact Hpk|apply Z.mod_pos_bound; lia|unfold is_u; lia].
        by rewrite Zplus_mod_idemp_l.
      * apply (GetState_SetState h kStateFree); [done|unfold kStateFree; lia].
    + intros Hj. destruct (ci_slot _ _ Hinv j hj Hj) as (? & Hpj & ->).
      case (Z.eqb_spec j i); [congruence|]. intros _. split_and!; [done..|].
      apply decide_ext. rewrite Hperm. set_solver.
  - intros j y Hj. destruct (Hsub j y Hj) as [? ?]. case (Z.eqb_spec j i); [done|]. intros _. by apply Hinv.
  - intros j. pose proof (ci_frees _ _ Hinv j). case_match; lia.
  - intros j f y Hj. destruct (ci_log _ _ Hinv j f y Hj) as (? & ? & ?). case_match; lia.
Qed.

(** Serial requests reuse the slot on top of the stack. *)
Lemma worn_slot_run n s i (k : nat) :
  client_inv n s -> 0 < n <= 2 ^ 20 -> cl_held s = [] ->
  aget (free_stack_ (cl_pool s)) (n - 1) = Some i ->
  exists s', client_run s (worn_slot_trace k) = Some s' /\ client_inv n s'
    /\ cl_frees s' i = cl_frees s i + Z.of_nat k
    /\ cl_held s' = [(i, (cl_frees s i + Z.of_nat k) mod 256)].
Proof.
  intros Hinv Hn. revert s Hinv. induction k as [|k IH]; intros s Hinv Hh Hi; cbn [worn_slot_trace client_run].
  - pose proof (held_count n s Hinv ltac:(lia)) as Hc. rewrite Hh in Hc. simpl in Hc.
    destruct (Allocate_step n s Hinv) as (s' & -> & Hinv' & _ & Hpos); [lia|].
    destruct Hpos as (j & Hj & _ & Hj1 & _ & _ & Hf); [lia|]. sbind. exists s'.
    replace (stack_top_ (cl_pool s) - 1) with (n - 1) in Hj1 by lia.
    assert (j = i) as -> by congruence. rewrite Hh in Hj. rewrite Z.add_0_r, Hf. done.
  - pose proof (held_count n s Hinv ltac:(lia)) as Hc. rewrite Hh in Hc. simpl in Hc.
    destruct (Allocate_step n s Hinv) as (s1 & -> & Hinv1 & _ & Hpos); [lia|].
    destruct Hpos as (j & Hj & _ & Hj1 & Hs1 & Ht1 & Hf1); [lia|]. sbind.
    replace (stack_top_ (cl_pool s) - 1) with (n - 1) in Hj1 by lia.
    assert (j = i) as -> by congruence. rewrite Hh in Hj.
    destruct (Free_step n s1 0 i (cl_frees s i mod 256) Hinv1) as (s2 & -> & Hinv2 & Hh2 & Hs2 & Ht2 & Hf2);
      [lia|by rewrite Hj|].
    sbind. destruct (IH s2 Hinv2) as (s' & E & Hinv' & Hf' & Hh').
    + by rewrite Hh2, Hj.
    + rewrite Hs2. replace (stack_top_ (cl_pool s1)) with (n - 1) by lia.
      rewrite aget_insert by (rewrite (ci_stack _ _ Hinv1); lia). by rewrite decide_True.
    + exists s'. rewrite Hf2, Z.eqb_refl, Hf1 in Hf', Hh'. rewrite Hf', Hh'.
      replace (cl_frees s i + Z.of_nat (S k)) with (cl_frees s i + 1 + Z.of_nat k) by lia. done.
Qed.

Lemma SetWrType_mod h t : SetWrType h t = SetWrType h (t mod 8).
Proof.
  assert (E : forall x, Z.land (Z.shiftl x 3) 0x38 = Z.shiftl (x mod 8) 3).
  { intros x. change 0x38 with (Z.shiftl 7 3). rewrite <- Z.shiftl_land.
    by rewrite (land_mask 3) by (done || lia). }
  unfold SetWrType, kWrTypeMask, kWrTypeShift. by rewrite !E, Z.mod_mod.
Qed.

(** An update changes neither the state, nor the index and generation. *)
Lemma update_slot h u : is_u 8 (flags h) ->
  is_u 8 (flags (update h u)) /\ slot_gen_packed (update h u) = slot_gen_packed h
  /\ GetState (update h u) = GetState h.
Proof.
  intros Hf. destruct flags_tables as (_ & Hw & Hg). destruct u as [t|b|c|t c e|]; cbn [update]; try done.
  - rewrite SetWrType_mod. destruct (Hw _ Hf (t mod 8)) as [E ?]; [apply Z.mod_pos_bound; lia|].
    by injection E.
  - destruct (Hg _ Hf b) as [E ?]. unfold SetSignaled in *. destruct b; by injection E.
Qed.

Lemma Update_step n s k u :
  client_inv n s -> exists s', client_step s (CUpdate k u) = Some s' /\ client_inv n s'
    /\ cl_held s' = cl_held s.
Proof.
  intros Hinv. cbn [client_step]. destruct (cl_held s !! k) as [[i g]|] eqn:Hk; [|by exists s].
  assert (i ∈ (cl_held s).*1) as Hih.
  { apply list_elem_of_fmap. exists (i, g). split; [done|]. by eapply list_elem_of_lookup_2. }
  pose proof (held_range n s i Hinv Hih) as Hir.
  destruct (slot_read n s i Hinv Hir) as [h Hh]. rewrite Hh. sbind.
  rewrite PutHot_Some by (rewrite (ci_hot _ _ Hinv); lia). sbind.
  eexists. split; [done|]. split; [|done]. constructor; try apply Hinv.
  - cbn. rewrite length_insert. apply Hinv.
  - unfold GetHot. cbn [cl_pool set_hot slots_hot_ cl_held cl_frees]. intros j hj.
    rewrite aget_insert by (rewrite (ci_hot _ _ Hinv); lia). case_decide as Hij; [|by apply Hinv].
    intros [= <-]. subst j. destruct (ci_slot _ _ Hinv i h Hh) as (Hf & Hpk & Hst).
    destruct (update_slot h u Hf) as (? & -> & ->). done.
Qed.

Lemma client_run_inv n os s :
  client_inv n s -> 0 <= n <= 2 ^ 20 -> exists s', client_run s os = Some s' /\ client_inv n s'.
Proof.
  intros Hinv Hn. revert s Hinv. induction os as [|o os IH]; intros s Hinv; cbn [client_run]; [eauto|].
  assert (exists s', client_step s o = Some s' /\ client_inv n s') as (s' & E & Hs').
  { destruct o as [|k|k u].
    - destruct (Allocate_step n s Hinv Hn) as (s' & ? & ? & _). eauto.
    - destruct (cl_held s !! k) as [[i g]|] eqn:Hk.
      + destruct (Free_step n s k i g Hinv Hn Hk) as (s' & ? & ? & _). eauto.
      + exists s. cbn [client_step]. by rewrite Hk.
    - destruct (Update_step n s k u Hinv) as (s' & ? & ? & _). eauto. }
  rewrite E. sbind. by apply IH.
Qed.

End lemmas.

(** ** Properties *)

Section properties.
Import RpcSlotHot RpcSlotPool.

(** C12: Slot exclusivity: whatever sequence of allocations, updates and frees a
    client performs on the pool of 65536 slots, no array is left, every held
    slot is held once, is in range and is marked in use with its own index,
    every other slot is marked free, the available count is what is left, and
    the next allocation fails (returns UINT32_MAX) exactly when all slots are
    held and otherwise returns a slot nobody holds. *)
Theorem slot_pool_exclusive (os : list ClientOp) :
  exists s, client_run (client_new kMaxSlots) os = Some s
    /\ NoDup (cl_held s).*1
    /\ AvailableCount (cl_pool s) + Z.of_nat (length (cl_held s)) = kMaxSlots
    /\ (forall i h, GetHot (cl_pool s) i = Some h ->
          GetSlotIndex h = i /\ IsFree h = bool_decide (i ∉ (cl_held s).*1))
    /\ (forall i, i ∈ (cl_held s).*1 -> 0 <= i < kMaxSlots)
    /\ exists p i g, Allocate (cl_pool s) = Some (p, (i, g))
         /\ (i = UINT32_MAX <-> AvailableCount (cl_pool s) = 0)
         /\ (i <> UINT32_MAX -> 0 <= i < kMaxSlots /\ i ∉ (cl_held s).*1).
Proof.
  assert (Hn : 0 <= kMaxSlots <= 2 ^ 20) by (unfold kMaxSlots; lia).
  destruct (client_run_inv kMaxSlots os (client_new kMaxSlots)) as (s & E & Hinv);
    [by apply client_new_inv|done|].
  exists s. split; [exact E|]. split_and!.
  - by apply (held_NoDup kMaxSlots).
  - apply held_count; [done|lia].
  - intros i h Hh. destruct (ci_slot _ _ Hinv i h Hh) as (_ & Hpk & Hst).
    apply aget_lt in Hh as Hi. rewrite (ci_hot _ _ Hinv) in Hi. split.
    + eapply packed_index; [exact Hpk|]. unfold is_u, kMaxSlots in *. lia.
    + unfold IsFree. rewrite Hst. case_decide; case_bool_decide; done.
  - intros i Hi. by apply held_range with (n := kMaxSlots) (s := s).
  - destruct (Allocate_step kMaxSlots s Hinv Hn) as (s' & E' & Hinv' & H0 & Hpos).
    pose proof (ci_top _ _ Hinv). cbn [client_step] in E'.
    destruct (Allocate (cl_pool s)) as [[p [i g]]|] eqn:EA; [|done].
    exists p, i, g. split; [done|]. unfold AvailableCount.
    cbn [mbind option_bind] in E'. injection E' as E'.
    destruct (decide (stack_top_ (cl_pool s) = 0)) as [Hz|Hz].
    + unfold Allocate in EA. rewrite Hz in EA. injection EA as <- <- <-. done.
    + destruct Hpos as (j & Hj & Hnj & _); [lia|]. rewrite <- E' in Hj.
      revert Hj. case (Z.eqb_spec i UINT32_MAX) as [Ei|Ei].
      { intros Hj. exfalso. apply (f_equal length) in Hj. simpl in Hj. lia. }
      cbn [cl_held]. intros [= -> ->]. split; [tauto|]. intros _. split; [|done].
      apply (held_range kMaxSlots s'); [done|]. rewrite <- E'. case (Z.eqb_spec j UINT32_MAX); [done|].
      intros _. cbn [cl_held]. set_solver.
Qed.

(** What the generation check tells: for a handle (index and 8-bit
    generation) issued when its slot had been freed [f] times, the check made
    after [f'] frees accepts it exactly when [f'] modulo 4096 equals [f] modulo
    256. The header counts 12 bits of generation while handles carry 8. *)
Theorem generation_check_spec (os : list ClientOp) :
  exists s, client_run (client_new kMaxSlots) os = Some s
    /\ forall i f g, (i, f, g) ∈ cl_log s ->
         exists r, GetHotChecked (cl_pool s) i g = Some r
           /\ (is_Some r <-> cl_frees s i mod 4096 = f mod 256).
Proof.
  assert (Hn : 0 <= kMaxSlots <= 2 ^ 20) by (unfold kMaxSlots; lia).
  destruct (client_run_inv kMaxSlots os (client_new kMaxSlots)) as (s & E & Hinv);
    [by apply client_new_inv|done|].
  exists s. split; [exact E|]. intros i f g Hl.
  destruct (ci_log _ _ Hinv i f g Hl) as (Hi & Hf & ->).
  destruct (slot_read _ s i Hinv Hi) as [h Hh]. unfold GetHotChecked. rewrite Hh. sbind.
  eexists. split; [done|]. destruct (ci_slot _ _ Hinv i h Hh) as (_ & Hpk & _).
  unfold ValidateGeneration.
  rewrite (packed_generation h (cl_frees s i mod 4096) i);
    [|exact Hpk|apply Z.mod_pos_bound; lia|unfold is_u, kMaxSlots in *; lia].
  case Z.eqb_spec; intros ?; split; intros H; try done; by destruct H.
Qed.

Lemma flags_fields_independent_witness :
  let h := new_hot 7 in
  (GetState (SetState h 2), GetWrType (SetState h 2), IsSignaled (SetState h 2)) = (2, 0, false).
Proof.
  intros h. apply (flags_fields_independent h 2 5 true); vm_compute; split; congruence.
Defined.

(** A live handle can be refused. When [k] requests have used the same slot
    one after the other, the handle of the next request - held and never freed -
    passes its generation check exactly when [k] modulo 4096 is below 256: of
    every 4096 requests on a slot, the completions of 3840 are taken for stale
    ones. *)
Theorem live_handle_accepted_iff (k : nat) :
  exists s r, client_run (client_new kMaxSlots) (worn_slot_trace k) = Some s
    /\ head_handle s = Some (0, Z.of_nat k mod 256) /\ check_head s = Some r
    /\ (is_Some r <-> Z.of_nat k mod 4096 < 256).
Proof.
  assert (Hn : 0 < kMaxSlots <= 2 ^ 20) by (unfold kMaxSlots; lia).
  destruct (worn_slot_run kMaxSlots (client_new kMaxSlots) 0 k) as (s & E & Hinv & Hf & Hh);
    [apply client_new_inv; lia|done|done| |].
  { cbn [cl_pool client_new make_pool free_stack_]. apply aget_Some. split; [unfold kMaxSlots; lia|].
    rewrite list_lookup_fmap, lookup_seqZ_lt by lia. simpl. f_equal; lia. }
  change (cl_frees (client_new kMaxSlots) 0) with 0 in *. rewrite Z.add_0_l in *.
  destruct (slot_read _ s 0 Hinv) as [h Hhot]; [lia|].
  destruct (ci_slot _ _ Hinv 0 h Hhot) as (_ & Hpk & _).
  exists s. eexists. split; [exact E|]. unfold check_head, head_handle. rewrite Hh. split; [done|]. simpl.
  unfold GetHotChecked. rewrite Hhot. sbind. split; [done|]. unfold ValidateGeneration.
  rewrite (packed_generation h (cl_frees s 0 mod 4096) 0), Hf;
    [|exact Hpk|apply Z.mod_pos_bound; lia|unfold is_u; lia].
  case Z.eqb_spec; intros Hg; split; intros H; try done; first [zdm|by destruct H].
Qed.

End properties.
