(* ===== verification/Buffer.v ===== *)
(** * Buffers, scatter-gather lists and memory regions

    Models [include/rdma/memory/buffer.h], and the buffer views of
    [include/rdma/core/memory_region.h] and [src/core/memory_region.cpp]. An
    address is a 64-bit word; null is 0. *)

From S2P Require Import Prelude Float32 Types Verbs.

Module Buffer.

Record Buffer := { addr_ : Z; length_ : Z; lkey_ : Z }.

Definition Buffer_default : Buffer := {| addr_ := 0; length_ := 0; lkey_ := 0 |}.

Definition IsValid (b : Buffer) : bool := negb (addr_ b =? 0) && (0 <? length_ b).

Definition ToIovec (b : Buffer) : iovec := {| iov_base := addr_ b; iov_len := length_ b |}.

(** [offset + length] is computed in [size_t]. *)
Definition Slice (b : Buffer) (offset length : Z) : Buffer :=
  if (length_ b <=? offset) || (length_ b <? u64 (offset + length)) then Buffer_default
  else {| addr_ := u64 (addr_ b + offset); length_ := length; lkey_ := lkey_ b |}.

Definition ToRemoteInfo (b : Buffer) (rkey : Z) : RemoteMemoryInfo :=
  {| rmi_addr := addr_ b; rmi_rkey := rkey; rmi_length := u32 (length_ b) |}.

#[export] Instance Buffer_eq_dec : EqDecision Buffer.
Proof. solve_decision. Defined.

End Buffer.

Export Buffer (Buffer).

Module SgeFiller.

Definition MAX_SGE : Z := 16.

(** The three assignments to [sge_array[i]] from [iov[i]]. *)
Definition store (sge_array : list ibv_sge) (iov : list iovec) (lkey i : Z) : option (list ibv_sge) :=
  v ← aget iov i;
  aset sge_array i {| sge_addr := iov_base v; sge_length := u32 (iov_len v); sge_lkey := lkey |}.

(** [FillUnrolled<N>] on the arrays advanced by [b]. *)
Fixpoint FillUnrolled (N : nat) (b : Z) (sge_array : list ibv_sge) (iov : list iovec) (lkey : Z)
    : option (list ibv_sge) :=
  match N with
  | O => Some sge_array
  | S O => store sge_array iov lkey b
  | S (S M) =>
      a ← store sge_array iov lkey b;
      a ← store a iov lkey (b + 1);
      FillUnrolled M (b + 2) a iov lkey
  end.

(** The loop [for (i = i0; i < i0 + n; ++i)] over the same assignments. *)
Fixpoint FillLoop (n : nat) (i : Z) (sge_array : list ibv_sge) (iov : list iovec) (lkey : Z)
    : option (list ibv_sge) :=
  match n with
  | O => Some sge_array
  | S n => a ← store sge_array iov lkey i; FillLoop n (i + 1) a iov lkey
  end.

Definition Fill (sge_array : list ibv_sge) (iov : list iovec) (iov_count lkey : Z)
    : option (list ibv_sge) :=
  if bool_decide (1 <= iov_count <= 8)
  then FillUnrolled (Z.to_nat iov_count) 0 sge_array iov lkey
  else FillLoop (Z.to_nat iov_count) 0 sge_array iov lkey.

End SgeFiller.

Module SgeAlignmentChecker.

Record AlignmentReport := {
  total_sge : Z;
  page_aligned_count : Z;
  cache_aligned_count : Z;
  unaligned_count : Z;
  total_unaligned_bytes : Z;
}.

Definition AlignmentRatio (r : AlignmentReport) : Float32.float :=
  if 0 <? total_sge r then Float32.div (Float32.of_Z (page_aligned_count r)) (Float32.of_Z (total_sge r)) else Float32.of_Z 1.

Definition IsOptimal (r : AlignmentReport) : bool := unaligned_count r =? 0.

(** The body of the loop of [Check], on one element. *)
Definition Check_one (r : AlignmentReport) (v : iovec) : AlignmentReport :=
  if Z.land (iov_base v) (kPageSize - 1) =? 0 then
    {| total_sge := total_sge r; page_aligned_count := u64 (page_aligned_count r + 1);
       cache_aligned_count := u64 (cache_aligned_count r + 1);
       unaligned_count := unaligned_count r; total_unaligned_bytes := total_unaligned_bytes r |}
  else if Z.land (iov_base v) (kCacheLineSize - 1) =? 0 then
    {| total_sge := total_sge r; page_aligned_count := page_aligned_count r;
       cache_aligned_count := u64 (cache_aligned_count r + 1);
       unaligned_count := u64 (unaligned_count r + 1);
       total_unaligned_bytes := total_unaligned_bytes r |}
  else
    {| total_sge := total_sge r; page_aligned_count := page_aligned_count r;
       cache_aligned_count := cache_aligned_count r;
       unaligned_count := u64 (unaligned_count r + 1);
       total_unaligned_bytes := u64 (total_unaligned_bytes r + iov_len v) |}.

Definition CheckSgl (iov : list iovec) : AlignmentReport :=
  fold_left Check_one iov
    {| total_sge := Z.of_nat (length iov); page_aligned_count := 0; cache_aligned_count := 0;
       unaligned_count := 0; total_unaligned_bytes := 0 |}.

Fixpoint AllPageAligned (iov : list iovec) : bool :=
  match iov with
  | [] => true
  | v :: iov => if negb (Z.land (iov_base v) (kPageSize - 1) =? 0) then false else AllPageAligned iov
  end.

End SgeAlignmentChecker.

Module MemoryRegion.

(** A registered region; [mr] is the key pair of the [ibv_mr], [None] when the
    pointer is null (after a move). *)
Record MemoryRegion := { mr_ : option (Z * Z); addr_ : Z; size_ : Z }.

Definition GetLkey (m : MemoryRegion) : Z := match mr_ m with Some (lkey, _) => lkey | None => 0 end.
Definition GetRawMR (m : MemoryRegion) : option (Z * Z) := mr_ m.
Definition GetAddr (m : MemoryRegion) : Z := addr_ m.
Definition GetSize (m : MemoryRegion) : Z := size_ m.
Definition GetBufferPtr (m : MemoryRegion) (offset : Z) : Z := u64 (addr_ m + offset).
Definition GetRkey (m : MemoryRegion) : Z := match mr_ m with Some (_, rkey) => rkey | None => 0 end.

(** The bits of [GetAccessFlags]; their values belong to the verbs library. *)
Inductive AccessFlag := ACCESS_LOCAL_WRITE | ACCESS_REMOTE_WRITE | ACCESS_REMOTE_READ | ACCESS_RELAXED_ORDERING.

Record MemoryRegionConfig := {
  enable_local_write : bool;
  enable_remote_write : bool;
  enable_remote_read : bool;
  enable_relaxed_ordering : bool;
}.

Definition MemoryRegionConfig_default : MemoryRegionConfig :=
  {| enable_local_write := true; enable_remote_write := true; enable_remote_read := true;
     enable_relaxed_ordering := false |}.

(** [relaxed] says whether [IBV_ACCESS_RELAXED_ORDERING] is defined. *)
Definition GetAccessFlags (relaxed : bool) (c : MemoryRegionConfig) : list AccessFlag :=
  (if enable_local_write c then [ACCESS_LOCAL_WRITE] else [])
  ++ (if enable_remote_write c then [ACCESS_REMOTE_WRITE] else [])
  ++ (if enable_remote_read c then [ACCESS_REMOTE_READ] else [])
  ++ (if relaxed && enable_relaxed_ordering c then [ACCESS_RELAXED_ORDERING] else []).

(** The destructor: the keys of the registration it ends, if any. *)
Definition destroy (m : MemoryRegion) : option (Z * Z) := mr_ m.

(** The move constructor: the new object, and what is left of the old one. *)
Definition move (other : MemoryRegion) : MemoryRegion * MemoryRegion :=
  (other, {| mr_ := None; addr_ := 0; size_ := 0 |}).

(** Move assignment; [self] says whether both operands are the same object. The
    results are the new object, what is left of the other one and the
    registration that is ended. *)
Definition move_assign (this : MemoryRegion) (self : bool) (other : MemoryRegion)
    : MemoryRegion * MemoryRegion * option (Z * Z) :=
  if self then (this, other, None)
  else let '(m, other) := move other in (m, other, destroy this).

(** [Register]: [pd] is the raw protection domain (0 is null), [reg_mr] the
    result of [ibv_reg_mr] ([None] is null) and [errno] its error. *)
Definition Register (reg_mr : Z -> Z -> Z -> list AccessFlag -> option (Z * Z)) (errno : Z) (relaxed : bool)
    (pd : option Z) (addr size : Z) (config : MemoryRegionConfig) : Result MemoryRegion :=
  match pd with
  | None => RErr (Err.InvalidArgument "Invalid protection domain")
  | Some raw =>
      if raw =? 0 then RErr (Err.InvalidArgument "Invalid protection domain")
      else if (addr =? 0) || (size =? 0)
           then RErr (Err.InvalidArgument "Invalid memory region parameters")
      else match reg_mr raw addr size (GetAccessFlags relaxed config) with
           | None => RErr (Err.IOError "Failed to register memory region" errno)
           | Some keys => RVal {| mr_ := Some keys; addr_ := addr; size_ := size |}
           end
  end.

(** The bound is computed in [size_t]. *)
Definition GetBuffer (m : MemoryRegion) (offset length : Z) : Buffer :=
  if size_ m <? u64 (offset + length) then Buffer.Buffer_default
  else {| Buffer.addr_ := u64 (addr_ m + offset); Buffer.length_ := length; Buffer.lkey_ := GetLkey m |}.

Definition GetRemoteInfo (m : MemoryRegion) : RemoteMemoryInfo :=
  {| rmi_addr := addr_ m; rmi_rkey := GetRkey m; rmi_length := u32 (size_ m) |}.

Definition GetRemoteInfo_range (m : MemoryRegion) (offset length : Z) : RemoteMemoryInfo :=
  {| rmi_addr := u64 (addr_ m + offset); rmi_rkey := GetRkey m; rmi_length := u32 length |}.

End MemoryRegion.

(** ** Specification *)

Section specification.

(** The bytes of a buffer: an interval of addresses. *)
Definition covers (b : Buffer) (x : Z) : Prop :=
  Buffer.addr_ b <= x < Buffer.addr_ b + Buffer.length_ b.

(** A buffer that lies in the address space. *)
Definition buffer_wf (b : Buffer) : Prop :=
  0 < Buffer.addr_ b /\ 0 <= Buffer.length_ b /\ Buffer.addr_ b + Buffer.length_ b <= 2 ^ 64.

(** The element that describes an [iovec]. *)
Definition sge_of (lkey : Z) (v : iovec) : ibv_sge :=
  {| sge_addr := iov_base v; sge_length := u32 (iov_len v); sge_lkey := lkey |}.

Definition aligned_to (n : Z) (v : iovec) : Prop := iov_base v mod n = 0.

#[export] Instance aligned_to_dec n v : Decision (aligned_to n v).
Proof. unfold aligned_to. apply _. Defined.

Definition count_aligned (n : Z) (iov : list iovec) : Z :=
  Z.of_nat (length (filter (aligned_to n) iov)).

(** What the alignment checker reports. *)
Definition report_of (iov : list iovec) : SgeAlignmentChecker.AlignmentReport :=
  {| SgeAlignmentChecker.total_sge := Z.of_nat (length iov);
     SgeAlignmentChecker.page_aligned_count := count_aligned kPageSize iov;
     SgeAlignmentChecker.cache_aligned_count := count_aligned kCacheLineSize iov;
     SgeAlignmentChecker.unaligned_count := Z.of_nat (length iov) - count_aligned kPageSize iov;
     SgeAlignmentChecker.total_unaligned_bytes :=
       u64 (sumZ (iov_len <$> filter (fun v => ~ aligned_to kCacheLineSize v) iov)) |}.

End specification.

(** ** Lemmas *)

Section lemmas.
Import SgeFiller.

Lemma store_Some a iov lkey i v :
  aget iov i = Some v -> 0 <= i < Z.of_nat (length a) ->
  store a iov lkey i = Some (<[Z.to_nat i := sge_of lkey v]> a).
Proof. intros Hv Hi. unfold store. rewrite Hv. sbind. by rewrite aset_Some. Qed.

(** The unrolled code performs the assignments of the loop. *)
Lemma FillUnrolled_loop N b a iov lkey : FillUnrolled N b a iov lkey = FillLoop N b a iov lkey.
Proof.
  revert b a. induction (lt_wf N) as [N _ IH]. intros b a. destruct N as [|[|M]]; [done|..].
  - simpl. by destruct (store a iov lkey b).
  - cbn [FillUnrolled FillLoop]. destruct (store a iov lkey b) as [a1|]; [|done]. sbind.
    destruct (store a1 iov lkey (b + 1)) as [a2|]; [|done]. sbind.
    rewrite IH by lia. by replace (b + 1 + 1) with (b + 2) by lia.
Qed.

Lemma FillLoop_spec n i a iov lkey :
  0 <= i -> i + Z.of_nat n <= Z.of_nat (length iov) -> i + Z.of_nat n <= Z.of_nat (length a) ->
  FillLoop n i a iov lkey
  = Some (take (Z.to_nat i) a ++ (sge_of lkey <$> take n (drop (Z.to_nat i) iov))
          ++ drop (Z.to_nat i + n) a).
Proof.
  revert i a. induction n as [|n IH]; intros i a Hi Hv Ha.
  - simpl. rewrite Nat.add_0_r. by rewrite take_drop.
  - cbn [FillLoop]. destruct (aget_is_Some iov i) as [v Hget]; [lia|].
    rewrite (store_Some _ _ _ _ v) by (done || lia). sbind.
    rewrite IH by (rewrite ?length_insert; lia). f_equal.
    replace (Z.to_nat (i + 1)) with (S (Z.to_nat i)) by lia.
    apply aget_Some in Hget as [_ Hget].
    rewrite (take_S_r _ _ (sge_of lkey v)) by (apply list_lookup_insert_eq; lia).
    rewrite take_insert_ge by lia. rewrite drop_insert_lt by lia.
    rewrite (drop_S iov v (Z.to_nat i)) by done. rewrite firstn_cons, fmap_cons, <- app_assoc. simpl.
    do 3 f_equal. f_equal. lia.
Qed.

Lemma FillLoop_undefined n i a iov lkey :
  0 <= i -> Z.of_nat (length iov) < i + Z.of_nat n \/ Z.of_nat (length a) < i + Z.of_nat n ->
  (0 < n)%nat -> FillLoop n i a iov lkey = None.
Proof.
  revert i a. induction n as [|n IH]; intros i a Hi Hb Hn; [lia|]. cbn [FillLoop].
  destruct (store a iov lkey i) as [a'|] eqn:E; [|done]. sbind.
  unfold store in E. inv_some. apply aget_lt in H. apply aset_inv in E as [? ->].
  apply IH; [lia| |lia]. rewrite length_insert. lia.
Qed.

Lemma count_aligned_range n iov : 0 <= count_aligned n iov <= Z.of_nat (length iov).
Proof. unfold count_aligned. pose proof (length_filter (aligned_to n) iov). lia. Qed.

Lemma count_aligned_snoc n iov v :
  count_aligned n (iov ++ [v]) = count_aligned n iov + if decide (aligned_to n v) then 1 else 0.
Proof.
  unfold count_aligned. rewrite filter_app, length_app, filter_cons, filter_nil.
  case_decide; simpl; lia.
Qed.

Lemma aligned_land v : Z.land (iov_base v) (kPageSize - 1) = iov_base v mod kPageSize
  /\ Z.land (iov_base v) (kCacheLineSize - 1) = iov_base v mod kCacheLineSize.
Proof. split; [by apply (land_mask 12)|by apply (land_mask 6)]. Qed.

Lemma page_cache_aligned v : aligned_to kPageSize v -> aligned_to kCacheLineSize v.
Proof. unfold aligned_to, kPageSize, kCacheLineSize. intros. zdm. Qed.

Lemma Check_fold T iov : Z.of_nat (length iov) < 2 ^ 64 ->
  fold_left SgeAlignmentChecker.Check_one iov
    {| SgeAlignmentChecker.total_sge := T; SgeAlignmentChecker.page_aligned_count := 0;
       SgeAlignmentChecker.cache_aligned_count := 0; SgeAlignmentChecker.unaligned_count := 0;
       SgeAlignmentChecker.total_unaligned_bytes := 0 |}
  = {| SgeAlignmentChecker.total_sge := T;
       SgeAlignmentChecker.page_aligned_count := count_aligned kPageSize iov;
       SgeAlignmentChecker.cache_aligned_count := count_aligned kCacheLineSize iov;
       SgeAlignmentChecker.unaligned_count := Z.of_nat (length iov) - count_aligned kPageSize iov;
       SgeAlignmentChecker.total_unaligned_bytes :=
         u64 (sumZ (iov_len <$> filter (fun v => ~ aligned_to kCacheLineSize v) iov)) |}.
Proof.
  induction iov as [|v iov IH] using rev_ind; intros Hlen; [done|].
  rewrite length_app in *. simpl in Hlen. rewrite fold_left_app, IH by lia. cbn [fold_left].
  rewrite !count_aligned_snoc, filter_app, fmap_app, sumZ_app, filter_cons, filter_nil.
  pose proof (count_aligned_range kPageSize iov). pose proof (count_aligned_range kCacheLineSize iov).
  unfold SgeAlignmentChecker.Check_one. destruct (aligned_land v) as [-> ->].
  pose proof (page_cache_aligned v) as Hpc. unfold aligned_to in *.
  destruct (Z.eqb_spec (iov_base v mod kPageSize) 0) as [Hp|Hp];
    [|destruct (Z.eqb_spec (iov_base v mod kCacheLineSize) 0) as [Hc|Hc]];
    repeat (case_decide; [|]); try (exfalso; tauto);
    cbn [SgeAlignmentChecker.total_sge SgeAlignmentChecker.page_aligned_count
      SgeAlignmentChecker.cache_aligned_count SgeAlignmentChecker.unaligned_count
      SgeAlignmentChecker.total_unaligned_bytes length fmap list_fmap sumZ foldr];
    rewrite ?(wrap_id 64 (_ + 1)) by (unfold is_u; lia);
    f_equal; try lia; try (f_equal; simpl; lia).
  rewrite wrap_add_l. f_equal. simpl. lia.
Qed.

End lemmas.

(** ** Properties *)

Section properties.

(** The unrolled scatter-gather fill is the plain loop: for every element
    count - the eight unrolled sizes and the fallback - [Fill] stores exactly
    the description of each [iovec] (its length truncated to 32 bits) in order,
    leaves the rest of the array alone, and is defined exactly when the count
    fits both arrays. *)
Theorem Fill_spec (a : list ibv_sge) (iov : list iovec) (count lkey : Z) :
  0 <= count ->
  SgeFiller.Fill a iov count lkey
  = if decide (count <= Z.of_nat (length iov) /\ count <= Z.of_nat (length a))
    then Some ((sge_of lkey <$> take (Z.to_nat count) iov) ++ drop (Z.to_nat count) a)
    else None.
Proof.
  intros Hc. unfold SgeFiller.Fill. rewrite FillUnrolled_loop.
  replace (if bool_decide (1 <= count <= 8) then _ else _)
    with (SgeFiller.FillLoop (Z.to_nat count) 0 a iov lkey) by (by case_bool_decide).
  case_decide as H.
  - rewrite FillLoop_spec by lia. done.
  - apply FillLoop_undefined; lia.
Qed.

Lemma Fill_spec_witness :
  let iov := [{| iov_base := 4096; iov_len := 2 ^ 32 + 5 |}; {| iov_base := 64; iov_len := 7 |}] in
  let a := replicate 3 {| sge_addr := 0; sge_length := 0; sge_lkey := 0 |} in
  0 <= 2 /\ SgeFiller.Fill a iov 2 9
            = Some ((sge_of 9 <$> take 2 iov) ++ drop 2 a).
Proof.
  intros iov a. split; [lia|].
  exact (Fill_spec a iov 2 9 ltac:(lia)).
Defined.

Lemma Slice_inside b offset length :
  buffer_wf b -> 0 <= offset -> 0 <= length -> offset + length < 2 ^ 64 ->
  let s := Buffer.Slice b offset length in
  (s = Buffer.Buffer_default /\ ~ (offset < Buffer.length_ b /\ offset + length <= Buffer.length_ b))
  \/ (Buffer.addr_ s = Buffer.addr_ b + offset /\ Buffer.length_ s = length
      /\ Buffer.lkey_ s = Buffer.lkey_ b
      /\ offset < Buffer.length_ b /\ offset + length <= Buffer.length_ b).
Proof.
  intros (Ha & Hl & Hw) Ho Hn Hs s. subst s. unfold Buffer.Slice.
  rewrite (wrap_id 64 (offset + length)) by (unfold is_u; lia).
  destruct (Z.leb_spec (Buffer.length_ b) offset); simpl; [left; split; [done|lia]|].
  destruct (Z.ltb_spec (Buffer.length_ b) (offset + length)); [left; split; [done|lia]|].
  right. simpl. rewrite wrap_id by (unfold is_u; lia). lia.
Qed.

(** A slice stays inside its buffer: whenever offset plus length does not
    wrap around the 64-bit [size_t], [Slice] gives a view whose bytes all
    belong to the buffer and start at the offset, or the invalid buffer when
    the range leaves it; the bound of the code does not hold once the sum wraps:
    some slice of a 16-byte buffer has 2^64 - 8 bytes. *)
Theorem Slice_bounds (b : Buffer) (offset length : Z) :
  buffer_wf b -> 0 <= offset -> 0 <= length -> offset + length < 2 ^ 64 ->
  (forall x, covers (Buffer.Slice b offset length) x -> covers b x)
  /\ (Buffer.IsValid (Buffer.Slice b offset length) = true <->
      0 < length /\ offset + length <= Buffer.length_ b)
  /\ exists big, buffer_wf big /\ Buffer.length_ big = 16
       /\ Buffer.length_ (Buffer.Slice big 8 (2 ^ 64 - 8)) = 2 ^ 64 - 8.
Proof.
  intros Hb Ho Hn Hs. destruct (Slice_inside b offset length Hb Ho Hn Hs) as [[-> Hne]|(Ea & El & _ & ? & ?)].
  - split_and!.
    + intros x. unfold covers. simpl. lia.
    + split; [done|]. lia.
    + exists {| Buffer.addr_ := 4096; Buffer.length_ := 16; Buffer.lkey_ := 1 |}.
      split_and!; done.
  - destruct Hb as (? & ? & ?). split_and!.
    + intros x. unfold covers. rewrite Ea, El. lia.
    + unfold Buffer.IsValid. rewrite Ea, El. rewrite andb_true_iff, negb_true_iff, Z.eqb_neq, Z.ltb_lt. lia.
    + exists {| Buffer.addr_ := 4096; Buffer.length_ := 16; Buffer.lkey_ := 1 |}.
      split_and!; done.
Qed.

Lemma Slice_bounds_witness :
  let b := {| Buffer.addr_ := 4096; Buffer.length_ := 64; Buffer.lkey_ := 1 |} in
  (forall x, covers (Buffer.Slice b 16 48) x -> covers b x)
  /\ Buffer.IsValid (Buffer.Slice b 16 48) = true.
Proof.
  intros b. assert (Hb : buffer_wf b) by (split_and!; simpl; lia).
  destruct (Slice_bounds b 16 48 Hb ltac:(lia) ltac:(lia) ltac:(lia)) as (H1 & H2 & _).
  split; [exact H1|]. apply H2. simpl. lia.
Defined.

(** The alignment checker counts what it says: for any list of fewer than
    2^64 elements the report holds the numbers of page-aligned, cache-aligned
    and not page-aligned elements and the bytes (in [size_t]) of those not even
    cache-aligned; and [IsOptimal] holds exactly when [AllPageAligned] does. *)
Theorem Check_spec (iov : list iovec) :
  Z.of_nat (length iov) < 2 ^ 64 ->
  SgeAlignmentChecker.CheckSgl iov = report_of iov
  /\ SgeAlignmentChecker.AllPageAligned iov
     = SgeAlignmentChecker.IsOptimal (SgeAlignmentChecker.CheckSgl iov).
Proof.
  intros Hl. assert (E : SgeAlignmentChecker.CheckSgl iov = report_of iov) by (by apply Check_fold).
  split; [exact E|]. rewrite E. unfold SgeAlignmentChecker.IsOptimal, report_of.
  cbn [SgeAlignmentChecker.unaligned_count]. clear.
  induction iov as [|v iov IH]; [done|]. cbn [SgeAlignmentChecker.AllPageAligned].
  destruct (aligned_land v) as [-> _]. change (v :: iov) with ([v] ++ iov).
  pose proof (count_aligned_range kPageSize iov) as Hr.
  unfold count_aligned in *. rewrite filter_app, !length_app, filter_cons, filter_nil. unfold aligned_to at 1.
  destruct (Z.eqb_spec (iov_base v mod kPageSize) 0); simpl negb; cbv iota.
  - rewrite IH, decide_True by done. simpl length. f_equal; lia || (apply eq_true_iff_eq; rewrite !Z.eqb_eq; lia).
  - rewrite decide_False by done. symmetry. apply Z.eqb_neq. simpl length. lia.
Qed.

Lemma Check_spec_witness :
  let iov := [{| iov_base := 8192; iov_len := 10 |}; {| iov_base := 64; iov_len := 20 |};
              {| iov_base := 9; iov_len := 30 |}] in
  SgeAlignmentChecker.CheckSgl iov = report_of iov
  /\ SgeAlignmentChecker.total_unaligned_bytes (report_of iov) = 30.
Proof.
  intros iov. destruct (Check_spec iov ltac:(simpl; lia)) as [E _]. split; [exact E|reflexivity].
Defined.

End properties.
