(* ===== verification/Memory.v ===== *)
(** * Registered memory

    The bytes behind the buffers: a byte per address. Code that holds a [Buffer]
    reads and writes through it; an access outside the buffer is [None]. The
    device writes an arriving message into the buffer posted for it. *)

From S2P Require Import Prelude Types Verbs Buffer.

Definition memory : Type := Z -> Z.

(** [n] bytes from address [a] on. *)
Fixpoint range (m : memory) (a : Z) (n : nat) : list Z :=
  match n with
  | O => []
  | S n => m a :: range m (a + 1) n
  end.

Definition store_bytes (m : memory) (a : Z) (l : list Z) : memory :=
  fun x => if decide (a <= x < a + Z.of_nat (length l)) then default 0 (l !! Z.to_nat (x - a)) else m x.

Definition buf_read (m : memory) (b : Buffer) (off n : Z) : option (list Z) :=
  if decide (0 <= off /\ 0 <= n /\ off + n <= Buffer.length_ b)
  then Some (range m (Buffer.addr_ b + off) (Z.to_nat n)) else None.

Definition buf_write (m : memory) (b : Buffer) (off : Z) (l : list Z) : option memory :=
  if decide (0 <= off /\ off + Z.of_nat (length l) <= Buffer.length_ b)
  then Some (store_bytes m (Buffer.addr_ b + off) l) else None.

Section memory.
Implicit Types (m : memory) (b : Buffer) (l : list Z).

Lemma range_length m a n : length (range m a n) = n.
Proof. revert a. induction n as [|n IH]; intros a; simpl; [done|]. by rewrite IH. Qed.

Lemma range_lookup m a n i : (i < n)%nat -> range m a n !! i = Some (m (a + Z.of_nat i)).
Proof.
  revert a i. induction n as [|n IH]; intros a i Hi; [lia|]. destruct i as [|i]; simpl.
  - by rewrite Z.add_0_r.
  - rewrite IH by lia. do 2 f_equal. lia.
Qed.

Lemma range_ext m m' a n :
  (forall x, a <= x < a + Z.of_nat n -> m x = m' x) -> range m a n = range m' a n.
Proof.
  intros H. apply list_eq. intros i. destruct (decide (i < n)%nat) as [Hi|Hi].
  - rewrite !range_lookup by done. f_equal. apply H. lia.
  - rewrite !lookup_ge_None_2; [done|rewrite range_length; lia..].
Qed.

Lemma range_app m a n1 n2 : range m a (n1 + n2) = range m a n1 ++ range m (a + Z.of_nat n1) n2.
Proof.
  revert a. induction n1 as [|n1 IH]; intros a; cbn [Nat.add range app]; [by rewrite Z.add_0_r|].
  rewrite IH. do 3 f_equal. lia.
Qed.

Lemma range_take m a n k : (k <= n)%nat -> take k (range m a n) = range m a k.
Proof.
  intros Hk. replace n with (k + (n - k))%nat by lia. rewrite range_app.
  by rewrite take_app_length' by (by rewrite range_length).
Qed.

Lemma range_drop m a n k : (k <= n)%nat -> drop k (range m a n) = range m (a + Z.of_nat k) (n - k).
Proof.
  intros Hk. replace n with (k + (n - k))%nat at 1 by lia. rewrite range_app.
  by rewrite drop_app_length' by (by rewrite range_length).
Qed.

Lemma range_store m a l : range (store_bytes m a l) a (length l) = l.
Proof.
  apply list_eq. intros i. destruct (decide (i < length l)%nat) as [Hi|Hi].
  - rewrite range_lookup by done. unfold store_bytes. rewrite decide_True by lia.
    replace (Z.to_nat (a + Z.of_nat i - a)) with i by lia.
    by destruct (lookup_lt_is_Some_2 l i Hi) as [x ->].
  - rewrite !lookup_ge_None_2; [done|lia|rewrite range_length; lia].
Qed.

Lemma range_store_disjoint m a l a' n :
  a' + Z.of_nat n <= a \/ a + Z.of_nat (length l) <= a' -> range (store_bytes m a l) a' n = range m a' n.
Proof. intros H. apply range_ext. intros x Hx. unfold store_bytes. by rewrite decide_False by lia. Qed.

(** Reads and writes inside a buffer are defined. *)
Lemma buf_read_Some m b off n :
  0 <= off -> 0 <= n -> off + n <= Buffer.length_ b ->
  buf_read m b off n = Some (range m (Buffer.addr_ b + off) (Z.to_nat n)).
Proof. intros. unfold buf_read. by rewrite decide_True. Qed.

Lemma buf_write_Some m b off l :
  0 <= off -> off + Z.of_nat (length l) <= Buffer.length_ b ->
  buf_write m b off l = Some (store_bytes m (Buffer.addr_ b + off) l).
Proof. intros. unfold buf_write. by rewrite decide_True. Qed.

(** A write changes the bytes of its buffer only. *)
Lemma store_bytes_frame m b l x : Z.of_nat (length l) <= Buffer.length_ b -> ~ covers b x ->
  store_bytes m (Buffer.addr_ b) l x = m x.
Proof. intros Hl Hx. unfold store_bytes. rewrite decide_False; [done|]. unfold covers in Hx. lia. Qed.

Lemma buf_write_outside m b off l m' x : buf_write m b off l = Some m' -> ~ covers b x -> m' x = m x.
Proof.
  unfold buf_write. case_decide as Hw; [|done]. intros [= <-] Hx. unfold store_bytes. rewrite decide_False; [done|].
  unfold covers in Hx. lia.
Qed.

(** A write through one buffer is not seen through a disjoint one. *)
Lemma buf_read_frame m b off l m' b' off' n :
  buf_write m b off l = Some m' -> (forall x, covers b' x -> ~ covers b x) ->
  buf_read m' b' off' n = buf_read m b' off' n.
Proof.
  unfold buf_write, buf_read. case_decide as Hw; [|done]. intros [= <-] Hd.
  case_decide as Hr; [|done]. f_equal. apply range_ext. intros x Hx. unfold store_bytes.
  rewrite decide_False; [done|]. intros Hx'. apply (Hd x); unfold covers; lia.
Qed.

(** A message written at the start of a buffer is read back. *)
Lemma buf_read_written m b l m' :
  buf_write m b 0 l = Some m' -> buf_read m' b 0 (Z.of_nat (length l)) = Some l.
Proof.
  unfold buf_write, buf_read. case_decide as Hw; [|done]. intros [= <-].
  rewrite decide_True by lia. rewrite Nat2Z.id, Z.add_0_r. by rewrite range_store.
Qed.

(** Writing on behind what has been written. *)
Lemma buf_write_behind m b l l' :
  buf_read m b 0 (Z.of_nat (length l)) = Some l -> Z.of_nat (length (l ++ l')) <= Buffer.length_ b ->
  exists m', buf_write m b (Z.of_nat (length l)) l' = Some m'
    /\ buf_read m' b 0 (Z.of_nat (length (l ++ l'))) = Some (l ++ l')
    /\ forall x, ~ covers b x -> m' x = m x.
Proof.
  intros Hr Hl. rewrite length_app in Hl. destruct (buf_write m b (Z.of_nat (length l)) l') as [m'|] eqn:E;
    [|by rewrite buf_write_Some in E by lia].
  exists m'. split; [done|]. split; [|intros x; by eapply buf_write_outside].
  rewrite buf_write_Some in E by lia. injection E as <-. rewrite buf_read_Some in Hr |- * by (rewrite ?length_app; lia).
  injection Hr as Hr. rewrite length_app, Nat2Z.id, Z.add_0_r, range_app in *. f_equal. f_equal.
  - by rewrite range_store_disjoint by lia.
  - apply range_store.
Qed.

End memory.
