(* ===== verification/BufferPool.v ===== *)
(** * The registered buffer pool

    Models [include/rdma/memory/buffer_pool.h] and [src/memory/buffer_pool.cpp]:
    a fixed ring of buffer offsets used as a stack (LIFO) or as a queue (FIFO).
    The allocator, [ibv_reg_mr] and [aligned_alloc] are parameters of [Create].
    [None] is an access outside the ring. *)

From S2P Require Import Prelude Types Verbs Buffer.

(** ** The interface other components rely on *)

(** A source of buffers: [bs_held s held] says that [s] is well formed and that
    its clients hold exactly the buffers [held], all of [bs_size s] bytes. *)
Class BufferSource (S : Type) := {
  bs_allocate : S -> option (S * Buffer);
  bs_free : S -> Buffer -> option S;
  bs_held : S -> list Buffer -> Prop;
  bs_allocate_spec s held :
    bs_held s held ->
    exists s' b, bs_allocate s = Some (s', b)
      /\ (if Buffer.IsValid b
          then bs_held s' (b :: held) /\ (forall b' x, b' ∈ held -> covers b' x -> ~ covers b x)
          else s' = s);
  bs_free_spec s b held1 held2 :
    bs_held s (held1 ++ b :: held2) ->
    exists s', bs_free s b = Some s' /\ bs_held s' (held1 ++ held2);
  bs_size : S -> Z;
  bs_held_wf s held b : bs_held s held -> b ∈ held -> buffer_wf b /\ Buffer.length_ b = bs_size s;
  bs_held_disjoint s b held1 held2 b' x :
    bs_held s (held1 ++ b :: held2) -> b' ∈ held1 ++ held2 -> covers b x -> ~ covers b' x;
  bs_size_allocate s s' b : bs_allocate s = Some (s', b) -> bs_size s' = bs_size s;
  bs_size_free s b s' : bs_free s b = Some s' -> bs_size s' = bs_size s;
  bs_capacity : S -> Z;
  bs_held_length s held : bs_held s held -> Z.of_nat (length held) <= bs_capacity s;
  bs_capacity_allocate s s' b : bs_allocate s = Some (s', b) -> bs_capacity s' = bs_capacity s;
  bs_capacity_free s b s' : bs_free s b = Some s' -> bs_capacity s' = bs_capacity s;
}.

Module LocalBufferPool.

Record BufferPoolConfig := {
  buffer_size : Z;
  buffer_count : Z;
  max_buffer_count : Z;
  numa_node : Z;
  use_hugepage : bool;
  policy : BufferAllocationPolicy;
}.

Definition BufferPoolConfig_default : BufferPoolConfig :=
  {| buffer_size := 4096; buffer_count := 1024; max_buffer_count := 65536; numa_node := -1;
     use_hugepage := true; policy := FIFO |}.

Record LocalBufferPool := {
  base_addr_ : Z;
  total_size_ : Z;
  offset_ring_ : list Z;
  head_ : Z;
  tail_ : Z;
  count_ : Z;
  buffer_size_ : Z;
  buffer_count_ : Z;
  policy_ : BufferAllocationPolicy;
  lkey_ : Z;
  rkey_ : Z;
}.

Inductive Event := EFreeMemory (addr size : Z) | EDeregister.

(** The destructor, then the destructors of the members: the memory is released
    before its registration. *)
Definition destroy (base total : Z) : list Event :=
  (if base =? 0 then [] else [EFreeMemory base total]) ++ [EDeregister].

(** [Create]. [allocate] is [allocator->Allocate(size, kPageSize)] for the chosen
    allocator, [reg] is [MemoryRegion::Register] on the domain, [ring] says
    whether [aligned_alloc] gave the ring. *)
Definition Create (allocate : bool -> Z -> Z -> Z) (reg : Z -> Z -> Result MemoryRegion.MemoryRegion)
    (ring : bool) (pd : option unit) (config : BufferPoolConfig)
    : Result LocalBufferPool * list Event :=
  match pd with
  | None => (RErr (Err.InvalidArgument "Invalid protection domain"), [])
  | Some _ =>
  if max_buffer_count config <? buffer_count config
  then (RErr (Err.InvalidArgument "buffer_count exceeds max"), [])
  else if (buffer_size config =? 0) || (buffer_count config =? 0)
  then (RErr (Err.InvalidArgument "Invalid buffer configuration"), [])
  else
    let total_size := u64 (buffer_size config * buffer_count config) in
    let memory := allocate (use_hugepage config) (numa_node config) total_size in
    if memory =? 0
    then (RErr (Err.ResourceExhausted "Failed to allocate buffer pool memory"), [])
    else
      match reg memory total_size with
      | RErr s => (RErr s, [EFreeMemory memory total_size])
      | RVal mr =>
          if negb ring
          then (RErr (Err.ResourceExhausted "Failed to allocate offset ring"),
                destroy memory total_size)
          else
            (RVal {| base_addr_ := memory; total_size_ := total_size;
                     offset_ring_ := (fun i => u64 (i * buffer_size config)) <$> seqZ 0 (buffer_count config);
                     head_ := 0; tail_ := buffer_count config; count_ := buffer_count config;
                     buffer_size_ := buffer_size config; buffer_count_ := buffer_count config;
                     policy_ := policy config;
                     lkey_ := MemoryRegion.GetLkey mr; rkey_ := MemoryRegion.GetRkey mr |}, [])
      end
  end.

Definition set_head (p : LocalBufferPool) (head count : Z) : LocalBufferPool :=
  {| base_addr_ := base_addr_ p; total_size_ := total_size_ p; offset_ring_ := offset_ring_ p;
     head_ := head; tail_ := tail_ p; count_ := count; buffer_size_ := buffer_size_ p;
     buffer_count_ := buffer_count_ p; policy_ := policy_ p; lkey_ := lkey_ p; rkey_ := rkey_ p |}.

Definition set_tail (p : LocalBufferPool) (ring : list Z) (tail count : Z) : LocalBufferPool :=
  {| base_addr_ := base_addr_ p; total_size_ := total_size_ p; offset_ring_ := ring;
     head_ := head_ p; tail_ := tail; count_ := count; buffer_size_ := buffer_size_ p;
     buffer_count_ := buffer_count_ p; policy_ := policy_ p; lkey_ := lkey_ p; rkey_ := rkey_ p |}.

Definition GetBufferPtr (p : LocalBufferPool) (offset : Z) : Z := u64 (base_addr_ p + offset).

Definition Allocate (p : LocalBufferPool) : option (LocalBufferPool * Buffer) :=
  if count_ p =? 0 then Some (p, Buffer.Buffer_default)
  else
    '(p, offset) ←
      (if bool_decide (policy_ p = FIFO) then
         offset ← aget (offset_ring_ p) (head_ p);
         Some (set_head p (u64 (head_ p + 1) mod buffer_count_ p) (count_ p - 1), offset)
       else
         let tail := u64 (u64 (tail_ p - 1) + buffer_count_ p) mod buffer_count_ p in
         offset ← aget (offset_ring_ p) tail;
         Some (set_tail p (offset_ring_ p) tail (count_ p - 1), offset));
    Some (p, {| Buffer.addr_ := GetBufferPtr p offset; Buffer.length_ := buffer_size_ p;
                Buffer.lkey_ := lkey_ p |}).

Definition Free (p : LocalBufferPool) (buf : Buffer) : option LocalBufferPool :=
  let offset := u64 (Buffer.addr_ buf - base_addr_ p) in
  ring ← aset (offset_ring_ p) (tail_ p) offset;
  Some (set_tail p ring (u64 (tail_ p + 1) mod buffer_count_ p) (u64 (count_ p + 1))).

Definition AvailableCount (p : LocalBufferPool) : Z := count_ p.
Definition GetPolicy (p : LocalBufferPool) : BufferAllocationPolicy := policy_ p.
Definition GetBufferSize (p : LocalBufferPool) : Z := buffer_size_ p.
Definition GetLkey (p : LocalBufferPool) : Z := lkey_ p.
Definition GetRkey (p : LocalBufferPool) : Z := rkey_ p.

Definition GetRemoteInfo (p : LocalBufferPool) (buf : Buffer) : RemoteMemoryInfo :=
  Buffer.ToRemoteInfo buf (rkey_ p).

End LocalBufferPool.

(** ** Specification *)

Section specification.
Import LocalBufferPool.

(** The buffer at ring offset [o]. *)
Definition buffer_at (p : LocalBufferPool) (o : Z) : Buffer :=
  {| Buffer.addr_ := base_addr_ p + o; Buffer.length_ := buffer_size_ p; Buffer.lkey_ := lkey_ p |}.

(** The ring positions that hold free offsets, oldest first. *)
Definition window (p : LocalBufferPool) : list Z :=
  if bool_decide (policy_ p = FIFO)
  then (fun i => (head_ p + i) mod buffer_count_ p) <$> seqZ 0 (count_ p)
  else seqZ 0 (count_ p).

Definition free_offsets (p : LocalBufferPool) : list Z :=
  (fun i => default 0 (aget (offset_ring_ p) i)) <$> window p.

(** All the offsets of the pool. *)
Definition all_offsets (p : LocalBufferPool) : list Z :=
  (fun i => i * buffer_size_ p) <$> seqZ 0 (buffer_count_ p).

(** The pointers delimit the window. A stack just created has [tail_] one past
    the ring. *)
Definition pointers_ok (p : LocalBufferPool) : Prop :=
  if bool_decide (policy_ p = FIFO)
  then 0 <= head_ p < buffer_count_ p /\ tail_ p = (head_ p + count_ p) mod buffer_count_ p
  else tail_ p = count_ p mod buffer_count_ p
       \/ (tail_ p = buffer_count_ p /\ count_ p = buffer_count_ p).

Record pool_held (p : LocalBufferPool) (held : list Buffer) : Prop := {
  ph_ring : Z.of_nat (length (offset_ring_ p)) = buffer_count_ p;
  ph_count : 0 <= count_ p <= buffer_count_ p;
  ph_size : 0 < buffer_size_ p;
  ph_bc : 0 < buffer_count_ p < 2 ^ 62;
  ph_base : 0 < base_addr_ p;
  ph_space : base_addr_ p + buffer_count_ p * buffer_size_ p <= 2 ^ 64;
  ph_pointers : pointers_ok p;
  ph_part : exists os, held = buffer_at p <$> os /\ free_offsets p ++ os ≡ₚ all_offsets p;
}.

(** Clients that free, each once, buffers they hold. *)
Inductive PoolOp := PAllocate | PFree (k : nat).

Definition pool_step (s : LocalBufferPool * list Buffer) (o : PoolOp)
    : option (LocalBufferPool * list Buffer) :=
  match o with
  | PAllocate =>
      '(p, b) ← Allocate s.1;
      Some (p, if Buffer.IsValid b then b :: s.2 else s.2)
  | PFree k =>
      match s.2 !! k with
      | None => Some s
      | Some b => p ← Free s.1 b; Some (p, delete k s.2)
      end
  end.

Fixpoint pool_run (s : LocalBufferPool * list Buffer) (os : list PoolOp)
    : option (LocalBufferPool * list Buffer) :=
  match os with
  | [] => Some s
  | o :: os => s ← pool_step s o; pool_run s os
  end.

(** A configuration and memory for which nothing wraps around. *)
Definition config_ok (c : BufferPoolConfig) (memory : Z) : Prop :=
  0 < buffer_size c /\ 0 < buffer_count c < 2 ^ 62 /\ buffer_count c <= max_buffer_count c
  /\ 0 < memory /\ memory + buffer_count c * buffer_size c <= 2 ^ 64.

(** A factory whose pools, made for [config], keep the contract of a
    [BufferSource] from the start: nothing is held and the buffers have the size
    asked for. *)
Definition working_pool {S} `{!BufferSource S} (create_pool : BufferPoolConfig -> Result S)
    (config : BufferPoolConfig) : Prop :=
  forall p, create_pool config = RVal p -> bs_held p [] /\ buffer_size config <= bs_size p < 2 ^ 32.

(** The next [n] allocations give buffers of [size] bytes. *)
Fixpoint has_buffers {T} `{!BufferSource T} (size : Z) (n : nat) (s : T) : Prop :=
  match n with
  | O => True
  | S n => exists s' b, bs_allocate s = Some (s', b) /\ Buffer.IsValid b = true /\ Buffer.length_ b = size
             /\ has_buffers size n s'
  end.

Definition with_policy (pol : BufferAllocationPolicy) (config : BufferPoolConfig) : BufferPoolConfig :=
  {| buffer_size := buffer_size config; buffer_count := buffer_count config;
     max_buffer_count := max_buffer_count config; numa_node := numa_node config;
     use_hugepage := use_hugepage config; policy := pol |}.

(** [LocalBufferPool::Create] on a domain, with the policy of the configuration
    and with the policy LIFO in its place. *)
Definition ring_pool allocate reg (config : BufferPoolConfig) : Result LocalBufferPool :=
  (Create allocate reg true (Some tt) config).1.

Definition lifo_pool allocate reg (config : BufferPoolConfig) : Result LocalBufferPool :=
  ring_pool allocate reg (with_policy LIFO config).

(** A FIFO pool as [Create] makes it, and after [k] allocations from it. *)
Record fresh_pool (p : LocalBufferPool) : Prop := {
  fp_policy : policy_ p = FIFO;
  fp_ring : offset_ring_ p
            = (fun i => i * buffer_size_ p) <$> seqZ 0 (buffer_count_ p);
  fp_head : head_ p = 0;
  fp_count : count_ p = buffer_count_ p;
  fp_tail : tail_ p = buffer_count_ p;
  fp_size : 0 < buffer_size_ p;
  fp_buffers : 0 < buffer_count_ p < 2 ^ 62;
  fp_base : 0 < base_addr_ p;
  fp_space : base_addr_ p + buffer_count_ p * buffer_size_ p <= 2 ^ 64;
}.

Definition taken (p : LocalBufferPool) (k : Z) : LocalBufferPool :=
  set_head p (k mod buffer_count_ p) (count_ p - k).

(** An example configuration, allocator and registration. *)
Definition example_config (pol : BufferAllocationPolicy) : BufferPoolConfig :=
  {| buffer_size := 4096; buffer_count := 3; max_buffer_count := 8; numa_node := -1;
     use_hugepage := false; policy := pol |}.

Definition example_allocate (huge : bool) (node size : Z) : Z := 8192.

Definition example_register (addr size : Z) : Result MemoryRegion.MemoryRegion :=
  MemoryRegion.Register (fun _ _ _ _ => Some (7, 8)) 0 false (Some 1) addr size MemoryRegion.MemoryRegionConfig_default.

(** The FIFO pool of the example with the tail reduced modulo the count. *)
Definition reduced_fifo : LocalBufferPool :=
  {| base_addr_ := 8192; total_size_ := 12288; offset_ring_ := [0; 4096; 8192]; head_ := 0; tail_ := 0;
     count_ := 3; buffer_size_ := 4096; buffer_count_ := 3; policy_ := FIFO; lkey_ := 7; rkey_ := 8 |}.

End specification.

(** ** Lemmas *)

Section lemmas.
Import LocalBufferPool.

Lemma seqZ_snoc c : 0 <= c -> seqZ 0 (c + 1) = seqZ 0 c ++ [c].
Proof. intros. rewrite seqZ_app by lia. by rewrite (seqZ_cons _ 1) by lia. Qed.

Lemma seqZ_tail c : 0 < c -> seqZ 0 c = 0 :: (Z.add 1 <$> seqZ 0 (c - 1)).
Proof. intros. rewrite seqZ_cons by lia. rewrite fmap_add_seqZ. by rewrite Z.sub_1_r. Qed.

(** Two positions of a ring at distance below its size coincide only when equal. *)
Lemma ring_distinct h i j n : 0 <= i < j -> j < i + n -> (h + i) mod n <> (h + j) mod n.
Proof.
  intros Hi Hj E. pose proof (Z.div_mod (h + i) n). pose proof (Z.div_mod (h + j) n).
  assert (n * ((h + j) / n - (h + i) / n) = j - i) as H' by lia.
  assert (0 < (h + j) / n - (h + i) / n < 1) by nia. lia.
Qed.

Lemma offset_range p o : o ∈ all_offsets p -> 0 < buffer_size_ p ->
  0 <= o /\ o + buffer_size_ p <= buffer_count_ p * buffer_size_ p.
Proof. intros (i & -> & Hi%elem_of_seqZ)%list_elem_of_fmap Hs. nia. Qed.

(** Buffers at distinct offsets share no byte. *)
Lemma buffers_disjoint p o1 o2 x :
  o1 ∈ all_offsets p -> o2 ∈ all_offsets p -> o1 <> o2 ->
  covers (buffer_at p o1) x -> ~ covers (buffer_at p o2) x.
Proof.
  intros (i & -> & Hi%elem_of_seqZ)%list_elem_of_fmap (j & -> & Hj%elem_of_seqZ)%list_elem_of_fmap Hne.
  unfold covers. simpl. destruct (Z.lt_total i j) as [?|[->|?]]; [nia|done|nia].
Qed.

Lemma free_length p held : pool_held p held -> count_ p + Z.of_nat (length held) = buffer_count_ p.
Proof.
  intros H. destruct (ph_part _ _ H) as (os & -> & Hp). apply Permutation_length in Hp.
  pose proof (ph_count _ _ H). rewrite length_app in Hp. unfold free_offsets, all_offsets in Hp.
  rewrite !length_fmap, length_seqZ in Hp. rewrite length_fmap.
  assert (length (window p) = Z.to_nat (count_ p)); [|lia].
  unfold window. case_bool_decide; by rewrite ?length_fmap, length_seqZ.
Qed.

Lemma all_offsets_NoDup p held : pool_held p held -> NoDup (all_offsets p).
Proof.
  intros H. apply NoDup_fmap_2_strong; [|apply NoDup_seqZ].
  intros i j _ _ E. pose proof (ph_size _ _ H). nia.
Qed.

Lemma bool_decide_fifo pol : bool_decide (pol = FIFO) = match pol with FIFO => true | _ => false end.
Proof. by destruct pol. Qed.

(** The position a stack takes from. *)
Lemma lifo_tail t c n :
  0 < n < 2 ^ 62 -> 0 < c <= n -> t = c mod n \/ (t = n /\ c = n) ->
  u64 (u64 (t - 1) + n) mod n = c - 1.
Proof.
  intros Hn Hc Ht. rewrite wrap_add_l.
  assert (exists k, 0 <= k <= 1 /\ t - 1 + n = c - 1 + k * n) as (k & Hk & E).
  { destruct (decide (c = n)) as [->|].
    - destruct Ht as [->|[-> _]]; [exists 0; rewrite Z_mod_same_full; lia|exists 1; lia].
    - destruct Ht as [->|[_ ?]]; [|lia]. exists 1. rewrite Z.mod_small; lia. }
  rewrite E, wrap_id by (unfold is_u; nia). rewrite Z_mod_plus_full. apply Z.mod_small. lia.
Qed.

(** Taking from the pool moves one free offset to the caller. *)
Lemma Allocate_ring p held :
  pool_held p held -> 0 < count_ p ->
  exists p' o, Allocate p = Some (p', {| Buffer.addr_ := GetBufferPtr p o;
                                         Buffer.length_ := buffer_size_ p; Buffer.lkey_ := lkey_ p |})
    /\ pointers_ok p' /\ free_offsets p ≡ₚ o :: free_offsets p'
    /\ (exists h t, p' = set_head p h (count_ p - 1) \/ p' = set_tail p (offset_ring_ p) t (count_ p - 1)).
Proof.
  intros H Hc. pose proof (ph_count _ _ H) as Hcb. pose proof (ph_bc _ _ H) as Hb.
  pose proof (ph_ring _ _ H) as Hr. pose proof (ph_pointers _ _ H) as Hp.
  unfold Allocate. case (Z.eqb_spec (count_ p) 0); [lia|]. intros _.
  unfold pointers_ok, free_offsets, window in *. rewrite !bool_decide_fifo in *.
  destruct (policy_ p) eqn:Epol; sbind.
  2: { destruct Hp as [Hh Ht].
    destruct (aget_is_Some (offset_ring_ p) (head_ p)) as [o Ho]; [lia|]. rewrite Ho. sbind.
    do 2 eexists. split; [done|]. rewrite bool_decide_fifo. cbn [policy_ set_head]. rewrite Epol.
    cbn [set_head head_ tail_ count_ buffer_count_ offset_ring_]. rewrite (wrap_id 64 (head_ p + 1)) by (unfold is_u; lia).
    pose proof (Z.mod_pos_bound (head_ p + 1) _ (proj1 Hb)).
    split_and!; [lia|lia| | |].
    - rewrite Ht, Zplus_mod_idemp_l. f_equal. lia.
    - rewrite (seqZ_tail (count_ p)) by lia. rewrite !fmap_cons.
      rewrite Z.add_0_r, (Z.mod_small (head_ p)) by lia. rewrite Ho. simpl.
      rewrite <- !list_fmap_compose. apply Permutation_skip.
      match goal with |- ?a ≡ₚ ?b => enough (a = b) as ->; [done|] end.
      apply list_fmap_ext. intros i z Hz. simpl.
      rewrite Zplus_mod_idemp_l. by replace (head_ p + 1 + z) with (head_ p + (1 + z)) by lia.
    - exists ((head_ p + 1) mod buffer_count_ p), 0. by left. }
  all: assert (u64 (u64 (tail_ p - 1) + buffer_count_ p) mod buffer_count_ p = count_ p - 1) as ->.
  1,3: apply lifo_tail; [done|lia|done].
  all: destruct (aget_is_Some (offset_ring_ p) (count_ p - 1)) as [o Ho]; [lia|]; rewrite Ho; sbind;
    do 2 eexists; (split; [done|]); rewrite bool_decide_fifo; cbn [policy_ set_tail]; rewrite Epol;
    cbn [set_tail head_ tail_ count_ buffer_count_ offset_ring_];
    (split_and!; [left; rewrite Z.mod_small by lia; done| |exists 0, (count_ p - 1); by right]);
    replace (count_ p) with (count_ p - 1 + 1) at 1 by lia; rewrite seqZ_snoc by lia;
    rewrite fmap_app; cbn [fmap list_fmap]; rewrite Ho; symmetry; apply Permutation_cons_append.
Qed.

Lemma Allocate_held p held :
  pool_held p held ->
  exists p' b, Allocate p = Some (p', b)
    /\ (if Buffer.IsValid b
        then pool_held p' (b :: held) /\ (exists o, b = buffer_at p o /\ o ∈ all_offsets p)
             /\ count_ p' = count_ p - 1 /\ 0 < count_ p
             /\ (forall b' x, b' ∈ held -> covers b' x -> ~ covers b x)
        else p' = p /\ count_ p = 0).
Proof.
  intros H. destruct (decide (count_ p = 0)) as [Hz|Hz].
  { unfold Allocate. rewrite Hz. simpl. by exists p, Buffer.Buffer_default. }
  pose proof (ph_count _ _ H).
  destruct (Allocate_ring p held H) as (p' & o & E & Hptr & Hperm & h & t & Hp'); [lia|].
  destruct (ph_part _ _ H) as (os & -> & Hos).
  assert (o ∈ all_offsets p) as Ho by (rewrite <- Hos, Hperm; set_solver).
  pose proof (ph_size _ _ H) as Hs. pose proof (ph_space _ _ H). pose proof (ph_base _ _ H).
  destruct (offset_range p o Ho Hs) as [? ?].
  assert (GetBufferPtr p o = base_addr_ p + o) as Eptr by (apply wrap_id; unfold is_u; lia).
  exists p', (buffer_at p o). rewrite E, Eptr. split; [done|].
  assert (Buffer.IsValid (buffer_at p o) = true) as ->.
  { unfold Buffer.IsValid. simpl. rewrite andb_true_iff, negb_true_iff, Z.eqb_neq, Z.ltb_lt. lia. }
  assert (pool_held p' (buffer_at p o :: (buffer_at p <$> os))) as Hp.
  { destruct Hp' as [->| ->]; constructor; try apply H; cbn [set_head set_tail count_ buffer_count_ buffer_size_];
      try lia; try exact Hptr; exists (o :: os); (split; [done|]);
      rewrite <- Permutation_middle; change (all_offsets _) with (all_offsets p);
      rewrite <- Hos, Hperm; done. }
  split_and!; [done|by exists o|by destruct Hp' as [->| ->]|lia|].
  intros b' x (o' & -> & Ho')%list_elem_of_fmap Hx.
  apply (buffers_disjoint p o' o); [rewrite <- Hos; set_solver|done| |done].
  intros ->. pose proof (all_offsets_NoDup p _ H) as Hnd. rewrite <- Hos, Hperm in Hnd.
  apply NoDup_cons in Hnd as [Hnd _]. set_solver.
Qed.

(** The position of [tail_] is outside the window when the pool is not full. *)
Lemma tail_outside p held :
  pool_held p held -> count_ p < buffer_count_ p ->
  0 <= tail_ p < buffer_count_ p /\ tail_ p ∉ window p
  /\ forall p', policy_ p' = policy_ p -> head_ p' = head_ p -> buffer_count_ p' = buffer_count_ p ->
       count_ p' = count_ p + 1 -> window p' = window p ++ [tail_ p].
Proof.
  intros H Hc. pose proof (ph_count _ _ H). pose proof (ph_bc _ _ H) as Hb.
  pose proof (ph_pointers _ _ H) as Hp. unfold pointers_ok, window in *. rewrite bool_decide_fifo in *.
  assert (Hm : forall x, 0 <= x mod buffer_count_ p < buffer_count_ p) by (intros; apply Z.mod_pos_bound; lia).
  destruct (policy_ p) eqn:Epol.
  2: { destruct Hp as [? ->]. split; [apply Hm|]. split.
    - intros (i & E & Hi%elem_of_seqZ)%list_elem_of_fmap. symmetry in E. revert E. apply ring_distinct; lia.
    - intros p' -> -> -> ->. rewrite bool_decide_fifo. rewrite seqZ_snoc, fmap_app by lia. done. }
  all: assert (tail_ p = count_ p) as -> by (destruct Hp as [->|[? ?]]; [rewrite Z.mod_small|]; lia);
    (split; [lia|]); split; [rewrite elem_of_seqZ; lia|];
    intros p' -> _ _ ->; rewrite bool_decide_fifo; apply seqZ_snoc; lia.
Qed.

(** Returning a held buffer. *)
Lemma Free_held p b held1 held2 :
  pool_held p (held1 ++ b :: held2) ->
  exists p', Free p b = Some p' /\ pool_held p' (held1 ++ held2) /\ count_ p' = count_ p + 1.
Proof.
  intros H. pose proof (free_length _ _ H) as Hlen. rewrite length_app in Hlen. simpl in Hlen.
  pose proof (ph_count _ _ H). pose proof (ph_bc _ _ H) as Hb. pose proof (ph_size _ _ H) as Hs.
  pose proof (ph_ring _ _ H) as Hr. pose proof (ph_space _ _ H). pose proof (ph_base _ _ H).
  pose proof (ph_pointers _ _ H) as Hptr.
  destruct (ph_part _ _ H) as (os & Eh & Hos). symmetry in Eh.
  apply fmap_app_inv in Eh as (os1 & os2' & -> & Eh2 & ->). symmetry in Eh2.
  apply fmap_cons_inv in Eh2 as (o & os2 & -> & -> & ->).
  assert (o ∈ all_offsets p) as Ho by (rewrite <- Hos; set_solver).
  destruct (offset_range p o Ho Hs) as [? ?].
  destruct (tail_outside p _ H) as (Ht & Hout & Hwin); [lia|].
  unfold Free. replace (u64 (Buffer.addr_ (buffer_at p o) - base_addr_ p)) with o
    by (simpl; symmetry; replace (base_addr_ p + o - base_addr_ p) with o by lia; apply wrap_id; unfold is_u; lia).
  rewrite aset_Some by lia. sbind. rewrite !(wrap_id 64) by (unfold is_u; lia).
  set (p' := set_tail _ _ _ _). exists p'. split; [done|]. split; [|done].
  assert (free_offsets p' = free_offsets p ++ [o]) as Hfree.
  { unfold free_offsets at 1. rewrite (Hwin p') by done. rewrite fmap_app. f_equal.
    - apply list_fmap_ext. intros i z Hz. subst p'. cbn [set_tail offset_ring_].
      rewrite aget_insert by lia. rewrite decide_False; [done|].
      intros <-. apply Hout. by eapply list_elem_of_lookup_2.
    - subst p'. cbn [fmap list_fmap set_tail offset_ring_]. rewrite aget_insert by lia.
      by rewrite decide_True. }
  constructor; subst p'; cbn [set_tail offset_ring_ count_ buffer_count_ buffer_size_ base_addr_]; try apply H.
  - by rewrite length_insert.
  - lia.
  - unfold pointers_ok in *. rewrite bool_decide_fifo in *. cbn [set_tail policy_ head_ tail_ count_ buffer_count_].
    destruct (policy_ p); [left|destruct Hptr as [? ->]; split; [lia|]|left].
    + destruct Hptr as [->|[? ?]]; [|lia]. by rewrite Zplus_mod_idemp_l.
    + rewrite Zplus_mod_idemp_l. f_equal. lia.
    + destruct Hptr as [->|[? ?]]; [|lia]. by rewrite Zplus_mod_idemp_l.
  - exists (os1 ++ os2). split; [by rewrite fmap_app|]. rewrite Hfree.
    change (all_offsets _) with (all_offsets p). rewrite <- Hos.
    rewrite <- !app_assoc. f_equiv. simpl. by rewrite Permutation_middle.
Qed.

Lemma Create_held allocate reg pd config memory mr :
  allocate (use_hugepage config) (numa_node config) (buffer_size config * buffer_count config) = memory ->
  reg memory (buffer_size config * buffer_count config) = RVal mr ->
  config_ok config memory -> policy config <> FIFO ->
  exists p, Create allocate reg true (Some pd) config = (RVal p, []) /\ pool_held p []
    /\ base_addr_ p = memory /\ buffer_count_ p = buffer_count config /\ buffer_size_ p = buffer_size config.
Proof.
  intros Ha Hr (Hs & Hc & Hmax & Hm & Hsp) Hpol. unfold Create.
  destruct (Z.ltb_spec (max_buffer_count config) (buffer_count config)); [lia|].
  destruct (Z.eqb_spec (buffer_size config) 0); [lia|].
  destruct (Z.eqb_spec (buffer_count config) 0); [lia|]. simpl orb. cbv iota zeta.
  rewrite (wrap_id 64) by (unfold is_u; nia). rewrite Ha.
  destruct (Z.eqb_spec memory 0); [lia|]. rewrite Hr. simpl negb. cbv iota.
  eexists. split; [done|]. split; [|done].
  constructor; cbn [offset_ring_ count_ buffer_count_ buffer_size_ base_addr_]; try lia.
  - rewrite length_fmap, length_seqZ. lia.
  - unfold pointers_ok. rewrite bool_decide_fifo. cbn [policy_ tail_ count_ buffer_count_].
    destruct (policy config); [by right|done|by right].
  - exists []. split; [done|]. rewrite app_nil_r. unfold free_offsets, window, all_offsets.
    rewrite bool_decide_fifo. cbn [policy_ offset_ring_ count_ buffer_count_ buffer_size_].
    replace (match policy config with FIFO => true | _ => false end) with false by (by destruct (policy config)).
    match goal with |- ?a ≡ₚ ?b => enough (a = b) as ->; [done|] end.
    apply list_fmap_ext. intros i z [Hz ?]%lookup_seqZ. rewrite Z.add_0_l in Hz. subst z.
    unfold aget. rewrite decide_True by lia. rewrite Nat2Z.id, list_lookup_fmap, lookup_seqZ_lt by lia.
    simpl. rewrite wrap_id; [done|]. unfold is_u. nia.
Qed.

Lemma Allocate_source p held :
  pool_held p held ->
  exists p' b, Allocate p = Some (p', b)
    /\ (if Buffer.IsValid b
        then pool_held p' (b :: held) /\ (forall b' x, b' ∈ held -> covers b' x -> ~ covers b x)
        else p' = p).
Proof.
  intros H. destruct (Allocate_held p held H) as (p' & b & E & Hb).
  exists p', b. split; [done|]. destruct (Buffer.IsValid b); [|apply Hb].
  by destruct Hb as (? & _ & _ & _ & ?).
Qed.

Lemma Free_source p b held1 held2 :
  pool_held p (held1 ++ b :: held2) ->
  exists p', Free p b = Some p' /\ pool_held p' (held1 ++ held2).
Proof. intros H. destruct (Free_held p b held1 held2 H) as (p' & ? & ? & _). eauto. Qed.

Lemma pool_step_held p held o :
  pool_held p held -> exists p' held', pool_step (p, held) o = Some (p', held') /\ pool_held p' held'.
Proof.
  intros H. destruct o as [|k]; cbn [pool_step fst snd].
  - destruct (Allocate_source p held H) as (p' & b & -> & Hb). sbind. do 2 eexists. split; [done|].
    destruct (Buffer.IsValid b); [apply Hb|by rewrite Hb].
  - destruct (held !! k) as [b|] eqn:E; [|eauto].
    rewrite <- (take_drop_middle held k b E) in H.
    destruct (Free_source p b _ _ H) as (p' & -> & Hp). sbind. do 2 eexists. split; [done|].
    by rewrite delete_take_drop.
Qed.

Lemma pool_run_held p held os :
  pool_held p held -> exists p' held', pool_run (p, held) os = Some (p', held') /\ pool_held p' held'.
Proof.
  revert p held. induction os as [|o os IH]; intros p held H; cbn [pool_run]; [eauto|].
  destruct (pool_step_held p held o H) as (p' & held' & -> & H'). sbind. by apply IH.
Qed.

Lemma held_disjoint p held : pool_held p held ->
  forall i j b1 b2 x, held !! i = Some b1 -> held !! j = Some b2 -> i <> j ->
    covers b1 x -> ~ covers b2 x.
Proof.
  intros H i j b1 b2 x. destruct (ph_part _ _ H) as (os & -> & Hos).
  rewrite !list_lookup_fmap. intros (o1 & Ho1 & ->)%fmap_Some (o2 & Ho2 & ->)%fmap_Some Hij.
  pose proof (all_offsets_NoDup p _ H) as Hnd. rewrite <- Hos in Hnd.
  apply NoDup_app in Hnd as (_ & _ & Hnd).
  apply buffers_disjoint.
  - rewrite <- Hos. apply elem_of_app. right. by eapply list_elem_of_lookup_2.
  - rewrite <- Hos. apply elem_of_app. right. by eapply list_elem_of_lookup_2.
  - intros <-. apply Hij. by eapply NoDup_lookup.
Qed.

Lemma held_inside p held b : pool_held p held -> b ∈ held ->
  Buffer.length_ b = buffer_size_ p /\ forall x, covers b x ->
    base_addr_ p <= x < base_addr_ p + buffer_count_ p * buffer_size_ p.
Proof.
  intros H Hb. destruct (ph_part _ _ H) as (os & -> & Hos).
  apply list_elem_of_fmap in Hb as (o & -> & Ho). split; [done|]. intros x Hx.
  destruct (offset_range p o) as [? ?]; [rewrite <- Hos; set_solver|apply H|].
  unfold covers in Hx. simpl in Hx. lia.
Qed.

Lemma pool_step_frame p held o p' held' :
  pool_step (p, held) o = Some (p', held') ->
  base_addr_ p' = base_addr_ p /\ buffer_count_ p' = buffer_count_ p /\ buffer_size_ p' = buffer_size_ p.
Proof.
  destruct o as [|k]; cbn [pool_step fst snd].
  - unfold Allocate. case_match; [by intros [= <- <-]|]. case_match; sbind.
    + destruct (aget _ _); [|done]. by intros [= <- <-].
    + destruct (aget _ _); [|done]. by intros [= <- <-].
  - case_match; [|by intros [= <- <-]]. unfold Free. destruct (aset _ _ _); [|done]. by intros [= <- <-].
Qed.

Lemma pool_run_frame p held os p' held' :
  pool_run (p, held) os = Some (p', held') ->
  base_addr_ p' = base_addr_ p /\ buffer_count_ p' = buffer_count_ p /\ buffer_size_ p' = buffer_size_ p.
Proof.
  revert p held. induction os as [|o os IH]; intros p held; cbn [pool_run]; [by intros [= <- <-]|].
  destruct (pool_step (p, held) o) as [[p1 held1]|] eqn:E; [|done]. sbind. intros Hr.
  apply pool_step_frame in E as (<- & <- & <-). by eapply IH.
Qed.

(** In FIFO mode an allocation does not move the tail. *)
Lemma fifo_allocate_tail p :
  policy_ p = FIFO -> 0 < count_ p -> 0 <= head_ p < Z.of_nat (length (offset_ring_ p)) ->
  exists p' b, Allocate p = Some (p', b) /\ tail_ p' = tail_ p /\ policy_ p' = FIFO
    /\ offset_ring_ p' = offset_ring_ p /\ count_ p' = count_ p - 1
    /\ buffer_count_ p' = buffer_count_ p /\ head_ p' = u64 (head_ p + 1) mod buffer_count_ p.
Proof.
  intros Hpol Hc Hh. unfold Allocate. destruct (Z.eqb_spec (count_ p) 0); [lia|].
  rewrite Hpol. simpl bool_decide. cbv iota.
  destruct (aget_is_Some (offset_ring_ p) (head_ p) Hh) as [o ->]. sbind. eauto 10.
Qed.

(** *** Pools only allocated from *)

Lemma taken_0 p : fresh_pool p -> taken p 0 = p.
Proof.
  intros H. unfold taken, set_head. rewrite Z.sub_0_r, Zmod_0_l, <- (fp_head _ H). by destruct p.
Qed.

Lemma taken_allocate p k : fresh_pool p -> 0 <= k < buffer_count_ p ->
  Allocate (taken p k) = Some (taken p (k + 1), buffer_at p (k * buffer_size_ p)).
Proof.
  intros H Hk. pose proof (fp_buffers _ H). pose proof (fp_size _ H). pose proof (fp_space _ H). pose proof (fp_base _ H).
  pose proof (fp_count _ H) as Hc. unfold Allocate, taken, set_head.
  cbn [count_ policy_ offset_ring_ head_
       buffer_count_ buffer_size_ lkey_].
  destruct (Z.eqb_spec (count_ p - k) 0); [lia|]. rewrite bool_decide_true by apply H.
  rewrite (Z.mod_small k) by lia. rewrite (fp_ring _ H). unfold aget. rewrite decide_True by lia.
  rewrite list_lookup_fmap, lookup_seqZ_lt, Z2Nat.id by lia. cbn [fmap option_fmap option_map mbind option_bind].
  rewrite (wrap_id 64 (k + 1)) by (unfold is_u; lia).
  unfold GetBufferPtr, buffer_at. cbn [base_addr_].
  rewrite Z.add_0_l, (wrap_id 64 (_ + k * _)) by (unfold is_u; nia). by rewrite Z.sub_add_distr.
Qed.

Lemma taken_empty p : fresh_pool p ->
  Allocate (taken p (buffer_count_ p))
  = Some (taken p (buffer_count_ p), Buffer.Buffer_default).
Proof.
  intros H. unfold Allocate, taken, set_head. cbn [count_].
  by rewrite (fp_count _ H), Z.sub_diag.
Qed.

Lemma taken_valid p k : fresh_pool p -> 0 <= k < buffer_count_ p ->
  Buffer.IsValid (buffer_at p (k * buffer_size_ p)) = true.
Proof.
  intros H Hk. pose proof (fp_base _ H). pose proof (fp_size _ H). unfold Buffer.IsValid, buffer_at.
  cbn [Buffer.addr_ Buffer.length_]. apply andb_true_intro. split; [|by apply Z.ltb_lt].
  apply negb_true_iff, Z.eqb_neq. nia.
Qed.

Lemma taken_apart p i j x : fresh_pool p -> i <> j ->
  covers (buffer_at p (i * buffer_size_ p)) x -> ~ covers (buffer_at p (j * buffer_size_ p)) x.
Proof.
  intros H Hij. pose proof (fp_size _ H). unfold covers, buffer_at. cbn [Buffer.addr_ Buffer.length_].
  destruct (Z.lt_total i j) as [?|[?|?]]; nia.
Qed.

Lemma Create_fresh allocate reg config memory mr :
  allocate (use_hugepage config) (numa_node config) (buffer_size config * buffer_count config) = memory ->
  reg memory (buffer_size config * buffer_count config) = RVal mr ->
  config_ok config memory -> policy config = FIFO ->
  exists p, Create allocate reg true (Some tt) config = (RVal p, []) /\ fresh_pool p
    /\ buffer_size_ p = buffer_size config /\ buffer_count_ p = buffer_count config.
Proof.
  intros Ha Hr (Hs & Hc & Hmax & Hm & Hsp) Hpol. unfold Create.
  destruct (Z.ltb_spec (max_buffer_count config) (buffer_count config)); [lia|].
  destruct (Z.eqb_spec (buffer_size config) 0); [lia|].
  destruct (Z.eqb_spec (buffer_count config) 0); [lia|]. simpl orb. cbv iota zeta.
  rewrite (wrap_id 64) by (unfold is_u; nia). rewrite Ha.
  destruct (Z.eqb_spec memory 0); [lia|]. rewrite Hr. simpl negb. cbv iota.
  eexists. split; [done|]. split; [|done].
  constructor; cbn [policy_ offset_ring_ head_ count_ buffer_count_ buffer_size_ base_addr_]; try done.
  apply list_fmap_ext. intros i z [Hz ?]%lookup_seqZ. apply wrap_id. unfold is_u. nia.
Qed.

Lemma Create_fifo allocate reg pd config memory mr :
  allocate (use_hugepage config) (numa_node config) (buffer_size config * buffer_count config) = memory ->
  reg memory (buffer_size config * buffer_count config) = RVal mr ->
  config_ok config memory -> policy config = FIFO ->
  exists p, Create allocate reg true (Some pd) config = (RVal p, [])
    /\ Z.of_nat (length (offset_ring_ p)) = buffer_count config /\ tail_ p = buffer_count config
    /\ head_ p = 0 /\ count_ p = buffer_count config /\ buffer_count_ p = buffer_count config
    /\ policy_ p = FIFO.
Proof.
  intros Ha Hr Hok Hpol. destruct pd. destruct (Create_fresh allocate reg config memory mr Ha Hr Hok Hpol) as (p & E & H & _ & Hn).
  exists p. split; [done|]. destruct Hok as (_ & Hc & _). destruct H as [Hp Hring Hh Hcount Htail _ _ _ _].
  split_and!; try congruence. rewrite Hring, length_fmap, length_seqZ. lia.
Qed.

Lemma held_wf p held b :
  pool_held p held -> b ∈ held -> buffer_wf b /\ Buffer.length_ b = buffer_size_ p.
Proof.
  intros H Hb. destruct (ph_part _ _ H) as (os & -> & Hos).
  apply list_elem_of_fmap in Hb as (o & -> & Ho). split; [|done].
  destruct (offset_range p o) as [? ?]; [rewrite <- Hos; set_solver|apply H|].
  pose proof (ph_base _ _ H). pose proof (ph_size _ _ H). pose proof (ph_space _ _ H).
  unfold buffer_wf. simpl. lia.
Qed.

Lemma held_apart p b held1 held2 b' x :
  pool_held p (held1 ++ b :: held2) -> b' ∈ held1 ++ held2 -> covers b x -> ~ covers b' x.
Proof.
  intros H Hb'. assert (exists j, (held1 ++ b :: held2) !! j = Some b' /\ length held1 <> j) as (j & Hj & Hne).
  { apply elem_of_app in Hb' as [[j Hj]%list_elem_of_lookup|[j Hj]%list_elem_of_lookup].
    - exists j. pose proof (lookup_lt_Some _ _ _ Hj). rewrite lookup_app_l by done. split; [done|lia].
    - exists (length held1 + S j)%nat. rewrite lookup_app_r by lia. split; [|lia].
      by replace (length held1 + S j - length held1)%nat with (S j) by lia. }
  apply (held_disjoint p _ H (length held1) j); [|done|done].
  by rewrite list_lookup_middle.
Qed.

Lemma Allocate_size p p' b : Allocate p = Some (p', b) -> buffer_size_ p' = buffer_size_ p.
Proof.
  intros E. destruct (pool_step_frame p [] PAllocate p' (if Buffer.IsValid b then [b] else [])) as (_ & _ & ?); [|done].
  cbn [pool_step fst snd]. by rewrite E.
Qed.

Lemma Allocate_capacity p p' b : Allocate p = Some (p', b) -> buffer_count_ p' = buffer_count_ p.
Proof.
  intros E. destruct (pool_step_frame p [] PAllocate p' (if Buffer.IsValid b then [b] else [])) as (_ & ? & _); [|done].
  cbn [pool_step fst snd]. by rewrite E.
Qed.

Lemma Free_capacity p b p' : Free p b = Some p' -> buffer_count_ p' = buffer_count_ p.
Proof.
  intros E. destruct (pool_step_frame p [b] (PFree 0) p' []) as (_ & ? & _); [|done].
  cbn. by rewrite E.
Qed.

Lemma held_length p held : pool_held p held -> Z.of_nat (length held) <= buffer_count_ p.
Proof. intros H. pose proof (free_length p held H). pose proof (ph_count _ _ H). lia. Qed.

Lemma Free_size p b p' : Free p b = Some p' -> buffer_size_ p' = buffer_size_ p.
Proof.
  intros E. destruct (pool_step_frame p [b] (PFree 0) p' []) as (_ & _ & ?); [|done].
  cbn. by rewrite E.
Qed.

End lemmas.

(** The ring pool is a buffer source. *)
#[export] Instance LocalBufferPool_source : BufferSource LocalBufferPool.LocalBufferPool := {|
  bs_allocate := LocalBufferPool.Allocate;
  bs_free := LocalBufferPool.Free;
  bs_held := pool_held;
  bs_allocate_spec := Allocate_source;
  bs_free_spec := Free_source;
  bs_size := LocalBufferPool.buffer_size_;
  bs_held_wf := held_wf;
  bs_held_disjoint := held_apart;
  bs_size_allocate := Allocate_size;
  bs_size_free := Free_size;
  bs_capacity := LocalBufferPool.buffer_count_;
  bs_held_length := held_length;
  bs_capacity_allocate := Allocate_capacity;
  bs_capacity_free := Free_capacity;
|}.

(** *** Factories *)

Section factories.
Import LocalBufferPool.

Lemma lifo_pool_made allocate reg config memory mr :
  allocate (use_hugepage config) (numa_node config) (buffer_size config * buffer_count config) = memory ->
  reg memory (buffer_size config * buffer_count config) = RVal mr -> config_ok config memory ->
  exists p, lifo_pool allocate reg config = RVal p /\ pool_held p [] /\ buffer_size_ p = buffer_size config
    /\ buffer_count_ p = buffer_count config.
Proof.
  intros Ha Hr Hok. destruct (Create_held allocate reg tt (with_policy LIFO config) memory mr Ha Hr Hok)
    as (p & E & Hp & _ & Hn & Hs); [done|]. exists p. unfold lifo_pool, ring_pool. by rewrite E.
Qed.

(** The LIFO policy gives working pools. *)
Lemma lifo_pool_works allocate reg config memory mr :
  allocate (use_hugepage config) (numa_node config) (buffer_size config * buffer_count config) = memory ->
  reg memory (buffer_size config * buffer_count config) = RVal mr -> config_ok config memory ->
  buffer_size config < 2 ^ 32 -> working_pool (lifo_pool allocate reg) config.
Proof.
  intros Ha Hr Hok Hs p E. destruct (lifo_pool_made allocate reg config memory mr Ha Hr Hok) as (p' & E' & Hp & Hs' & _).
  rewrite E in E'. injection E' as <-. split; [exact Hp|]. cbn [bs_size LocalBufferPool_source]. rewrite Hs'. lia.
Qed.

Lemma has_buffers_le {T} `{!BufferSource T} size n k (s : T) : (k <= n)%nat -> has_buffers size n s -> has_buffers size k s.
Proof.
  revert k s. induction n as [|n IH]; intros [|k] s Hk; cbn [has_buffers]; try done; [lia|].
  intros (s' & b & E & Hv & Hl & H). exists s', b. split_and!; [done..|]. apply IH; [lia|done].
Qed.

Lemma taken_has_buffers p k n :
  fresh_pool p -> 0 <= k -> k + Z.of_nat n <= buffer_count_ p -> has_buffers (buffer_size_ p) n (taken p k).
Proof.
  intros H. revert k. induction n as [|n IH]; intros k Hk Hn; cbn [has_buffers]; [done|].
  exists (taken p (k + 1)), (buffer_at p (k * buffer_size_ p)). split; [apply taken_allocate; [done|lia]|].
  split; [apply taken_valid; [done|lia]|]. split; [done|]. apply IH; lia.
Qed.

Lemma fresh_has_buffers p n : fresh_pool p -> Z.of_nat n <= buffer_count_ p -> has_buffers (buffer_size_ p) n p.
Proof. intros H Hn. rewrite <- (taken_0 p H) at 2. by apply taken_has_buffers. Qed.

End factories.

(** ** Properties *)

Section properties.
Import LocalBufferPool.

(** C22: A pool created with the LIFO policy, whose size in bytes does not wrap and
    whose block lies below [2^64], hands out each buffer to one client at a time:
    after any sequence of allocations and frees of held buffers the ring has not
    been left, the held buffers are pairwise disjoint pieces of [buffer_size]
    bytes of the registered block, free and held buffers add up to
    [buffer_count], and an allocation fails only when all are held. *)
Theorem lifo_pool_exclusive allocate reg pd config memory mr (os : list PoolOp) :
  allocate (use_hugepage config) (numa_node config) (buffer_size config * buffer_count config) = memory ->
  reg memory (buffer_size config * buffer_count config) = RVal mr ->
  config_ok config memory -> policy config <> FIFO ->
  exists p0 p held, Create allocate reg true (Some pd) config = (RVal p0, [])
    /\ pool_run (p0, []) os = Some (p, held)
    /\ (forall i j b1 b2 x, held !! i = Some b1 -> held !! j = Some b2 -> i <> j ->
          covers b1 x -> ~ covers b2 x)
    /\ (forall b, b ∈ held -> Buffer.length_ b = buffer_size config /\
          forall x, covers b x -> memory <= x < memory + buffer_count config * buffer_size config)
    /\ AvailableCount p + Z.of_nat (length held) = buffer_count config
    /\ exists p' b, Allocate p = Some (p', b)
         /\ (Buffer.IsValid b = false <-> Z.of_nat (length held) = buffer_count config).
Proof.
  intros Ha Hr Hok Hpol.
  destruct (Create_held allocate reg pd config memory mr Ha Hr Hok Hpol) as (p0 & E & H0 & Eb0 & Ec0 & Es0).
  destruct (pool_run_held p0 [] os H0) as (p & held & Erun & Hp).
  assert (base_addr_ p = memory /\ buffer_count_ p = buffer_count config
          /\ buffer_size_ p = buffer_size config) as (Eb & Ec & Es).
  { by destruct (pool_run_frame _ _ _ _ _ Erun) as (-> & -> & ->). }
  exists p0, p, held. split; [exact E|]. split; [exact Erun|].
  split; [by apply (held_disjoint p)|]. split.
  { intros b Hb. rewrite <- Eb, <- Ec, <- Es. by apply (held_inside p held b). }
  pose proof (free_length p held Hp) as Hl. rewrite Ec in Hl. split; [exact Hl|].
  destruct (Allocate_held p held Hp) as (p' & b & EA & Hb). exists p', b. split; [exact EA|].
  destruct (Buffer.IsValid b); split; try done.
  - intros Hfull. lia.
  - intros _. lia.
Qed.

Lemma lifo_pool_exclusive_witness :
  exists p0 p held, Create example_allocate example_register true (Some tt) (example_config LIFO) = (RVal p0, [])
    /\ pool_run (p0, []) [PAllocate; PAllocate; PFree 1; PAllocate; PAllocate; PAllocate] = Some (p, held)
    /\ length held = 3%nat.
Proof.
  destruct (lifo_pool_exclusive example_allocate example_register tt (example_config LIFO) 8192
    {| MemoryRegion.mr_ := Some (7, 8); MemoryRegion.addr_ := 8192; MemoryRegion.size_ := 12288 |}
    [PAllocate; PAllocate; PFree 1; PAllocate; PAllocate; PAllocate])
    as (p0 & p & held & E & Er & _); [reflexivity|reflexivity| |discriminate|].
  { unfold config_ok. simpl. lia. }
  exists p0, p, held. split; [exact E|]. split; [exact Er|].
  vm_compute in E. injection E as <-. vm_compute in Er. injection Er as _ <-. reflexivity.
Defined.

(** The default (FIFO) policy leaves the ring on the first free: [Create]
    sets [tail_] one past the last element, allocations do not move it, and so
    after any number of allocations from a fresh pool the first [Free], of any
    buffer, writes outside [offset_ring_]. *)
Theorem fifo_first_free_undefined allocate reg pd config memory mr (k : nat) (buf : Buffer) :
  allocate (use_hugepage config) (numa_node config) (buffer_size config * buffer_count config) = memory ->
  reg memory (buffer_size config * buffer_count config) = RVal mr ->
  config_ok config memory -> policy config = FIFO -> Z.of_nat k <= buffer_count config ->
  exists p0 p held, Create allocate reg true (Some pd) config = (RVal p0, [])
    /\ pool_run (p0, []) (replicate k PAllocate) = Some (p, held)
    /\ count_ p = buffer_count config - Z.of_nat k
    /\ Free p buf = None.
Proof.
  intros Ha Hr Hok Hpol Hk.
  destruct (Create_fifo allocate reg pd config memory mr Ha Hr Hok Hpol)
    as (p0 & E & Hring & Ht & Hh & Hc & Hbc & Hp). destruct Hok as (_ & Hn & _).
  assert (Hrun : forall j p held, policy_ p = FIFO -> Z.of_nat j <= count_ p ->
    0 <= head_ p < buffer_count config -> buffer_count_ p = buffer_count config ->
    Z.of_nat (length (offset_ring_ p)) = buffer_count config -> tail_ p = buffer_count config ->
    exists p' held', pool_run (p, held) (replicate j PAllocate) = Some (p', held')
      /\ count_ p' = count_ p - Z.of_nat j
      /\ Z.of_nat (length (offset_ring_ p')) = buffer_count config /\ tail_ p' = buffer_count config).
  { clear -Hn. induction j as [|j IH]; intros p held Hp Hj Hh Hbc Hring Ht.
    { exists p, held. split_and!; [done|lia|done|done]. }
    destruct (fifo_allocate_tail p) as (p1 & b & E1 & Ht1 & Hp1 & Hr1 & Hc1 & Hb1 & Hh1); [done|lia|lia|].
    cbn [replicate pool_run pool_step fst snd]. rewrite E1. sbind.
    destruct (IH p1 (if Buffer.IsValid b then b :: held else held)) as (p' & held' & E' & Hc' & Hr' & Ht');
      [done|lia| |lia|by rewrite Hr1|lia|].
    { rewrite Hh1, Hbc. apply Z.mod_pos_bound. lia. }
    exists p', held'. split_and!; [done|lia|done|done]. }
  destruct (Hrun k p0 []) as (p & held & Er & Hcp & Hrp & Htp); [done|lia|lia|done|lia|done|].
  exists p0, p, held. split_and!; [done|done|lia|].
  unfold Free. by rewrite aset_None by lia.
Qed.

Lemma fifo_first_free_undefined_witness :
  exists p0 p held, Create example_allocate example_register true (Some tt) (example_config FIFO) = (RVal p0, [])
    /\ pool_run (p0, []) (replicate 2 PAllocate) = Some (p, held) /\ Free p (nth 0 held Buffer.Buffer_default) = None.
Proof.
  destruct (fifo_first_free_undefined example_allocate example_register tt (example_config FIFO) 8192
    {| MemoryRegion.mr_ := Some (7, 8); MemoryRegion.addr_ := 8192; MemoryRegion.size_ := 12288 |}
    2 {| Buffer.addr_ := 12288; Buffer.length_ := 4096; Buffer.lkey_ := 7 |})
    as (p0 & p & held & E & Er & _ & Ef); [reflexivity|reflexivity| |reflexivity|simpl; lia|].
  { unfold config_ok. simpl. lia. }
  exists p0, p, held. split; [exact E|]. split; [exact Er|].
  vm_compute in E. injection E as <-. vm_compute in Er. injection Er as <- <-. exact Ef.
Defined.

(** The ring itself is right for both policies: from any state whose
    pointers delimit the window of free offsets - a FIFO pool whose tail was
    reduced modulo the count, or a stack - no sequence of allocations and frees
    leaves the ring, and the state stays well formed with exactly the held
    buffers missing from the window. *)
Theorem ring_invariant_preserved p held (os : list PoolOp) :
  pool_held p held ->
  exists p' held', pool_run (p, held) os = Some (p', held') /\ pool_held p' held'
    /\ AvailableCount p' + Z.of_nat (length held') = AvailableCount p + Z.of_nat (length held).
Proof.
  intros H. destruct (pool_run_held p held os H) as (p' & held' & E & H').
  exists p', held'. split_and!; [done..|]. unfold AvailableCount.
  rewrite (free_length p' held' H'), (free_length p held H).
  by destruct (pool_run_frame _ _ _ _ _ E) as (_ & -> & _).
Qed.

Lemma reduced_fifo_held : pool_held reduced_fifo [].
Proof.
  constructor; try (simpl; lia).
  - vm_compute. split; [split; [discriminate|reflexivity]|reflexivity].
  - exists []. split; [done|]. vm_compute. reflexivity.
Qed.

Lemma ring_invariant_preserved_witness :
  exists p' held', pool_run (reduced_fifo, []) [PAllocate; PAllocate; PFree 0; PAllocate; PAllocate]
                   = Some (p', held') /\ pool_held p' held'.
Proof.
  destruct (ring_invariant_preserved reduced_fifo [] [PAllocate; PAllocate; PFree 0; PAllocate; PAllocate]
    reduced_fifo_held) as (p' & held' & E & H & _). exists p', held'. split; [exact E|exact H].
Defined.

(** [Create] releases what it took on every error path and nothing on
    success: a failed creation has freed the memory block exactly when the
    allocator had given one, and has deregistered the region exactly when the
    registration had succeeded. *)
Theorem Create_releases allocate reg ring pd config :
  match Create allocate reg ring pd config with
  | (RVal p, evs) => evs = [] /\ ring = true /\ base_addr_ p <> 0
  | (RErr _, evs) =>
      let total := u64 (buffer_size config * buffer_count config) in
      let memory := allocate (use_hugepage config) (numa_node config) total in
      evs = []
      \/ (memory <> 0 /\ evs = EFreeMemory memory total
                           :: (match reg memory total with RVal _ => [EDeregister] | RErr _ => [] end))
  end.
Proof.
  unfold Create, destroy. destruct pd; [|by left].
  destruct (max_buffer_count config <? buffer_count config); [by left|].
  destruct ((buffer_size config =? 0) || (buffer_count config =? 0)); [by left|].
  cbv zeta. set (total := u64 (buffer_size config * buffer_count config)).
  set (memory := allocate (use_hugepage config) (numa_node config) total).
  destruct (Z.eqb_spec memory 0) as [|Hm]; [by left|].
  destruct (reg memory total) as [mr|s]; [destruct ring|by right].
  - done.
  - right. by destruct (Z.eqb_spec memory 0).
Qed.

End properties.
