(* ===== verification/Allocator.v ===== *)
(** * Memory for buffer pools

    Models [include/rdma/memory/memory_allocator.h], [hugepage_allocator.h] and
    [src/memory/hugepage_allocator.cpp]. [None] is undefined behaviour. *)

From S2P Require Import Prelude Types Buffer BufferPool.

(** The calls. [mappings] holds the address, the length and the kind of each
    mapping, [heap] the blocks of [aligned_alloc]. A mapping is a whole number of
    pages; unmapping huge pages takes a length that is a multiple of their size,
    and fails otherwise. A null address stands for [MAP_FAILED]. *)
Class SystemMemory (OS : Type) := {
  mappings : OS -> gmap Z (Z * bool);
  heap : OS -> gmap Z Z;
  sys_mmap : OS -> bool -> Z -> OS * Z;
  sys_munmap : OS -> Z -> Z -> OS;
  sys_mbind : OS -> Z -> Z -> Z -> Z -> OS * Z;
  numa_available : OS -> Z;
  c_aligned_alloc : OS -> Z -> Z -> OS * Z;
  c_free : OS -> Z -> OS;
  page_size : bool -> Z;
  page_size_pos huge : 0 < page_size huge;
  mmap_law os huge size : let '(os', p) := sys_mmap os huge size in
    heap os' = heap os
    /\ if decide (p = 0) then mappings os' = mappings os
       else 0 < size /\ mappings os !! p = None
            /\ mappings os' = <[p := ((size + page_size huge - 1) / page_size huge * page_size huge, huge)]> (mappings os);
  munmap_law os p size len huge : mappings os !! p = Some (len, huge) ->
    heap (sys_munmap os p size) = heap os
    /\ (huge = true -> size mod page_size true <> 0 -> mappings (sys_munmap os p size) = mappings os)
    /\ ((huge = true -> size mod page_size true = 0) ->
        (size + page_size huge - 1) / page_size huge * page_size huge = len ->
        mappings (sys_munmap os p size) = delete p (mappings os));
  mbind_law os p size mask max : mappings (sys_mbind os p size mask max).1 = mappings os
                                 /\ heap (sys_mbind os p size mask max).1 = heap os;
  aligned_alloc_law os al size : let '(os', p) := c_aligned_alloc os al size in
    mappings os' = mappings os
    /\ if decide (p = 0) then heap os' = heap os
       else heap os !! p = None /\ heap os' = <[p := size]> (heap os);
  free_law os p : is_Some (heap os !! p) ->
    mappings (c_free os p) = mappings os /\ heap (c_free os p) = delete p (heap os);
}.

Module HugepageAllocator.

Record HugepageAllocator := { numa_node_ : Z; use_1gb_pages_ : bool }.

Definition HugepageAllocator_new (numa_node : Z) : HugepageAllocator :=
  {| numa_node_ := numa_node; use_1gb_pages_ := false |}.

Definition GetNumaNode (a : HugepageAllocator) : Z := numa_node_ a.

Section calls.
Context {OS : Type} `{!SystemMemory OS}.

(** [numa] says whether [RDMA_HAS_NUMA] is defined. The failure of [mbind] is
    only logged; the shift of the mask is undefined from bit 64 on. *)
Definition Allocate (numa : bool) (os : OS) (a : HugepageAllocator) (size alignment : Z) : option (OS * Z) :=
  let '(os, ptr) := sys_mmap os true size in
  let '(os, ptr) := if ptr =? 0 then sys_mmap os false size else (os, ptr) in
  if ptr =? 0 then Some (os, 0)
  else if numa && (0 <=? numa_node_ a) && (0 <=? numa_available os) then
    if numa_node_ a <? 64
    then Some ((sys_mbind os ptr size (u64 (Z.shiftl 1 (numa_node_ a))) 64).1, ptr)
    else None
  else Some (os, ptr).

Definition Free (os : OS) (ptr size : Z) : OS := if negb (ptr =? 0) then sys_munmap os ptr size else os.

End calls.

End HugepageAllocator.

Module DefaultAllocator.
Section calls.
Context {OS : Type} `{!SystemMemory OS}.

Definition Allocate (os : OS) (size alignment : Z) : OS * Z := c_aligned_alloc os alignment size.

(** [free] of a null pointer does nothing, of a pointer that is no block it is
    undefined. *)
Definition Free (os : OS) (ptr size : Z) : option OS :=
  if ptr =? 0 then Some os
  else if decide (is_Some (heap os !! ptr)) then Some (c_free os ptr) else None.

End calls.
End DefaultAllocator.

(** The classes behind the interface [MemoryAllocator]; a virtual call goes to
    the object's class. *)
Module MemoryAllocator.
Section calls.
Context {OS : Type} `{!SystemMemory OS}.

Inductive MemoryAllocator := Default | Hugepage (a : HugepageAllocator.HugepageAllocator).

Definition Allocate (numa : bool) (os : OS) (a : MemoryAllocator) (size alignment : Z) : option (OS * Z) :=
  match a with
  | Default => Some (DefaultAllocator.Allocate os size alignment)
  | Hugepage a => HugepageAllocator.Allocate numa os a size alignment
  end.

Definition Free (os : OS) (a : MemoryAllocator) (ptr size : Z) : option OS :=
  match a with
  | Default => DefaultAllocator.Free os ptr size
  | Hugepage _ => Some (HugepageAllocator.Free os ptr size)
  end.

(** The allocator [LocalBufferPool::Create] selects. *)
Definition select (config : LocalBufferPool.BufferPoolConfig) : MemoryAllocator :=
  if LocalBufferPool.use_hugepage config
  then Hugepage (HugepageAllocator.HugepageAllocator_new (LocalBufferPool.numa_node config))
  else Default.

End calls.
End MemoryAllocator.

(** ** Lemmas *)

Section lemmas.
Context {OS : Type} `{!SystemMemory OS}.
Implicit Types (os : OS).

Definition pages (huge : bool) (size : Z) : Z := (size + page_size huge - 1) / page_size huge * page_size huge.

Lemma hugepage_Allocate_spec numa os a size alignment os' p :
  HugepageAllocator.Allocate numa os a size alignment = Some (os', p) ->
  heap os' = heap os
  /\ if decide (p = 0) then mappings os' = mappings os
     else exists huge, mappings os !! p = None /\ mappings os' = <[p := (pages huge size, huge)]> (mappings os).
Proof.
  unfold HugepageAllocator.Allocate. pose proof (mmap_law os true size) as H1.
  destruct (sys_mmap os true size) as [os1 p1]. destruct H1 as [Hh1 H1].
  set (q := if p1 =? 0 then _ else _).
  assert (Hq : heap q.1 = heap os /\ if decide (q.2 = 0) then mappings q.1 = mappings os
     else exists huge, mappings os !! q.2 = None /\ mappings q.1 = <[q.2 := (pages huge size, huge)]> (mappings os)).
  { subst q. destruct (Z.eqb_spec p1 0) as [Hz|Hz].
    - rewrite decide_True in H1 by done. pose proof (mmap_law os1 false size) as H2.
      destruct (sys_mmap os1 false size) as [os2 p2]. destruct H2 as [Hh2 H2]. cbn [fst snd].
      rewrite Hh2, Hh1. split; [done|]. rewrite H1 in H2. case_decide; [done|]. destruct H2 as (_ & Hf & ->). by exists false.
    - rewrite decide_False in H1 by done. cbn [fst snd]. split; [done|]. rewrite decide_False by done.
      destruct H1 as (_ & Hf & ->). by exists true. }
  destruct q as [os2 p2]. cbn [fst snd] in Hq. destruct Hq as [Hh Hm]. destruct (Z.eqb_spec p2 0) as [Hz|Hz].
  { intros [= <- <-]. rewrite decide_True in Hm by done. by rewrite decide_True. }
  assert (Hend : forall o, mappings o = mappings os2 /\ heap o = heap os2 -> Some (o, p2) = Some (os', p) ->
    heap os' = heap os /\ if decide (p = 0) then mappings os' = mappings os
     else exists huge, mappings os !! p = None /\ mappings os' = <[p := (pages huge size, huge)]> (mappings os)).
  { intros o [E1 E2] [= <- <-]. by rewrite E1, E2. }
  destruct (_ && _); [|by apply Hend]. destruct (_ <? 64); [|done]. apply Hend, mbind_law.
Qed.

End lemmas.

(** ** Properties *)

Section properties.

(** C40: An allocator's [Free] gives back what its [Allocate] took, the default one
    always. The huge-page one does when the size is a multiple of the huge page,
    or when it fell back to regular pages; on huge pages any other size is a
    mapping that [Free] leaves in place. *)
Theorem allocators_give_back {OS} `{!SystemMemory OS} numa (os : OS) a size alignment os' p :
  MemoryAllocator.Allocate numa os a size alignment = Some (os', p) -> p <> 0 ->
  exists os'', MemoryAllocator.Free os' a p size = Some os''
    /\ heap os'' = heap os
    /\ match a with
       | MemoryAllocator.Default => mappings os'' = mappings os
       | MemoryAllocator.Hugepage _ =>
           exists len huge, mappings os !! p = None /\ mappings os' !! p = Some (len, huge)
             /\ mappings os'' = if decide (huge = true /\ size mod page_size true <> 0)
                                then <[p := (len, huge)]> (mappings os) else mappings os
       end.
Proof.
  intros E Hp. destruct a as [|a]; cbn [MemoryAllocator.Allocate MemoryAllocator.Free] in *.
  - apply (inj Some) in E. unfold DefaultAllocator.Allocate in E. pose proof (aligned_alloc_law os alignment size) as H.
    rewrite E, decide_False in H by done. destruct H as (Hm & Hf & Hh). unfold DefaultAllocator.Free.
    rewrite (proj2 (Z.eqb_neq _ _)) by done. rewrite decide_True by (rewrite Hh, lookup_insert_eq; done).
    destruct (free_law os' p) as [H1 H2]; [by rewrite Hh, lookup_insert_eq|]. eexists. split; [done|].
    rewrite H1, H2, Hh, Hm. split; [by apply delete_insert_id|done].
  - destruct (hugepage_Allocate_spec _ _ _ _ _ _ _ E) as [Hh Hm]. rewrite decide_False in Hm by done.
    destruct Hm as (huge & Hf & Hm). unfold HugepageAllocator.Free. rewrite (proj2 (Z.eqb_neq _ _)) by done. cbn [negb].
    assert (Hl : mappings os' !! p = Some (pages huge size, huge)) by (by rewrite Hm, lookup_insert_eq).
    destruct (munmap_law os' p size _ _ Hl) as (H1 & H2 & H3). eexists. split; [done|]. split; [by rewrite H1|].
    do 2 eexists. split; [done|]. split; [exact Hl|]. case_decide as Hd.
    + rewrite H2, Hm; naive_solver.
    + rewrite H3, Hm; [by apply delete_insert_id| |done]. intros ->. destruct (decide (size mod page_size true = 0)); naive_solver.
Qed.

(** Huge pages of two megabytes; the state is the table of mappings and the heap. *)
Definition toy_page (huge : bool) : Z := if huge then 2 ^ 21 else 4096.

Abbreviation toy_os := (gmap Z (Z * bool) * gmap Z Z)%type.

#[local] Program Instance toy_memory : SystemMemory toy_os := {|
  mappings (os : toy_os) := fst os;
  heap (os : toy_os) := snd os;
  page_size := toy_page;
  sys_mmap (os : toy_os) huge sz :=
    let p := 4096 * (Z.of_nat (size (fst os)) + 1) in
    if decide (0 < sz /\ (fst os) !! p = None)
    then ((<[p := ((sz + toy_page huge - 1) / toy_page huge * toy_page huge, huge)]> (fst os), (snd os)), p) else (os, 0);
  sys_munmap (os : toy_os) p sz :=
    match (fst os !! p : option (Z * bool)) with
    | Some (_, true) => if decide (sz mod 2 ^ 21 = 0) then (delete p (fst os), (snd os)) else os
    | Some (_, false) => (delete p (fst os), (snd os))
    | None => os
    end;
  sys_mbind (os : toy_os) _ _ _ _ := (os, 0);
  numa_available _ := 0;
  c_aligned_alloc (os : toy_os) _ sz :=
    let p := 4096 * (Z.of_nat (size (snd os)) + 1) in
    if decide ((snd os) !! p = None) then (((fst os), <[p := sz]> (snd os)), p) else (os, 0);
  c_free (os : toy_os) p := ((fst os), delete p (snd os));
|}.
Next Obligation. by intros []. Qed.
Next Obligation.
  intros os huge sz. cbv beta zeta. destruct (decide (0 < sz /\ _)) as [H|H]; cbv beta iota;
    [rewrite decide_False by lia|by rewrite decide_True]. by destruct H.
Qed.
Next Obligation.
  intros os p sz len huge. cbn. intros Hl. rewrite Hl. destruct huge; [|by split_and!].
  case_decide as Hd; cbn; split_and!; try done. intros Hz. by destruct Hd; apply Hz.
Qed.
Next Obligation. done. Qed.
Next Obligation.
  intros os al sz. cbv beta zeta. destruct (decide (snd os !! _ = None)) as [H|H]; cbv beta iota;
    [by rewrite decide_False by lia|by rewrite decide_True].
Qed.
Next Obligation. done. Qed.

(** The pool of the server's size, on huge pages. *)
Lemma allocators_give_back_witness :
  exists os' p os'', MemoryAllocator.Allocate true (∅, ∅) (MemoryAllocator.Hugepage (HugepageAllocator.HugepageAllocator_new 0))
      33625600 4096 = Some (os', p)
    /\ MemoryAllocator.Free os' (MemoryAllocator.Hugepage (HugepageAllocator.HugepageAllocator_new 0)) p 33625600 = Some os''
    /\ heap os'' = ∅.
Proof.
  destruct (MemoryAllocator.Allocate true (∅, ∅) (MemoryAllocator.Hugepage (HugepageAllocator.HugepageAllocator_new 0))
      33625600 4096) as [[os' p]|] eqn:E; [|vm_compute in E; discriminate].
  assert (Hp : p <> 0) by (vm_compute in E; congruence).
  destruct (allocators_give_back true (∅, ∅) (MemoryAllocator.Hugepage (HugepageAllocator.HugepageAllocator_new 0))
      33625600 4096 os' p E Hp) as (os'' & E' & H & _).
  exists os', p, os''. split; [reflexivity|]. split; [exact E'|exact H].
Defined.

End properties.
