(* ===== verification/TimingWheel.v ===== *)
(** * Timing wheels

    Models [include/rdma/common/timing_wheel.h]: buckets of intrusive singly
    linked entries taken from a preallocated pool. A [TimeoutEntry*] is the
    index of the entry in its pool, [None] is null; a [None] result of an
    operation is a dereference outside the pool or an index outside a bucket
    array. Loops over a bucket take as fuel the size of the pool. *)

From S2P Require Import Prelude Types.

Record TimeoutEntry := {
  slot_index : Z;       (* uint32_t *)
  generation : Z;       (* uint8_t *)
  next : option Z;
}.

Module TimingWheelBucket.

Record TimingWheelBucket := { head_ : option Z; count_ : Z }.

Definition TimingWheelBucket_new : TimingWheelBucket := {| head_ := None; count_ := 0 |}.

Definition set_next (pool : list TimeoutEntry) (entry : Z) (n : option Z) : option (list TimeoutEntry) :=
  e ← aget pool entry;
  aset pool entry {| slot_index := slot_index e; generation := generation e; next := n |}.

Definition Push (pool : list TimeoutEntry) (b : TimingWheelBucket) (entry : Z)
    : option (list TimeoutEntry * TimingWheelBucket) :=
  pool ← set_next pool entry (head_ b);
  Some (pool, {| head_ := Some entry; count_ := u64 (count_ b + 1) |}).

(** The list taken, and the emptied bucket. *)
Definition PopAll (b : TimingWheelBucket) : option Z * TimingWheelBucket :=
  (head_ b, TimingWheelBucket_new).

Definition Count (b : TimingWheelBucket) : Z := count_ b.

End TimingWheelBucket.

Export TimingWheelBucket (TimingWheelBucket).

(** The entry pool with its free list, the same members in both wheels. *)
Module EntryPool.
Import TimingWheelBucket.

Record EntryPool := { entry_pool_ : list TimeoutEntry; free_list_ : option Z }.

(** The constructors link entry [i] to entry [i + 1]; slot and generation of an
    entry are written before they are read. *)
Definition make (n : Z) : EntryPool :=
  {| entry_pool_ := (fun i => {| slot_index := 0; generation := 0;
                                 next := if i <? n - 1 then Some (i + 1) else None |}) <$> seqZ 0 n;
     free_list_ := Some 0 |}.

Definition AllocEntry (a : EntryPool) : option (EntryPool * option Z) :=
  match free_list_ a with
  | None => Some (a, None)
  | Some entry =>
      e ← aget (entry_pool_ a) entry;
      Some ({| entry_pool_ := entry_pool_ a; free_list_ := next e |}, Some entry)
  end.

Definition FreeEntry (a : EntryPool) (entry : Z) : option EntryPool :=
  pool ← set_next (entry_pool_ a) entry (free_list_ a);
  Some {| entry_pool_ := pool; free_list_ := Some entry |}.

(** The two stores of [Schedule] into the new entry. *)
Definition fill_entry (a : EntryPool) (entry slot gen : Z) : option EntryPool :=
  e ← aget (entry_pool_ a) entry;
  pool ← aset (entry_pool_ a) entry {| slot_index := slot; generation := gen; next := next e |};
  Some {| entry_pool_ := pool; free_list_ := free_list_ a |}.

(** [buckets[target].Push(entry)]. *)
Definition push_at (a : EntryPool) (buckets : list TimingWheelBucket) (target entry : Z)
    : option (EntryPool * list TimingWheelBucket) :=
  b ← aget buckets target;
  '(pool, b) ← Push (entry_pool_ a) b entry;
  buckets ← aset buckets target b;
  Some ({| entry_pool_ := pool; free_list_ := free_list_ a |}, buckets).

(** The loop of [Tick] over the expired bucket. *)
Fixpoint expire_loop (fuel : nat) (a : EntryPool) (entry : option Z) (expired : list (Z * Z))
    : option (EntryPool * list (Z * Z)) :=
  match entry with
  | None => Some (a, expired)
  | Some i =>
      match fuel with
      | O => None
      | S fuel =>
          e ← aget (entry_pool_ a) i;
          let n := next e in
          a ← FreeEntry a i;
          expire_loop fuel a n (expired ++ [(slot_index e, generation e)])
      end
  end.

Fixpoint count_loop (fuel : nat) (a : EntryPool) (entry : option Z) (count : Z) : option Z :=
  match entry with
  | None => Some count
  | Some i =>
      match fuel with
      | O => None
      | S fuel => e ← aget (entry_pool_ a) i; count_loop fuel a (next e) (count + 1)
      end
  end.

Definition fuel (a : EntryPool) : nat := length (entry_pool_ a).

End EntryPool.

Module TimingWheel.
Import TimingWheelBucket EntryPool.

Definition kWheelSize : Z := 1024.
Definition kMaxEntries : Z := 65536.

Record TimingWheel := { buckets_ : list TimingWheelBucket; current_ : Z; entries : EntryPool }.

Definition make (n : Z) : TimingWheel :=
  {| buckets_ := replicate (Z.to_nat kWheelSize) TimingWheelBucket_new; current_ := 0;
     entries := EntryPool.make n |}.

Definition TimingWheel_new : TimingWheel := make kMaxEntries.

Definition Schedule (w : TimingWheel) (slot gen timeout_ticks : Z) : option (TimingWheel * bool) :=
  '(a, entry) ← AllocEntry (entries w);
  match entry with
  | None => Some (w, false)
  | Some entry =>
      a ← fill_entry a entry slot gen;
      let target := u32 (current_ w + timeout_ticks) mod kWheelSize in
      '(a, buckets) ← push_at a (buckets_ w) target entry;
      Some ({| buckets_ := buckets; current_ := current_ w; entries := a |}, true)
  end.

Definition Tick (w : TimingWheel) : option (TimingWheel * list (Z * Z)) :=
  b ← aget (buckets_ w) (current_ w);
  let '(entry, b) := PopAll b in
  buckets ← aset (buckets_ w) (current_ w) b;
  '(a, expired) ← expire_loop (fuel (entries w)) (entries w) entry [];
  Some ({| buckets_ := buckets; current_ := u32 (current_ w + 1) mod kWheelSize; entries := a |}, expired).

End TimingWheel.

Module HierarchicalTimingWheel.
Import TimingWheelBucket EntryPool.

Definition kLevel1Size : Z := 256.
Definition kLevel2Size : Z := 256.
Definition kLevel1TickMs : Z := 1.
Definition kLevel2TickMs : Z := 256.
Definition kMaxEntries : Z := 2 ^ 20.

(** [pool_addr] is the address [aligned_alloc] gave the entry pool. *)
Record HierarchicalTimingWheel := {
  level1_ : list TimingWheelBucket;
  level2_ : list TimingWheelBucket;
  level1_current_ : Z;
  level2_current_ : Z;
  pool_addr : Z;
  entries : EntryPool;
}.

Definition make (addr n : Z) : HierarchicalTimingWheel :=
  {| level1_ := replicate (Z.to_nat kLevel1Size) TimingWheelBucket_new;
     level2_ := replicate (Z.to_nat kLevel2Size) TimingWheelBucket_new;
     level1_current_ := 0; level2_current_ := 0; pool_addr := addr; entries := EntryPool.make n |}.

Definition HierarchicalTimingWheel_new (addr : Z) : HierarchicalTimingWheel := make addr kMaxEntries.

Definition Schedule (w : HierarchicalTimingWheel) (slot gen timeout_ms : Z)
    : option (HierarchicalTimingWheel * bool) :=
  '(a, entry) ← AllocEntry (entries w);
  match entry with
  | None => Some (w, false)
  | Some entry =>
      a ← fill_entry a entry slot gen;
      if timeout_ms <? kLevel1Size * kLevel1TickMs then
        let target := u32 (level1_current_ w + timeout_ms) mod kLevel1Size in
        '(a, l1) ← push_at a (level1_ w) target entry;
        Some ({| level1_ := l1; level2_ := level2_ w; level1_current_ := level1_current_ w;
                 level2_current_ := level2_current_ w; pool_addr := pool_addr w; entries := a |}, true)
      else
        let level2_ticks := timeout_ms / kLevel2TickMs in
        let target := u32 (level2_current_ w + level2_ticks) mod kLevel2Size in
        '(a, l2) ← push_at a (level2_ w) target entry;
        Some ({| level1_ := level1_ w; level2_ := l2; level1_current_ := level1_current_ w;
                 level2_current_ := level2_current_ w; pool_addr := pool_addr w; entries := a |}, true)
  end.

(** [sizeof(TimeoutEntry)] is 16. *)
Definition entry_address (addr entry : Z) : Z := addr + 16 * entry.

(** The bucket an entry is demoted to: its address, shifted. *)
Definition demote_target (addr entry : Z) : Z := Z.shiftr (entry_address addr entry) 6 mod kLevel1Size.

(** The loop of [Tick] that redistributes a level-2 bucket. *)
Fixpoint demote_loop (fuel : nat) (addr : Z) (a : EntryPool) (l1 : list TimingWheelBucket)
    (entry : option Z) : option (EntryPool * list TimingWheelBucket) :=
  match entry with
  | None => Some (a, l1)
  | Some i =>
      match fuel with
      | O => None
      | S fuel =>
          e ← aget (entry_pool_ a) i;
          let n := next e in
          '(a, l1) ← push_at a l1 (demote_target addr i) i;
          demote_loop fuel addr a l1 n
      end
  end.

Definition Tick (w : HierarchicalTimingWheel)
    : option (HierarchicalTimingWheel * list (Z * Z)) :=
  b ← aget (level1_ w) (level1_current_ w);
  let '(entry, b) := PopAll b in
  l1 ← aset (level1_ w) (level1_current_ w) b;
  '(a, expired) ← expire_loop (fuel (entries w)) (entries w) entry [];
  let current1 := u32 (level1_current_ w + 1) mod kLevel1Size in
  if current1 =? 0 then
    b2 ← aget (level2_ w) (level2_current_ w);
    let '(entry, b2) := PopAll b2 in
    l2 ← aset (level2_ w) (level2_current_ w) b2;
    '(a, l1) ← demote_loop (fuel a) (pool_addr w) a l1 entry;
    Some ({| level1_ := l1; level2_ := l2; level1_current_ := current1;
             level2_current_ := u32 (level2_current_ w + 1) mod kLevel2Size;
             pool_addr := pool_addr w; entries := a |}, expired)
  else
    Some ({| level1_ := l1; level2_ := level2_ w; level1_current_ := current1;
             level2_current_ := level2_current_ w; pool_addr := pool_addr w; entries := a |}, expired).

Definition GetFreeCount (w : HierarchicalTimingWheel) : option Z :=
  count_loop (fuel (entries w)) (entries w) (free_list_ (entries w)) 0.

End HierarchicalTimingWheel.

(** ** Specification

    The pointers erased: a bucket is the list of its entries (index, slot and
    generation), last pushed first. *)

Abbreviation Item := (Z * (Z * Z))%type.

Section specification.
Import TimingWheelBucket EntryPool.

Record SWheel := { sw_buckets : list (list Item); sw_current : Z; sw_free : list Z }.

Definition sw_items (bs : list (list Item)) (target : Z) : list Item :=
  default [] (bs !! Z.to_nat target).

Definition sw_push (bs : list (list Item)) (target : Z) (it : Item) : list (list Item) :=
  <[Z.to_nat target := it :: sw_items bs target]> bs.

Definition sw_schedule (s : SWheel) (slot gen ticks : Z) : SWheel * bool :=
  match sw_free s with
  | [] => (s, false)
  | i :: free =>
      ({| sw_buckets := sw_push (sw_buckets s) ((sw_current s + ticks) mod 1024) (i, (slot, gen));
          sw_current := sw_current s; sw_free := free |}, true)
  end.

Definition sw_tick (s : SWheel) : SWheel * list (Z * Z) :=
  let items := sw_items (sw_buckets s) (sw_current s) in
  ({| sw_buckets := <[Z.to_nat (sw_current s) := []]> (sw_buckets s);
      sw_current := (sw_current s + 1) mod 1024;
      sw_free := rev items.*1 ++ sw_free s |}, items.*2).

(** Two levels; the address of the pool decides where entries are demoted. *)
Record SHier := {
  sh_level1 : list (list Item);
  sh_level2 : list (list Item);
  sh_current1 : Z;
  sh_current2 : Z;
  sh_addr : Z;
  sh_free : list Z;
}.

Definition sh_schedule (s : SHier) (slot gen ms : Z) : SHier * bool :=
  match sh_free s with
  | [] => (s, false)
  | i :: free =>
      (if ms <? 256 then
         {| sh_level1 := sw_push (sh_level1 s) ((sh_current1 s + ms) mod 256) (i, (slot, gen));
            sh_level2 := sh_level2 s; sh_current1 := sh_current1 s; sh_current2 := sh_current2 s;
            sh_addr := sh_addr s; sh_free := free |}
       else
         {| sh_level1 := sh_level1 s;
            sh_level2 := sw_push (sh_level2 s) ((sh_current2 s + ms / 256) mod 256) (i, (slot, gen));
            sh_current1 := sh_current1 s; sh_current2 := sh_current2 s;
            sh_addr := sh_addr s; sh_free := free |}, true)
  end.

(** The entries of a bucket, each pushed on the level-1 bucket of its address. *)
Definition sh_demote (addr : Z) (l1 : list (list Item)) (items : list Item) : list (list Item) :=
  fold_left (fun l1 it => sw_push l1 ((addr + 16 * it.1) / 64 mod 256) it) items l1.

Definition sh_tick (s : SHier) : SHier * list (Z * Z) :=
  let items := sw_items (sh_level1 s) (sh_current1 s) in
  let l1 := <[Z.to_nat (sh_current1 s) := []]> (sh_level1 s) in
  let free := rev items.*1 ++ sh_free s in
  (if (sh_current1 s + 1) mod 256 =? 0 then
     {| sh_level1 := sh_demote (sh_addr s) l1 (sw_items (sh_level2 s) (sh_current2 s));
        sh_level2 := <[Z.to_nat (sh_current2 s) := []]> (sh_level2 s);
        sh_current1 := (sh_current1 s + 1) mod 256; sh_current2 := (sh_current2 s + 1) mod 256;
        sh_addr := sh_addr s; sh_free := free |}
   else
     {| sh_level1 := l1; sh_level2 := sh_level2 s; sh_current1 := (sh_current1 s + 1) mod 256;
        sh_current2 := sh_current2 s; sh_addr := sh_addr s; sh_free := free |}, items.*2).

(** Traces of either wheel: what each call returns. *)
Inductive WheelOp := WSchedule (slot gen timeout : Z) | WTick.
Inductive WheelOut := OScheduled (b : bool) | OExpired (l : list (Z * Z)).

Definition op_ok (o : WheelOp) : Prop :=
  match o with WSchedule _ _ t => is_u 32 t | WTick => True end.

Section runs.
Context {W : Type} (schedule : W -> Z -> Z -> Z -> option (W * bool))
  (tick : W -> option (W * list (Z * Z))).

Definition wheel_step (w : W) (o : WheelOp) : option (W * WheelOut) :=
  match o with
  | WSchedule s g t => '(w, b) ← schedule w s g t; Some (w, OScheduled b)
  | WTick => '(w, l) ← tick w; Some (w, OExpired l)
  end.

Fixpoint wheel_run (w : W) (os : list WheelOp) : option (W * list WheelOut) :=
  match os with
  | [] => Some (w, [])
  | o :: os => '(w, r) ← wheel_step w o; '(w, rs) ← wheel_run w os; Some (w, r :: rs)
  end.
End runs.

Definition sw_run : SWheel -> list WheelOp -> option (SWheel * list WheelOut) :=
  wheel_run (fun s a b c => Some (sw_schedule s a b c)) (fun s => Some (sw_tick s)).

Definition sh_run : SHier -> list WheelOp -> option (SHier * list WheelOut) :=
  wheel_run (fun s a b c => Some (sh_schedule s a b c)) (fun s => Some (sh_tick s)).

Definition sw_new (n : Z) : SWheel :=
  {| sw_buckets := replicate 1024 []; sw_current := 0; sw_free := seqZ 0 n |}.

Definition sh_new (addr n : Z) : SHier :=
  {| sh_level1 := replicate 256 []; sh_level2 := replicate 256 []; sh_current1 := 0;
     sh_current2 := 0; sh_addr := addr; sh_free := seqZ 0 n |}.

#[export] Instance WheelOp_eq_dec : EqDecision WheelOp.
Proof. solve_decision. Defined.

(** *** Deadlines *)

Definition schedules (slot gen : Z) (o : WheelOp) : bool :=
  match o with WSchedule s g _ => (s =? slot) && (g =? gen) | WTick => false end.

Definition ticks (os : list WheelOp) : Z :=
  Z.of_nat (length (filter (fun o => o = WTick) os)).

(** A tick reports the timeout. *)
Definition expires (slot gen : Z) (r : WheelOut) : Prop :=
  match r with OExpired l => (slot, gen) ∈ l | OScheduled _ => False end.

(** The timeout is in no bucket but that of [k] ticks from now; with [None], in
    no bucket at all. *)
Definition due (s : SWheel) (slot gen : Z) (k : option Z) : Prop :=
  forall t, 0 <= t < 1024 ->
    ((slot, gen) ∈ (sw_items (sw_buckets s) t).*2 <->
     exists j, k = Some j /\ t = (sw_current s + j) mod 1024).

(** The wheel's clock just before a level-2 turn, and a timeout of 511 ms
    scheduled then. *)
Definition late_phase : list WheelOp :=
  replicate 255 WTick ++ [WSchedule 7 1 511] ++ replicate 257 WTick.

(** *** Representation *)

(** The pointer [h] starts the null-terminated list of the entries [l]. *)
Fixpoint chain (p : list TimeoutEntry) (h : option Z) (l : list Z) : Prop :=
  match l with
  | [] => h = None
  | i :: l => h = Some i /\ exists e, aget p i = Some e /\ chain p (next e) l
  end.

Definition pay (p : list TimeoutEntry) (i : Z) : Z * Z :=
  match aget p i with Some e => (slot_index e, generation e) | None => (0, 0) end.

Definition item_of (p : list TimeoutEntry) (i : Z) : Item := (i, pay p i).

Definition bucket_rep (p : list TimeoutEntry) (b : TimingWheelBucket) (items : list Item) : Prop :=
  chain p (head_ b) items.*1 /\ items = item_of p <$> items.*1
  /\ count_ b = u64 (Z.of_nat (length items)).

(** The free list, the buckets and the entries [d] in transit partition the
    pool. *)
Record pool_rep (a : EntryPool) (bs : list TimingWheelBucket) (fl : list Z)
    (sb : list (list Item)) (d : list Z) : Prop := {
  pr_free : chain (entry_pool_ a) (free_list_ a) fl;
  pr_buckets : Forall2 (bucket_rep (entry_pool_ a)) bs sb;
  pr_part : d ++ fl ++ (concat sb).*1 ≡ₚ seqZ 0 (Z.of_nat (length (entry_pool_ a)));
}.

Definition wheel_rep (w : TimingWheel.TimingWheel) (s : SWheel) : Prop :=
  pool_rep (TimingWheel.entries w) (TimingWheel.buckets_ w) (sw_free s) (sw_buckets s) []
  /\ TimingWheel.current_ w = sw_current s /\ 0 <= sw_current s < 1024
  /\ length (sw_buckets s) = 1024%nat.

Definition hier_rep (w : HierarchicalTimingWheel.HierarchicalTimingWheel) (s : SHier) : Prop :=
  pool_rep (HierarchicalTimingWheel.entries w)
    (HierarchicalTimingWheel.level1_ w ++ HierarchicalTimingWheel.level2_ w)
    (sh_free s) (sh_level1 s ++ sh_level2 s) []
  /\ HierarchicalTimingWheel.level1_current_ w = sh_current1 s
  /\ HierarchicalTimingWheel.level2_current_ w = sh_current2 s
  /\ HierarchicalTimingWheel.pool_addr w = sh_addr s
  /\ 0 <= sh_current1 s < 256 /\ 0 <= sh_current2 s < 256
  /\ length (sh_level1 s) = 256%nat /\ length (sh_level2 s) = 256%nat
  /\ length (HierarchicalTimingWheel.level1_ w) = 256%nat.

End specification.

(** ** Lemmas *)

Section lemmas.
Import TimingWheelBucket EntryPool.
Implicit Types (p : list TimeoutEntry) (l d fl : list Z) (i : Z).

Lemma chain_frame p h l i e : i ∉ l -> 0 <= i < Z.of_nat (length p) ->
  chain p h l -> chain (<[Z.to_nat i := e]> p) h l.
Proof.
  intros Hi Hr. revert h. induction l as [|j l IH]; intros h; [done|]. simpl.
  intros (-> & e' & He & Hc). split; [done|]. exists e'. rewrite aget_insert by done.
  rewrite decide_False by set_solver. split; [done|]. apply IH; [set_solver|done].
Qed.

Lemma pay_write p i j e : 0 <= i < Z.of_nat (length p) ->
  pay (<[Z.to_nat i := e]> p) j = if decide (i = j) then (slot_index e, generation e) else pay p j.
Proof. intros. unfold pay. rewrite aget_insert by done. by case_decide. Qed.

Section rep.
Context {a : EntryPool} {bs : list TimingWheelBucket} {fl : list Z} {sb : list (list Item)} {d : list Z}.
Context (H : pool_rep a bs fl sb d).

Lemma rep_range i : i ∈ d -> 0 <= i < Z.of_nat (length (entry_pool_ a)).
Proof.
  intros Hi. assert (i ∈ seqZ 0 (Z.of_nat (length (entry_pool_ a)))) as Hs%elem_of_seqZ; [|lia].
  rewrite <- (pr_part _ _ _ _ _ H). set_solver.
Qed.

Lemma rep_NoDup : NoDup (d ++ fl ++ (concat sb).*1).
Proof. rewrite (pr_part _ _ _ _ _ H). apply NoDup_seqZ. Qed.

Lemma rep_detached i : i ∈ d -> i ∉ fl /\ i ∉ (concat sb).*1.
Proof.
  intros Hi. pose proof rep_NoDup as Hn. apply NoDup_app in Hn as (_ & Hn & _).
  specialize (Hn i Hi). set_solver.
Qed.

Lemma in_concat t items i : sb !! t = Some items -> i ∈ items.*1 -> i ∈ (concat sb).*1.
Proof.
  intros Ht Hi. rewrite <- (take_drop_middle sb t items Ht), concat_app. cbn [concat].
  rewrite !fmap_app. set_solver.
Qed.

(** Writing an entry in transit keeps the representation. *)
Lemma rep_write i e : i ∈ d ->
  pool_rep {| entry_pool_ := <[Z.to_nat i := e]> (entry_pool_ a); free_list_ := free_list_ a |} bs fl sb d.
Proof.
  intros Hi. pose proof (rep_range i Hi) as Hr. destruct (rep_detached i Hi) as [Hf Hb]. constructor; simpl.
  - apply chain_frame; [done..|apply H].
  - pose proof (pr_buckets _ _ _ _ _ H) as HF. rewrite Forall2_lookup in *. intros t.
    specialize (HF t). destruct (bs !! t) as [b|] eqn:Eb, (sb !! t) as [items|] eqn:Es; inversion HF; subst;
      constructor. destruct H2 as (Hc & Hit & Hn).
    assert (i ∉ items.*1) by (intros ?; by apply Hb, (in_concat t items)).
    split; [by apply chain_frame|]. split; [|done]. rewrite Hit at 1.
    apply list_fmap_ext. intros k j Hj. unfold item_of. rewrite pay_write by done.
    rewrite decide_False; [done|]. intros <-. by apply list_elem_of_lookup_2 in Hj.
  - rewrite length_insert. apply H.
Qed.

Lemma rep_lookup t : is_Some (sb !! t) ->
  exists b items, bs !! t = Some b /\ sb !! t = Some items /\ bucket_rep (entry_pool_ a) b items.
Proof.
  intros [items Hs]. destruct (Forall2_lookup_r _ _ _ _ _ (pr_buckets _ _ _ _ _ H) Hs) as (b & ? & ?).
  eauto.
Qed.

End rep.
Lemma concat_insert (sb : list (list Item)) t items x :
  sb !! t = Some items -> concat sb ≡ₚ items ++ concat (<[t := []]> sb)
  /\ concat (<[t := x]> sb) ≡ₚ x ++ concat (<[t := []]> sb).
Proof.
  intros Ht. pose proof (lookup_lt_Some _ _ _ Ht).
  assert (E : forall y, concat (<[t := y]> sb) ≡ₚ y ++ concat (take t sb) ++ concat (drop (S t) sb)).
  { intros y. rewrite insert_take_drop by done. rewrite concat_app. cbn [concat].
    by rewrite Permutation_app_swap_app. }
  split; [|by rewrite !E].
  rewrite <- (list_insert_id sb t items) at 1 by done. by rewrite !E.
Qed.

Lemma pay_set_next p i e n j : aget p i = Some e ->
  pay (<[Z.to_nat i := {| slot_index := slot_index e; generation := generation e; next := n |}]> p) j
  = pay p j.
Proof.
  intros He. rewrite pay_write by (by apply aget_lt in He). case_decide; [|done]. subst j.
  unfold pay. by rewrite He.
Qed.

Lemma rep_alloc a bs fl sb d i :
  pool_rep a bs (i :: fl) sb d ->
  exists a', AllocEntry a = Some (a', Some i) /\ pool_rep a' bs fl sb (i :: d)
    /\ entry_pool_ a' = entry_pool_ a.
Proof.
  intros H. destruct (pr_free _ _ _ _ _ H) as (Ef & e & He & Hc). unfold AllocEntry. rewrite Ef, He. sbind.
  eexists. split; [done|]. split; [|done]. constructor; [done|apply H|]. simpl entry_pool_.
  rewrite <- (pr_part _ _ _ _ _ H). simpl. by rewrite Permutation_middle.
Qed.

Lemma rep_alloc_empty a bs sb d : pool_rep a bs [] sb d -> AllocEntry a = Some (a, None).
Proof. intros H. unfold AllocEntry. by rewrite (pr_free _ _ _ _ _ H : _ = None). Qed.

Lemma rep_fill a bs fl sb d i slot gen :
  pool_rep a bs fl sb d -> i ∈ d ->
  exists a', fill_entry a i slot gen = Some a' /\ pool_rep a' bs fl sb d
    /\ pay (entry_pool_ a') i = (slot, gen)
    /\ length (entry_pool_ a') = length (entry_pool_ a).
Proof.
  intros H Hi. pose proof (rep_range H i Hi) as Hr. destruct (aget_is_Some _ _ Hr) as [e He].
  unfold fill_entry. rewrite He. sbind. rewrite aset_Some by done. sbind.
  eexists. split; [done|]. split; [by apply rep_write|]. simpl. rewrite pay_write by done.
  rewrite decide_True by done. by rewrite length_insert.
Qed.

(** Pushing an entry in transit on a bucket. *)
Lemma rep_push a bs bs2 fl sb sb2 d i t :
  pool_rep a (bs ++ bs2) fl (sb ++ sb2) (i :: d) -> length bs = length sb -> 0 <= t < Z.of_nat (length sb) ->
  exists a' bs', push_at a bs t i = Some (a', bs') /\ length bs' = length bs
    /\ pool_rep a' (bs' ++ bs2) fl (sw_push sb t (item_of (entry_pool_ a) i) ++ sb2) d
    /\ (forall j, pay (entry_pool_ a') j = pay (entry_pool_ a) j)
    /\ length (entry_pool_ a') = length (entry_pool_ a)
    /\ (forall h l, i ∉ l -> chain (entry_pool_ a) h l -> chain (entry_pool_ a') h l).
Proof.
  intros H Hlen Ht. destruct (lookup_lt_is_Some_2 sb (Z.to_nat t)) as [items Hs]; [lia|].
  destruct (lookup_lt_is_Some_2 bs (Z.to_nat t)) as [b Hb]; [lia|].
  pose proof (rep_range H i ltac:(set_solver)) as Hr. destruct (aget_is_Some _ _ Hr) as [e He].
  set (e' := {| slot_index := slot_index e; generation := generation e; next := head_ b |}).
  set (p' := <[Z.to_nat i := e']> (entry_pool_ a)).
  exists {| entry_pool_ := p'; free_list_ := free_list_ a |},
    (<[Z.to_nat t := {| head_ := Some i; count_ := u64 (count_ b + 1) |}]> bs).
  split.
  { unfold push_at, Push, set_next. rewrite (proj2 (aget_Some bs t b)) by (split; [lia|done]). sbind. rewrite He. sbind.
    rewrite aset_Some by done. sbind. rewrite aset_Some by lia. done. }
  split; [by rewrite length_insert|]. split.
  2: { split; [intros j; by apply pay_set_next|]. split; [by apply length_insert|].
       intros h l Hi Hc. by apply chain_frame. }
  pose proof (rep_write H i e' ltac:(set_solver)) as H'. fold p' in H'.
  assert (Hs' : (sb ++ sb2) !! Z.to_nat t = Some items) by (by apply lookup_app_l_Some).
  assert (Hb' : (bs ++ bs2) !! Z.to_nat t = Some b) by (by apply lookup_app_l_Some).
  destruct (rep_lookup H' (Z.to_nat t) ltac:(by rewrite Hs')) as (b' & items' & Eb & Es & Hrep).
  assert (b' = b /\ items' = items) as [-> ->] by (split; congruence). destruct Hrep as (Hc & Hit & Hn).
  unfold sw_push, sw_items. rewrite Hs. cbn [default from_option].
  assert (item_of (entry_pool_ a) i = item_of p' i) as ->.
  { unfold item_of. f_equal. symmetry. by apply pay_set_next. }
  rewrite <- !insert_app_l by lia. constructor; simpl entry_pool_; simpl free_list_.
  - apply (pr_free _ _ _ _ _ H').
  - apply Forall2_insert; [apply (pr_buckets _ _ _ _ _ H')|]. split_and!; simpl.
    + split; [done|]. exists e'. split; [|done]. unfold p'. rewrite aget_insert by done.
      by rewrite decide_True.
    + f_equal. done.
    + rewrite Hn, wrap_add_l. f_equal. lia.
  - rewrite <- (pr_part _ _ _ _ _ H'). destruct (concat_insert _ _ _ (item_of p' i :: items) Hs') as [-> ->].
    cbn [app]. rewrite fmap_cons, !fmap_app. cbn [fst item_of].
    by rewrite <- !Permutation_middle.
Qed.

(** Taking the entries of a bucket. *)
Lemma rep_pop a bs bs2 fl sb sb2 d t :
  pool_rep a (bs ++ bs2) fl (sb ++ sb2) d -> length bs = length sb -> 0 <= t < Z.of_nat (length sb) ->
  exists b, aget bs t = Some b
    /\ aset bs t TimingWheelBucket_new = Some (<[Z.to_nat t := TimingWheelBucket_new]> bs)
    /\ chain (entry_pool_ a) (head_ b) (sw_items sb t).*1
    /\ sw_items sb t = item_of (entry_pool_ a) <$> (sw_items sb t).*1
    /\ pool_rep a (<[Z.to_nat t := TimingWheelBucket_new]> bs ++ bs2) fl
         (<[Z.to_nat t := []]> sb ++ sb2) ((sw_items sb t).*1 ++ d).
Proof.
  intros H Hlen Ht. destruct (lookup_lt_is_Some_2 sb (Z.to_nat t)) as [items Hs]; [lia|].
  assert (Hs' : (sb ++ sb2) !! Z.to_nat t = Some items) by (by apply lookup_app_l_Some).
  destruct (rep_lookup H (Z.to_nat t) ltac:(by rewrite Hs')) as (b & items' & Eb & Es & Hc & Hit & Hn).
  assert (items' = items) as -> by congruence. rewrite lookup_app_l in Eb by lia.
  unfold sw_items. rewrite Hs. cbn [default from_option].
  exists b. split; [apply aget_Some; split; [lia|done]|]. split; [apply aset_Some; lia|].
  split; [done|]. split; [done|].
  rewrite <- !insert_app_l by lia. constructor; [apply H| |].
  - apply Forall2_insert; [apply H|]. done.
  - rewrite <- (pr_part _ _ _ _ _ H). destruct (concat_insert _ _ _ [] Hs') as [-> _].
    rewrite fmap_app, <- !app_assoc. rewrite !(assoc_L (++)).
    rewrite (Permutation_app_comm (items.*1) d), <- !(assoc_L (++)). f_equiv.
    by rewrite Permutation_app_swap_app.
Qed.

(** The loop over an expired bucket. *)
Lemma expire_loop_spec a bs fl sb d l h acc n :
  pool_rep a bs fl sb (l ++ d) -> chain (entry_pool_ a) h l -> (length l <= n)%nat ->
  exists a', expire_loop n a h acc = Some (a', acc ++ (pay (entry_pool_ a) <$> l))
    /\ pool_rep a' bs (rev l ++ fl) sb d /\ length (entry_pool_ a') = length (entry_pool_ a)
    /\ forall j, pay (entry_pool_ a') j = pay (entry_pool_ a) j.
Proof.
  revert a fl h acc n. induction l as [|i l IH]; intros a fl h acc n H Hc Hn.
  { rewrite (Hc : h = None). exists a. destruct n; simpl; by rewrite app_nil_r. }
  destruct Hc as (-> & e & He & Hc). destruct n as [|n]; [simpl in Hn; lia|].
  cbn [expire_loop]. rewrite He. sbind. unfold FreeEntry, set_next. rewrite He. sbind.
  pose proof (aget_lt _ _ _ He) as Hr. rewrite aset_Some by done. sbind.
  set (e' := {| slot_index := slot_index e; generation := generation e; next := free_list_ a |}).
  set (a1 := {| entry_pool_ := _; free_list_ := Some i |}).
  assert (Hpay : forall j, pay (entry_pool_ a1) j = pay (entry_pool_ a) j) by (intros j; by apply pay_set_next).
  pose proof (rep_NoDup H) as Hnd. simpl in Hnd. apply NoDup_cons in Hnd as [Hnil _].
  destruct (IH a1 (i :: fl) (next e) (acc ++ [(slot_index e, generation e)]) n) as (a' & E & Hrep & Hlen & Hp).
  - pose proof (rep_write H i e' ltac:(set_solver)) as [Hf Hb Hp]. constructor.
    + simpl. split; [done|]. exists e'. rewrite aget_insert by done. rewrite decide_True by done.
      split; [done|]. exact Hf.
    + exact Hb.
    + subst a1. simpl entry_pool_ in *. rewrite <- Hp. cbn [app].
      by rewrite <- Permutation_middle.
  - subst a1. simpl. apply chain_frame; [set_solver|done|done].
  - simpl in Hn. lia.
  - exists a'. rewrite E, <- (assoc_L (++)). split.
    + do 3 f_equal. simpl. f_equal; [unfold pay; by rewrite He|]. apply list_fmap_ext. intros. apply Hpay.
    + split_and!.
      * simpl. rewrite <- (assoc_L (++)). done.
      * rewrite Hlen. subst a1. simpl. by rewrite length_insert.
      * intros j. by rewrite Hp.
Qed.

Lemma rep_length_le a bs fl sb d l : pool_rep a bs fl sb (l ++ d) -> (length l <= length (entry_pool_ a))%nat.
Proof.
  intros H. pose proof (Permutation_length (pr_part _ _ _ _ _ H)) as E.
  rewrite !length_app, length_seqZ in E. lia.
Qed.

(** The loop that redistributes a level-2 bucket. *)
Lemma demote_loop_spec addr a (l1 l2 : list TimingWheelBucket) fl s1 s2 d l h n :
  pool_rep a (l1 ++ l2) fl (s1 ++ s2) (l ++ d) -> length l1 = 256%nat -> length s1 = 256%nat ->
  chain (entry_pool_ a) h l -> (length l <= n)%nat ->
  exists a' (l1' : list TimingWheelBucket), HierarchicalTimingWheel.demote_loop n addr a l1 h = Some (a', l1')
    /\ length l1' = 256%nat
    /\ pool_rep a' (l1' ++ l2) fl (sh_demote addr s1 (item_of (entry_pool_ a) <$> l) ++ s2) d.
Proof.
  revert a l1 s1 h n. induction l as [|i l IH]; intros a l1 s1 h n H Hl Hs Hc Hn.
  { rewrite (Hc : h = None). exists a, l1. by destruct n. }
  destruct Hc as (-> & e & He & Hc). destruct n as [|n]; [simpl in Hn; lia|].
  cbn [HierarchicalTimingWheel.demote_loop]. rewrite He. sbind.
  assert (HierarchicalTimingWheel.demote_target addr i = (addr + 16 * i) / 64 mod 256) as Ht.
  { unfold HierarchicalTimingWheel.demote_target, HierarchicalTimingWheel.entry_address.
    by rewrite Z.shiftr_div_pow2 by lia. }
  pose proof (Z.mod_pos_bound ((addr + 16 * i) / 64) 256 ltac:(lia)) as Hb.
  pose proof (rep_NoDup H) as Hnd. simpl in Hnd. apply NoDup_cons in Hnd as [Hnil _].
  destruct (rep_push a l1 l2 fl s1 s2 (l ++ d) i (HierarchicalTimingWheel.demote_target addr i) H)
    as (a1 & l1' & -> & Hl' & H1 & Hp & Hlen & Hch); [congruence|rewrite Ht; lia|]. sbind.
  destruct (IH a1 l1' (sw_push s1 (HierarchicalTimingWheel.demote_target addr i) (item_of (entry_pool_ a) i))
    (next e) n H1) as (a' & l1'' & E & Hl'' & Hr).
  - congruence.
  - unfold sw_push. by rewrite length_insert.
  - apply Hch; [set_solver|done].
  - simpl in Hn. lia.
  - exists a', l1''. split_and!; [done|done|]. unfold sh_demote in *. rewrite fmap_cons. cbn [fold_left].
    rewrite Ht in Hr.
    replace (item_of (entry_pool_ a) <$> l) with (item_of (entry_pool_ a1) <$> l); [done|].
    apply list_fmap_ext. intros. unfold item_of. by rewrite Hp.
Qed.

(** *** Refinement *)

Lemma u32_mod_pow2 x k : 0 <= k <= 32 -> u32 x mod 2 ^ k = x mod 2 ^ k.
Proof.
  intros Hk. unfold wrap. symmetry. apply Znumtheory.Zmod_div_mod; [lia..|].
  exists (2 ^ (32 - k)). rewrite <- Z.pow_add_r by lia. f_equal. lia.
Qed.

Lemma make_chain n k : 0 <= k < n ->
  chain (entry_pool_ (EntryPool.make n)) (Some k) (seqZ k (n - k)).
Proof.
  intros Hk. remember (Z.to_nat (n - k - 1)) as j eqn:Hj. revert k Hk Hj.
  induction j as [|j IH]; intros k Hk Hj; rewrite seqZ_cons by lia; (split; [done|]);
    eexists; (split; [apply aget_Some; split; [lia|]; unfold EntryPool.make; cbn [entry_pool_];
      rewrite list_lookup_fmap, lookup_seqZ_lt by lia; reflexivity|]); cbn [next]; rewrite Z.add_0_l, Z2Nat.id by lia.
  - destruct (Z.ltb_spec k (n - 1)); [lia|]. by replace (Z.pred (n - k)) with 0 by lia.
  - destruct (Z.ltb_spec k (n - 1)); [|lia]. replace (Z.pred (n - k)) with (n - Z.succ k) by lia.
    apply (IH (Z.succ k)); lia.
Qed.

Lemma concat_replicate_nil (k : nat) : concat (replicate k ([] : list Item)) = [].
Proof. by induction k. Qed.

Lemma make_rep n k : 0 < n ->
  pool_rep (EntryPool.make n) (replicate k TimingWheelBucket_new) (seqZ 0 n) (replicate k []) [].
Proof.
  intros Hn. constructor.
  - pose proof (make_chain n 0 ltac:(lia)) as Hc. by rewrite Z.sub_0_r in Hc.
  - by apply Forall2_replicate.
  - rewrite concat_replicate_nil. simpl. rewrite app_nil_r, length_fmap, length_seqZ.
    by rewrite Z2Nat.id by lia.
Qed.

Lemma wheel_new_rep n : 0 < n -> wheel_rep (TimingWheel.make n) (sw_new n).
Proof.
  intros Hn. split; [by apply (make_rep n 1024)|]. split_and!; [done|done|done|]. apply length_replicate.
Qed.

Lemma hier_new_rep addr n : 0 < n -> hier_rep (HierarchicalTimingWheel.make addr n) (sh_new addr n).
Proof.
  intros Hn. split.
  - pose proof (make_rep n 512 Hn) as H. change 512%nat with (256 + 256)%nat in H.
    by rewrite !replicate_add in H.
  - split_and!; try done; apply length_replicate.
Qed.

Lemma rep_bs_length a bs fl sb d : pool_rep a bs fl sb d -> length bs = length sb.
Proof. intros H. apply (Forall2_length _ _ _ (pr_buckets _ _ _ _ _ H)). Qed.

(** Allocating an entry, filling it and pushing it on a bucket. *)
Lemma schedule_push a bs bs2 i fl sb sb2 slot gen t :
  pool_rep a (bs ++ bs2) (i :: fl) (sb ++ sb2) [] -> length bs = length sb ->
  0 <= t < Z.of_nat (length sb) ->
  exists a1 a2 a3 bs', AllocEntry a = Some (a1, Some i) /\ fill_entry a1 i slot gen = Some a2
    /\ push_at a2 bs t i = Some (a3, bs') /\ length bs' = length bs
    /\ pool_rep a3 (bs' ++ bs2) fl (sw_push sb t (i, (slot, gen)) ++ sb2) [].
Proof.
  intros H Hl Ht. destruct (rep_alloc a _ fl _ [] i H) as (a1 & E1 & H1 & _).
  destruct (rep_fill a1 _ _ _ _ i slot gen H1) as (a2 & E2 & H2 & Hp & _); [set_solver|].
  destruct (rep_push a2 bs bs2 fl sb sb2 [] i t H2 Hl Ht) as (a3 & bs' & E3 & Hl' & H3 & _).
  exists a1, a2, a3, bs'. split_and!; [done..|]. unfold item_of in H3. by rewrite Hp in H3.
Qed.

Lemma expire_bucket a bs bs2 fl sb sb2 t :
  pool_rep a (bs ++ bs2) fl (sb ++ sb2) [] -> length bs = length sb -> 0 <= t < Z.of_nat (length sb) ->
  exists b a', aget bs t = Some b
    /\ aset bs t TimingWheelBucket_new = Some (<[Z.to_nat t := TimingWheelBucket_new]> bs)
    /\ expire_loop (fuel a) a (head_ b) [] = Some (a', (sw_items sb t).*2)
    /\ pool_rep a' (<[Z.to_nat t := TimingWheelBucket_new]> bs ++ bs2)
         (rev (sw_items sb t).*1 ++ fl) (<[Z.to_nat t := []]> sb ++ sb2) [].
Proof.
  intros H Hl Ht. destruct (rep_pop a bs bs2 fl sb sb2 [] t H Hl Ht) as (b & Eb & Es & Hc & Hit & Hr).
  destruct (expire_loop_spec a _ fl _ [] (sw_items sb t).*1 (head_ b) [] (fuel a) Hr Hc) as (a' & E & Hr' & _).
  { by apply (rep_length_le _ _ _ _ _ _ Hr). }
  exists b, a'. split_and!; [done|done| |done]. rewrite E. do 2 f_equal. simpl.
  transitivity ((item_of (entry_pool_ a) <$> (sw_items sb t).*1).*2); [|by rewrite <- Hit].
  rewrite <- (list_fmap_compose (item_of (entry_pool_ a)) snd). by apply list_fmap_ext.
Qed.

Lemma wheel_schedule_refines w s slot gen t :
  wheel_rep w s -> is_u 32 t ->
  exists w', TimingWheel.Schedule w slot gen t = Some (w', (sw_schedule s slot gen t).2)
    /\ wheel_rep w' (sw_schedule s slot gen t).1.
Proof.
  intros (H & Hcur & Hr & Hlen) Ht. unfold TimingWheel.Schedule, sw_schedule.
  destruct (sw_free s) as [|i fl] eqn:Ef.
  { rewrite (rep_alloc_empty _ _ _ _ H). sbind. exists w. split; [done|]. simpl. split_and!; try done; try lia.
    by rewrite Ef. }
  pose proof (rep_bs_length _ _ _ _ _ H) as Hl.
  pose proof (Z.mod_pos_bound (sw_current s + t) 1024 ltac:(lia)).
  destruct (schedule_push (TimingWheel.entries w) (TimingWheel.buckets_ w) [] i fl (sw_buckets s) []
    slot gen ((sw_current s + t) mod 1024)) as (a1 & a2 & a3 & bs' & -> & E2 & E3 & Hl' & H3);
    [by rewrite !app_nil_r|done|rewrite Hlen; lia|].
  sbind. rewrite E2. sbind. unfold TimingWheel.kWheelSize. change 1024 with (2 ^ 10) at 1.
  rewrite u32_mod_pow2, Hcur by lia. change (2 ^ 10) with 1024. rewrite E3. sbind.
  eexists. split; [done|]. rewrite !app_nil_r in H3. split_and!; simpl; try done; try lia.
  unfold sw_push. by rewrite length_insert.
Qed.

Lemma wheel_tick_refines w s :
  wheel_rep w s ->
  exists w', TimingWheel.Tick w = Some (w', (sw_tick s).2) /\ wheel_rep w' (sw_tick s).1.
Proof.
  intros (H & Hcur & Hr & Hlen). unfold TimingWheel.Tick, sw_tick. rewrite Hcur.
  pose proof (rep_bs_length _ _ _ _ _ H) as Hl.
  destruct (expire_bucket (TimingWheel.entries w) (TimingWheel.buckets_ w) [] (sw_free s) (sw_buckets s) []
    (sw_current s)) as (b & a' & -> & Es & E & H'); [by rewrite !app_nil_r|done|lia|].
  sbind. unfold PopAll. rewrite Es. sbind. rewrite E. sbind.
  eexists. split; [done|]. rewrite !app_nil_r in H'. unfold TimingWheel.kWheelSize.
  split_and!; simpl; try done.
  - change 1024 with (2 ^ 10). by apply u32_mod_pow2.
  - apply Z.mod_pos_bound. lia.
  - apply Z.mod_pos_bound. lia.
  - by rewrite length_insert.
Qed.

Lemma insert_app_r' {A} (l1 l2 : list A) (i j : nat) x :
  j = (length l1 + i)%nat -> <[j := x]> (l1 ++ l2) = l1 ++ <[i := x]> l2.
Proof. intros ->. apply insert_app_r. Qed.

(** The representation does not depend on the order of the bucket lists. *)
Lemma pool_rep_swap a bs1 bs2 fl sb1 sb2 d :
  length bs1 = length sb1 -> pool_rep a (bs1 ++ bs2) fl (sb1 ++ sb2) d -> pool_rep a (bs2 ++ bs1) fl (sb2 ++ sb1) d.
Proof.
  intros Hl [Hf Hb Hp]. constructor; [done| |].
  - apply Forall2_app_inv in Hb as [? ?]; [|done]. by apply Forall2_app.
  - rewrite <- Hp. rewrite !concat_app, !fmap_app. by rewrite (Permutation_app_comm (concat sb2).*1).
Qed.

Lemma hier_schedule_refines w s slot gen t :
  hier_rep w s -> is_u 32 t ->
  exists w', HierarchicalTimingWheel.Schedule w slot gen t = Some (w', (sh_schedule s slot gen t).2)
    /\ hier_rep w' (sh_schedule s slot gen t).1.
Proof.
  intros Hrep Ht. pose proof Hrep as (H & Hc1 & Hc2 & Had & Hr1 & Hr2 & Hl1 & Hl2 & Hlw).
  unfold HierarchicalTimingWheel.Schedule, sh_schedule.
  unfold HierarchicalTimingWheel.kLevel1Size, HierarchicalTimingWheel.kLevel1TickMs,
    HierarchicalTimingWheel.kLevel2TickMs, HierarchicalTimingWheel.kLevel2Size. change (256 * 1) with 256.
  pose proof (rep_bs_length _ _ _ _ _ H) as Hl. rewrite !length_app in Hl.
  destruct (sh_free s) as [|i fl] eqn:Ef.
  { rewrite (rep_alloc_empty _ _ _ _ H). sbind. exists w. by split. }
  destruct (t <? 256) eqn:Et.
  - pose proof (Z.mod_pos_bound (sh_current1 s + t) 256 ltac:(lia)).
    destruct (schedule_push _ _ _ i fl (sh_level1 s) (sh_level2 s) slot gen ((sh_current1 s + t) mod 256) H)
      as (a1 & a2 & a3 & bs' & -> & E2 & E3 & Hl' & H3); [congruence|lia|].
    sbind. rewrite E2. sbind. change 256 with (2 ^ 8) at 1.
    rewrite u32_mod_pow2, Hc1 by lia. change (2 ^ 8) with 256. rewrite E3. sbind.
    eexists. split; [done|]. split_and!; simpl; try done; try lia. unfold sw_push. by rewrite length_insert.
  - pose proof (Z.mod_pos_bound (sh_current2 s + t / 256) 256 ltac:(lia)).
    apply pool_rep_swap in H; [|congruence].
    destruct (schedule_push _ _ _ i fl (sh_level2 s) (sh_level1 s) slot gen
      ((sh_current2 s + t / 256) mod 256) H)
      as (a1 & a2 & a3 & bs' & -> & E2 & E3 & Hl' & H3); [lia|lia|].
    sbind. rewrite E2. sbind. change 256 with (2 ^ 8) at 2.
    rewrite u32_mod_pow2, Hc2 by lia. change (2 ^ 8) with 256. rewrite E3. sbind.
    eexists. split; [done|]. split_and!; simpl; try done; try lia.
    + apply pool_rep_swap; [|done]. unfold sw_push. rewrite length_insert. lia.
    + unfold sw_push. by rewrite length_insert.
Qed.

Lemma hier_tick_refines w s :
  hier_rep w s ->
  exists w', HierarchicalTimingWheel.Tick w = Some (w', (sh_tick s).2) /\ hier_rep w' (sh_tick s).1.
Proof.
  intros (H & Hc1 & Hc2 & Had & Hr1 & Hr2 & Hl1 & Hl2 & Hlw). unfold HierarchicalTimingWheel.Tick, sh_tick.
  rewrite Hc1. pose proof (rep_bs_length _ _ _ _ _ H) as Hl. rewrite !length_app in Hl.
  destruct (expire_bucket _ _ _ _ _ _ (sh_current1 s) H) as (b & a' & -> & Es & E & H'); [congruence|lia|].
  sbind. unfold PopAll. rewrite Es. sbind. rewrite E. sbind.
  unfold HierarchicalTimingWheel.kLevel1Size, HierarchicalTimingWheel.kLevel2Size.
  assert (Hu : forall x, u32 x mod 256 = x mod 256) by (intros x; apply (u32_mod_pow2 x 8); lia).
  rewrite !Hu.
  pose proof (Z.mod_pos_bound (sh_current1 s + 1) 256 ltac:(lia)).
  destruct ((sh_current1 s + 1) mod 256 =? 0).
  2: { eexists. split; [done|]. split_and!; simpl; try done; try lia; by rewrite length_insert. }
  rewrite Hc2. apply pool_rep_swap in H'; [|rewrite !length_insert; congruence].
  destruct (rep_pop _ _ _ _ _ _ [] (sh_current2 s) H') as (b2 & -> & Es2 & Hch & Hit & H2); [lia|lia|].
  sbind. rewrite Es2. sbind. apply pool_rep_swap in H2; [|rewrite !length_insert; lia].
  destruct (demote_loop_spec (sh_addr s) a' _ _ _ _ _ [] _ (head_ b2) (fuel a') H2) as (a2 & l1' & E2 & Hl1' & H3);
    [rewrite length_insert; lia|rewrite length_insert; lia|exact Hch|by apply (rep_length_le _ _ _ _ _ _ H2)|].
  rewrite Had, E2. sbind. rewrite <- Hit in H3. eexists. split; [done|].
  assert (Hdl : forall k items, length (sh_demote (sh_addr s) k items) = length k).
  { intros k items. revert k. unfold sh_demote. induction items as [|it items IH]; intros k; [done|].
    simpl. rewrite IH. unfold sw_push. by rewrite length_insert. }
  pose proof (Z.mod_pos_bound (sh_current2 s + 1) 256 ltac:(lia)).
  split_and!; simpl; try done; try lia.
  - rewrite Hdl. by rewrite length_insert.
  - by rewrite length_insert.
Qed.

Lemma wheel_run_refines w s os :
  wheel_rep w s -> Forall op_ok os ->
  exists w' s' outs, wheel_run TimingWheel.Schedule TimingWheel.Tick w os = Some (w', outs)
    /\ sw_run s os = Some (s', outs) /\ wheel_rep w' s'.
Proof.
  revert w s. induction os as [|o os IH]; intros w s Hw Hok; [by exists w, s, []|].
  apply Forall_cons in Hok as [Ho Hok]. unfold sw_run in *. cbn [wheel_run].
  destruct o as [sl g t|]; cbn [wheel_step].
  - destruct (wheel_schedule_refines w s sl g t Hw Ho) as (w1 & -> & H1).
    destruct (sw_schedule s sl g t) as [s1 b]. sbind. cbn [fst snd] in *.
    destruct (IH w1 s1 H1 Hok) as (w' & s' & outs & -> & E & H'). sbind.
    rewrite E. sbind. eauto 10.
  - destruct (wheel_tick_refines w s Hw) as (w1 & -> & H1).
    destruct (sw_tick s) as [s1 l]. sbind. cbn [fst snd] in *.
    destruct (IH w1 s1 H1 Hok) as (w' & s' & outs & -> & E & H'). sbind.
    rewrite E. sbind. eauto 10.
Qed.

Lemma hier_run_refines w s os :
  hier_rep w s -> Forall op_ok os ->
  exists w' s' outs, wheel_run HierarchicalTimingWheel.Schedule HierarchicalTimingWheel.Tick w os = Some (w', outs)
    /\ sh_run s os = Some (s', outs) /\ hier_rep w' s'.
Proof.
  revert w s. induction os as [|o os IH]; intros w s Hw Hok; [by exists w, s, []|].
  apply Forall_cons in Hok as [Ho Hok]. unfold sh_run in *. cbn [wheel_run].
  destruct o as [sl g t|]; cbn [wheel_step].
  - destruct (hier_schedule_refines w s sl g t Hw Ho) as (w1 & -> & H1).
    destruct (sh_schedule s sl g t) as [s1 b]. sbind. cbn [fst snd] in *.
    destruct (IH w1 s1 H1 Hok) as (w' & s' & outs & -> & E & H'). sbind.
    rewrite E. sbind. eauto 10.
  - destruct (hier_tick_refines w s Hw) as (w1 & -> & H1).
    destruct (sh_tick s) as [s1 l]. sbind. cbn [fst snd] in *.
    destruct (IH w1 s1 H1 Hok) as (w' & s' & outs & -> & E & H'). sbind.
    rewrite E. sbind. eauto 10.
Qed.

(** *** Deadlines *)

Lemma sw_items_insert bs j x t : 0 <= j < Z.of_nat (length bs) -> 0 <= t ->
  sw_items (<[Z.to_nat j := x]> bs) t = if decide (t = j) then x else sw_items bs t.
Proof.
  intros Hj Ht. unfold sw_items. case_decide as E.
  - subst. by rewrite list_lookup_insert_eq by lia.
  - by rewrite list_lookup_insert_ne by lia.
Qed.

Lemma due_schedule s slot gen k sl g t :
  0 <= sw_current s < 1024 -> length (sw_buckets s) = 1024%nat -> due s slot gen k ->
  schedules slot gen (WSchedule sl g t) = false -> due (sw_schedule s sl g t).1 slot gen k.
Proof.
  intros Hc Hl Hd Hne. unfold sw_schedule. destruct (sw_free s) as [|i fl]; [done|].
  intros u Hu. cbn [fst sw_buckets sw_current]. unfold sw_push.
  pose proof (Z.mod_pos_bound (sw_current s + t) 1024 ltac:(lia)).
  rewrite sw_items_insert by lia. case_decide as E; [|by apply Hd]. subst u.
  rewrite fmap_cons, elem_of_cons. rewrite <- (Hd ((sw_current s + t) mod 1024)) by lia.
  split; [|tauto]. intros [[= -> ->]|]; [|done]. simpl in Hne. by rewrite !Z.eqb_refl in Hne.
Qed.

(** A timeout that is scheduled is due [t mod 1024] ticks later. *)
Lemma due_scheduled s slot gen t :
  0 <= sw_current s < 1024 -> length (sw_buckets s) = 1024%nat -> due s slot gen None -> sw_free s <> [] ->
  due (sw_schedule s slot gen t).1 slot gen (Some (t mod 1024)).
Proof.
  intros Hc Hl Hd Hf. unfold sw_schedule. destruct (sw_free s) as [|i fl]; [done|].
  pose proof (Z.mod_pos_bound (sw_current s + t) 1024 ltac:(lia)).
  intros u Hu. cbn [fst sw_buckets sw_current]. unfold sw_push. rewrite sw_items_insert by lia. case_decide as Eu.
  - rewrite fmap_cons, elem_of_cons. split; [|tauto]. intros _. exists (t mod 1024). split; [done|].
    by rewrite Zplus_mod_idemp_r.
  - rewrite (Hd u Hu). split; [by intros (? & ? & _)|]. intros (j & [= <-] & ->). exfalso. apply Eu.
    by rewrite Zplus_mod_idemp_r.
Qed.

(** At its tick it is reported, and then it is gone. *)
Lemma due_now s slot gen :
  0 <= sw_current s < 1024 -> length (sw_buckets s) = 1024%nat -> due s slot gen (Some 0) ->
  (slot, gen) ∈ (sw_tick s).2 /\ due (sw_tick s).1 slot gen None.
Proof.
  intros Hc Hl Hd. unfold sw_tick. cbn [fst snd]. split.
  - apply (Hd (sw_current s) Hc). exists 0. split; [done|]. rewrite Z.add_0_r. symmetry. by apply Z.mod_small.
  - intros u Hu. cbn [sw_buckets sw_current]. rewrite sw_items_insert by lia. case_decide as E.
    + split; [set_solver|]. by intros (? & ? & _).
    + rewrite (Hd u Hu). split; [|by intros (? & ? & _)]. intros (j & [= <-] & ->). exfalso. apply E.
      rewrite Z.add_0_r. by apply Z.mod_small.
Qed.

(** Before its tick the timeout is not reported and comes one tick closer. *)
Lemma due_tick s slot gen k :
  0 <= sw_current s < 1024 -> length (sw_buckets s) = 1024%nat -> due s slot gen k ->
  (forall j, k = Some j -> 0 < j < 1024) ->
  (slot, gen) ∉ (sw_tick s).2 /\ due (sw_tick s).1 slot gen (Z.pred <$> k).
Proof.
  intros Hc Hl Hd Hk. unfold sw_tick. cbn [fst snd]. split.
  - rewrite (Hd (sw_current s)) by lia. intros (j & -> & E). specialize (Hk j eq_refl). zdm.
  - intros u Hu. cbn [sw_buckets sw_current]. rewrite sw_items_insert by lia. case_decide as E.
    + subst u. split; [set_solver|]. intros (j' & Hj & E). destruct k as [j|]; [|done].
      injection Hj as <-. specialize (Hk j eq_refl). exfalso. zdm.
    + rewrite (Hd u Hu). split.
      * intros (j & -> & ->). exists (Z.pred j). split; [done|]. rewrite Zplus_mod_idemp_l. f_equal. lia.
      * intros (j' & Hj & ->). destruct k as [j|]; [|done]. injection Hj as <-. exists j. split; [done|].
        rewrite Zplus_mod_idemp_l. f_equal. lia.
Qed.

Lemma sw_step_shape s o r s' :
  wheel_step (fun s a b c => Some (sw_schedule s a b c)) (fun s => Some (sw_tick s)) s o = Some (s', r) ->
  0 <= sw_current s < 1024 -> length (sw_buckets s) = 1024%nat ->
  0 <= sw_current s' < 1024 /\ length (sw_buckets s') = 1024%nat.
Proof.
  destruct o as [sl g t|]; cbn [wheel_step]; sbind.
  - unfold sw_schedule. destruct (sw_free s); intros [= <- <-]; [done|]. simpl.
    unfold sw_push. by rewrite length_insert.
  - intros [= <- <-] ??. simpl. rewrite length_insert. split; [apply Z.mod_pos_bound; lia|done].
Qed.

Lemma ticks_cons o os : ticks (o :: os) = (match o with WTick => 1 | _ => 0 end) + ticks os.
Proof. unfold ticks. rewrite filter_cons. destruct o; case_decide; simplify_eq; simpl length; lia. Qed.

Lemma due_run s slot gen k os s' outs :
  sw_run s os = Some (s', outs) ->
  0 <= sw_current s < 1024 -> length (sw_buckets s) = 1024%nat -> due s slot gen k ->
  forallb (fun o => negb (schedules slot gen o)) os = true ->
  (forall j, k = Some j -> ticks os <= j < 1024) ->
  Forall (fun r => ~ expires slot gen r) outs /\ due s' slot gen ((fun j => j - ticks os) <$> k)
  /\ 0 <= sw_current s' < 1024 /\ length (sw_buckets s') = 1024%nat.
Proof.
  unfold sw_run. revert s k outs. induction os as [|o os IH]; intros s k outs Hr Hc Hl Hd Hns Hk; cbn [wheel_run] in Hr.
  { injection Hr as <- <-. split; [done|]. split; [|done]. destruct k; [simpl; by rewrite Z.sub_0_r|done]. }
  destruct (wheel_step _ _ s o) as [[s1 r]|] eqn:E1; [|done]. cbn [mbind option_bind] in Hr.
  destruct (wheel_run _ _ s1 os) as [[s2 rs]|] eqn:E2; [|done]. cbn [mbind option_bind] in Hr.
  injection Hr as <- <-. destruct (sw_step_shape _ _ _ _ E1 Hc Hl) as [Hc1 Hl1].
  simpl in Hns. apply andb_prop in Hns as [Ho Hns]. apply negb_true_iff in Ho.
  assert (ticks os >= 0) by (unfold ticks; lia). setoid_rewrite ticks_cons in Hk.
  destruct o as [sl g t|]; cbn [wheel_step mbind option_bind] in E1.
  - pose proof (due_schedule s slot gen k sl g t Hc Hl Hd Ho) as Hd1.
    destruct (sw_schedule s sl g t) as [s1' b]. injection E1 as -> <-. rewrite ticks_cons.
    destruct (IH s1 k rs E2 Hc1 Hl1 Hd1 Hns) as (? & ? & ?); [intros j Hj; specialize (Hk j Hj); lia|].
    split; [|done]. constructor; [by intros []|done].
  - destruct (due_tick s slot gen k Hc Hl Hd) as [Hn Hd1].
    { intros j Hj. specialize (Hk j Hj). lia. }
    destruct (sw_tick s) as [s1' l]. injection E1 as -> <-. cbn [fst snd] in *. rewrite ticks_cons.
    destruct (IH s1 _ rs E2 Hc1 Hl1 Hd1 Hns) as (? & Hd2 & ?).
    { intros j Hj. destruct k as [j0|]; [|done]. injection Hj as <-. specialize (Hk j0 eq_refl). lia. }
    split; [by constructor|]. split; [|done]. destruct k as [j|]; [|done]. simpl in *.
    by replace (j - (1 + ticks os)) with (Z.pred j - ticks os) by lia.
Qed.

Lemma wheel_run_app {W} sch (tck : W -> option (W * list (Z * Z))) (w : W) os1 os2 :
  wheel_run sch tck w (os1 ++ os2)
  = '(w1, r1) ← wheel_run sch tck w os1; '(w2, r2) ← wheel_run sch tck w1 os2; Some (w2, r1 ++ r2).
Proof.
  revert w. induction os1 as [|o os1 IH]; intros w; cbn [app wheel_run]; sbind.
  { destruct (wheel_run sch tck w os2) as [[??]|]; done. }
  destruct (wheel_step sch tck w o) as [[w1 r]|]; [|done]. sbind. rewrite IH.
  destruct (wheel_run sch tck w1 os1) as [[w2 r1]|]; [|done]. sbind.
  destruct (wheel_run sch tck w2 os2) as [[w3 r2]|]; done.
Qed.

End lemmas.

(** ** Properties *)

Section properties.

(** C14: The single-level wheel, with its intrusive lists threaded through a
    shared pool of 65536 entries, refines an array of 1024 lists: on every
    sequence of calls, no pointer leaves the pool, the loop over a bucket
    terminates, every call returns what the array of lists returns, and the
    free list and the buckets partition the pool. *)
Theorem timing_wheel_refines (os : list WheelOp) :
  Forall op_ok os ->
  exists w s outs, wheel_run TimingWheel.Schedule TimingWheel.Tick TimingWheel.TimingWheel_new os = Some (w, outs)
    /\ sw_run (sw_new TimingWheel.kMaxEntries) os = Some (s, outs) /\ wheel_rep w s.
Proof. apply wheel_run_refines, wheel_new_rep. reflexivity. Qed.

Lemma timing_wheel_refines_witness :
  exists w s outs, wheel_run TimingWheel.Schedule TimingWheel.Tick TimingWheel.TimingWheel_new
                     [WSchedule 5 1 1; WTick; WTick] = Some (w, outs)
    /\ sw_run (sw_new TimingWheel.kMaxEntries) [WSchedule 5 1 1; WTick; WTick] = Some (s, outs).
Proof.
  destruct (timing_wheel_refines [WSchedule 5 1 1; WTick; WTick]) as (w & s & outs & E & E' & _).
  - repeat constructor; unfold is_u; simpl; lia.
  - exists w, s, outs. split; [exact E|exact E'].
Defined.

Lemma sw_run_length os s s' r :
  wheel_run (fun s a b c => Some (sw_schedule s a b c)) (fun s => Some (sw_tick s)) s os = Some (s', r) ->
  length r = length os.
Proof.
  revert s s' r. induction os as [|o os IH]; intros s s' r H; cbn [wheel_run] in H; [by injection H as <- <-|].
  destruct (wheel_step _ _ s o) as [[??]|]; [|done]. cbn [mbind option_bind] in H.
  destruct (wheel_run _ _ _ os) as [[??]|] eqn:E; [|done]. cbn [mbind option_bind] in H.
  injection H as <- <-. simpl. f_equal. by eapply IH.
Qed.

Lemma due_new n slot gen : due (sw_new n) slot gen None.
Proof.
  intros u Hu. unfold sw_items, sw_new. cbn [sw_buckets]. rewrite lookup_replicate_2 by lia. simpl.
  split; [set_solver|]. by intros (? & ? & _).
Qed.

(** When a timeout fires. A timeout that [Schedule] accepted is reported at
    the tick number [timeout mod 1024 + 1] after it and at no tick before
    (unless the same pair is scheduled again), whatever else is scheduled in
    between: timeouts of 1024 ticks or more - the default is 30000 - wrap
    around the wheel and fire early. *)
Theorem timing_wheel_deadline os1 slot gen t os2 w outs :
  Forall op_ok (os1 ++ [WSchedule slot gen t] ++ os2 ++ [WTick]) ->
  forallb (fun o => negb (schedules slot gen o)) (os1 ++ os2) = true ->
  ticks os2 = t mod 1024 ->
  wheel_run TimingWheel.Schedule TimingWheel.Tick TimingWheel.TimingWheel_new
    (os1 ++ [WSchedule slot gen t] ++ os2 ++ [WTick]) = Some (w, outs) ->
  outs !! length os1 = Some (OScheduled true) ->
  exists outs' l, outs = outs' ++ [OExpired l] /\ (slot, gen) ∈ l
    /\ Forall (fun r => ~ expires slot gen r) outs'.
Proof.
  intros Hok Hns Htk Hrun Hs. rewrite forallb_app in Hns. apply andb_prop in Hns as [Hns1 Hns2].
  destruct (wheel_run_refines TimingWheel.TimingWheel_new (sw_new TimingWheel.kMaxEntries) _
    (wheel_new_rep TimingWheel.kMaxEntries ltac:(reflexivity)) Hok) as (w' & s' & outs1 & Hrun' & Hsp & _).
  rewrite Hrun in Hrun'. injection Hrun' as <- <-. clear Hrun Hok.
  unfold sw_run in Hsp. rewrite wheel_run_app in Hsp.
  destruct (wheel_run _ _ (sw_new _) os1) as [[s1 r1]|] eqn:E1; [|done]. cbn [mbind option_bind] in Hsp.
  rewrite wheel_run_app in Hsp. cbn [wheel_run wheel_step mbind option_bind] in Hsp.
  destruct (sw_schedule s1 slot gen t) as [s2 b] eqn:E2. cbn [mbind option_bind] in Hsp.
  rewrite wheel_run_app in Hsp.
  destruct (wheel_run _ _ s2 os2) as [[s3 r2]|] eqn:E3; [|done]. cbn [mbind option_bind] in Hsp.
  cbn [wheel_run wheel_step mbind option_bind] in Hsp.
  destruct (sw_tick s3) as [s4 l] eqn:E4. cbn [mbind option_bind] in Hsp. injection Hsp as <- <-.
  pose proof (sw_run_length _ _ _ _ E1) as Hlen. rewrite lookup_app_r, Hlen, Nat.sub_diag in Hs by lia.
  injection Hs as ->.
  destruct (due_run _ slot gen None os1 s1 r1 E1 ltac:(simpl; lia) ltac:(apply length_replicate)
    (due_new _ _ _) Hns1)
    as (Hr1 & Hd1 & Hc1 & Hl1); [done|].
  pose proof (Z.mod_pos_bound t 1024 ltac:(lia)) as Htm.
  pose proof (Z.mod_pos_bound (sw_current s1 + t) 1024 ltac:(lia)).
  assert (Hfree : sw_free s1 <> []) by (intros Ef; unfold sw_schedule in E2; by rewrite Ef in E2).
  pose proof (due_scheduled s1 slot gen t Hc1 Hl1 Hd1 Hfree) as Hd2. rewrite E2 in Hd2. cbn [fst] in Hd2.
  destruct (sw_step_shape s1 (WSchedule slot gen t) (OScheduled true) s2) as [Hc2 Hl2];
    [cbn [wheel_step]; by rewrite E2|done|done|].
  destruct (due_run _ slot gen (Some (t mod 1024)) os2 s3 r2 E3 Hc2 Hl2 Hd2) as (Hr2 & Hd3 & Hc3 & Hl3).
  - done.
  - intros j [= <-]. lia.
  - exists (r1 ++ [OScheduled true] ++ r2), l. rewrite <- !(assoc_L (++)). split; [done|]. split.
    + simpl in Hd3. rewrite Htk, Z.sub_diag in Hd3. pose proof (proj1 (due_now s3 slot gen Hc3 Hl3 Hd3)) as Hin.
      by rewrite E4 in Hin.
    + apply Forall_app. split; [done|]. apply Forall_cons. split; [by intros []|done].
Qed.

Lemma deadline_example rest :
  exists s, sw_run {| sw_buckets := replicate 1024 []; sw_current := 0; sw_free := 0 :: 1 :: 2 :: rest |}
      ([WSchedule 3 1 5; WTick] ++ [WSchedule 5 1 1026] ++ [WTick; WSchedule 6 1 2; WTick] ++ [WTick])
    = Some (s, [OScheduled true; OExpired []; OScheduled true; OExpired []; OScheduled true;
                OExpired []; OExpired [(5, 1)]]).
Proof. eexists. vm_compute. reflexivity. Qed.

Lemma timing_wheel_deadline_witness :
  exists w outs, wheel_run TimingWheel.Schedule TimingWheel.Tick TimingWheel.TimingWheel_new
      ([WSchedule 3 1 5; WTick] ++ [WSchedule 5 1 1026] ++ [WTick; WSchedule 6 1 2; WTick] ++ [WTick])
    = Some (w, outs)
    /\ exists outs' l, outs = outs' ++ [OExpired l] /\ (5, 1) ∈ l
        /\ Forall (fun r => ~ expires 5 1 r) outs'.
Proof.
  assert (Hok : Forall op_ok ([WSchedule 3 1 5; WTick] ++ [WSchedule 5 1 1026]
                              ++ [WTick; WSchedule 6 1 2; WTick] ++ [WTick])).
  { repeat constructor; unfold is_u; simpl; lia. }
  destruct (wheel_run_refines TimingWheel.TimingWheel_new (sw_new TimingWheel.kMaxEntries) _
    (wheel_new_rep TimingWheel.kMaxEntries ltac:(reflexivity)) Hok) as (w & s & outs & E & Es & _).
  exists w, outs. split; [exact E|].
  apply (timing_wheel_deadline [WSchedule 3 1 5; WTick] 5 1 1026 [WTick; WSchedule 6 1 2; WTick] w outs Hok);
    [reflexivity|reflexivity|exact E|].
  destruct (deadline_example (seqZ 3 (TimingWheel.kMaxEntries - 3))) as (s' & Es').
  unfold sw_new in Es. rewrite 3!seqZ_cons in Es by reflexivity.
  change (Z.pred (Z.pred (Z.pred TimingWheel.kMaxEntries))) with (TimingWheel.kMaxEntries - 3) in Es.
  change (Z.succ (Z.succ (Z.succ 0))) with 3 in Es. change (Z.succ (Z.succ 0)) with 2 in Es.
  change (Z.succ 0) with 1 in Es. rewrite Es in Es'. injection Es' as _ ->. reflexivity.
Defined.

(** C32: The hierarchical wheel refines two arrays of 256 lists in which a level-2
    bucket is redistributed by the addresses of its entries: on every sequence
    of calls the pointer program is defined, terminates and returns what the
    arrays return, for every address of the pool. *)
Theorem hierarchical_wheel_refines (addr : Z) (os : list WheelOp) :
  Forall op_ok os ->
  exists w s outs, wheel_run HierarchicalTimingWheel.Schedule HierarchicalTimingWheel.Tick
                     (HierarchicalTimingWheel.HierarchicalTimingWheel_new addr) os = Some (w, outs)
    /\ sh_run (sh_new addr HierarchicalTimingWheel.kMaxEntries) os = Some (s, outs) /\ hier_rep w s.
Proof. apply hier_run_refines, hier_new_rep. reflexivity. Qed.

Lemma hierarchical_wheel_refines_witness :
  exists w s outs, wheel_run HierarchicalTimingWheel.Schedule HierarchicalTimingWheel.Tick
                     (HierarchicalTimingWheel.HierarchicalTimingWheel_new 4096) [WSchedule 5 1 300; WTick] = Some (w, outs)
    /\ sh_run (sh_new 4096 HierarchicalTimingWheel.kMaxEntries) [WSchedule 5 1 300; WTick] = Some (s, outs).
Proof.
  destruct (hierarchical_wheel_refines 4096 [WSchedule 5 1 300; WTick]) as (w & s & outs & E & E' & _).
  - repeat constructor; unfold is_u; simpl; lia.
  - exists w, s, outs. split; [exact E|exact E'].
Defined.

Lemma late_phase_run rest :
  exists s outs, sh_run {| sh_level1 := replicate 256 []; sh_level2 := replicate 256 []; sh_current1 := 0;
                      sh_current2 := 0; sh_addr := 2 ^ 14; sh_free := 0 :: rest |} (late_phase ++ [WTick])
    = Some (s, outs) /\ last outs = Some (OExpired [(7, 1)]).
Proof. do 2 eexists. split; [vm_compute; reflexivity|]. reflexivity. Qed.

(** A long timeout can fire at half its time. Level-2 entries are moved to
    the level-1 bucket given by their address instead of by their remaining
    time: with the entry pool at an address that is a multiple of 16384 and the
    clock one tick before a level-2 turn, a timeout of 511 ms is reported by
    the 258th tick after it was scheduled. *)
Theorem hierarchical_wheel_fires_early :
  exists w outs, wheel_run HierarchicalTimingWheel.Schedule HierarchicalTimingWheel.Tick
                   (HierarchicalTimingWheel.HierarchicalTimingWheel_new (2 ^ 14)) (late_phase ++ [WTick])
    = Some (w, outs)
    /\ ticks late_phase + 1 = 255 + 258 /\ last outs = Some (OExpired [(7, 1)]).
Proof.
  destruct (hier_run_refines (HierarchicalTimingWheel.HierarchicalTimingWheel_new (2 ^ 14))
    (sh_new (2 ^ 14) HierarchicalTimingWheel.kMaxEntries) (late_phase ++ [WTick])) as (w & s & outs & E & Es & _).
  { apply hier_new_rep. reflexivity. }
  { unfold late_phase. rewrite !Forall_app. split_and!; try (by apply Forall_replicate);
      repeat constructor; unfold is_u; simpl; lia. }
  exists w, outs. split; [exact E|]. split; [reflexivity|].
  unfold sh_new in Es. rewrite seqZ_cons in Es by reflexivity.
  destruct (late_phase_run (seqZ (Z.succ 0) (Z.pred HierarchicalTimingWheel.kMaxEntries))) as (s' & outs' & Es' & El).
  rewrite Es in Es'. by injection Es' as _ ->.
Qed.

End properties.
