(* ===== verification/QueuePair.v ===== *)
(** * The queue pair

    Models [include/rdma/core/queue_pair.h] and [src/core/queue_pair.cpp]. The
    verbs library is the class [Verbs]: a state of the device and its calls.
    [errno] is read from that state after a failing call. *)

From S2P Require Import Prelude Types WrId Verbs Buffer.

(** Queue pair attributes, the fields [queue_pair.cpp] sets. *)
Inductive ibv_qp_state := IBV_QPS_RESET | IBV_QPS_INIT | IBV_QPS_RTR | IBV_QPS_RTS | IBV_QPS_ERR.

Record ibv_qp_attr := {
  qa_qp_state : ibv_qp_state;
  qa_pkey_index : Z;
  qa_port_num : Z;
  qa_qp_access_flags : list string;
  qa_path_mtu : Z;
  qa_dest_qp_num : Z;
  qa_rq_psn : Z;
  qa_sq_psn : Z;
  qa_max_dest_rd_atomic : Z;
  qa_max_rd_atomic : Z;
  qa_min_rnr_timer : Z;
  qa_timeout : Z;
  qa_retry_cnt : Z;
  qa_rnr_retry : Z;
  qa_dlid : Z;
  qa_ah_port_num : Z;
  qa_grh : option (list Z * Z * Z);   (* dgid, sgid_index, hop_limit; [None]: not global *)
}.

Inductive attr_mask :=
  | IBV_QP_STATE | IBV_QP_PKEY_INDEX | IBV_QP_PORT | IBV_QP_ACCESS_FLAGS | IBV_QP_AV
  | IBV_QP_PATH_MTU | IBV_QP_DEST_QPN | IBV_QP_RQ_PSN | IBV_QP_MAX_DEST_RD_ATOMIC
  | IBV_QP_MIN_RNR_TIMER | IBV_QP_TIMEOUT | IBV_QP_RETRY_CNT | IBV_QP_RNR_RETRY
  | IBV_QP_SQ_PSN | IBV_QP_MAX_QP_RD_ATOMIC.

(** The verbs library: the device state, its calls (result 0 is success), and
    the work requests a send queue has accepted. The law is the manual's: a
    call with one request queues it exactly when it returns 0, and receive
    requests go to another queue. *)
Class Verbs (HW : Type) := {
  ibv_post_send : HW -> Z -> ibv_send_wr -> HW * Z;
  ibv_post_recv : HW -> Z -> ibv_recv_wr -> HW * Z;
  ibv_modify_qp : HW -> Z -> ibv_qp_attr -> list attr_mask -> HW * Z;
  errno : HW -> Z;
  posted : HW -> list ibv_send_wr;
  posted_post_send hw qp wr :
    posted (ibv_post_send hw qp wr).1
    = if (ibv_post_send hw qp wr).2 =? 0 then posted hw ++ [wr] else posted hw;
  posted_post_recv hw qp wr : posted (ibv_post_recv hw qp wr).1 = posted hw;
  posted_modify hw qp attr mask : posted (ibv_modify_qp hw qp attr mask).1 = posted hw;
}.

Module QueuePair.

Record QueuePairConfig := {
  max_send_wr : Z;
  max_recv_wr : Z;
  max_send_sge : Z;
  max_recv_sge : Z;
  max_inline_data : Z;
  signal_interval : Z;
  cq_depth : Z;
}.

Definition QueuePairConfig_default : QueuePairConfig :=
  {| max_send_wr := 4096; max_recv_wr := 4096; max_send_sge := 16; max_recv_sge := 16;
     max_inline_data := 256; signal_interval := 16; cq_depth := 65536 |}.

Record QueuePair := {
  qp_ : Z;                      (* ibv_qp*, 0 is null *)
  config_ : QueuePairConfig;
  unsignaled_count_ : Z;        (* uint32_t *)
  outstanding_signaled_ : Z;    (* uint32_t *)
}.

Definition set_counts (q : QueuePair) (unsignaled outstanding : Z) : QueuePair :=
  {| qp_ := qp_ q; config_ := config_ q; unsignaled_count_ := unsignaled;
     outstanding_signaled_ := outstanding |}.

Definition GetOutstandingSignaled (q : QueuePair) : Z := outstanding_signaled_ q.
Definition GetMaxSGE (q : QueuePair) : Z := max_send_sge (config_ q).
Definition GetConfig (q : QueuePair) : QueuePairConfig := config_ q.

Definition CanPostSignaled (q : QueuePair) : bool :=
  outstanding_signaled_ q <? cq_depth (config_ q) / 2.

Definition ShouldSignal (q : QueuePair) : QueuePair * bool :=
  let q := set_counts q (u32 (unsignaled_count_ q + 1)) (outstanding_signaled_ q) in
  if signal_interval (config_ q) <=? unsignaled_count_ q then
    if negb (CanPostSignaled q) then (q, false)
    else (set_counts q 0 (u32 (outstanding_signaled_ q + 1)), true)
  else (q, false).

Definition OnSendComplete (q : QueuePair) (was_signaled : bool) : QueuePair :=
  if was_signaled then set_counts q (unsignaled_count_ q) (u32 (outstanding_signaled_ q - 1)) else q.

(** The move constructor: the new object, and what is left of the old one. *)
Definition move (other : QueuePair) : QueuePair * QueuePair :=
  (other, {| qp_ := 0; config_ := config_ other; unsignaled_count_ := unsignaled_count_ other;
             outstanding_signaled_ := outstanding_signaled_ other |}).

(** The destructor: the raw queue pair it destroys, if any. *)
Definition destroy (q : QueuePair) : option Z := if qp_ q =? 0 then None else Some (qp_ q).

(** Move assignment; [self] says whether both operands are the same object. The
    results are the new object, what is left of the other one and the raw queue
    pair that is destroyed. *)
Definition move_assign (this : QueuePair) (self : bool) (other : QueuePair)
    : QueuePair * QueuePair * option Z :=
  if self then (this, other, None)
  else let '(q, other) := move other in (q, other, destroy this).

(** [Create]: the raw domain and queues (0 is null), [ibv_create_qp]'s result
    and [errno]. *)
Definition Create (pd send_cq recv_cq : option Z) (create_qp : Z -> Z -> Z -> QueuePairConfig -> Z)
    (err : Z) (config : QueuePairConfig) : Result QueuePair :=
  match pd with
  | None | Some 0 => RErr (Err.InvalidArgument "Invalid protection domain")
  | Some rpd =>
  match send_cq with
  | None | Some 0 => RErr (Err.InvalidArgument "Invalid send completion queue")
  | Some rsend =>
  match recv_cq with
  | None | Some 0 => RErr (Err.InvalidArgument "Invalid receive completion queue")
  | Some rrecv =>
      let qp := create_qp rpd rsend rrecv config in
      if qp =? 0 then RErr (Err.IOError "Failed to create queue pair" err)
      else RVal {| qp_ := qp; config_ := config; unsignaled_count_ := 0; outstanding_signaled_ := 0 |}
  end end end.

(** [ibv_qp_attr attr = {}]. *)
Definition zero_attr (s : ibv_qp_state) : ibv_qp_attr :=
  {| qa_qp_state := s; qa_pkey_index := 0; qa_port_num := 0; qa_qp_access_flags := [];
     qa_path_mtu := 0; qa_dest_qp_num := 0; qa_rq_psn := 0; qa_sq_psn := 0;
     qa_max_dest_rd_atomic := 0; qa_max_rd_atomic := 0; qa_min_rnr_timer := 0; qa_timeout := 0;
     qa_retry_cnt := 0; qa_rnr_retry := 0; qa_dlid := 0; qa_ah_port_num := 0; qa_grh := None |}.

Definition init_attr (port : Z) : ibv_qp_attr :=
  {| qa_qp_state := IBV_QPS_INIT; qa_pkey_index := 0; qa_port_num := port;
     qa_qp_access_flags := ["LOCAL_WRITE"; "REMOTE_WRITE"; "REMOTE_READ"];
     qa_path_mtu := 0; qa_dest_qp_num := 0; qa_rq_psn := 0; qa_sq_psn := 0;
     qa_max_dest_rd_atomic := 0; qa_max_rd_atomic := 0; qa_min_rnr_timer := 0; qa_timeout := 0;
     qa_retry_cnt := 0; qa_rnr_retry := 0; qa_dlid := 0; qa_ah_port_num := 0; qa_grh := None |}.

(** The scan of the 16 bytes of the GID. *)
Fixpoint use_grh (g : list Z) : bool :=
  match g with
  | [] => false
  | b :: g => if negb (b =? 0) then true else use_grh g
  end.

Definition rtr_attr (r : QpConnParams) : ibv_qp_attr :=
  {| qa_qp_state := IBV_QPS_RTR; qa_pkey_index := 0; qa_port_num := 0; qa_qp_access_flags := [];
     qa_path_mtu := mtu r; qa_dest_qp_num := qp_num r; qa_rq_psn := psn r; qa_sq_psn := 0;
     qa_max_dest_rd_atomic := 16; qa_max_rd_atomic := 0; qa_min_rnr_timer := 12; qa_timeout := 0;
     qa_retry_cnt := 0; qa_rnr_retry := 0; qa_dlid := lid r; qa_ah_port_num := u8 (port_num r);
     qa_grh := if use_grh (gid r) then Some (gid r, gid_index r, 64) else None |}.

Definition rts_attr : ibv_qp_attr :=
  {| qa_qp_state := IBV_QPS_RTS; qa_pkey_index := 0; qa_port_num := 0; qa_qp_access_flags := [];
     qa_path_mtu := 0; qa_dest_qp_num := 0; qa_rq_psn := 0; qa_sq_psn := 0;
     qa_max_dest_rd_atomic := 0; qa_max_rd_atomic := 16; qa_min_rnr_timer := 0; qa_timeout := 14;
     qa_retry_cnt := 7; qa_rnr_retry := 7; qa_dlid := 0; qa_ah_port_num := 0; qa_grh := None |}.

Section device.
Context {HW : Type} `{!Verbs HW}.

(** A call of [ibv_modify_qp] and the status of its failure. *)
Definition modify (hw : HW) (q : QueuePair) (attr : ibv_qp_attr) (flags : list attr_mask)
    (msg : string) : HW * Status :=
  let '(hw, ret) := ibv_modify_qp hw (qp_ q) attr flags in
  if negb (ret =? 0) then (hw, Err.IOError msg (errno hw)) else (hw, Err.Status_OK).

Definition TransitionToInit (hw : HW) (q : QueuePair) (port : Z) : HW * Status :=
  modify hw q (init_attr port) [IBV_QP_STATE; IBV_QP_PKEY_INDEX; IBV_QP_PORT; IBV_QP_ACCESS_FLAGS]
    "Failed to transition QP to INIT".

Definition TransitionToRTR (hw : HW) (q : QueuePair) (remote : QpConnParams) : HW * Status :=
  modify hw q (rtr_attr remote)
    [IBV_QP_STATE; IBV_QP_AV; IBV_QP_PATH_MTU; IBV_QP_DEST_QPN; IBV_QP_RQ_PSN;
     IBV_QP_MAX_DEST_RD_ATOMIC; IBV_QP_MIN_RNR_TIMER] "Failed to transition QP to RTR".

Definition TransitionToRTS (hw : HW) (q : QueuePair) : HW * Status :=
  modify hw q rts_attr
    [IBV_QP_STATE; IBV_QP_TIMEOUT; IBV_QP_RETRY_CNT; IBV_QP_RNR_RETRY; IBV_QP_SQ_PSN;
     IBV_QP_MAX_QP_RD_ATOMIC] "Failed to transition QP to RTS".

Definition TransitionToError (hw : HW) (q : QueuePair) : HW * Status :=
  modify hw q (zero_attr IBV_QPS_ERR) [IBV_QP_STATE] "Failed to transition QP to ERROR".

Definition Reset (hw : HW) (q : QueuePair) : HW * QueuePair * Status :=
  let '(hw, s) := modify hw q (zero_attr IBV_QPS_RESET) [IBV_QP_STATE] "Failed to reset QP" in
  if status_ok s then (hw, set_counts q 0 0, s) else (hw, q, s).

(** The single element built from a [Buffer]. *)
Definition sge_of_buffer (buf : Buffer) : ibv_sge :=
  {| sge_addr := Buffer.addr_ buf; sge_length := u32 (Buffer.length_ buf); sge_lkey := Buffer.lkey_ buf |}.

(** [ibv_post_send] and the status of its failure. *)
Definition post (hw : HW) (q : QueuePair) (wr : ibv_send_wr) (msg : string) : HW * Status :=
  let '(hw, ret) := ibv_post_send hw (qp_ q) wr in
  if negb (ret =? 0) then (hw, Err.IOError msg (errno hw)) else (hw, Err.Status_OK).

Definition DoPostSend (hw : HW) (q : QueuePair) (buf : Buffer) (wrid : Z) (signaled : bool)
    : HW * Status :=
  post hw q {| wr_id := wrid; opcode := IBV_WR_SEND;
               send_flags := {| SIGNALED := signaled; INLINE := false |};
               sg_list := [sge_of_buffer buf]; imm_data := 0; remote_addr := 0; rkey := 0 |}
    "ibv_post_send failed".

Definition PostSend (hw : HW) (q : QueuePair) (buf : Buffer) (wrid : Z) : HW * QueuePair * Status :=
  let '(q, signaled) := ShouldSignal q in
  let '(hw, s) := DoPostSend hw q buf wrid signaled in (hw, q, s).

Definition PostSendInline (hw : HW) (q : QueuePair) (data length wrid : Z) : HW * QueuePair * Status :=
  if max_inline_data (config_ q) <? length
  then (hw, q, Err.InvalidArgument "Data too large for inline send")
  else
    let '(q, signaled) := ShouldSignal q in
    let '(hw, s) :=
      post hw q {| wr_id := wrid; opcode := IBV_WR_SEND;
                   send_flags := {| SIGNALED := signaled; INLINE := true |};
                   sg_list := [{| sge_addr := data; sge_length := u32 length; sge_lkey := 0 |}];
                   imm_data := 0; remote_addr := 0; rkey := 0 |} "ibv_post_send inline failed" in
    (hw, q, s).

Definition PostWrite (hw : HW) (q : QueuePair) (buf : Buffer) (raddr rk wrid : Z)
    : HW * QueuePair * Status :=
  let '(q, signaled) := ShouldSignal q in
  let '(hw, s) :=
    post hw q {| wr_id := wrid; opcode := IBV_WR_RDMA_WRITE;
                 send_flags := {| SIGNALED := signaled; INLINE := false |};
                 sg_list := [sge_of_buffer buf]; imm_data := 0; remote_addr := raddr; rkey := rk |}
      "ibv_post_send RDMA write failed" in
  (hw, q, s).

(** Byte order: [htonl] and [ntohl] on a little-endian host. *)
Definition htonl (x : Z) : Z := le_word (rev (le_bytes 4 x)).
Definition ntohl (x : Z) : Z := htonl x.

Definition PostWriteWithImm (hw : HW) (q : QueuePair) (buf : Buffer) (raddr rk imm wrid : Z)
    : HW * QueuePair * Status :=
  let '(q, signaled) := ShouldSignal q in
  let '(hw, s) :=
    post hw q {| wr_id := wrid; opcode := IBV_WR_RDMA_WRITE_WITH_IMM;
                 send_flags := {| SIGNALED := signaled; INLINE := false |};
                 sg_list := [sge_of_buffer buf]; imm_data := htonl imm; remote_addr := raddr; rkey := rk |}
      "ibv_post_send RDMA write with imm failed" in
  (hw, q, s).

Definition PostRead (hw : HW) (q : QueuePair) (buf : Buffer) (raddr rk wrid : Z)
    : HW * QueuePair * Status :=
  let '(q, signaled) := ShouldSignal q in
  let '(hw, s) :=
    post hw q {| wr_id := wrid; opcode := IBV_WR_RDMA_READ;
                 send_flags := {| SIGNALED := signaled; INLINE := false |};
                 sg_list := [sge_of_buffer buf]; imm_data := 0; remote_addr := raddr; rkey := rk |}
      "ibv_post_send RDMA read failed" in
  (hw, q, s).

Definition PostRecv (hw : HW) (q : QueuePair) (buf : Buffer) (wrid : Z) : HW * Status :=
  let '(hw, ret) := ibv_post_recv hw (qp_ q) {| rwr_id := wrid; rsg_list := [sge_of_buffer buf] |} in
  if negb (ret =? 0) then (hw, Err.IOError "ibv_post_recv failed" (errno hw)) else (hw, Err.Status_OK).

(** [iov] is the array from the current offset on; [None] is a read past it. *)
Definition DoPostSendSGL (hw : HW) (q : QueuePair) (iov : list iovec) (count lkey wrid : Z)
    (signaled : bool) : option (HW * Status) :=
  if 16 <? count then Some (hw, Err.InvalidArgument "Too many SGEs")
  else
    v ← mread iov 0 count;
    Some (post hw q
      {| wr_id := wrid; opcode := IBV_WR_SEND;
         send_flags := {| SIGNALED := signaled; INLINE := false |};
         sg_list := (fun v => {| sge_addr := iov_base v; sge_length := u32 (iov_len v);
                                 sge_lkey := lkey |}) <$> v;
         imm_data := 0; remote_addr := 0; rkey := 0 |} "ibv_post_send SGL failed").

(** The [wr_id] of a fragment: its index is in the top byte of the slot field. *)
Definition frag_wr_id (conn_id generation wr_id_base fragment_index : Z) : Z :=
  WrId.Encode conn_id REQUEST_SEND generation
    (Z.lor (Z.land (u32 wr_id_base) 0xFFFFFF) (u32 (Z.shiftl fragment_index 24))).

(** The loop of [PostSendSGL]; [Some None] when the fuel ends. *)
Fixpoint sgl_loop (fuel : nat) (hw : HW) (q : QueuePair) (iov : list iovec)
    (max_sge remaining offset fragment_index wr_id_base conn_id generation : Z)
    : option (option (HW * QueuePair * Status)) :=
  if remaining <=? 0 then Some (Some (hw, q, Err.Status_OK))
  else
    match fuel with
    | O => Some None
    | S fuel =>
        let chunk := if remaining <? max_sge then remaining else max_sge in
        let is_last := remaining =? chunk in
        let wrid := frag_wr_id conn_id generation wr_id_base fragment_index in
        let '(q, signaled) := if is_last then ShouldSignal q else (q, false) in
        '(hw, s) ← DoPostSendSGL hw q (drop (Z.to_nat offset) iov) chunk 0 wrid signaled;
        if negb (status_ok s) then Some (Some (hw, q, s))
        else sgl_loop fuel hw q iov max_sge (remaining - chunk) (offset + chunk)
               (u32 (fragment_index + 1)) wr_id_base conn_id generation
    end.

Definition PostSendSGL (fuel : nat) (hw : HW) (q : QueuePair) (iov : list iovec)
    (iov_count wr_id_base conn_id generation : Z) : option (option (HW * QueuePair * Status)) :=
  let max_sge := max_send_sge (config_ q) in
  if iov_count <=? max_sge then
    let '(q, signaled) := ShouldSignal q in
    '(hw, s) ← DoPostSendSGL hw q iov iov_count 0 wr_id_base signaled;
    Some (Some (hw, q, s))
  else sgl_loop fuel hw q iov max_sge iov_count 0 0 wr_id_base conn_id generation.

End device.

(** [GetLocalParams], from the results of the two queries on the device: LID and
    active MTU of the port, and the GID. *)
Definition GetLocalParams (q : QueuePair) (qpn port gidx : Z) (query_port : Result (Z * Z))
    (query_gid : Result (list Z)) : Result QpConnParams :=
  match query_port with
  | RErr s => RErr s
  | RVal (l, m) =>
      match query_gid with
      | RErr s => RErr s
      | RVal g => RVal {| lid := l; qp_num := qpn; psn := 0; gid := g; port_num := port;
                          gid_index := u8 gidx; mtu := m |}
      end
  end.

End QueuePair.

(** ** Specification *)

Section specification.
Import QueuePair.

(** A signaling decision; the second component counts the signaled requests. *)
Definition sig_step (s : QueuePair * Z) : QueuePair * Z :=
  let '(q, b) := ShouldSignal s.1 in (q, if b then s.2 + 1 else s.2).

Definition sig_run (q : QueuePair) (n : nat) : QueuePair * Z := Nat.iter n sig_step (q, 0).

Definition fresh (config : QueuePairConfig) : QueuePair :=
  {| qp_ := 1; config_ := config; unsignaled_count_ := 0; outstanding_signaled_ := 0 |}.

Definition config_wf (c : QueuePairConfig) : Prop := is_u 32 (signal_interval c) /\ is_u 32 (cq_depth c).

(** A device that accepts every request: its state is what was posted. *)
#[export, refine] Instance accepting : Verbs (list ibv_send_wr) := {|
  ibv_post_send hw _ wr := (hw ++ [wr], 0);
  ibv_post_recv hw _ _ := (hw, 0);
  ibv_modify_qp hw _ _ _ := (hw, 0);
  errno _ := 0;
  posted hw := hw;
|}.
Proof. all: done. Defined.

(** The scatter-gather description a request list sends, in order. *)
Definition sent (ws : list ibv_send_wr) : list ibv_sge := concat (sg_list <$> ws).

Definition is_signaled (w : ibv_send_wr) : bool := SIGNALED (send_flags w).

Definition signaled (ws : list ibv_send_wr) : Z := Z.of_nat (length (filter (fun w => is_signaled w = true) ws)).

(** What is done with a queue pair: requests of every kind, and the completion of
    a signaled request. *)
Inductive QpOp :=
  | QSend (buf : Buffer) (wrid : Z)
  | QSendInline (data length wrid : Z)
  | QWrite (buf : Buffer) (raddr rk wrid : Z)
  | QWriteWithImm (buf : Buffer) (raddr rk imm wrid : Z)
  | QRead (buf : Buffer) (raddr rk wrid : Z)
  | QSendSGL (iov : list iovec) (wr_id_base conn_id generation : Z)
  | QCompleted.

(** The device, the queue pair, and how many signaled requests have completed. *)
Record Traffic (HW : Type) := { device : HW; queue_pair : QueuePair; completed : Z }.
#[global] Arguments device {HW} _.
#[global] Arguments queue_pair {HW} _.
#[global] Arguments completed {HW} _.

Section traffic.
Context {HW : Type} `{!Verbs HW}.
Implicit Types (t : Traffic HW).

(** The signaled requests the device has taken and not completed. *)
Definition outstanding t : Z := signaled (posted (device t)) - completed t.

(** The result of a post, and whether it reported OK. *)
Definition posting t (r : HW * QueuePair * Status) : Traffic HW * bool :=
  let '(h, q, s) := r in ({| device := h; queue_pair := q; completed := completed t |}, status_ok s).

(** Only an outstanding request completes; the owner then reports it. *)
Definition qp_step t (o : QpOp) : option (Traffic HW * bool) :=
  let h := device t in
  let q := queue_pair t in
  match o with
  | QSend buf wrid => Some (posting t (PostSend h q buf wrid))
  | QSendInline data len wrid => Some (posting t (PostSendInline h q data len wrid))
  | QWrite buf raddr rk wrid => Some (posting t (PostWrite h q buf raddr rk wrid))
  | QWriteWithImm buf raddr rk imm wrid => Some (posting t (PostWriteWithImm h q buf raddr rk imm wrid))
  | QRead buf raddr rk wrid => Some (posting t (PostRead h q buf raddr rk wrid))
  | QSendSGL iov base conn gen =>
      r ← PostSendSGL (length iov) h q iov (Z.of_nat (length iov)) base conn gen;
      r ← r; Some (posting t r)
  | QCompleted =>
      Some (if 0 <? outstanding t
            then {| device := h; queue_pair := OnSendComplete q true; completed := completed t + 1 |} else t, true)
  end.

Fixpoint qp_run t (os : list QpOp) : option (Traffic HW * list bool) :=
  match os with
  | [] => Some (t, [])
  | o :: os => '(t, ok) ← qp_step t o; '(t, oks) ← qp_run t os; Some (t, ok :: oks)
  end.

(** The count of a queue pair is within its bound. *)
Definition within (q : QueuePair) : Prop :=
  is_u 32 (cq_depth (config_ q)) /\ 0 <= outstanding_signaled_ q <= cq_depth (config_ q) / 2.

(** A post has put on the queue some requests, of which the count has kept track:
    of all that are signaled, and when it reports OK of no others. *)
Definition accounted (h : HW) (q : QueuePair) (r : HW * QueuePair * Status) : Prop :=
  let '(h', q', s) := r in
  within q' /\ config_ q' = config_ q
  /\ exists ws, posted h' = posted h ++ ws
       /\ signaled ws <= outstanding_signaled_ q' - outstanding_signaled_ q
       /\ (status_ok s = true -> signaled ws = outstanding_signaled_ q' - outstanding_signaled_ q).

Definition traffic_ok t (exact : bool) : Prop :=
  within (queue_pair t) /\ 0 <= outstanding t <= outstanding_signaled_ (queue_pair t)
  /\ (exact = true -> outstanding t = outstanding_signaled_ (queue_pair t)).

End traffic.

(** What a call of [PostSendSGL] has put on the queue: requests [ws] that send
    the elements of a prefix of [iov], in order, each non-empty and within the
    limit, and only the request that ends the list may be signaled. *)
Record fragments (max_sge : Z) (iov : list iovec) (ws : list ibv_send_wr) (ok : bool) : Prop := {
  fr_prefix : exists k, sent ws = sge_of 0 <$> take k iov
    /\ (ok = true -> k = length iov)
    /\ (forall j w, ws !! j = Some w -> is_signaled w = true -> S j = length ws /\ k = length iov);
  fr_size : Forall (fun w => 0 < Z.of_nat (length (sg_list w)) <= max_sge) ws;
}.

(** Five elements for a queue pair limited to two. *)
Definition example_iov : list iovec :=
  (fun i => {| iov_base := 4096 * (i + 1); iov_len := 100 + i |}) <$> seqZ 0 5.

Definition small_sge_config (n : Z) : QueuePairConfig :=
  {| max_send_wr := 16; max_recv_wr := 16; max_send_sge := n; max_recv_sge := 2; max_inline_data := 64;
     signal_interval := 1; cq_depth := 8 |}.

End specification.

(** ** Lemmas *)

Section lemmas.
Import QueuePair.

Lemma ShouldSignal_config q : config_ (ShouldSignal q).1 = config_ q.
Proof. unfold ShouldSignal. simpl. repeat case_match; done. Qed.

(** Without completions: the state after [n] posts. *)
Lemma sig_posts c (n : nat) :
  config_wf c -> 0 < signal_interval c ->
  let k := Z.of_nat n / signal_interval c in
  let s := sig_run (fresh c) n in
  config_ s.1 = c /\ s.2 = Z.min k (cq_depth c / 2) /\ outstanding_signaled_ s.1 = s.2
  /\ (k < cq_depth c / 2 -> unsignaled_count_ s.1 = Z.of_nat n mod signal_interval c).
Proof.
  intros [Hi Hd] Hpos. cbv zeta. unfold sig_run.
  assert (0 <= cq_depth c / 2 < 2 ^ 31) as HD by (unfold is_u in Hd; zdm).
  induction n as [|n IH].
  { simpl. rewrite Z.div_0_l, Z.mod_0_l by lia. split_and!; try done. lia. }
  change (Nat.iter (S n) sig_step (fresh c, 0)) with (sig_step (Nat.iter n sig_step (fresh c, 0))).
  destruct (Nat.iter n sig_step (fresh c, 0)) as [q m]. cbn [fst snd] in IH. unfold sig_step. cbn [fst snd].
  destruct IH as (Hc & Hm & Ho & Hu). replace (Z.of_nat (S n)) with (Z.of_nat n + 1) by lia.
  set (I := signal_interval c) in *. set (D := cq_depth c / 2) in *.
  assert (Hdiv : forall x, 0 <= x -> (x + 1) / I = x / I + (if x mod I + 1 =? I then 1 else 0)
                 /\ (x + 1) mod I = if x mod I + 1 =? I then 0 else x mod I + 1).
  { clear -Hpos. intros x Hx. pose proof (Z.div_mod x I ltac:(lia)). pose proof (Z.mod_pos_bound x I Hpos).
    case Z.eqb_spec; intros.
    - split; [symmetry; apply (Z.div_unique _ _ _ 0); lia|symmetry; apply (Z.mod_unique _ _ (x / I + 1)); lia].
    - split; [symmetry; apply (Z.div_unique _ _ _ (x mod I + 1)); lia|
              symmetry; apply (Z.mod_unique _ _ (x / I)); lia]. }
  destruct (Hdiv (Z.of_nat n) ltac:(lia)) as [Ed Em]. rewrite Ed, Em.
  assert (0 <= Z.of_nat n / I) as Hk0 by (apply Z.div_pos; lia).
  unfold ShouldSignal. cbn [set_counts config_ unsignaled_count_ outstanding_signaled_].
  unfold CanPostSignaled. cbn [set_counts config_ unsignaled_count_ outstanding_signaled_].
  rewrite Hc. fold I D. rewrite Ho.
  destruct (decide (Z.of_nat n / I < D)) as [Hlt|Hge].
  - rewrite (Hu Hlt). pose proof (Z.mod_pos_bound (Z.of_nat n) I Hpos). unfold is_u in Hi. fold I in Hi.
    rewrite (wrap_id 32 (_ + 1)) by (unfold is_u; lia).
    assert (m = Z.of_nat n / I) as Em' by lia.
    destruct (Z.leb_spec I (Z.of_nat n mod I + 1)); simpl.
    + destruct (Z.ltb_spec m D); [|lia]. simpl. rewrite wrap_id by (unfold is_u; lia).
      destruct (Z.eqb_spec (Z.of_nat n mod I + 1) I); [|lia]. split_and!; [done|lia|done|done].
    + destruct (Z.eqb_spec (Z.of_nat n mod I + 1) I); [lia|]. rewrite Z.add_0_r. split_and!; [done|lia|done|done].
  - assert (m = D) as -> by lia. destruct (Z.ltb_spec D D); [lia|].
    destruct (I <=? _); cbn; (split_and!; [done| |done|]);
      destruct (Z.of_nat n mod I + 1 =? I); lia.
Qed.

Lemma htonl_involutive x : is_u 32 x -> htonl (htonl x) = x.
Proof.
  intros Hx. unfold htonl. cbn [le_bytes rev app le_word].
  set (b0 := x mod 256). set (b1 := x / 256 mod 256). set (b2 := x / 256 / 256 mod 256).
  set (b3 := x / 256 / 256 / 256 mod 256).
  assert (0 <= b0 < 256 /\ 0 <= b1 < 256 /\ 0 <= b2 < 256 /\ 0 <= b3 < 256) as (? & ? & ? & ?)
    by (split_and!; apply Z.mod_pos_bound; lia).
  assert (x = b0 + 256 * (b1 + 256 * (b2 + 256 * b3))) as Ex by (subst b0 b1 b2 b3; unfold is_u in Hx; zdm).
  clearbody b0 b1 b2 b3. subst x. zdm.
Qed.

Section device.
Context {HW : Type} `{!Verbs HW}.
Implicit Types (hw : HW) (q : QueuePair).

Lemma post_spec hw q wr msg hw' s :
  post hw q wr msg = (hw', s) ->
  if status_ok s then posted hw' = posted hw ++ [wr] else posted hw' = posted hw.
Proof.
  unfold post. pose proof (posted_post_send hw (qp_ q) wr) as Hp.
  destruct (ibv_post_send hw (qp_ q) wr) as [hw1 ret]. simpl in Hp. case Z.eqb_spec; intros Er; simpl.
  - intros [= <- <-]. rewrite Er in Hp. done.
  - intros [= <- <-]. simpl. destruct (Z.eqb_spec ret 0); done.
Qed.

(** *** Keeping count of signaled requests *)

Lemma signaled_app ws1 ws2 : signaled (ws1 ++ ws2) = signaled ws1 + signaled ws2.
Proof. unfold signaled. rewrite filter_app, length_app. lia. Qed.

Lemma signaled_one w : signaled [w] = if is_signaled w then 1 else 0.
Proof. unfold signaled. rewrite filter_cons. case_decide as E; [by rewrite E|]. by destruct (is_signaled w). Qed.

Lemma ShouldSignal_within q :
  within q ->
  let '(q', b) := ShouldSignal q in
  within q' /\ config_ q' = config_ q /\ outstanding_signaled_ q' = outstanding_signaled_ q + if b then 1 else 0.
Proof.
  intros [Hd Ho]. assert (cq_depth (config_ q) / 2 < 2 ^ 31) by (unfold is_u in Hd; zdm).
  unfold within, ShouldSignal, CanPostSignaled. cbn [set_counts config_ unsignaled_count_ outstanding_signaled_].
  destruct (_ <=? _); [|cbn; split_and!; done || lia].
  destruct (Z.ltb_spec (outstanding_signaled_ q) (cq_depth (config_ q) / 2)); cbn; [|split_and!; done || lia].
  rewrite wrap_id by (unfold is_u; lia). split_and!; done || lia.
Qed.

(** One request after another. *)
Lemma accounted_trans hw q hw1 q1 s1 r :
  accounted hw q (hw1, q1, s1) -> status_ok s1 = true -> accounted hw1 q1 r -> accounted hw q r.
Proof.
  destruct r as [[hw2 q2] s2]. intros (_ & C1 & ws1 & P1 & _ & E1) Hs (W2 & C2 & ws2 & P2 & L2 & E2).
  specialize (E1 Hs). split; [done|]. split; [congruence|]. exists (ws1 ++ ws2). rewrite signaled_app, P2, P1, app_assoc.
  split; [done|]. split; [lia|]. intros Hs2. specialize (E2 Hs2). lia.
Qed.

Lemma accounted_none hw q s : within q -> accounted hw q (hw, q, s).
Proof.
  intros Hq. split; [done|]. split; [done|]. exists []. change (signaled []) with 0. rewrite app_nil_r. split_and!; [done|lia|intros _; lia].
Qed.

(** A request posted with a signaling decision. *)
Lemma accounted_one hw q q' (b : bool) hw' s w :
  within q' -> config_ q' = config_ q -> outstanding_signaled_ q' = outstanding_signaled_ q + (if b then 1 else 0) ->
  is_signaled w = b -> (if status_ok s then posted hw' = posted hw ++ [w] else posted hw' = posted hw) ->
  accounted hw q (hw', q', s).
Proof.
  intros Hw Hc Ho Hb. destruct (status_ok s) eqn:Es; intros Hp; (split; [done|]); (split; [done|]).
  - exists [w]. rewrite signaled_one, Hb, Ho. split; [done|]. split; [|intros _]; lia.
  - exists []. change (signaled []) with 0. rewrite app_nil_r, Ho. split_and!; [done|destruct b; cbv iota; lia|congruence].
Qed.

Lemma post_accounted hw q (wr : bool -> ibv_send_wr) msg :
  within q -> (forall b, is_signaled (wr b) = b) ->
  accounted hw q (let '(q, b) := ShouldSignal q in let '(hw, s) := post hw q (wr b) msg in (hw, q, s)).
Proof.
  intros Hq Hb. pose proof (ShouldSignal_within q Hq) as H. destruct (ShouldSignal q) as [q' b]. destruct H as (H1 & H2 & H3).
  destruct (post hw q' (wr b) msg) as [hw' s] eqn:E. apply post_spec in E. by eapply accounted_one.
Qed.

(** The request one call of [DoPostSendSGL] builds. *)
Definition sgl_wr (v : list iovec) (wrid : Z) (signaled : bool) : ibv_send_wr :=
  {| wr_id := wrid; opcode := IBV_WR_SEND; send_flags := {| SIGNALED := signaled; INLINE := false |};
     sg_list := sge_of 0 <$> v; imm_data := 0; remote_addr := 0; rkey := 0 |}.

Lemma DoPostSendSGL_spec hw q iov count wrid signaled :
  0 <= count <= 16 -> count <= Z.of_nat (length iov) ->
  exists hw' s, DoPostSendSGL hw q iov count 0 wrid signaled = Some (hw', s)
    /\ if status_ok s then posted hw' = posted hw ++ [sgl_wr (take (Z.to_nat count) iov) wrid signaled]
       else posted hw' = posted hw.
Proof.
  intros Hc Hl. unfold DoPostSendSGL. destruct (Z.ltb_spec 16 count); [lia|].
  unfold mread. rewrite decide_True by lia. sbind. change (drop (Z.to_nat 0) iov) with iov.
  destruct (post hw q _ _) as [hw' s] eqn:E. exists hw', s. split; [done|].
  by apply post_spec in E.
Qed.

Lemma sgl_loop_done fuel hw q iov max_sge remaining offset idx base conn gen :
  remaining <= 0 -> sgl_loop fuel hw q iov max_sge remaining offset idx base conn gen = Some (Some (hw, q, Err.Status_OK)).
Proof. intros H. destruct fuel; cbn [sgl_loop]; by rewrite (proj2 (Z.leb_le _ _) H). Qed.

Lemma fragments_none max_sge v b : (b = true -> v = []) -> fragments max_sge v [] b.
Proof.
  intros H. constructor; [|done]. exists 0%nat. split_and!; [done|intros Hb; by rewrite H|]. by intros j w ?.
Qed.

Lemma sgl_loop_spec fuel hw q iov max_sge remaining offset idx base conn gen :
  1 <= max_sge <= 16 -> 0 <= offset -> 0 <= remaining -> offset + remaining = Z.of_nat (length iov) ->
  remaining <= Z.of_nat fuel ->
  exists hw' q' s ws, sgl_loop fuel hw q iov max_sge remaining offset idx base conn gen
                      = Some (Some (hw', q', s))
    /\ posted hw' = posted hw ++ ws
    /\ fragments max_sge (drop (Z.to_nat offset) iov) ws (status_ok s).
Proof.
  intros Hm. revert hw q remaining offset idx.
  induction fuel as [|fuel IH]; intros hw q remaining offset idx Ho Hr Hl Hf; destruct (Z.leb_spec remaining 0) as [Hz|Hz].
  1,3: exists hw, q, Err.Status_OK, []; rewrite sgl_loop_done, app_nil_r by done; split_and!; [done..|];
    apply fragments_none; intros _; apply drop_ge; lia.
  { lia. }
  cbn [sgl_loop]. rewrite (proj2 (Z.leb_gt _ _)) by lia.
  set (chunk := if remaining <? max_sge then remaining else max_sge).
  assert (0 < chunk <= remaining /\ chunk <= max_sge) as [Hc1 Hc2].
  { subst chunk. destruct (Z.ltb_spec remaining max_sge); lia. }
  set (v := drop (Z.to_nat offset) iov).
  assert (Hv : Z.of_nat (length v) = remaining) by (subst v; rewrite length_drop; lia).
  set (qs := if remaining =? chunk then ShouldSignal q else (q, false)).
  assert (Hsig : qs.2 = true -> remaining = chunk).
  { subst qs. case Z.eqb_spec; [done|]. intros _. by simpl. }
  destruct qs as [q1 signaled]. simpl in Hsig.
  destruct (DoPostSendSGL_spec hw q1 v chunk (frag_wr_id conn gen base idx) signaled)
    as (hw1 & s1 & -> & Hp); [lia|lia|]. sbind.
  assert (Hlen : Z.of_nat (length (sg_list (sgl_wr (take (Z.to_nat chunk) v) (frag_wr_id conn gen base idx) signaled)))
                 = chunk).
  { simpl. rewrite length_fmap, length_take. lia. }
  destruct (status_ok s1) eqn:Es1; simpl negb; cbv iota.
  2: { exists hw1, q1, s1, []. rewrite app_nil_r, Es1. split_and!; [done..|]. by apply fragments_none. }
  destruct (IH hw1 q1 (remaining - chunk) (offset + chunk) (u32 (idx + 1)))
    as (hw' & q' & s & ws & E & Hp' & [(k & Hk & Hok & Hsg) Hsz]); [lia|lia|lia|lia|].
  assert (Hdrop : drop (Z.to_nat (offset + chunk)) iov = drop (Z.to_nat chunk) v).
  { subst v. rewrite drop_drop. f_equal. lia. }
  rewrite Hdrop in Hk, Hok, Hsg. rewrite length_drop in Hok, Hsg.
  exists hw', q', s, (sgl_wr (take (Z.to_nat chunk) v) (frag_wr_id conn gen base idx) signaled :: ws).
  split; [done|]. split; [by rewrite Hp', Hp, <- app_assoc|].
  constructor; [|constructor; [lia|done]].
  exists (Z.to_nat chunk + k)%nat. split_and!.
  - unfold sent in *. rewrite fmap_cons. cbn [concat sg_list sgl_wr]. rewrite Hk.
    rewrite <- fmap_app. f_equal. by rewrite take_take_drop.
  - intros Hs. specialize (Hok Hs). lia.
  - intros [|j] w Hw Hw2.
    + injection Hw as <-. simpl in Hw2. specialize (Hsig Hw2).
      assert (ws = [] /\ status_ok s = true) as [-> Eok].
      { rewrite sgl_loop_done in E by lia. injection E as <- <- <-. split; [|done].
        symmetry in Hp'. rewrite <- (app_nil_r (posted hw1)) in Hp' at 2. by apply app_inv_head in Hp'. }
      split; [done|]. rewrite (Hok Eok). lia.
    + destruct (Hsg j w Hw Hw2) as [? ->]. simpl. lia.
Qed.

Lemma sgl_loop_accounted fuel hw q iov max_sge remaining offset idx base conn gen :
  1 <= max_sge <= 16 -> 0 <= offset -> 0 <= remaining -> offset + remaining = Z.of_nat (length iov) ->
  remaining <= Z.of_nat fuel -> within q ->
  exists r, sgl_loop fuel hw q iov max_sge remaining offset idx base conn gen = Some (Some r) /\ accounted hw q r.
Proof.
  intros Hm. revert hw q remaining offset idx.
  induction fuel as [|fuel IH]; intros hw q remaining offset idx Ho Hr Hl Hf Hq; destruct (Z.leb_spec remaining 0) as [Hz|Hz].
  1,3: eexists; rewrite sgl_loop_done by done; split; [done|by apply accounted_none].
  { lia. }
  cbn [sgl_loop]. rewrite (proj2 (Z.leb_gt _ _)) by lia.
  set (chunk := if remaining <? max_sge then remaining else max_sge).
  assert (0 < chunk <= remaining /\ chunk <= max_sge) as [Hc1 Hc2].
  { subst chunk. destruct (Z.ltb_spec remaining max_sge); lia. }
  assert (Hsig : let '(q', b) := if remaining =? chunk then ShouldSignal q else (q, false) in
    within q' /\ config_ q' = config_ q /\ outstanding_signaled_ q' = outstanding_signaled_ q + if b then 1 else 0).
  { destruct (_ =? _); [by apply ShouldSignal_within|]. split_and!; [done|done|cbv iota; lia]. }
  destruct (if remaining =? chunk then ShouldSignal q else (q, false)) as [q1 b]. destruct Hsig as (H1 & H2 & H3).
  destruct (DoPostSendSGL_spec hw q1 (drop (Z.to_nat offset) iov) chunk (frag_wr_id conn gen base idx) b)
    as (hw1 & s1 & -> & Hp); [lia|rewrite length_drop; lia|]. sbind.
  assert (Hacc : accounted hw q (hw1, q1, s1)) by (by eapply accounted_one; [..|exact Hp]).
  destruct (status_ok s1) eqn:Es1; cbn [negb]; [|by exists (hw1, q1, s1)].
  destruct (IH hw1 q1 (remaining - chunk) (offset + chunk) (u32 (idx + 1))) as (r & E & Hr2); [lia|lia|lia|lia|done|].
  exists r. split; [done|]. by eapply accounted_trans.
Qed.

Lemma PostSendSGL_accounted hw q iov base conn gen :
  1 <= max_send_sge (config_ q) <= 16 -> within q ->
  exists r, PostSendSGL (length iov) hw q iov (Z.of_nat (length iov)) base conn gen = Some (Some r) /\ accounted hw q r.
Proof.
  intros Hm Hq. unfold PostSendSGL. destruct (Z.leb_spec (Z.of_nat (length iov)) (max_send_sge (config_ q))) as [Hle|Hgt].
  - pose proof (ShouldSignal_within q Hq) as H. destruct (ShouldSignal q) as [q1 b]. destruct H as (H1 & H2 & H3).
    destruct (DoPostSendSGL_spec hw q1 iov (Z.of_nat (length iov)) base b) as (hw' & s & -> & Hp); [lia|lia|]. sbind.
    eexists. split; [done|]. by eapply accounted_one; [..|exact Hp].
  - by apply sgl_loop_accounted; [|lia..|].
Qed.

Lemma qp_step_ok t o exact :
  traffic_ok t exact -> 1 <= max_send_sge (config_ (queue_pair t)) <= 16 ->
  exists t' ok, qp_step t o = Some (t', ok) /\ traffic_ok t' (exact && ok)
    /\ config_ (queue_pair t') = config_ (queue_pair t).
Proof.
  intros (Hq & Ho & He) Hm.
  assert (Hpost : forall r, accounted (device t) (queue_pair t) r ->
    exists t' ok, Some (posting t r) = Some (t', ok) /\ traffic_ok t' (exact && ok)
      /\ config_ (queue_pair t') = config_ (queue_pair t)).
  { intros [[h q] s] (Hw & Hc & ws & Hp & Hl & Hs). do 2 eexists. split; [done|]. split; [|done]. unfold traffic_ok, outstanding in *.
    cbn [device queue_pair completed]. rewrite Hp, signaled_app. assert (0 <= signaled ws) by (unfold signaled; lia).
    split; [done|]. split; [lia|]. intros [Hex Hok]%andb_true_iff. specialize (He Hex). specialize (Hs Hok). lia. }
  destruct o; cbn [qp_step].
  - by apply Hpost, post_accounted.
  - apply Hpost. unfold PostSendInline. destruct (_ <? _); [|by apply post_accounted].
    by apply accounted_none.
  - by apply Hpost, post_accounted.
  - by apply Hpost, post_accounted.
  - by apply Hpost, post_accounted.
  - destruct (PostSendSGL_accounted (device t) (queue_pair t) iov wr_id_base conn_id generation Hm Hq) as (r & -> & Hr). sbind.
    by apply Hpost.
  - do 2 eexists. split; [done|]. rewrite andb_true_r. destruct (Z.ltb_spec 0 (outstanding t)); [|done].
    split; [|done]. destruct Hq as [Hd Hq]. unfold traffic_ok, within, outstanding in *. unfold OnSendComplete.
    cbn [device queue_pair completed set_counts config_ outstanding_signaled_].
    assert (cq_depth (config_ (queue_pair t)) / 2 < 2 ^ 31) by (unfold is_u in Hd; zdm).
    rewrite wrap_id by (unfold is_u; lia). split_and!; try done; try lia. intros Hex. specialize (He Hex). lia.
Qed.

Lemma qp_run_ok os t exact :
  traffic_ok t exact -> 1 <= max_send_sge (config_ (queue_pair t)) <= 16 ->
  exists t' oks, qp_run t os = Some (t', oks) /\ traffic_ok t' (exact && forallb id oks)
    /\ config_ (queue_pair t') = config_ (queue_pair t).
Proof.
  revert t exact. induction os as [|o os IH]; intros t exact Ht Hm; cbn [qp_run].
  { exists t, []. rewrite andb_true_r. done. }
  destruct (qp_step_ok t o exact Ht Hm) as (t1 & ok & -> & Ht1 & Hc1). sbind.
  destruct (IH t1 (exact && ok) Ht1 ltac:(by rewrite Hc1)) as (t2 & oks & -> & Ht2 & Hc2). sbind.
  exists t2, (ok :: oks). cbn [forallb id]. rewrite andb_assoc. split_and!; [done|done|congruence].
Qed.

End device.
End lemmas.

(** ** Properties *)

Section properties.
Import QueuePair.

(** C19: Fragmentation loses nothing: for a limit of 1 to 16 elements per request
    and any non-empty list, [PostSendSGL] terminates within [iov_count] iterations
    on any device; the requests it queued are non-empty, respect the limit and
    send, in order, exactly a prefix of the list - the whole list when it reports
    OK - and only the last one, of the whole list, can ask for a completion. (The
    empty list is posted as one empty request.) *)
Theorem PostSendSGL_fragments {HW} `{!Verbs HW} (hw : HW) q (iov : list iovec) base conn gen (fuel : nat) :
  1 <= max_send_sge (config_ q) <= 16 -> iov <> [] -> (length iov <= fuel)%nat ->
  exists hw' q' s ws, PostSendSGL fuel hw q iov (Z.of_nat (length iov)) base conn gen
                      = Some (Some (hw', q', s))
    /\ posted hw' = posted hw ++ ws
    /\ fragments (max_send_sge (config_ q)) iov ws (status_ok s).
Proof.
  intros Hm Hne Hf. assert (0 < length iov)%nat as Hpos by (destruct iov; [done|simpl; lia]).
  unfold PostSendSGL. destruct (Z.leb_spec (Z.of_nat (length iov)) (max_send_sge (config_ q))) as [Hle|Hgt].
  - destruct (ShouldSignal q) as [q1 signaled].
    destruct (DoPostSendSGL_spec hw q1 iov (Z.of_nat (length iov)) base signaled)
      as (hw' & s & -> & Hp); [lia|lia|]. sbind. rewrite Nat2Z.id, firstn_all in Hp.
    destruct (status_ok s) eqn:Es.
    + exists hw', q1, s, [sgl_wr iov base signaled]. rewrite Es. split_and!; [done..|]. constructor.
      * exists (length iov). split_and!; [by unfold sent; simpl; rewrite app_nil_r, firstn_all|done|].
        intros [|j] w Hw _; done.
      * constructor; [|done]. simpl. rewrite length_fmap. lia.
    + exists hw', q1, s, []. rewrite Es, app_nil_r. split_and!; [done..|]. constructor; [|done].
      exists 0%nat. split_and!; done.
  - destruct (sgl_loop_spec fuel hw q iov (max_send_sge (config_ q)) (Z.of_nat (length iov)) 0 0 base conn gen)
      as (hw' & q' & s & ws & E & Hp & Hfr); [lia..|].
    exists hw', q', s, ws. done.
Qed.

Lemma PostSendSGL_fragments_witness :
  exists hw' q' s ws,
    PostSendSGL 5 ([] : list ibv_send_wr) (fresh (small_sge_config 2)) example_iov 5 77 3 9
    = Some (Some (hw', q', s)) /\ hw' = ws /\ fragments 2 example_iov ws (status_ok s) /\ length ws = 3%nat.
Proof.
  destruct (PostSendSGL_fragments ([] : list ibv_send_wr) (fresh (small_sge_config 2)) example_iov 77 3 9 5)
    as (hw' & q' & s & ws & E & Hp & Hf); [simpl; lia|discriminate|vm_compute; lia|].
  exists hw', q', s, ws. split; [exact E|]. split; [exact Hp|]. split; [exact Hf|].
  vm_compute in E. injection E as <- <- <-. vm_compute in Hp. rewrite <- Hp. reflexivity.
Defined.

(** Without a positive element limit the fragmentation never ends: when
    [max_send_sge] is 0 and the list is not empty, on a device that accepts
    requests every iteration queues one more empty request, for ever. *)
Theorem PostSendSGL_zero_limit_diverges (q : QueuePair) (iov : list iovec) base conn gen (fuel : nat) :
  max_send_sge (config_ q) = 0 -> iov <> [] ->
  PostSendSGL fuel ([] : list ibv_send_wr) q iov (Z.of_nat (length iov)) base conn gen = Some None.
Proof.
  intros Hz Hne. assert (0 < Z.of_nat (length iov)) as Hpos by (destruct iov; [done|simpl; lia]).
  unfold PostSendSGL. rewrite Hz. destruct (Z.leb_spec (Z.of_nat (length iov)) 0); [lia|].
  generalize ([] : list ibv_send_wr) as hw. generalize 0 at 3 as idx. clear Hz.
  induction fuel as [|fuel IH]; intros idx hw; cbn [sgl_loop];
    destruct (Z.leb_spec (Z.of_nat (length iov)) 0); try lia; [done|].
  destruct (Z.ltb_spec (Z.of_nat (length iov)) 0); [lia|].
  destruct (Z.eqb_spec (Z.of_nat (length iov)) 0); [lia|].
  cbn [DoPostSendSGL]. unfold DoPostSendSGL, mread. simpl (16 <? 0). cbv iota.
  rewrite decide_True by lia. sbind. unfold post. cbn [ibv_post_send accepting]. simpl negb. cbv iota.
  rewrite Z.sub_0_r. apply IH.
Qed.

Lemma PostSendSGL_zero_limit_diverges_witness :
  max_send_sge (config_ (fresh (small_sge_config 0))) = 0
  /\ PostSendSGL 1000 ([] : list ibv_send_wr) (fresh (small_sge_config 0)) example_iov 5 77 3 9 = Some None.
Proof.
  split; [reflexivity|].
  exact (PostSendSGL_zero_limit_diverges (fresh (small_sge_config 0)) example_iov 77 3 9 1000 eq_refl
    ltac:(discriminate)).
Defined.

(** C38: Backpressure bounds the completion queue. Take a queue pair just created
    (with an element limit of 1 to 16) on any device, and any sequence of posts of
    every kind, accepted or refused, and of completions of signaled requests that
    are outstanding, each reported with [OnSendComplete]. Nothing is undefined, the
    signaled requests that the device has taken and not completed are at most half
    of [cq_depth], and the counter the queue pair decides by is never below their
    number; it is exactly their number as long as every post was accepted. (A
    refused signaled post keeps its count for ever: [failed_post_leaks].) *)
Theorem signaled_outstanding_bounded {HW} `{!Verbs HW} (c : QueuePairConfig) (h : HW) (os : list QpOp) :
  config_wf c -> 1 <= max_send_sge c <= 16 ->
  exists t oks, qp_run {| device := h; queue_pair := fresh c; completed := signaled (posted h) |} os = Some (t, oks)
    /\ 0 <= outstanding t <= outstanding_signaled_ (queue_pair t)
    /\ outstanding_signaled_ (queue_pair t) <= cq_depth c / 2
    /\ (forallb id oks = true -> outstanding t = outstanding_signaled_ (queue_pair t)).
Proof.
  intros [_ Hc] Hm.
  destruct (qp_run_ok os {| device := h; queue_pair := fresh c; completed := signaled (posted h) |} true)
    as (t & oks & E & ([_ Hw] & Ho & He) & Ec); [|done|].
  - unfold traffic_ok, outstanding, within. cbn. assert (0 <= cq_depth c / 2) by (unfold is_u in Hc; zdm). split_and!; done || lia.
  - rewrite Ec in Hw. cbn [fresh config_ queue_pair] in Hw. exists t, oks. split_and!; [done|lia..|done].
Qed.

Lemma signaled_outstanding_bounded_witness :
  exists t oks, qp_run {| device := [] : list ibv_send_wr; queue_pair := fresh (small_sge_config 2); completed := 0 |}
                  (replicate 9 (QSendInline 4096 8 1) ++ [QCompleted; QSendSGL example_iov 77 3 9]) = Some (t, oks)
    /\ outstanding t = 4 /\ outstanding t <= 8 / 2.
Proof.
  destruct (signaled_outstanding_bounded (small_sge_config 2) ([] : list ibv_send_wr)
    (replicate 9 (QSendInline 4096 8 1) ++ [QCompleted; QSendSGL example_iov 77 3 9])) as (t & oks & E & Ho & Hb & _).
  - split; unfold is_u; simpl; lia.
  - simpl. lia.
  - exists t, oks. split; [exact E|]. cbn [cq_depth small_sge_config] in Hb. split; [|lia].
    vm_compute in E. injection E as <- _. reflexivity.
Defined.

(** A signaled request that the device refuses stays counted, although it will
    never complete. *)
Theorem failed_post_leaks {HW} `{!Verbs HW} (h : HW) q buf wrid :
  within q -> (ShouldSignal q).2 = true -> status_ok (PostSend h q buf wrid).2 = false ->
  posted (PostSend h q buf wrid).1.1 = posted h
  /\ outstanding_signaled_ (PostSend h q buf wrid).1.2 = outstanding_signaled_ q + 1.
Proof.
  intros Hq Hs. pose proof (ShouldSignal_within q Hq) as H. unfold PostSend, DoPostSend. destruct (ShouldSignal q) as [q' b].
  cbn [snd] in Hs. subst b. destruct H as (_ & _ & H). destruct (post _ _ _ _) as [h' s] eqn:E. cbn [fst snd].
  apply post_spec in E. intros Hf. by rewrite Hf in E.
Qed.

(** Signaling stops for good unless completions are returned: after [n]
    posts and no call of [OnSendComplete] - the framework never calls it - the
    number of signaled requests is the smaller of [n / signal_interval] and
    half of [cq_depth]; from then on no request is ever signaled and the send
    queue can no longer be reclaimed. *)
Theorem signals_without_completions (c : QueuePairConfig) (n : nat) :
  config_wf c -> 0 < signal_interval c ->
  (sig_run (fresh c) n).2 = Z.min (Z.of_nat n / signal_interval c) (cq_depth c / 2)
  /\ (cq_depth c / 2 <= Z.of_nat n / signal_interval c ->
      (ShouldSignal (sig_run (fresh c) n).1).2 = false).
Proof.
  intros Hc Hi. destruct (sig_posts c n Hc Hi) as (Ec & Em & Eo & _). split; [exact Em|].
  intros Hge. unfold ShouldSignal, CanPostSignaled.
  cbn [set_counts config_ unsignaled_count_ outstanding_signaled_]. rewrite Ec, Eo, Em.
  destruct (_ <=? _); [|done]. destruct (Z.ltb_spec (Z.min (Z.of_nat n / signal_interval c) (cq_depth c / 2)) (cq_depth c / 2)); [lia|].
  done.
Qed.

Lemma signals_without_completions_witness :
  (sig_run (fresh QueuePairConfig_default) 100).2 = 6.
Proof.
  destruct (signals_without_completions QueuePairConfig_default 100) as [E _].
  - split; unfold is_u; simpl; lia.
  - simpl. lia.
  - exact E.
Defined.

(** A fragment's completion does not name its slot: the [wr_id] of every
    fragment but the first carries the fragment index in the top byte of the
    slot field, so the decoded slot index is at least 2^24, beyond any slot of
    the 65536-slot pool the completion handler indexes with it. *)
Theorem fragment_slot_out_of_range conn gen base k :
  is_u 16 conn -> is_u 8 gen -> 0 < k < 256 ->
  let w := frag_wr_id conn gen base k in
  WrId.GetConnId w = conn /\ WrId.GetGeneration w = gen
  /\ WrId.GetSlotIndex w = k * 2 ^ 24 + u32 base mod 2 ^ 24
  /\ 2 ^ 24 <= WrId.GetSlotIndex w.
Proof.
  intros Hc Hg Hk w. set (slot := k * 2 ^ 24 + u32 base mod 2 ^ 24).
  pose proof (Z.mod_pos_bound (u32 base) (2 ^ 24) ltac:(lia)) as Hb.
  assert (is_u 32 slot) as Hs by (unfold slot, is_u; lia).
  assert (w = WrId.Encode conn REQUEST_SEND gen slot) as ->.
  { unfold w, frag_wr_id, slot. f_equal. rewrite (land_mask 24) by (done || lia).
    rewrite Z.shiftl_mul_pow2, (wrap_id 32 (k * 2 ^ 24)) by (unfold is_u; lia || lia).
    rewrite Z.lor_comm. by rewrite lor_mult_add by (unfold is_u; lia). }
  destruct (WrId_get_arith (WrId.Encode conn REQUEST_SEND gen slot)) as (-> & _ & -> & ->).
  rewrite WrId_Encode_arith by done. simpl RpcOpcode_u8. unfold is_u in *. split_and!; [zdm|zdm|zdm|].
  unfold slot in *. zdm.
Qed.

Lemma fragment_slot_out_of_range_witness :
  WrId.GetSlotIndex (frag_wr_id 3 9 77 1) = 2 ^ 24 + 77.
Proof.
  destruct (fragment_slot_out_of_range 3 9 77 1) as (_ & _ & E & _); [unfold is_u; lia..|lia|].
  exact E.
Defined.

End properties.
