(* ===== verification/Connection.v ===== *)
(** * Connections and the connection manager

    Models [include/rdma/transport/connection.h], [connection_manager.h] and
    their sources in [src/transport]. The flow-control member is the component
    [FlowControl], with [CanSend], the one method that reads it. Destructors are
    explicit operations. *)

From S2P Require Import Prelude Types Verbs Buffer QueuePair.

Module Connection.
Import QueuePair.

Record Connection := {
  qp : QueuePair;
  port_num_ : Z;                       (* config_.port_num *)
  gid_index_ : Z;                      (* config_.gid_index *)
  conn_id_ : Z;                        (* uint16_t *)
  state_ : ConnectionState;
  remote_recv_buffer_ : RemoteMemoryInfo;
  peer_address_ : string;
}.

Definition GetConnId (c : Connection) : Z := conn_id_ c.
Definition GetState (c : Connection) : ConnectionState := state_ c.
Definition GetQP (c : Connection) : QueuePair := qp c.
Definition GetRemoteRecvBuffer (c : Connection) : RemoteMemoryInfo := remote_recv_buffer_ c.
Definition GetPeerAddress (c : Connection) : string := peer_address_ c.

Definition set_state (c : Connection) (s : ConnectionState) : Connection :=
  {| qp := qp c; port_num_ := port_num_ c; gid_index_ := gid_index_ c; conn_id_ := conn_id_ c;
     state_ := s; remote_recv_buffer_ := remote_recv_buffer_ c; peer_address_ := peer_address_ c |}.

Definition set_qp (c : Connection) (q : QueuePair) : Connection :=
  {| qp := q; port_num_ := port_num_ c; gid_index_ := gid_index_ c; conn_id_ := conn_id_ c;
     state_ := state_ c; remote_recv_buffer_ := remote_recv_buffer_ c; peer_address_ := peer_address_ c |}.

Definition SetConnId (c : Connection) (id : Z) : Connection :=
  {| qp := qp c; port_num_ := port_num_ c; gid_index_ := gid_index_ c; conn_id_ := id;
     state_ := state_ c; remote_recv_buffer_ := remote_recv_buffer_ c; peer_address_ := peer_address_ c |}.

Definition SetRemoteRecvBuffer (c : Connection) (info : RemoteMemoryInfo) : Connection :=
  {| qp := qp c; port_num_ := port_num_ c; gid_index_ := gid_index_ c; conn_id_ := conn_id_ c;
     state_ := state_ c; remote_recv_buffer_ := info; peer_address_ := peer_address_ c |}.

Definition SetPeerAddress (c : Connection) (addr : string) : Connection :=
  {| qp := qp c; port_num_ := port_num_ c; gid_index_ := gid_index_ c; conn_id_ := conn_id_ c;
     state_ := state_ c; remote_recv_buffer_ := remote_recv_buffer_ c; peer_address_ := addr |}.

(** [Create], from the raw domain and the result of [QueuePair::Create]; the
    remote buffer of a new connection is not initialised, [junk] is its value. *)
Definition Create (pd : option Z) (qp_result : Result QueuePair) (port gidx : Z) (junk : RemoteMemoryInfo)
    : Result Connection :=
  match pd with
  | None => RErr (Err.InvalidArgument "Invalid protection domain")
  | Some _ =>
      match qp_result with
      | RErr s => RErr s
      | RVal q => RVal {| qp := q; port_num_ := port; gid_index_ := gidx; conn_id_ := 0;
                          state_ := DISCONNECTED; remote_recv_buffer_ := junk; peer_address_ := "" |}
      end
  end.

Section device.
Context {HW : Type} `{!Verbs HW}.

Definition Connect (hw : HW) (c : Connection) (remote : QpConnParams) : HW * Connection * Status :=
  if negb (bool_decide (state_ c = DISCONNECTED))
  then (hw, c, Err.InvalidArgument "Connection already established or in progress")
  else
    let c := set_state c CONNECTING in
    let '(hw, status) := TransitionToInit hw (qp c) (port_num_ c) in
    if negb (status_ok status) then (hw, set_state c ERROR, status)
    else
      let '(hw, status) := TransitionToRTR hw (qp c) remote in
      if negb (status_ok status) then (hw, set_state c ERROR, status)
      else
        let '(hw, status) := TransitionToRTS hw (qp c) in
        if negb (status_ok status) then (hw, set_state c ERROR, status)
        else (hw, set_state c CONNECTED, Err.Status_OK).

(** The status of the transition is only logged. *)
Definition Disconnect (hw : HW) (c : Connection) : HW * Connection * Status :=
  if negb (bool_decide (state_ c = CONNECTED)) then (hw, c, Err.Status_OK)
  else
    let c := set_state c CLOSING in
    let '(hw, _) := TransitionToError hw (qp c) in
    (hw, set_state c DISCONNECTED, Err.Status_OK).

Definition destroy (hw : HW) (c : Connection) : HW * Connection :=
  if bool_decide (state_ c = CONNECTED) then (Disconnect hw c).1 else (hw, c).

Definition not_established : Status := Err.InvalidArgument "Connection not established".

(** Run a queue pair operation on the connection's queue pair. *)
Definition on_qp (c : Connection) (r : HW * QueuePair * Status) : HW * Connection * Status :=
  let '(hw, q, s) := r in (hw, set_qp c q, s).

Definition Send (hw : HW) (c : Connection) (buf : Buffer) (wrid : Z) : HW * Connection * Status :=
  if negb (bool_decide (state_ c = CONNECTED)) then (hw, c, not_established)
  else on_qp c (PostSend hw (qp c) buf wrid).

Definition SendInline (hw : HW) (c : Connection) (data length wrid : Z) : HW * Connection * Status :=
  if negb (bool_decide (state_ c = CONNECTED)) then (hw, c, not_established)
  else on_qp c (PostSendInline hw (qp c) data length wrid).

Definition Write (hw : HW) (c : Connection) (buf : Buffer) (raddr rk wrid : Z) : HW * Connection * Status :=
  if negb (bool_decide (state_ c = CONNECTED)) then (hw, c, not_established)
  else on_qp c (PostWrite hw (qp c) buf raddr rk wrid).

Definition WriteWithImm (hw : HW) (c : Connection) (buf : Buffer) (raddr rk imm wrid : Z)
    : HW * Connection * Status :=
  if negb (bool_decide (state_ c = CONNECTED)) then (hw, c, not_established)
  else on_qp c (PostWriteWithImm hw (qp c) buf raddr rk imm wrid).

Definition Read (hw : HW) (c : Connection) (buf : Buffer) (raddr rk wrid : Z) : HW * Connection * Status :=
  if negb (bool_decide (state_ c = CONNECTED)) then (hw, c, not_established)
  else on_qp c (PostRead hw (qp c) buf raddr rk wrid).

Definition PostRecv (hw : HW) (c : Connection) (buf : Buffer) (wrid : Z) : HW * Status :=
  QueuePair.PostRecv hw (qp c) buf wrid.

End device.
End Connection.

Export Connection (Connection).

Module ConnectionManager.

Definition UINT16_MAX : Z := 65535.

Record ConnectionManager := {
  connections_ : list (option Connection);
  free_conn_ids_ : list Z;             (* std::vector<uint16_t>, back last *)
  active_count_ : Z;
  max_connections : Z;                 (* config_.max_connections, uint16_t *)
}.

Definition Create (pd send_cq recv_cq : option Z) (max : Z) : Result ConnectionManager :=
  match pd, send_cq, recv_cq with
  | Some _, Some _, Some _ =>
      RVal {| connections_ := replicate (Z.to_nat max) None;
              free_conn_ids_ := (fun i => u16 (max - 1 - i)) <$> seqZ 0 max;
              active_count_ := 0; max_connections := max |}
  | _, _, _ => RErr (Err.InvalidArgument "Invalid parameters")
  end.

Definition AllocateConnId (m : ConnectionManager) : ConnectionManager * Z :=
  match vec_pop_back (free_conn_ids_ m) with
  | None => (m, UINT16_MAX)
  | Some (l, id) =>
      ({| connections_ := connections_ m; free_conn_ids_ := l; active_count_ := active_count_ m;
          max_connections := max_connections m |}, id)
  end.

Definition FreeConnId (m : ConnectionManager) (id : Z) : ConnectionManager :=
  {| connections_ := connections_ m; free_conn_ids_ := free_conn_ids_ m ++ [id];
     active_count_ := active_count_ m; max_connections := max_connections m |}.

(** [conn_result] is what [Connection::Create] returns; the result is the id of
    the new connection, the pointer [connections_[id].get()]. *)
Definition CreateConnection (m : ConnectionManager) (conn_result : Result Connection)
    : option (ConnectionManager * Result Z) :=
  let '(m, conn_id) := AllocateConnId m in
  if conn_id =? UINT16_MAX
  then Some (m, RErr (Err.ResourceExhausted "No available connection slots"))
  else
    match conn_result with
    | RErr s => Some (FreeConnId m conn_id, RErr s)
    | RVal conn =>
        l ← aset (connections_ m) conn_id (Some (Connection.SetConnId conn conn_id));
        Some ({| connections_ := l; free_conn_ids_ := free_conn_ids_ m;
                 active_count_ := u64 (active_count_ m + 1); max_connections := max_connections m |},
              RVal conn_id)
    end.

Definition GetConnection (m : ConnectionManager) (conn_id : Z) : option (option Connection) :=
  if Z.of_nat (length (connections_ m)) <=? conn_id then Some None else aget (connections_ m) conn_id.

Definition RemoveConnection (m : ConnectionManager) (conn_id : Z) : option ConnectionManager :=
  if Z.of_nat (length (connections_ m)) <=? conn_id then Some m
  else
    c ← aget (connections_ m) conn_id;
    match c with
    | None => Some m
    | Some _ =>
        l ← aset (connections_ m) conn_id None;
        let m := FreeConnId {| connections_ := l; free_conn_ids_ := free_conn_ids_ m;
                               active_count_ := active_count_ m; max_connections := max_connections m |} conn_id in
        Some {| connections_ := connections_ m; free_conn_ids_ := free_conn_ids_ m;
                active_count_ := u64 (active_count_ m - 1); max_connections := max_connections m |}
    end.

Definition GetActiveCount (m : ConnectionManager) : Z := active_count_ m.
Definition GetMaxConnections (m : ConnectionManager) : Z := max_connections m.

End ConnectionManager.

(** ** Specification *)

Section specification.
Import ConnectionManager.

Inductive ManagerOp :=
  | MCreate (conn_result : Result Connection)
  | MRemove (conn_id : Z).

Definition manager_step (m : ConnectionManager) (o : ManagerOp) : option (ConnectionManager * option (Result Z)) :=
  match o with
  | MCreate r => '(m, res) ← CreateConnection m r; Some (m, Some res)
  | MRemove id => m ← RemoveConnection m id; Some (m, None)
  end.

Fixpoint manager_run (m : ConnectionManager) (os : list ManagerOp)
    : option (ConnectionManager * list (option (Result Z))) :=
  match os with
  | [] => Some (m, [])
  | o :: os => '(m, r) ← manager_step m o; '(m, rs) ← manager_run m os; Some (m, r :: rs)
  end.

Definition manager_op_ok (o : ManagerOp) : Prop :=
  match o with MCreate _ => True | MRemove id => is_u 16 id end.

(** Ids of the live connections. *)
Definition live_ids (m : ConnectionManager) : list Z :=
  filter (fun i => is_Some (mjoin (connections_ m !! Z.to_nat i))) (seqZ 0 (max_connections m)).

Record manager_inv (m : ConnectionManager) : Prop := {
  mi_max : is_u 16 (max_connections m);
  mi_len : Z.of_nat (length (connections_ m)) = max_connections m;
  mi_part : free_conn_ids_ m ++ live_ids m ≡ₚ seqZ 0 (max_connections m);
  mi_active : active_count_ m = Z.of_nat (length (live_ids m));
  mi_id : forall i c, aget (connections_ m) i = Some (Some c) -> Connection.conn_id_ c = i;
}.

(** The abstract manager: the live connections by id. *)
Definition manager_view (m : ConnectionManager) : Z -> option Connection :=
  fun i => mjoin (aget (connections_ m) i).

(** Calls a client makes on one connection. *)
Inductive ConnOp :=
  | KConnect (remote : QpConnParams) | KDisconnect | KSend (buf : Buffer) (wrid : Z)
  | KInline (data length wrid : Z) | KWrite (buf : Buffer) (raddr rk wrid : Z)
  | KWriteImm (buf : Buffer) (raddr rk imm wrid : Z) | KRead (buf : Buffer) (raddr rk wrid : Z).

Definition is_transfer (o : ConnOp) : bool :=
  match o with KConnect _ | KDisconnect => false | _ => true end.

Section device.
Context {HW : Type} `{!Verbs HW}.

Definition conn_step (hw : HW) (c : Connection) (o : ConnOp) : HW * Connection * Status :=
  match o with
  | KConnect r => Connection.Connect hw c r
  | KDisconnect => Connection.Disconnect hw c
  | KSend b w => Connection.Send hw c b w
  | KInline d l w => Connection.SendInline hw c d l w
  | KWrite b a k w => Connection.Write hw c b a k w
  | KWriteImm b a k i w => Connection.WriteWithImm hw c b a k i w
  | KRead b a k w => Connection.Read hw c b a k w
  end.

(** The transitions of [state_] an operation can make, as the caller sees them. *)
Inductive transition : ConnectionState -> ConnOp -> ConnectionState -> Prop :=
  | T_connect r : transition DISCONNECTED (KConnect r) CONNECTED
  | T_connect_fails r : transition DISCONNECTED (KConnect r) ERROR
  | T_connect_refused r s : s <> DISCONNECTED -> transition s (KConnect r) s
  | T_disconnect : transition CONNECTED KDisconnect DISCONNECTED
  | T_disconnect_idle s : s <> CONNECTED -> transition s KDisconnect s
  | T_transfer o s : is_transfer o = true -> transition s o s.

Fixpoint conn_run (hw : HW) (c : Connection) (os : list ConnOp) : HW * Connection * list Status :=
  match os with
  | [] => (hw, c, [])
  | o :: os =>
      let '(hw, c, s) := conn_step hw c o in
      let '(hw, c, ss) := conn_run hw c os in (hw, c, s :: ss)
  end.

End device.

(** The queue pair state machine of the verbs specification, restricted to what
    the argument needs: a successful [ibv_modify_qp] puts the queue pair in the
    requested state, and INIT is only reachable from RESET and INIT. *)
Class QpStateMachine (HW : Type) `{!Verbs HW} := {
  qp_state : HW -> ibv_qp_state;
  modify_state hw qp attr mask :
    (ibv_modify_qp hw qp attr mask).2 = 0 ->
    qp_state (ibv_modify_qp hw qp attr mask).1 = qa_qp_state attr
    /\ (qa_qp_state attr = IBV_QPS_INIT -> qp_state hw = IBV_QPS_RESET \/ qp_state hw = IBV_QPS_INIT);
  modify_state_fails hw qp attr mask :
    (ibv_modify_qp hw qp attr mask).2 <> 0 ->
    qp_state (ibv_modify_qp hw qp attr mask).1 = qp_state hw;
}.

#[export] Instance ibv_qp_state_eq_dec : EqDecision ibv_qp_state.
Proof. solve_decision. Defined.

(** A device that follows the transition table and records the requests. *)
Definition table_modify (hw : ibv_qp_state * list ibv_send_wr) (attr : ibv_qp_attr)
    : ibv_qp_state * list ibv_send_wr * Z :=
  match qa_qp_state attr, hw.1 with
  | IBV_QPS_INIT, (IBV_QPS_RESET | IBV_QPS_INIT)
  | IBV_QPS_RTR, IBV_QPS_INIT | IBV_QPS_RTS, (IBV_QPS_RTR | IBV_QPS_RTS)
  | IBV_QPS_ERR, _ | IBV_QPS_RESET, _ => (qa_qp_state attr, hw.2, 0)
  | _, _ => (hw, 22)
  end.

#[export, refine] Instance table_device : Verbs (ibv_qp_state * list ibv_send_wr) := {|
  ibv_post_send hw _ wr := ((hw.1, hw.2 ++ [wr]), 0);
  ibv_post_recv hw _ _ := (hw, 0);
  ibv_modify_qp hw _ attr _ := table_modify hw attr;
  errno _ := 22;
  posted hw := hw.2;
|}.
Proof.
  1,2: done.
  intros [s l] qp attr mask. unfold table_modify. by destruct (qa_qp_state attr), s.
Defined.

#[export, refine] Instance table_states : QpStateMachine (ibv_qp_state * list ibv_send_wr) := {|
  qp_state hw := hw.1;
|}.
Proof.
  - intros [s l] qp attr mask. unfold ibv_modify_qp, table_device, table_modify. simpl.
    destruct (qa_qp_state attr), s; simpl; intros ?; split; try done; try intros ?; auto; try done.
  - intros [s l] qp attr mask. unfold ibv_modify_qp, table_device, table_modify. simpl.
    destruct (qa_qp_state attr), s; simpl; done.
Defined.

Definition example_connection : Connection :=
  {| Connection.qp := fresh QueuePair.QueuePairConfig_default; Connection.port_num_ := 1;
     Connection.gid_index_ := 0; Connection.conn_id_ := 3; Connection.state_ := DISCONNECTED;
     Connection.remote_recv_buffer_ := {| rmi_addr := 0; rmi_rkey := 0; rmi_length := 0 |};
     Connection.peer_address_ := "" |}.

Definition example_params : QpConnParams :=
  {| lid := 5; qp_num := 77; psn := 0; gid := replicate 16 0; port_num := 1; gid_index := 0; mtu := 3 |}.

(** A manager of two connections, driven past its limit. *)
Definition manager_trace : list ManagerOp :=
  [MCreate (RVal example_connection); MCreate (RErr (Err.IOError "Failed to create queue pair" 12));
   MCreate (RVal example_connection); MCreate (RVal example_connection); MRemove 0; MRemove 0;
   MCreate (RVal example_connection); MRemove 9].

End specification.

(** ** Lemmas *)

Section lemmas.
Import ConnectionManager.

Lemma live_ids_spec m i : manager_inv m ->
  i ∈ live_ids m <-> exists c, aget (connections_ m) i = Some (Some c).
Proof.
  intros H. unfold live_ids. rewrite list_elem_of_filter, elem_of_seqZ. split.
  - intros [[c Hc] Hi]. exists c. apply aget_Some. split; [lia|].
    by destruct (connections_ m !! Z.to_nat i) as [[?|]|]; simplify_eq/=.
  - intros [c Hc]. pose proof (aget_lt _ _ _ Hc) as Hr. rewrite (mi_len _ H) in Hr.
    apply aget_Some in Hc as [_ Hc]. rewrite Hc. split; [by eexists|lia].
Qed.

(** Changing one slot adds or removes one live id. *)
Lemma live_ids_insert (l : list (option Connection)) max i (x : option Connection) :
  Z.of_nat (length l) = max -> 0 <= i < max ->
  filter (fun j => is_Some (mjoin (<[Z.to_nat i := x]> l !! Z.to_nat j))) (seqZ 0 max)
  ≡ₚ (if x then [i] else []) ++ filter (fun j => j <> i /\ is_Some (mjoin (l !! Z.to_nat j))) (seqZ 0 max).
Proof.
  intros Hl Hi. apply NoDup_Permutation.
  - apply NoDup_filter, NoDup_seqZ.
  - apply NoDup_app. split_and!.
    + destruct x; [apply NoDup_singleton|constructor].
    + intros j Hj. rewrite list_elem_of_filter. destruct x; [|by apply elem_of_nil in Hj].
      apply list_elem_of_singleton in Hj. naive_solver.
    + apply NoDup_filter, NoDup_seqZ.
  - intros j. rewrite elem_of_app, !list_elem_of_filter, elem_of_seqZ.
    destruct (decide (j = i)) as [->|Hne].
    + rewrite list_lookup_insert_eq by lia. destruct x; simpl; split.
      * intros _. left. by apply list_elem_of_singleton.
      * intros _. split; [by eexists|lia].
      * intros [[y Hy] _]. done.
      * intros [Hx%elem_of_nil|[[Hx _] _]]; done.
    + destruct (decide (0 <= j < max)) as [Hj|Hj].
      * rewrite list_lookup_insert_ne by lia. split.
        -- intros [? ?]. right. split_and!; try done; lia.
        -- intros [Hx|[[_ ?] ?]]; [|done]. destruct x; [by apply list_elem_of_singleton in Hx|by apply elem_of_nil in Hx].
      * split; [intros [_ ?]; lia|]. intros [Hx|[_ ?]]; [|lia].
        destruct x; [by apply list_elem_of_singleton in Hx|by apply elem_of_nil in Hx].
Qed.

Lemma Create_inv (pd s r : Z) max : is_u 16 max ->
  exists m, Create (Some pd) (Some s) (Some r) max = RVal m /\ manager_inv m
    /\ max_connections m = max /\ active_count_ m = 0.
Proof.
  intros Hm. eexists. split; [done|]. unfold is_u in Hm. split; [|done].
  assert (Hnil : filter (fun i => is_Some (mjoin (replicate (Z.to_nat max) (None : option Connection) !! Z.to_nat i)))
            (seqZ 0 max) = []).
  { apply list_filter_nil_2 || idtac. apply elem_of_nil_inv. intros i [[c Hc] Hi%elem_of_seqZ]%list_elem_of_filter.
    rewrite lookup_replicate_2 in Hc by lia. done. }
  constructor; unfold live_ids; cbn [connections_ free_conn_ids_ active_count_ max_connections]; try rewrite Hnil.
  - done.
  - rewrite length_replicate. lia.
  - rewrite app_nil_r. apply NoDup_Permutation; [|apply NoDup_seqZ|].
    + apply NoDup_fmap_2_strong; [|apply NoDup_seqZ]. intros x y Hx%elem_of_seqZ Hy%elem_of_seqZ.
      rewrite !wrap_id by (unfold is_u; lia). lia.
    + intros x. rewrite list_elem_of_fmap, elem_of_seqZ. split.
      * intros (y & -> & Hy%elem_of_seqZ). rewrite wrap_id by (unfold is_u; lia). lia.
      * intros Hx. exists (max - 1 - x). rewrite elem_of_seqZ, wrap_id by (unfold is_u; lia). lia.
  - done.
  - intros i c [_ [Hc _]%lookup_replicate]%aget_Some. done.
Qed.

Lemma live_slot m i (x : option Connection) :
  manager_inv m -> 0 <= i < max_connections m ->
  aget (connections_ m) i = Some x ->
  live_ids m ≡ₚ (if x then [i] else [])
    ++ filter (fun j => j <> i /\ is_Some (mjoin (connections_ m !! Z.to_nat j))) (seqZ 0 (max_connections m)).
Proof.
  intros H Hi [_ Hx]%aget_Some. unfold live_ids.
  rewrite <- (live_ids_insert (connections_ m) (max_connections m) i x) by (apply H || done).
  by rewrite list_insert_id.
Qed.

(** Putting another object of the same id in the slot of a live one. *)
Lemma manager_inv_replace m id c c' :
  manager_inv m -> aget (connections_ m) id = Some (Some c) -> Connection.conn_id_ c' = id ->
  manager_inv {| connections_ := <[Z.to_nat id := Some c']> (connections_ m); free_conn_ids_ := free_conn_ids_ m;
                 active_count_ := active_count_ m; max_connections := max_connections m |}.
Proof.
  intros H Hc Hid. pose proof (aget_lt _ _ _ Hc) as Hlt. pose proof (mi_len _ H) as Hlen. rewrite Hlen in Hlt.
  pose proof (live_slot m id (Some c) H Hlt Hc) as Hl0.
  pose proof (live_ids_insert (connections_ m) (max_connections m) id (Some c') Hlen Hlt) as Hl1.
  cbn [app] in Hl0, Hl1. rewrite <- Hl1 in Hl0.
  constructor; unfold live_ids; cbn [connections_ free_conn_ids_ active_count_ max_connections].
  - apply H.
  - by rewrite length_insert.
  - by rewrite <- Hl0, (mi_part _ H).
  - by rewrite <- Hl0, (mi_active _ H).
  - intros j x. rewrite aget_insert by lia. case_decide as E; [|by apply H]. intros [= <-]. congruence.
Qed.

(** Creating a connection takes a free id; a failed creation gives it back. *)
Lemma CreateConnection_spec m r :
  manager_inv m ->
  exists m' res, CreateConnection m r = Some (m', res) /\ manager_inv m'
    /\ max_connections m' = max_connections m
    /\ match res with
       | RVal id => exists c, r = RVal c /\ aget (connections_ m) id = Some None
                     /\ active_count_ m' = active_count_ m + 1
                     /\ connections_ m' = <[Z.to_nat id := Some (Connection.SetConnId c id)]> (connections_ m)
       | RErr s => connections_ m' = connections_ m /\ active_count_ m' = active_count_ m
                   /\ (r = RErr s \/ active_count_ m = max_connections m)
       end.
Proof.
  intros H. pose proof (mi_max _ H) as Hmax. unfold is_u in Hmax. unfold CreateConnection, AllocateConnId.
  destruct (vec_pop_back (free_conn_ids_ m)) as [[fl id]|] eqn:Ef.
  2: { destruct (Z.eqb_spec UINT16_MAX UINT16_MAX); [|done]. do 2 eexists. split; [done|]. split; [done|].
       split; [done|]. split; [done|]. split; [done|]. right. destruct (free_conn_ids_ m) as [|x l] eqn:E.
       - pose proof (Permutation_length (mi_part _ H)) as Hp. rewrite E, length_seqZ in Hp. simpl in Hp.
         rewrite (mi_active _ H). lia.
       - destruct l as [|y l _] using rev_ind; [done|]. change (x :: l ++ [y]) with ((x :: l) ++ [y]) in Ef.
         by rewrite vec_pop_back_snoc in Ef. }
  apply vec_pop_back_Some in Ef.
  pose proof (mi_part _ H) as Hpart. rewrite Ef in Hpart.
  assert (0 <= id < max_connections m) as Hid.
  { assert (id ∈ seqZ 0 (max_connections m)) as Hs%elem_of_seqZ; [|lia]. rewrite <- Hpart. set_solver. }
  destruct (Z.eqb_spec id UINT16_MAX); [unfold UINT16_MAX in *; lia|].
  assert (Hnl : id ∉ live_ids m).
  { pose proof (NoDup_seqZ 0 (max_connections m)) as Hn. rewrite <- Hpart in Hn.
    apply NoDup_app in Hn as (_ & Hn & _). apply Hn. set_solver. }
  destruct (aget_is_Some (connections_ m) id) as [x Hx]; [rewrite (mi_len _ H); lia|].
  assert (x = None) as ->.
  { destruct x as [c|]; [|done]. exfalso. apply Hnl, live_ids_spec; [done|eauto]. }
  destruct r as [c|s].
  - cbn [connections_ free_conn_ids_ active_count_ max_connections].
    rewrite aset_Some by (rewrite (mi_len _ H); lia). sbind.
    pose proof (live_slot m id None H Hid Hx) as Hl0. simpl in Hl0.
    pose proof (live_ids_insert (connections_ m) (max_connections m) id
      (Some (Connection.SetConnId c id)) (mi_len _ H) Hid) as Hl1. cbn [app] in Hl1.
    rewrite <- Hl0 in Hl1.
    assert (Hcnt : Z.of_nat (length (live_ids m)) <= max_connections m).
    { pose proof (Permutation_length Hpart) as Hp. rewrite !length_app, length_seqZ in Hp. lia. }
    assert (Hac : u64 (active_count_ m + 1) = active_count_ m + 1).
    { apply wrap_id. rewrite (mi_active _ H). unfold is_u. lia. }
    do 2 eexists. split; [done|]. split; [|split; [done|exists c; split_and!; done]].
    constructor; unfold live_ids; cbn [connections_ free_conn_ids_ active_count_ max_connections].
    + done.
    + rewrite length_insert. apply H.
    + rewrite Hl1, <- Hpart, <- app_assoc. done.
    + rewrite Hl1, Hac, (mi_active _ H). simpl. lia.
    + intros j c'. rewrite aget_insert by (rewrite (mi_len _ H); lia). case_decide; [|by apply H].
      by intros [= <-].
  - do 2 eexists. split; [done|]. split; [|split; [done|split_and!; by auto]].
    constructor; unfold FreeConnId, live_ids; cbn [connections_ free_conn_ids_ active_count_ max_connections];
      try apply H. by rewrite <- Ef, (mi_part _ H).
Qed.

Lemma RemoveConnection_spec m id :
  manager_inv m -> 0 <= id ->
  exists m', RemoveConnection m id = Some m' /\ manager_inv m' /\ max_connections m' = max_connections m
    /\ connections_ m' = <[Z.to_nat id := None]> (connections_ m)
    /\ active_count_ m' = active_count_ m - (if manager_view m id then 1 else 0).
Proof.
  intros H Hid. unfold RemoveConnection, manager_view.
  destruct (Z.leb_spec (Z.of_nat (length (connections_ m))) id) as [Hge|Hlt].
  { exists m. split_and!; [done..| |].
    - by rewrite list_insert_ge by lia.
    - destruct (aget _ _) as [x|] eqn:E; [apply aget_lt in E; lia|]. simpl. lia. }
  destruct (aget_is_Some (connections_ m) id) as [x Hx]; [lia|]. rewrite Hx. sbind.
  destruct x as [c|]; cbn [mjoin option_join].
  2: { exists m. split_and!; [done..| |lia]. apply aget_Some in Hx as [_ Hx]. by rewrite list_insert_id. }
  rewrite aset_Some by lia. sbind. rewrite (mi_len _ H) in Hlt.
  pose proof (live_slot m id (Some c) H ltac:(lia) Hx) as Hl0. cbn [app] in Hl0.
  pose proof (live_ids_insert (connections_ m) (max_connections m) id None (mi_len _ H) ltac:(lia)) as Hl1.
  cbn [app] in Hl1. rewrite <- Hl1 in Hl0.
  pose proof (mi_max _ H) as Hmax. unfold is_u in Hmax.
  assert (Hcnt : Z.of_nat (length (live_ids m)) <= max_connections m).
  { pose proof (Permutation_length (mi_part _ H)) as Hp. rewrite !length_app, length_seqZ in Hp. lia. }
  assert (Hac : u64 (active_count_ m - 1) = active_count_ m - 1).
  { apply wrap_id. rewrite (mi_active _ H). rewrite Hl0. unfold is_u. simpl.
    rewrite Hl0 in Hcnt. simpl in Hcnt. lia. }
  eexists. split; [done|]. split; [|split_and!; done].
  constructor; unfold live_ids; cbn [FreeConnId connections_ free_conn_ids_ active_count_ max_connections].
  - done.
  - rewrite length_insert. apply H.
  - etrans; [|apply (mi_part _ H)]. by rewrite Hl0, <- app_assoc.
  - rewrite Hac, (mi_active _ H), Hl0. simpl. lia.
  - intros j c'. rewrite aget_insert by (rewrite (mi_len _ H); lia). case_decide; [done|]. by apply H.
Qed.

Lemma manager_run_inv m os :
  manager_inv m -> Forall manager_op_ok os ->
  exists m' rs, manager_run m os = Some (m', rs) /\ manager_inv m' /\ max_connections m' = max_connections m.
Proof.
  intros H Hok. revert m H. induction Hok as [|o os Ho _ IH]; intros m H; cbn [manager_run]; [eauto|].
  destruct o as [r|id]; cbn [manager_step].
  - destruct (CreateConnection_spec m r H) as (m1 & res & -> & H1 & E1 & _). sbind.
    destruct (IH m1 H1) as (m' & rs & -> & ? & ?). sbind. do 2 eexists. split_and!; [done..|congruence].
  - destruct (RemoveConnection_spec m id H) as (m1 & -> & H1 & E1 & _); [apply Ho|]. sbind.
    destruct (IH m1 H1) as (m' & rs & -> & ? & ?). sbind. do 2 eexists. split_and!; [done..|congruence].
Qed.

Section device.
Context {HW : Type} `{!Verbs HW}.
Implicit Types (hw : HW) (c : Connection).

Lemma modify_status hw q attr flags msg :
  status_ok (QueuePair.modify hw q attr flags msg).2 = true <-> (ibv_modify_qp hw (QueuePair.qp_ q) attr flags).2 = 0.
Proof.
  unfold QueuePair.modify. destruct (ibv_modify_qp _ _ _ _) as [hw' ret]. simpl.
  case Z.eqb_spec; simpl; intros; split; intros; done.
Qed.

Lemma modify_device hw q attr flags msg :
  (QueuePair.modify hw q attr flags msg).1 = (ibv_modify_qp hw (QueuePair.qp_ q) attr flags).1.
Proof. unfold QueuePair.modify. destruct (ibv_modify_qp _ _ _ _) as [hw' ret]. simpl. by case_match. Qed.

Lemma Connect_conn_id hw c r : Connection.conn_id_ (Connection.Connect hw c r).1.2 = Connection.conn_id_ c.
Proof.
  unfold Connection.Connect. destruct (negb _); [done|].
  destruct (QueuePair.TransitionToInit _ _ _) as [h1 s1]. destruct (negb _); [done|].
  destruct (QueuePair.TransitionToRTR _ _ _) as [h2 s2]. destruct (negb _); [done|].
  destruct (QueuePair.TransitionToRTS _ _) as [h3 s3]. by destruct (negb _).
Qed.

Lemma Connect_result hw c r :
  let '(_, c', st) := Connection.Connect hw c r in
  (status_ok st = true -> Connection.state_ c' = CONNECTED) /\ Connection.qp c' = Connection.qp c.
Proof.
  unfold Connection.Connect. destruct (negb (bool_decide _)); [done|].
  destruct (QueuePair.TransitionToInit _ _ _) as [h1 s1]. destruct (status_ok s1) eqn:E1; cbn [negb]; [|split; [congruence|done]].
  destruct (QueuePair.TransitionToRTR _ _ _) as [h2 s2]. destruct (status_ok s2) eqn:E2; cbn [negb]; [|split; [congruence|done]].
  destruct (QueuePair.TransitionToRTS _ _) as [h3 s3]. destruct (status_ok s3) eqn:E3; cbn [negb]; [done|split; [congruence|done]].
Qed.

(** What the device keeps when queue pairs are modified, connecting and
    disconnecting keep. *)
Lemma connection_frame {T} (f : HW -> T) h conn r :
  (forall h q a m, f (ibv_modify_qp h q a m).1 = f h) ->
  f (Connection.Connect h conn r).1.1 = f h /\ f (Connection.destroy h conn).1 = f h.
Proof.
  intros Hf. assert (Hm : forall h q a m msg, f (QueuePair.modify h q a m msg).1 = f h).
  { intros h0 q a m msg. unfold QueuePair.modify. specialize (Hf h0 (QueuePair.qp_ q) a m).
    destruct (ibv_modify_qp h0 _ a m) as [h1 ret]. by destruct (negb _). }
  split.
  - unfold Connection.Connect. destruct (negb _); [done|]. unfold QueuePair.TransitionToInit, QueuePair.TransitionToRTR, QueuePair.TransitionToRTS.
    repeat match goal with |- context [QueuePair.modify ?h ?q ?a ?m ?s] =>
      pose proof (Hm h q a m s); destruct (QueuePair.modify h q a m s) as [? ?]; cbn [fst snd] in *;
      destruct (negb _); [cbn [fst]; congruence|] end. cbn [fst]. congruence.
  - unfold Connection.destroy, Connection.Disconnect. destruct (bool_decide _); cbn [negb]; [|done].
    unfold QueuePair.TransitionToError. match goal with |- context [QueuePair.modify ?h ?q ?a ?m ?s] =>
      pose proof (Hm h q a m s); by destruct (QueuePair.modify h q a m s) as [? ?] end.
Qed.

Lemma conn_step_transition hw c o : transition (Connection.state_ c) o (Connection.state_ (conn_step hw c o).1.2).
Proof.
  assert (Hq : forall o c (r : HW * QueuePair.QueuePair * Status), is_transfer o = true ->
    transition (Connection.state_ c) o (Connection.state_ (Connection.on_qp c r).1.2)).
  { intros o' c' [[hw' q'] s'] Ho. by constructor. }
  destruct o; cbn [conn_step];
    try (unfold Connection.Send, Connection.SendInline, Connection.Write, Connection.WriteWithImm, Connection.Read;
         case_bool_decide; simpl negb; cbv iota; [by apply Hq|by constructor]).
  - unfold Connection.Connect. case_bool_decide as E; simpl negb; cbv iota; [|by constructor].
    rewrite E. destruct (QueuePair.TransitionToInit _ _ _) as [hw1 s1].
    destruct (status_ok s1); simpl negb; cbv iota; [|constructor].
    destruct (QueuePair.TransitionToRTR _ _ _) as [hw2 s2].
    destruct (status_ok s2); simpl negb; cbv iota; [|constructor].
    destruct (QueuePair.TransitionToRTS _ _) as [hw3 s3].
    destruct (status_ok s3); simpl negb; cbv iota; constructor.
  - unfold Connection.Disconnect. case_bool_decide as E; simpl negb; cbv iota; [|by constructor].
    rewrite E. destruct (QueuePair.TransitionToError _ _). constructor.
Qed.

End device.
End lemmas.

(** ** Properties *)

Section properties.
Import ConnectionManager.

(** C18: Connection ids: from a manager created for at most 65535 connections,
    after any sequence of creations (whose queue pair may fail) and removals (of
    any id, twice or never used), every live connection knows its own id, ids of
    live connections and the free list partition the range, the active count is
    the number of live connections, a creation is refused for lack of slots
    exactly when all are live and otherwise never takes an id in use, a failed
    creation leaks no id, and looking up any id is defined. *)
Theorem connection_ids_partition (pd s r : Z) max (os : list ManagerOp) :
  is_u 16 max -> Forall manager_op_ok os ->
  exists m0 m rs, Create (Some pd) (Some s) (Some r) max = RVal m0
    /\ manager_run m0 os = Some (m, rs)
    /\ free_conn_ids_ m ++ live_ids m ≡ₚ seqZ 0 max
    /\ GetActiveCount m = Z.of_nat (length (live_ids m))
    /\ (forall id, 0 <= id -> GetConnection m id = Some (manager_view m id))
    /\ (forall id c, manager_view m id = Some c -> Connection.conn_id_ c = id /\ id ∈ live_ids m)
    /\ (forall res, exists m' out, CreateConnection m res = Some (m', out)
          /\ GetActiveCount m' = GetActiveCount m + (match out with RVal _ => 1 | RErr _ => 0 end)
          /\ match out with
             | RVal id => 0 <= id < max /\ manager_view m id = None /\ exists c, res = RVal c
                          /\ manager_view m' id = Some (Connection.SetConnId c id)
             | RErr e => res = RErr e \/ GetActiveCount m = max
             end).
Proof.
  intros Hmax Hok. destruct (Create_inv pd s r max Hmax) as (m0 & E0 & H0 & Em & _).
  destruct (manager_run_inv m0 os H0 Hok) as (m & rs & Erun & H & Em').
  assert (max_connections m = max) as Emax by congruence.
  exists m0, m, rs. split; [done|]. split; [done|]. split; [rewrite <- Emax; apply H|]. split; [apply H|].
  split; [|split].
  - intros id Hid. unfold GetConnection, manager_view.
    destruct (Z.leb_spec (Z.of_nat (length (connections_ m))) id).
    + destruct (aget _ _) as [x|] eqn:E; [apply aget_lt in E; lia|done].
    + destruct (aget_is_Some (connections_ m) id) as [x ->]; [lia|]. by destruct x.
  - intros id c. unfold manager_view. destruct (aget (connections_ m) id) as [[c'|]|] eqn:E; [|done..].
    cbn [mjoin option_join]. intros [= ->]. split; [by apply H|]. apply live_ids_spec; eauto.
  - intros res. destruct (CreateConnection_spec m res H) as (m' & out & E & _ & _ & Hout).
    exists m', out. split; [done|]. unfold GetActiveCount. destruct out as [id|e].
    + destruct Hout as (c & -> & Hn & Ha & Hc). split; [done|]. pose proof (aget_lt _ _ _ Hn) as Hr.
      split; [rewrite (mi_len _ H), Emax in Hr; lia|]. unfold manager_view. rewrite Hn. split; [done|].
      exists c. split; [done|]. rewrite Hc, aget_insert by done. by rewrite decide_True.
    + destruct Hout as (Hc & Ha & Hd). split; [lia|]. rewrite Emax in Hd. tauto.
Qed.

Lemma connection_ids_partition_witness :
  exists m0 m rs, Create (Some 1) (Some 2) (Some 3) 2 = RVal m0 /\ manager_run m0 manager_trace = Some (m, rs)
    /\ rs = [Some (RVal 0); Some (RErr (Err.IOError "Failed to create queue pair" 12)); Some (RVal 1);
             Some (RErr (Err.ResourceExhausted "No available connection slots")); None; None;
             Some (RVal 0); None].
Proof.
  destruct (connection_ids_partition 1 2 3 2 manager_trace) as (m0 & m & rs & E0 & E & _).
  - unfold is_u. lia.
  - repeat (apply Forall_cons; split; [unfold manager_op_ok, is_u; first [exact I|lia]|]). apply Forall_nil. exact I.
  - exists m0, m, rs. split; [exact E0|]. split; [exact E|].
    vm_compute in E0. injection E0 as <-. vm_compute in E. injection E as _ <-. reflexivity.
Defined.

(** C17: The connection state machine: whatever the device answers, every call
    makes one of the transitions of the specification; a data transfer on a
    connection that is not established is refused with INVALID_ARGUMENT and
    touches neither the device nor the connection; and [Connect] reports OK
    exactly when the connection was DISCONNECTED and ends CONNECTED. *)
Theorem connection_state_machine {HW} `{!Verbs HW} (hw : HW) (c : Connection) (o : ConnOp) :
  transition (Connection.state_ c) o (Connection.state_ (conn_step hw c o).1.2)
  /\ (Connection.state_ c <> CONNECTED -> is_transfer o = true ->
      conn_step hw c o = (hw, c, Connection.not_established))
  /\ (forall r, o = KConnect r ->
      status_ok (conn_step hw c o).2 = true <->
      Connection.state_ c = DISCONNECTED /\ Connection.state_ (conn_step hw c o).1.2 = CONNECTED).
Proof.
  split; [apply conn_step_transition|]. split.
  - intros Hne Ht. destruct o; try done; cbn [conn_step];
      unfold Connection.Send, Connection.SendInline, Connection.Write, Connection.WriteWithImm, Connection.Read;
      by rewrite bool_decide_false by done.
  - intros r ->. cbn [conn_step]. unfold Connection.Connect. case_bool_decide as E; simpl negb; cbv iota.
    2: { simpl. split; [done|]. by intros [? _]. }
    destruct (QueuePair.TransitionToInit _ _ _) as [hw1 s1].
    destruct (status_ok s1) eqn:E1; simpl negb; cbv iota; [|cbn; rewrite E1; split; [done|by intros [_ ?]]].
    destruct (QueuePair.TransitionToRTR _ _ _) as [hw2 s2].
    destruct (status_ok s2) eqn:E2; simpl negb; cbv iota; [|cbn; rewrite E2; split; [done|by intros [_ ?]]].
    destruct (QueuePair.TransitionToRTS _ _) as [hw3 s3].
    destruct (status_ok s3) eqn:E3; simpl negb; cbv iota; [|cbn; rewrite E3; split; [done|by intros [_ ?]]].
    cbn. done.
Qed.

Lemma connection_state_machine_witness :
  conn_step ((IBV_QPS_RESET, []) : ibv_qp_state * list ibv_send_wr) example_connection (KInline 4096 8 1)
  = ((IBV_QPS_RESET, []), example_connection, Connection.not_established).
Proof.
  destruct (connection_state_machine ((IBV_QPS_RESET, []) : ibv_qp_state * list ibv_send_wr)
    example_connection (KInline 4096 8 1)) as (_ & H & _).
  apply H; [discriminate|reflexivity].
Defined.

(** The ERROR state is final: after a failed connection attempt every further
    sequence of calls leaves the connection and the device exactly as they are;
    no call resets the queue pair. *)
Theorem error_state_absorbing {HW} `{!Verbs HW} (hw : HW) (c : Connection) (os : list ConnOp) :
  Connection.state_ c = ERROR ->
  (conn_run hw c os).1 = (hw, c).
Proof.
  intros He. induction os as [|o os IH]; [done|]. cbn [conn_run].
  assert (Hs : (conn_step hw c o).1 = (hw, c)).
  { destruct o; cbn [conn_step];
      unfold Connection.Connect, Connection.Disconnect, Connection.Send, Connection.SendInline, Connection.Write,
        Connection.WriteWithImm, Connection.Read;
      by rewrite bool_decide_false by (rewrite He; done). }
  destruct (conn_step hw c o) as [[hw1 c1] s1]. simpl in Hs. injection Hs as -> ->.
  destruct (conn_run hw c os) as [[hw2 c2] ss]. exact IH.
Qed.

Lemma error_state_absorbing_witness :
  let c := Connection.set_state example_connection ERROR in
  (conn_run ((IBV_QPS_INIT, []) : ibv_qp_state * list ibv_send_wr) c
     [KConnect example_params; KDisconnect; KInline 4096 8 1]).1 = ((IBV_QPS_INIT, []), c).
Proof. intros c. exact (error_state_absorbing (HW := ibv_qp_state * list ibv_send_wr) _ c _ eq_refl). Defined.

(** A connection cannot be re-established: [Disconnect] reports the state
    DISCONNECTED - the one from which [Connect] is allowed - but leaves the
    queue pair in the error state (or ready to send, if that transition fails),
    from which the verbs specification has no transition to INIT; so the next
    [Connect] always fails and ends in ERROR. *)
Theorem reconnect_always_fails {HW} `{!Verbs HW, !QpStateMachine HW} (hw : HW) (c : Connection) r1 r2 :
  Connection.state_ c = DISCONNECTED ->
  status_ok (Connection.Connect hw c r1).2 = true ->
  let '(hw1, c1, _) := Connection.Connect hw c r1 in
  let '(hw2, c2, s2) := Connection.Disconnect hw1 c1 in
  let '(_, c3, s3) := Connection.Connect hw2 c2 r2 in
  Connection.state_ c2 = DISCONNECTED /\ status_ok s2 = true
  /\ status_ok s3 = false /\ Connection.state_ c3 = ERROR.
Proof.
  intros Hd. unfold Connection.Connect at 1 2. rewrite bool_decide_true by done. simpl negb. cbv iota.
  destruct (QueuePair.TransitionToInit hw _ _) as [hw1 s1].
  destruct (status_ok s1) eqn:E1; simpl negb; cbv iota; [|cbn; by rewrite E1].
  destruct (QueuePair.TransitionToRTR hw1 _ _) as [hw2 s2].
  destruct (status_ok s2) eqn:E2; simpl negb; cbv iota; [|cbn; by rewrite E2].
  destruct (QueuePair.TransitionToRTS hw2 _) as [hw3 s3] eqn:E3'.
  destruct (status_ok s3) eqn:E3; simpl negb; cbv iota; [|cbn; by rewrite E3]. intros _.
  assert (qp_state hw3 = IBV_QPS_RTS) as Hq.
  { unfold QueuePair.TransitionToRTS in E3'.
    match type of E3' with QueuePair.modify ?h ?q ?a ?f ?m = _ =>
      pose proof (modify_status h q a f m) as Hs; pose proof (modify_device h q a f m) as Hm end.
    rewrite E3' in Hs, Hm. simpl in Hs, Hm. subst hw3. by apply modify_state, Hs. }
  unfold Connection.Disconnect. rewrite bool_decide_true by done. simpl negb. cbv iota.
  destruct (QueuePair.TransitionToError hw3 _) as [hw4 s4] eqn:E4.
  assert (qp_state hw4 = IBV_QPS_RTS \/ qp_state hw4 = IBV_QPS_ERR) as Hq4.
  { unfold QueuePair.TransitionToError in E4.
    match type of E4 with QueuePair.modify ?h ?q ?a ?f ?m = _ => pose proof (modify_device h q a f m) as Hm end.
    rewrite E4 in Hm. simpl in Hm. subst hw4.
    match goal with |- context [ibv_modify_qp ?h ?q ?a ?f] =>
      destruct (decide ((ibv_modify_qp h q a f).2 = 0)) as [Hz|Hz] end.
    - right. by apply modify_state in Hz as [-> _].
    - left. by rewrite (modify_state_fails _ _ _ _ Hz). }
  unfold Connection.Connect. rewrite bool_decide_true by done. simpl negb. cbv iota.
  destruct (QueuePair.TransitionToInit hw4 _ _) as [hw5 s5] eqn:E5.
  assert (status_ok s5 = false) as E5'.
  { apply not_true_is_false. unfold QueuePair.TransitionToInit in E5.
    match type of E5 with QueuePair.modify ?h ?q ?a ?f ?m = _ => pose proof (modify_status h q a f m) as Hs end.
    rewrite E5 in Hs. simpl in Hs. rewrite Hs. intros Hz. apply modify_state in Hz as [_ Hz].
    specialize (Hz eq_refl). destruct Hq4, Hz; congruence. }
  rewrite E5'. simpl. rewrite E5'. done.
Qed.

Lemma reconnect_always_fails_witness :
  let hw := ((IBV_QPS_RESET, []) : ibv_qp_state * list ibv_send_wr) in
  let '(hw1, c1, s1) := Connection.Connect hw example_connection example_params in
  let '(hw2, c2, s2) := Connection.Disconnect hw1 c1 in
  let '(hw3, c3, s3) := Connection.Connect hw2 c2 example_params in
  status_ok s1 = true /\ Connection.state_ c3 = ERROR.
Proof.
  intros hw. pose proof (reconnect_always_fails hw example_connection example_params example_params
    eq_refl eq_refl) as H. split; [reflexivity|exact (proj2 (proj2 (proj2 H)))].
Defined.

End properties.
