(* ===== verification/RpcEndpoint.v ===== *)
(** * The RPC endpoint

    Models [include/rdma/rpc/rpc_endpoint.h] and [src/rpc/rpc_endpoint.cpp]. The
    objects the endpoint points to (connection, timing wheel, buffer pool and,
    behind the connection, the device) are components of one [World]; the
    buffer pool is any [BufferSource]. A callback is an [Event]; callbacks do
    not re-enter the endpoint. [None] is undefined behaviour. *)

From S2P Require Import Prelude Types WrId Verbs Buffer BufferPool RpcSlot TimingWheel QueuePair Connection.

Module RpcEndpoint.
Import RpcSlotHot RpcSlotPool.

Record Config := { timeout_ms : Z; max_inline_data : Z; enable_zero_copy_response : bool }.

Definition Config_default : Config :=
  {| timeout_ms := 30000; max_inline_data := 256; enable_zero_copy_response := true |}.

Inductive Event := ECallback (fn ctx slot_index status : Z).

Record World (HW P : Type) := {
  hw : HW;
  conn_ : Connection;
  buffer_pool_ : P;
  timing_wheel_ : TimingWheel.TimingWheel;
  slot_pool_ : RpcSlotPool;
  config_ : Config;
}.
Arguments hw {HW P} _.
Arguments conn_ {HW P} _.
Arguments buffer_pool_ {HW P} _.
Arguments timing_wheel_ {HW P} _.
Arguments slot_pool_ {HW P} _.
Arguments config_ {HW P} _.

Section endpoint.
Context {HW P : Type} `{!Verbs HW, !BufferSource P}.
Implicit Types (w : World HW P).

(** [Create]: the pointers are null or not. *)
Definition Create (h : HW) (conn : option Connection) (pool : option P)
    (wheel : option TimingWheel.TimingWheel) (config : Config) : Result (World HW P) :=
  match conn, pool, wheel with
  | Some c, Some b, Some t =>
      RVal {| hw := h; conn_ := c; buffer_pool_ := b; timing_wheel_ := t;
              slot_pool_ := RpcSlotPool_new; config_ := config |}
  | _, _, _ => RErr (Err.InvalidArgument "Invalid parameters")
  end.

Definition set_slots w (p : RpcSlotPool) : World HW P :=
  {| hw := hw w; conn_ := conn_ w; buffer_pool_ := buffer_pool_ w; timing_wheel_ := timing_wheel_ w;
     slot_pool_ := p; config_ := config_ w |}.

Definition set_conn w (h : HW) (c : Connection) : World HW P :=
  {| hw := h; conn_ := c; buffer_pool_ := buffer_pool_ w; timing_wheel_ := timing_wheel_ w;
     slot_pool_ := slot_pool_ w; config_ := config_ w |}.

Definition set_wheel w (t : TimingWheel.TimingWheel) : World HW P :=
  {| hw := hw w; conn_ := conn_ w; buffer_pool_ := buffer_pool_ w; timing_wheel_ := t;
     slot_pool_ := slot_pool_ w; config_ := config_ w |}.

Definition set_pool w (h : HW) (b : P) : World HW P :=
  {| hw := h; conn_ := conn_ w; buffer_pool_ := b; timing_wheel_ := timing_wheel_ w;
     slot_pool_ := slot_pool_ w; config_ := config_ w |}.

(** Step 2 of the requests: initialise the slot and its context. *)
Definition init_slot (p : RpcSlotPool) (slot conn cb_ctx cb : Z) : option RpcSlotPool :=
  h ← GetHot p slot;
  let h := set_conn_id (SetState h kStateInUse) conn in
  p ← PutHot p slot (set_counts h 1 0 (error_code h));
  c ← GetContext p slot;
  PutContext p slot {| callback_fn := cb; callback_ctx := cb_ctx; recv_buffer := recv_buffer c;
                       recv_length := recv_length c; extended_info_index := extended_info_index c |}.

(** [hot->total_wr_count++]. *)
Definition add_wr (p : RpcSlotPool) (slot : Z) : option RpcSlotPool :=
  h ← GetHot p slot;
  PutHot p slot (set_counts h (u8 (total_wr_count h + 1)) (completed_wr_count h) (error_code h)).

Definition encode_imm (generation slot_index : Z) : Z :=
  Z.lor (u32 (Z.shiftl generation 16)) (Z.land slot_index 0xFFFF).

(** Steps 1 to 4, shared by the two request functions: [inl] the error that ends
    the call, [inr] the slot, its generation and the [wr_id]. *)
Definition start_request w (header header_len cb_ctx cb : Z)
    : option (World HW P * (Status + Z * Z * Z)) :=
  '(p, (slot, gen)) ← Allocate (slot_pool_ w);
  if slot =? UINT32_MAX
  then Some (w, inl (Err.ResourceExhausted "No available RPC slots"))
  else
    p ← init_slot p slot (Connection.conn_id_ (conn_ w)) cb_ctx cb;
    let w := set_slots w p in
    '(t, _) ← TimingWheel.Schedule (timing_wheel_ w) slot gen (timeout_ms (config_ w));
    let w := set_wheel w t in
    let wrid := WrId.Encode (Connection.conn_id_ (conn_ w)) REQUEST_SEND gen slot in
    let '(h, c, status) := Connection.SendInline (hw w) (conn_ w) header header_len wrid in
    let w := set_conn w h c in
    if negb (status_ok status) then
      p ← Free (slot_pool_ w) slot;
      Some (set_slots w p, inl status)
    else Some (w, inr (slot, gen, wrid)).

Definition SendRequest w (header header_len : Z) (data_buf : option Buffer) (cb_ctx cb : Z)
    : option (World HW P * Result Z) :=
  '(w, r) ← start_request w header header_len cb_ctx cb;
  match r with
  | inl status => Some (w, RErr status)
  | inr (slot, gen, wrid) =>
      match data_buf with
      | Some data =>
          if Buffer.IsValid data then
            p ← add_wr (slot_pool_ w) slot;
            let w := set_slots w p in
            let remote := Connection.remote_recv_buffer_ (conn_ w) in
            let '(h, c, _) := Connection.WriteWithImm (hw w) (conn_ w) data (rmi_addr remote)
                                (rmi_rkey remote) (encode_imm gen slot) wrid in
            Some (set_conn w h c, RVal slot)
          else Some (w, RVal slot)
      | None => Some (w, RVal slot)
      end
  end.

(** [iov] is [None] when the pointer is null; [Some None] when the fuel of the
    fragmentation loop ends. *)
Definition SendRequestSGL (fuel : nat) w (header header_len : Z) (iov : option (list iovec))
    (iov_count cb_ctx cb : Z) : option (option (World HW P * Result Z)) :=
  '(w, r) ← start_request w header header_len cb_ctx cb;
  match r with
  | inl status => Some (Some (w, RErr status))
  | inr (slot, gen, wrid) =>
      match iov with
      | Some iov =>
          if 0 <? iov_count then
            p ← add_wr (slot_pool_ w) slot;
            let w := set_slots w p in
            r ← QueuePair.PostSendSGL fuel (hw w) (Connection.qp (conn_ w)) iov iov_count slot
                  (Connection.conn_id_ (conn_ w)) gen;
            match r with
            | None => Some None
            | Some (h, q, _) => Some (Some (set_conn w h (Connection.set_qp (conn_ w) q), RVal slot))
            end
          else Some (Some (w, RVal slot))
      | None => Some (Some (w, RVal slot))
      end
  end.

Definition OnRpcComplete w (slot_index : Z) : option (World HW P * list Event) :=
  c ← GetContext (slot_pool_ w) slot_index;
  h ← GetHot (slot_pool_ w) slot_index;
  p ← Free (slot_pool_ w) slot_index;
  Some (set_slots w p,
        if callback_fn c =? 0 then [] else [ECallback (callback_fn c) (callback_ctx c) slot_index (error_code h)]).

(** Count a completion of the slot, and finish the call when it was the last. *)
Definition complete_wr w (slot_index : Z) (h : RpcSlotHot) : option (World HW P * list Event) :=
  let h := MarkCompleted h in
  p ← PutHot (slot_pool_ w) slot_index h;
  let w := set_slots w p in
  if IsCompleted h then OnRpcComplete w slot_index else Some (w, []).

Definition OnSendComplete w (wc : ibv_wc) : option (World HW P * list Event) :=
  let slot_index := WrId.GetSlotIndex (wc_wr_id wc) in
  let generation := WrId.GetGeneration (wc_wr_id wc) in
  hot ← GetHotChecked (slot_pool_ w) slot_index generation;
  match hot with
  | None => Some (w, [])
  | Some h => complete_wr w slot_index h
  end.

Definition RepostRecvBuffer w : option (World HW P) :=
  '(b, buf) ← bs_allocate (buffer_pool_ w);
  if Buffer.IsValid buf then
    let '(h, _) := Connection.PostRecv (hw w) (conn_ w) buf 0 in Some (set_pool w h b)
  else Some (set_pool w (hw w) b).

(** [OnWriteWithImmRecv] after it has decoded the immediate. *)
Definition complete_response w (slot_index generation : Z) : option (World HW P * list Event) :=
  hot ← GetHotChecked (slot_pool_ w) slot_index generation;
  match hot with
  | None => Some (w, [])
  | Some h =>
      '(w, evs) ← complete_wr w slot_index h;
      w ← RepostRecvBuffer w;
      Some (w, evs)
  end.

Definition OnWriteWithImmRecv w (wc : ibv_wc) : option (World HW P * list Event) :=
  let imm := QueuePair.ntohl (wc_imm_data wc) in
  let slot_index := Z.land imm 0xFFFF in
  let generation := u8 (Z.land (Z.shiftr imm 16) 0xFF) in
  complete_response w slot_index generation.

Definition SendReadResponse w (client_slot client_gen : Z) (data_buf : Buffer)
    (client_buffer : RemoteMemoryInfo) : World HW P * Status :=
  let imm := encode_imm client_gen client_slot in
  let '(h, c, s) := Connection.WriteWithImm (hw w) (conn_ w) data_buf (rmi_addr client_buffer)
                      (rmi_rkey client_buffer) (QueuePair.htonl imm) 0 in
  (set_conn w h c, s).

(** One iteration of the loop of [CheckTimeouts]; the flag says it counts. *)
Definition timeout_one w (slot_index generation : Z) : option (World HW P * list Event * bool) :=
  hot ← GetHotChecked (slot_pool_ w) slot_index generation;
  match hot with
  | None => Some (w, [], false)
  | Some h =>
      if IsCompleted h then Some (w, [], false)
      else
        p ← PutHot (slot_pool_ w) slot_index (set_counts h (total_wr_count h) (total_wr_count h) 1);
        c ← GetContext p slot_index;
        p ← Free p slot_index;
        Some (set_slots w p,
              if callback_fn c =? 0 then [] else [ECallback (callback_fn c) (callback_ctx c) slot_index 1], true)
  end.

Fixpoint CheckTimeouts w (expired : list (Z * Z)) : option (World HW P * list Event * Z) :=
  match expired with
  | [] => Some (w, [], 0)
  | (slot, gen) :: expired =>
      '(w, evs, b) ← timeout_one w slot gen;
      '(w, evs', n) ← CheckTimeouts w expired;
      Some (w, evs ++ evs', (if b : bool then 1 else 0) + n)
  end.

End endpoint.
End RpcEndpoint.

(** ** Specification *)

Section specification.
Import RpcEndpoint RpcSlotHot RpcSlotPool.
Context {HW P : Type} `{!Verbs HW, !BufferSource P}.

(** The slot pool is in a state its clients can reach, with the held slots and
    the free counts of the ghost client; the wheel represents its lists. *)
Record ep_wf (w : World HW P) (s : Client) : Prop := {
  ew_slots : client_inv kMaxSlots s /\ cl_pool s = slot_pool_ w;
  ew_wheel : exists t, wheel_rep (timing_wheel_ w) t;
  ew_conn : is_u 16 (Connection.conn_id_ (conn_ w));
  ew_timeout : is_u 32 (timeout_ms (config_ w));
}.

(** The one callback of a call. *)
Definition callback (fn ctx slot status : Z) : list Event :=
  if fn =? 0 then [] else [ECallback fn ctx slot status].

Definition completion_of (wrid : Z) : ibv_wc :=
  {| wc_wr_id := wrid; wc_status := IBV_WC_SUCCESS; wc_byte_len := 0; wc_imm_data := 0 |}.

(** The receive completion of a request that carries an immediate. *)
Definition response_of (wr : ibv_send_wr) : ibv_wc :=
  {| wc_wr_id := 0; wc_status := IBV_WC_SUCCESS; wc_byte_len := 0; wc_imm_data := imm_data wr |}.

Definition example_buffer : Buffer := {| Buffer.addr_ := 4096; Buffer.length_ := 64; Buffer.lkey_ := 1 |}.

Definition example_remote : RemoteMemoryInfo := {| rmi_addr := 8192; rmi_rkey := 2; rmi_length := 64 |}.

(** How often a slot was handed out: each time but the current one ended in a free. *)
Definition allocations (s : Client) (i : Z) : Z :=
  cl_frees s i + (if decide (i ∈ (cl_held s).*1) then 1 else 0).

(** An entry [(slot, generation)] of the wheel stems from one of the last 255
    allocations of its slot. *)
Definition issued (s : Client) (e : Z * Z) : Prop :=
  0 <= e.1 < kMaxSlots
  /\ exists f, e.2 = f mod 256 /\ 0 <= f < allocations s e.1 /\ allocations s e.1 <= f + 255.

(** The entry's generation is the slot's, and a request of the call is missing. *)
Definition overdue (w : World HW P) (e : Z * Z) : Prop :=
  exists h, GetHotChecked (slot_pool_ w) e.1 e.2 = Some (Some h) /\ IsCompleted h = false.

Definition timeout_events (w : World HW P) (i : Z) : list Event :=
  match GetContext (slot_pool_ w) i with
  | Some c => callback (callback_fn c) (callback_ctx c) i 1
  | None => []
  end.

(** An established connection on an accepting device, with fresh slots. *)
Definition example_world : World (list ibv_send_wr) LocalBufferPool.LocalBufferPool :=
  {| hw := []; conn_ := Connection.set_state example_connection CONNECTED; buffer_pool_ := reduced_fifo;
     timing_wheel_ := TimingWheel.TimingWheel_new; slot_pool_ := RpcSlotPool_new;
     config_ := Config_default |}.

End specification.

(** ** Lemmas *)

Section lemmas.
Import RpcEndpoint RpcSlotHot RpcSlotPool.

(** *** The slot pool, seen from its client *)

Definition with_pool (s : Client) (p : RpcSlotPool) : Client :=
  {| cl_pool := p; cl_held := cl_held s; cl_frees := cl_frees s; cl_log := cl_log s |}.

Lemma Allocate_inv s : client_inv kMaxSlots s ->
  exists p i g, Allocate (cl_pool s) = Some (p, (i, g))
    /\ ((i = UINT32_MAX /\ p = cl_pool s /\ stack_top_ p = 0)
        \/ (0 <= i < kMaxSlots /\ i ∉ (cl_held s).*1 /\ g = cl_frees s i mod 256
            /\ stack_top_ p = stack_top_ (cl_pool s) - 1
            /\ exists s', client_inv kMaxSlots s' /\ cl_pool s' = p /\ cl_frees s' = cl_frees s
                 /\ cl_held s' = (i, g) :: cl_held s)).
Proof.
  intros H. assert (Hn : 0 <= kMaxSlots <= 2 ^ 20) by (unfold kMaxSlots; lia).
  destruct (Allocate_step kMaxSlots s H Hn) as (s' & E & H' & Hz & Hpos). cbn [client_step] in E.
  destruct (Allocate (cl_pool s)) as [[p [i g]]|] eqn:EA; [|done]. cbn [mbind option_bind] in E.
  exists p, i, g. split; [done|]. pose proof (ci_top _ _ H).
  destruct (decide (stack_top_ (cl_pool s) = 0)) as [Z0|Z0].
  - left. unfold Allocate in EA. rewrite Z0 in EA. by injection EA as <- <- <-.
  - right. destruct Hpos as (j & Hj & Hnj & _ & _ & Ht & Hf); [lia|]. injection E as E.
    revert E. case (Z.eqb_spec i UINT32_MAX) as [Ei|Ei]; intros E.
    { subst s'. apply (f_equal length) in Hj. simpl in Hj. lia. }
    rewrite <- E in Hj. cbn [cl_held] in Hj. injection Hj as -> ->.
    assert (0 <= j < kMaxSlots) as Hr.
    { apply (held_range kMaxSlots s' j H'). rewrite <- E. cbn [cl_held]. rewrite fmap_cons. set_solver. }
    split_and!; try done; try lia; [by rewrite <- E in Ht|].
    exists s'. rewrite <- E in *. done.
Qed.

Lemma held_delete s k i g : client_inv kMaxSlots s -> cl_held s !! k = Some (i, g) ->
  forall j, j ∈ (delete k (cl_held s)).*1 <-> j <> i /\ j ∈ (cl_held s).*1.
Proof.
  intros H Hk j. destruct (held_removed _ _ _ _ _ H Hk) as (Hp & Hni & _). rewrite Hp, elem_of_cons. split.
  - intros Hj. split; [by intros ->|by right].
  - by intros [? [->|]].
Qed.

Lemma Free_frame p p' i : Free p i = Some p' ->
  slots_context_ p' = slots_context_ p /\ forall j, j <> i -> GetHot p' j = GetHot p j.
Proof.
  unfold Free, PutHot. intros E. inv_some. split; [done|]. intros j Hj.
  match goal with H : aset (slots_hot_ p) i _ = Some _ |- _ => apply aset_inv in H as [Hr ->] end.
  unfold GetHot. cbn [set_stack set_hot slots_hot_]. rewrite aget_insert by done. by rewrite decide_False.
Qed.

Lemma Free_inv s i : client_inv kMaxSlots s -> i ∈ (cl_held s).*1 ->
  exists p, Free (cl_pool s) i = Some p /\ slots_context_ p = slots_context_ (cl_pool s)
    /\ stack_top_ p = stack_top_ (cl_pool s) + 1
    /\ (forall j, j <> i -> GetHot p j = GetHot (cl_pool s) j)
    /\ exists s', client_inv kMaxSlots s' /\ cl_pool s' = p
         /\ (forall j, cl_frees s' j = if j =? i then cl_frees s j + 1 else cl_frees s j)
         /\ (forall j, j ∈ (cl_held s').*1 <-> j <> i /\ j ∈ (cl_held s).*1).
Proof.
  intros H ([i' g] & Ei & Hk)%list_elem_of_fmap. simpl in Ei. subst i'.
  apply list_elem_of_lookup in Hk as [k Hk].
  assert (Hn : 0 <= kMaxSlots <= 2 ^ 20) by (unfold kMaxSlots; lia).
  destruct (Free_step kMaxSlots s k i g H Hn Hk) as (s' & E & H' & Hdel & _ & Ht & Hf). cbn [client_step] in E.
  assert (Hheld : forall j, j ∈ (cl_held s').*1 <-> j <> i /\ j ∈ (cl_held s).*1).
  { rewrite Hdel. by apply held_delete with g. }
  rewrite Hk in E. destruct (Free (cl_pool s) i) as [p|] eqn:EF; [|done]. cbn [mbind option_bind] in E.
  injection E as E. exists p. rewrite <- E in *. cbn [cl_pool cl_frees] in *. split; [done|].
  apply Free_frame in EF as [Hctx Hoth]. split; [done|]. split; [done|]. split; [done|].
  eexists. split; [exact H'|]. done.
Qed.

(** A store to the header of a held slot that keeps its state and generation. *)
Lemma PutHot_inv s i h h' : client_inv kMaxSlots s -> i ∈ (cl_held s).*1 ->
  GetHot (cl_pool s) i = Some h -> is_u 8 (flags h') -> slot_gen_packed h' = slot_gen_packed h ->
  GetState h' = GetState h ->
  exists p, PutHot (cl_pool s) i h' = Some p /\ client_inv kMaxSlots (with_pool s p)
    /\ GetHot p i = Some h' /\ slots_context_ p = slots_context_ (cl_pool s)
    /\ stack_top_ p = stack_top_ (cl_pool s).
Proof.
  intros H Hi Hh Hf Hp Hs. pose proof (held_range _ _ _ H Hi) as Hr.
  rewrite PutHot_Some by (rewrite (ci_hot _ _ H); lia). eexists. split; [done|]. split_and!; [| |done|done].
  - constructor; try apply H.
    + cbn. rewrite length_insert. apply H.
    + unfold GetHot. cbn [cl_pool with_pool set_hot slots_hot_ cl_held cl_frees]. intros j hj.
      rewrite aget_insert by (rewrite (ci_hot _ _ H); lia). case_decide as Hij; [|by apply H].
      intros [= <-]. subst j. destruct (ci_slot _ _ H i h Hh) as (_ & Hpk & Hst). by rewrite Hp, Hs.
  - unfold GetHot. cbn [set_hot slots_hot_]. rewrite aget_insert by (rewrite (ci_hot _ _ H); lia).
    by rewrite decide_True.
Qed.

Lemma PutHot_frame p p' i h : PutHot p i h = Some p' -> forall j, j <> i -> GetHot p' j = GetHot p j.
Proof.
  unfold PutHot. intros E. inv_some. intros j Hj.
  match goal with H : aset (slots_hot_ p) i _ = Some _ |- _ => apply aset_inv in H as [Hr ->] end.
  unfold GetHot. cbn [set_hot slots_hot_]. rewrite aget_insert by done. by rewrite decide_False.
Qed.

Lemma PutContext_inv s i c : client_inv kMaxSlots s -> 0 <= i < kMaxSlots ->
  exists p, PutContext (cl_pool s) i c = Some p /\ client_inv kMaxSlots (with_pool s p)
    /\ GetContext p i = Some c /\ slots_hot_ p = slots_hot_ (cl_pool s)
    /\ stack_top_ p = stack_top_ (cl_pool s).
Proof.
  intros H Hi. unfold PutContext. rewrite aset_Some by (rewrite (ci_context _ _ H); lia).
  eexists. split; [done|]. split_and!; [| |done|done].
  - constructor; try apply H. cbn. rewrite length_insert. apply H.
  - unfold GetContext. cbn [set_context slots_context_].
    rewrite aget_insert by (rewrite (ci_context _ _ H); lia). by rewrite decide_True.
Qed.

Lemma context_read s i : client_inv kMaxSlots s -> 0 <= i < kMaxSlots ->
  exists c, GetContext (cl_pool s) i = Some c.
Proof. intros H Hi. apply aget_is_Some. rewrite (ci_context _ _ H). lia. Qed.

Lemma held_generation s i h : client_inv kMaxSlots s -> GetHot (cl_pool s) i = Some h ->
  GetGeneration h = cl_frees s i mod 4096.
Proof.
  intros H Hh. destruct (ci_slot _ _ H i h Hh) as (_ & Hp & _). apply aget_lt in Hh.
  rewrite (ci_hot _ _ H) in Hh.
  apply (packed_generation h _ i); [done|apply Z.mod_pos_bound; lia|unfold is_u, kMaxSlots in *; lia].
Qed.

Lemma encoded_slot c g s : is_u 16 c -> is_u 8 g -> is_u 32 s ->
  WrId.GetSlotIndex (WrId.Encode c REQUEST_SEND g s) = s /\ WrId.GetGeneration (WrId.Encode c REQUEST_SEND g s) = g.
Proof.
  intros Hc Hg Hs. destruct (WrId_get_arith (WrId.Encode c REQUEST_SEND g s)) as (_ & _ & -> & ->).
  rewrite WrId_Encode_arith by done. simpl RpcOpcode_u8. unfold is_u in *. split; zdm.
Qed.

(** Initialising a slot just allocated. *)
Lemma init_slot_inv s i conn ctx fn :
  client_inv kMaxSlots s -> i ∈ (cl_held s).*1 ->
  exists p h c, init_slot (cl_pool s) i conn ctx fn = Some p /\ client_inv kMaxSlots (with_pool s p)
    /\ GetHot p i = Some h /\ total_wr_count h = 1 /\ completed_wr_count h = 0
    /\ (forall h0, GetHot (cl_pool s) i = Some h0 -> error_code h = error_code h0)
    /\ GetContext p i = Some c /\ callback_fn c = fn /\ callback_ctx c = ctx
    /\ stack_top_ p = stack_top_ (cl_pool s).
Proof.
  intros H Hi. pose proof (held_range _ _ _ H Hi) as Hr. destruct (slot_read _ _ _ H Hr) as [h0 Hh0].
  destruct (ci_slot _ _ H i h0 Hh0) as (Hf & Hpk & Hst). rewrite decide_True in Hst by done.
  unfold init_slot. rewrite Hh0. sbind.
  set (h1 := set_conn_id (SetState h0 kStateInUse) conn).
  assert (Hg : GetState (SetState h0 kStateInUse) = kStateInUse)
    by (apply GetState_SetState; [done|unfold kStateInUse; lia]).
  destruct (PutHot_inv s i h0 (set_counts h1 1 0 (error_code h1)) H Hi Hh0) as (p & -> & H1 & Hp1 & Hc1 & Ht1).
  { by apply wrap_range. } { done. } { rewrite Hst. exact Hg. }
  sbind. destruct (context_read (with_pool s p) i H1 Hr) as [c0 Hc0]. cbn [cl_pool with_pool] in Hc0.
  rewrite Hc0. sbind.
  destruct (PutContext_inv (with_pool s p) i {| callback_fn := fn; callback_ctx := ctx;
    recv_buffer := recv_buffer c0; recv_length := recv_length c0;
    extended_info_index := extended_info_index c0 |} H1 Hr) as (p2 & E2 & H2 & Hp2 & Hh2 & Ht2).
  cbn [cl_pool with_pool] in *. rewrite E2. do 3 eexists. split; [done|]. split; [exact H2|].
  split; [unfold GetHot in *; rewrite Hh2; exact Hp1|]. split_and!; try done.
  - intros h [= <-]. done.
  - congruence.
Qed.

(** Finishing the call of a held slot: one callback, and the slot is free. *)
Lemma OnRpcComplete_inv {HW P} (w : World HW P) s i h c :
  client_inv kMaxSlots s -> cl_pool s = slot_pool_ w -> i ∈ (cl_held s).*1 ->
  GetHot (slot_pool_ w) i = Some h -> GetContext (slot_pool_ w) i = Some c ->
  exists p, OnRpcComplete w i = Some (set_slots w p, callback (callback_fn c) (callback_ctx c) i (error_code h))
    /\ stack_top_ p = stack_top_ (slot_pool_ w) + 1
    /\ exists s', client_inv kMaxSlots s' /\ cl_pool s' = p
         /\ forall j, cl_frees s' j = if j =? i then cl_frees s j + 1 else cl_frees s j.
Proof.
  intros H Ep Hi Hh Hc. destruct (Free_inv s i H Hi) as (p & E & _ & Ht & _ & s' & H' & Ep' & Hf & _).
  unfold OnRpcComplete. rewrite Hc, Hh. sbind. rewrite <- Ep, E. sbind.
  exists p. split; [done|]. split; [done|]. exists s'. done.
Qed.

Lemma Allocate_error_code p p' i g h :
  Allocate p = Some (p', (i, g)) -> i <> UINT32_MAX -> GetHot p' i = Some h -> error_code h = 0.
Proof.
  unfold Allocate. destruct (stack_top_ p =? 0); [by intros [= _ <- _]|].
  destruct (aget (free_stack_ p) _) as [i0|]; [|done]. sbind. destruct (GetHot p i0) as [h0|]; [|done]. sbind.
  unfold PutHot. destruct (aset _ _ _) as [l|] eqn:E; [|done]. sbind. intros [= <- <- _] _.
  apply aset_inv in E as [Hr ->]. unfold GetHot. cbn [set_hot slots_hot_ set_stack] in *.
  rewrite aget_insert, decide_True by done. by intros [= <-].
Qed.

Section endpoint.
Context {HW P : Type} `{!Verbs HW, !BufferSource P}.
Implicit Types (w : World HW P).

Lemma SendInline_posted (h : HW) c data len wrid h' c' st :
  Connection.SendInline h c data len wrid = (h', c', st) ->
  Connection.conn_id_ c' = Connection.conn_id_ c
  /\ if status_ok st then exists wr, posted h' = posted h ++ [wr] /\ wr_id wr = wrid
     else posted h' = posted h.
Proof.
  unfold Connection.SendInline, QueuePair.PostSendInline. case_bool_decide; simpl negb; cbv iota.
  2: { intros [= <- <- <-]. done. }
  destruct (_ <? len); [by intros [= <- <- <-]|].
  destruct (QueuePair.ShouldSignal _) as [q b]. destruct (QueuePair.post _ _ _ _) as [h1 s1] eqn:E.
  intros [= <- <- <-]. split; [done|]. apply post_spec in E. destruct (status_ok s1); [|done].
  eexists. split; [exact E|done].
Qed.

(** *** What an operation leaves alone *)

Lemma held_head s slot gen held : cl_held s = (slot, gen) :: held -> slot ∈ (cl_held s).*1.
Proof. intros ->. rewrite fmap_cons. set_solver. Qed.

(** The slots other than [i]. *)
Definition others (i : Z) (p p' : RpcSlotPool) : Prop :=
  forall j, j <> i -> GetHot p' j = GetHot p j /\ GetContext p' j = GetContext p j.

Lemma others_trans i p p1 p2 : others i p p1 -> others i p1 p2 -> others i p p2.
Proof. intros H1 H2 j Hj. destruct (H1 j Hj) as [<- <-]. by apply H2. Qed.

Lemma others_refl i p : others i p p.
Proof. done. Qed.

Lemma PutHot_others p p' i h : PutHot p i h = Some p' -> others i p p'.
Proof.
  intros E j Hj. split; [by apply (PutHot_frame _ _ _ _ E)|]. unfold PutHot in E.
  apply bind_Some in E as (l & _ & E). by simplify_eq.
Qed.

Lemma PutContext_others p p' i c : PutContext p i c = Some p' -> others i p p'.
Proof.
  unfold PutContext. intros (l & E & E')%bind_Some j Hj. simplify_eq. split; [done|]. apply aset_inv in E as [Hr ->].
  unfold GetContext. cbn [set_context slots_context_]. rewrite aget_insert by done. by rewrite decide_False.
Qed.

Lemma Free_others p p' i : Free p i = Some p' -> others i p p'.
Proof.
  intros [Hc Hh]%Free_frame j Hj. split; [by apply Hh|]. unfold GetContext. by rewrite Hc.
Qed.

Lemma Allocate_others p p' i g : Allocate p = Some (p', (i, g)) -> others i p p'.
Proof.
  unfold Allocate. destruct (_ =? 0); [intros [= <- _ _]; apply others_refl|].
  intros (i' & _ & (h & _ & (p1 & E & E')%bind_Some)%bind_Some)%bind_Some. simplify_eq.
  intros j Hj. exact (PutHot_others _ _ _ _ E j Hj).
Qed.

Lemma init_slot_others p p' i conn ctx fn : init_slot p i conn ctx fn = Some p' -> others i p p'.
Proof.
  unfold init_slot. intros (h & _ & (p1 & E1 & (c & _ & E2)%bind_Some)%bind_Some)%bind_Some.
  by eapply others_trans; [eapply PutHot_others|eapply PutContext_others].
Qed.

(** A request touches the slot it is given, and schedules it in the wheel. *)
Lemma start_request_frame w hd len ctx fn w1 r :
  start_request w hd len ctx fn = Some (w1, r) ->
  buffer_pool_ w1 = buffer_pool_ w /\ config_ w1 = config_ w
  /\ ((w1 = w /\ (exists e, r = inl e) /\ exists p g, Allocate (slot_pool_ w) = Some (p, (UINT32_MAX, g)))
      \/ exists p i g b, Allocate (slot_pool_ w) = Some (p, (i, g))
         /\ TimingWheel.Schedule (timing_wheel_ w) i g (timeout_ms (config_ w)) = Some (timing_wheel_ w1, b)
         /\ others i (slot_pool_ w) (slot_pool_ w1)
         /\ match r with inl _ => True | inr (slot, gen, _) => slot = i /\ gen = g end).
Proof.
  unfold start_request. intros ([p [i g]] & EA & E)%bind_Some.
  destruct (Z.eqb_spec i UINT32_MAX) as [->|_].
  { simplify_eq. split_and!; [done..|]. left. split; [done|]. split; [by eexists|by exists p, g]. }
  apply bind_Some in E as (p2 & E2 & E). apply bind_Some in E as ([t b] & Es & E).
  pose proof (others_trans _ _ _ _ (Allocate_others _ _ _ _ EA) (init_slot_others _ _ _ _ _ _ E2)) as Ho.
  destruct (Connection.SendInline _ _ _ _ _) as [[h c] st]. destruct (negb _).
  - apply bind_Some in E as (p3 & E3 & E). simplify_eq. split_and!; [done..|]. right. exists p, i, g, b.
    split_and!; [done|done| |done]. exact (others_trans _ _ _ _ Ho (Free_others _ _ _ E3)).
  - simplify_eq. split_and!; [done..|]. right. by exists p, i, g, b.
Qed.

(** Steps 1 to 4 of a request. *)
Lemma start_request_inv w s hd len ctx fn :
  ep_wf w s ->
  exists w1 r, start_request w hd len ctx fn = Some (w1, r)
    /\ match r with
       | inl e => (exists s1, ep_wf w1 s1 /\ (forall j, j ∈ (cl_held s1).*1 <-> j ∈ (cl_held s).*1)
                     /\ (w1 = w /\ s1 = s /\ stack_top_ (slot_pool_ w) = 0
                         \/ status_ok e = false
                            /\ exists p i g, Allocate (slot_pool_ w) = Some (p, (i, g)) /\ 0 <= i < kMaxSlots
                              /\ i ∉ (cl_held s).*1 /\ g = cl_frees s i mod 256
                              /\ forall j, cl_frees s1 j = if j =? i then cl_frees s j + 1 else cl_frees s j))
                  /\ stack_top_ (slot_pool_ w1) = stack_top_ (slot_pool_ w)
                  /\ posted (hw w1) = posted (hw w)
                  /\ (stack_top_ (slot_pool_ w) = 0
                      \/ status_ok e = false /\ exists wrid, (Connection.SendInline (hw w) (conn_ w) hd len wrid).2 = e)
       | inr (slot, gen, wrid) =>
           0 <= slot < kMaxSlots /\ slot ∉ (cl_held s).*1 /\ gen = cl_frees s slot mod 256
           /\ wrid = WrId.Encode (Connection.conn_id_ (conn_ w)) REQUEST_SEND gen slot
           /\ (exists wr, posted (hw w1) = posted (hw w) ++ [wr] /\ wr_id wr = wrid)
           /\ stack_top_ (slot_pool_ w1) = stack_top_ (slot_pool_ w) - 1
           /\ exists s1 h c, ep_wf w1 s1 /\ cl_frees s1 = cl_frees s /\ cl_held s1 = (slot, gen) :: cl_held s
              /\ GetHot (slot_pool_ w1) slot = Some h /\ total_wr_count h = 1
              /\ completed_wr_count h = 0 /\ error_code h = 0
              /\ GetContext (slot_pool_ w1) slot = Some c /\ callback_fn c = fn /\ callback_ctx c = ctx
       end.
Proof.
  intros [[Hs Ep] [t Ht] Hconn Hto]. unfold start_request. rewrite <- Ep.
  destruct (Allocate_inv s Hs) as (p & i & g & EA & Hcase). rewrite EA. sbind.
  destruct Hcase as [(-> & -> & Hz)|(Hr & Hnh & Hg & Htop & s1 & Hs1 & Ep1 & Hf1 & Hh1)].
  { rewrite Z.eqb_refl. exists w, (inl (Err.ResourceExhausted "No available RPC slots")).
    split; [done|]. rewrite Ep in Hz. rewrite ?Ep. split; [|split; [done|split; [done|by left]]].
    exists s. split; [split; [done|by exists t|done|done]|]. split; [done|]. by left. }
  destruct (Z.eqb_spec i UINT32_MAX) as [E|Ei]; [unfold kMaxSlots, UINT32_MAX in *; lia|].
  assert (i ∈ (cl_held s1).*1) as Hin by (rewrite Hh1, fmap_cons; set_solver). rewrite <- Ep1.
  destruct (init_slot_inv s1 i (Connection.conn_id_ (conn_ w)) ctx fn Hs1 Hin)
    as (p2 & h & c & -> & Hs2 & Hhot & Htot & Hcmp & Herr & Hctx & Hfn & Hcx & Htop2). sbind.
  destruct (wheel_schedule_refines (timing_wheel_ w) t i g (timeout_ms (config_ w)) Ht Hto) as (t' & E' & Ht').
  cbn [set_slots timing_wheel_ config_]. rewrite E'. sbind.
  cbn [set_slots set_wheel hw conn_ buffer_pool_ timing_wheel_ slot_pool_ config_].
  destruct (Connection.SendInline (hw w) (conn_ w) hd len _) as [[h' c'] st] eqn:ES.
  pose proof ES as [Ecid Hpost]%SendInline_posted.
  destruct (status_ok st) eqn:Est; simpl negb; cbv iota.
  - do 2 eexists. split; [done|]. cbn [set_conn slot_pool_ hw]. split_and!; [lia|lia|done|done|done|done| |].
    + cbn [set_wheel set_conn set_slots slot_pool_]. rewrite Htop2, Ep1, Htop. done.
    + exists (with_pool s1 p2), h, c. split.
      { constructor; [by split|by eexists|cbn; by rewrite Ecid|done]. }
      split_and!; try done.
      destruct (slot_read kMaxSlots s1 i Hs1 Hr) as [h0 Hh0]. rewrite (Herr h0 Hh0).
      apply (Allocate_error_code _ _ _ _ _ EA Ei). by rewrite <- Ep1.
  - destruct (Free_inv (with_pool s1 p2) i Hs2 Hin) as (p3 & E3 & _ & Ht3 & _ & s3 & Hs3 & Ep3 & Hf3 & Hh3).
    cbn [cl_pool with_pool cl_held] in E3, Ht3, Hh3. cbn [set_conn set_wheel set_slots slot_pool_]. rewrite E3. sbind. do 2 eexists. split; [done|].
    cbn [set_conn set_slots slot_pool_ hw conn_ timing_wheel_ config_]. split_and!.
    + exists s3. split; [constructor; [by split|by eexists|cbn; by rewrite Ecid|done]|]. split.
      * intros j. rewrite Hh3, Hh1, fmap_cons, elem_of_cons. cbn [fst]. split; [tauto|]. intros Hj. split; [by intros ->|by right].
      * right. split; [done|]. exists p, i, g. split_and!; [by rewrite Ep1|lia|lia|done|done|]. intros j. rewrite Hf3. cbn [with_pool cl_frees]. by rewrite Hf1.
    + rewrite Ht3, Htop2, Ep1, Htop. lia.
    + done.
    + right. split; [done|]. eexists. by rewrite ES.
Qed.

(** A completion of the last request of a held slot whose generation fits in the
    8 bits of a [wr_id]: one callback, then the completion is stale. *)
Lemma OnSendComplete_last w s slot h c wc :
  ep_wf w s -> slot ∈ (cl_held s).*1 ->
  WrId.GetSlotIndex (wc_wr_id wc) = slot -> WrId.GetGeneration (wc_wr_id wc) = cl_frees s slot mod 256 ->
  GetHot (slot_pool_ w) slot = Some h -> 0 <= completed_wr_count h < 255 ->
  total_wr_count h = completed_wr_count h + 1 ->
  GetContext (slot_pool_ w) slot = Some c ->
  if decide (cl_frees s slot mod 4096 < 256)
  then exists w2, OnSendComplete w wc
                  = Some (w2, callback (callback_fn c) (callback_ctx c) slot (error_code h))
       /\ stack_top_ (slot_pool_ w2) = stack_top_ (slot_pool_ w) + 1
       /\ OnSendComplete w2 wc = Some (w2, [])
       /\ exists s2, ep_wf w2 s2
  else OnSendComplete w wc = Some (w, []).
Proof.
  intros [[Hs Ep] Hw Hconn Hto] Hin Eslot Egen Hh Hcb Htot Hc. unfold OnSendComplete.
  rewrite Eslot, Egen. unfold GetHotChecked. rewrite Hh. sbind. unfold ValidateGeneration.
  rewrite <- Ep in Hh, Hc. rewrite (held_generation s slot h Hs Hh).
  case_decide as Hg.
  2: { case Z.eqb_spec; [intros; zdm|]. done. }
  case Z.eqb_spec; [|intros; zdm]. intros _.
  destruct (ci_slot _ _ Hs slot h Hh) as (Hf & _ & _).
  unfold complete_wr. rewrite <- Ep.
  destruct (PutHot_inv s slot h (MarkCompleted h) Hs Hin Hh Hf eq_refl eq_refl) as (p & -> & Hs1 & Hh1 & Hc1 & Ht1).
  sbind. assert (IsCompleted (MarkCompleted h) = true) as ->.
  { unfold IsCompleted, MarkCompleted. cbn [set_counts total_wr_count completed_wr_count].
    rewrite wrap_id by (unfold is_u; lia). apply Z.leb_le. lia. }
  destruct (OnRpcComplete_inv (set_slots w p) (with_pool s p) slot (MarkCompleted h) c Hs1 eq_refl Hin)
    as (p2 & E2 & Ht2 & s2 & Hs2 & Ep2 & Hf2); [exact Hh1| |].
  { cbn [set_slots slot_pool_]. unfold GetContext in *. by rewrite Hc1. }
  rewrite E2. eexists. split; [done|]. cbn [set_slots slot_pool_] in *. split; [congruence|]. split.
  - pose proof (held_range _ _ _ Hs Hin) as Hr. destruct (slot_read kMaxSlots s2 slot Hs2 Hr) as [h2 Hh2].
    rewrite Ep2 in Hh2. unfold GetHot in *. rewrite Hh2. sbind.
    rewrite (held_generation s2 slot h2 Hs2) by (unfold GetHot; by rewrite Ep2).
    rewrite Hf2, Z.eqb_refl. cbn [with_pool cl_frees].
    case Z.eqb_spec; [intros E; exfalso; zdm|]. done.
  - exists s2. by constructor.
Qed.

(** *** Timeouts *)

Lemma overdue_ext w w' e : GetHot (slot_pool_ w') e.1 = GetHot (slot_pool_ w) e.1 ->
  overdue w' e <-> overdue w e.
Proof. intros E. unfold overdue, GetHotChecked. by rewrite E. Qed.

(** A generation that matches is that of the current allocation. *)
Lemma issued_current s e h : client_inv kMaxSlots s -> issued s e ->
  GetHotChecked (cl_pool s) e.1 e.2 = Some (Some h) -> e.1 ∈ (cl_held s).*1 /\ GetHot (cl_pool s) e.1 = Some h.
Proof.
  intros H (Hr & f & Hf & Hlo & Hhi). unfold GetHotChecked.
  destruct (slot_read _ _ _ H Hr) as [h0 Hh]. rewrite Hh. sbind. unfold ValidateGeneration.
  rewrite (held_generation s _ _ H Hh). unfold allocations in *.
  case Z.eqb_spec; [|done]. intros Eg [= <-]. split; [|done].
  destruct (decide _) as [|Hn]; [done|]. exfalso. rewrite Hf in Eg. zdm.
Qed.

Lemma timeout_one_inv w s e : ep_wf w s -> issued s e ->
  (~ overdue w e /\ timeout_one w e.1 e.2 = Some (w, [], false))
  \/ (overdue w e /\ exists w' s', timeout_one w e.1 e.2 = Some (w', timeout_events w e.1, true)
      /\ ep_wf w' s' /\ (forall e', issued s e' -> issued s' e') /\ hw w' = hw w
      /\ stack_top_ (slot_pool_ w') = stack_top_ (slot_pool_ w) + 1
      /\ slots_context_ (slot_pool_ w') = slots_context_ (slot_pool_ w)
      /\ (forall j, j <> e.1 -> GetHot (slot_pool_ w') j = GetHot (slot_pool_ w) j)
      /\ (forall e', e'.1 = e.1 -> issued s e' -> ~ overdue w' e')).
Proof.
  intros [[Hs Ep] Hw Hconn Hto] Hi. unfold timeout_one, overdue.
  destruct (GetHotChecked (slot_pool_ w) e.1 e.2) as [[h|]|] eqn:EG; sbind.
  2: { left. split; [by intros (? & ? & _)|done]. }
  2: { exfalso. unfold GetHotChecked in EG. destruct (slot_read _ _ _ Hs (proj1 Hi)) as [h0 Hh].
       rewrite Ep in Hh. by rewrite Hh in EG. }
  destruct (IsCompleted h) eqn:EC.
  { left. split; [intros (? & [= <-] & ?); congruence|done]. }
  right. split; [by exists h|]. rewrite <- Ep in EG.
  destruct (issued_current s e h Hs Hi EG) as [Hin Hh]. destruct (ci_slot _ _ Hs _ _ Hh) as (Hf & _ & _).
  rewrite <- Ep. destruct (PutHot_inv s e.1 h (set_counts h (total_wr_count h) (total_wr_count h) 1) Hs Hin Hh Hf
    eq_refl eq_refl) as (p & EP & Hs1 & _ & Hc1 & Ht1). rewrite EP. sbind.
  destruct (context_read s e.1 Hs (proj1 Hi)) as [c Hc]. assert (GetContext p e.1 = Some c) as Hc'.
  { unfold GetContext in *. by rewrite Hc1. }
  rewrite Hc'. sbind. destruct (Free_inv (with_pool s p) e.1 Hs1 Hin)
    as (p2 & E2 & Hctx & Ht2 & Hoth & s2 & Hs2 & Ep2 & Hf2 & Hh2). cbn [cl_pool with_pool cl_frees cl_held] in *.
  rewrite E2. sbind. exists (set_slots w p2), s2.
  assert (Ealloc : forall i, allocations s2 i = allocations s i).
  { intros i. unfold allocations. rewrite Hf2. destruct (Z.eqb_spec i e.1) as [->|Hne].
    - rewrite decide_False by (rewrite Hh2; naive_solver). rewrite decide_True by done. lia.
    - f_equal. apply decide_ext. rewrite Hh2. naive_solver. }
  split; [by unfold timeout_events; rewrite <- Ep, Hc|]. split; [by constructor|].
  assert (Hiss : forall e', issued s e' -> issued s2 e').
  { intros e' (Hr & f & Hf' & Hlo). split; [done|]. exists f. by rewrite Ealloc. }
  split; [done|]. split; [done|]. cbn [set_slots slot_pool_]. split; [lia|]. split; [congruence|]. split.
  - intros j Hj. rewrite Hoth by done. by apply (PutHot_frame _ _ _ _ EP).
  - intros e' He He' (h' & EG' & _). rewrite <- Ep2 in EG'. apply issued_current in EG' as [Hin' _]; [|done|by apply Hiss].
    rewrite He in Hin'. apply Hh2 in Hin' as [? _]. done.
Qed.

(** One pass: every overdue entry is timed out once, the others are skipped. *)
Lemma CheckTimeouts_inv l w s : ep_wf w s -> Forall (issued s) l ->
  exists w' s' timed,
    CheckTimeouts w l = Some (w', concat (timeout_events w <$> timed), Z.of_nat (length timed))
    /\ ep_wf w' s' /\ (forall e, issued s e -> issued s' e) /\ (timed = [] -> w' = w)
    /\ stack_top_ (slot_pool_ w') = stack_top_ (slot_pool_ w) + Z.of_nat (length timed)
    /\ NoDup timed /\ (forall i, i ∈ timed <-> exists g, (i, g) ∈ l /\ overdue w (i, g))
    /\ slots_context_ (slot_pool_ w') = slots_context_ (slot_pool_ w)
    /\ (forall j, j ∉ timed -> GetHot (slot_pool_ w') j = GetHot (slot_pool_ w) j)
    /\ (forall e, issued s e -> e.1 ∈ timed -> ~ overdue w' e).
Proof.
  revert w s. induction l as [|[i g] l IH]; intros w s Hwf Hl.
  { exists w, s, []. cbn [CheckTimeouts]. split_and!; try done; [simpl; lia|constructor| |].
    - intros i. split; [by intros ?%elem_of_nil|]. intros (g & H%elem_of_nil & _). done.
    - by intros e _ ?%elem_of_nil. }
  apply Forall_cons in Hl as [Hi Hl]. cbn [CheckTimeouts].
  destruct (timeout_one_inv w s (i, g) Hwf Hi) as [[Hno E]|(Hov & w1 & s1 & E & Hwf1 & Hiss & Hhw & Ht & Hctx & Hoth & Hdone)];
    cbn [fst snd] in *; rewrite E; sbind.
  - destruct (IH w s Hwf Hl) as (w' & s' & timed & E' & Hwf' & Hiss' & Hhw' & Ht' & Hnd & Hmem & Hc' & Ho' & Hd').
    rewrite E'. sbind. exists w', s', timed. split_and!; try done. intros j. rewrite Hmem.
    split; intros (g' & Hin & Ho); exists g'; (split; [|done]); [by right|].
    apply elem_of_cons in Hin as [[= -> ->]|]; done.
  - destruct (IH w1 s1 Hwf1) as (w' & s' & timed & E' & Hwf' & Hiss' & Hhw' & Ht' & Hnd & Hmem & Hc' & Ho' & Hd').
    { eapply Forall_impl; [exact Hl|]. exact Hiss. }
    rewrite E'. sbind.
    assert (Hni : i ∉ timed).
    { rewrite Hmem. intros (g' & Hin & Ho). revert Ho. apply Hdone; [done|].
      rewrite Forall_forall in Hl. by apply Hl. }
    exists w', s', (i :: timed). split_and!; try done.
    + f_equal. f_equal; [f_equal|simpl length; lia]. rewrite fmap_cons. simpl concat. f_equal. f_equal.
      apply list_fmap_ext. intros k j _. unfold timeout_events, GetContext. by rewrite Hctx.
    + intros e He. apply Hiss', Hiss, He.
    + simpl length. lia.
    + by constructor.
    + intros j. rewrite elem_of_cons, Hmem. split.
      * intros [->|(g' & Hin & Ho)]; [exists g; split; [by left|done]|]. exists g'. split; [by right|].
        destruct (decide (j = i)) as [->|Hj]; [exfalso; apply Hni, Hmem; by exists g'|].
        apply (overdue_ext w w1 (j, g')) in Ho; [done|]. by apply Hoth.
      * intros (g' & Hin & Ho). apply elem_of_cons in Hin as [[= -> ->]|Hin]; [by left|].
        destruct (decide (j = i)) as [->|Hj]; [by left|right]. exists g'. split; [done|].
        apply (overdue_ext w w1 (j, g')); [by apply Hoth|done].
    + congruence.
    + intros j Hj. apply not_elem_of_cons in Hj as [Hj1 Hj2]. rewrite Ho' by done. by apply Hoth.
    + intros e He [Ei|Hin]%elem_of_cons; [|by apply Hd'; [apply Hiss|]]. intros Ho.
      apply (overdue_ext w1 w') in Ho; [|apply Ho'; by rewrite Ei]. revert Ho. by apply Hdone.
Qed.

(** *** The immediate data *)

Lemma encode_imm_arith gen slot : 0 <= slot < 65536 -> 0 <= gen < 256 ->
  encode_imm gen slot = gen * 65536 + slot.
Proof.
  intros Hs Hg. unfold encode_imm. rewrite (land_mask 16) by (done || lia).
  rewrite Z.shiftl_mul_pow2, wrap_id by (unfold is_u; lia || lia).
  rewrite Z.mod_small by lia. by apply (lor_mult_add 16).
Qed.

(** What [OnWriteWithImmRecv] does, in arithmetic. *)
Lemma OnWriteWithImmRecv_arith w wc imm : QueuePair.ntohl (wc_imm_data wc) = imm ->
  OnWriteWithImmRecv w wc = complete_response w (imm mod 65536) (imm / 65536 mod 256).
Proof.
  intros E. unfold OnWriteWithImmRecv. rewrite E, (land_mask 16), (land_mask 8) by (done || lia).
  rewrite Z.shiftr_div_pow2 by lia. f_equal. apply wrap_id. unfold is_u. zdm.
Qed.

Lemma request_imm_received w wc slot gen : 0 <= slot < 65536 -> 0 <= gen < 256 ->
  wc_imm_data wc = QueuePair.htonl (encode_imm gen slot) ->
  OnWriteWithImmRecv w wc = complete_response w slot gen.
Proof.
  intros Hs Hg E. rewrite (OnWriteWithImmRecv_arith w wc (gen * 65536 + slot)).
  - f_equal; zdm.
  - rewrite E, encode_imm_arith by done. unfold QueuePair.ntohl. apply htonl_involutive. unfold is_u. lia.
Qed.

Lemma response_imm_received w wc slot gen : 0 <= slot < 65536 -> 0 <= gen < 256 ->
  wc_imm_data wc = QueuePair.htonl (QueuePair.htonl (encode_imm gen slot)) ->
  OnWriteWithImmRecv w wc = complete_response w (256 * gen) (slot / 256).
Proof.
  intros Hs Hg E. rewrite encode_imm_arith, htonl_involutive in E by (done || unfold is_u; lia).
  rewrite (OnWriteWithImmRecv_arith w wc (gen * 256 + (slot / 256) * 2 ^ 16 + (slot mod 256) * 2 ^ 24)).
  - f_equal; zdm.
  - rewrite E. unfold QueuePair.ntohl, QueuePair.htonl. cbn [le_bytes rev app le_word].
    assert ((gen * 65536 + slot) mod 256 = slot mod 256) as -> by zdm.
    assert ((gen * 65536 + slot) / 256 mod 256 = slot / 256) as -> by zdm.
    assert ((gen * 65536 + slot) / 256 / 256 mod 256 = gen) as -> by zdm.
    assert ((gen * 65536 + slot) / 256 / 256 / 256 mod 256 = 0) as -> by zdm. lia.
Qed.

Lemma WriteWithImm_posted (h : HW) c buf ra rk imm wrid h' c' st :
  Connection.WriteWithImm h c buf ra rk imm wrid = (h', c', st) ->
  if status_ok st then exists wr, posted h' = posted h ++ [wr] /\ imm_data wr = QueuePair.htonl imm
  else posted h' = posted h.
Proof.
  unfold Connection.WriteWithImm, QueuePair.PostWriteWithImm. case_bool_decide; simpl negb; cbv iota.
  2: { by intros [= <- <- <-]. }
  destruct (QueuePair.ShouldSignal _) as [q b]. destruct (QueuePair.post _ _ _ _) as [h1 s1] eqn:E.
  intros [= <- <- <-]. apply post_spec in E. destruct (status_ok s1); [|done].
  eexists. split; [exact E|done].
Qed.

End endpoint.

Lemma example_world_wf : ep_wf example_world (client_new kMaxSlots).
Proof.
  constructor.
  - split; [|done]. apply client_new_inv. unfold kMaxSlots. lia.
  - exists (sw_new TimingWheel.kMaxEntries). apply wheel_new_rep. reflexivity.
  - unfold is_u. cbn. lia.
  - unfold is_u. cbn. lia.
Qed.

(** A request of the example world, its slot and the entry of the wheel. *)
Lemma example_request :
  exists w1 slot s1, SendRequest example_world 4096 32 None 7 9 = Some (w1, RVal slot)
    /\ ep_wf w1 s1 /\ issued s1 (slot, 0) /\ overdue w1 (slot, 0)
    /\ timeout_events w1 slot = [ECallback 9 7 slot 1].
Proof.
  destruct (start_request_inv example_world (client_new kMaxSlots) 4096 32 7 9 example_world_wf)
    as (w1 & r & E & H).
  unfold SendRequest. rewrite E. sbind. destruct r as [e|[[slot gen] wrid]].
  - exfalso. destruct H as (_ & _ & _ & [H|(He & wrid & <-)]).
    + cbn in H. unfold kMaxSlots in H. lia.
    + cbn in He. discriminate.
  - destruct H as (Hr & _ & Hg & _ & _ & _ & s1 & h & c & Hwf & Hf & Hin & Hh & Htot & Hcmp & _ & Hc & Hfn & Hcx).
    apply held_head in Hin.
    exists w1, slot, s1. split; [done|]. split; [done|]. rewrite <- Hf in Hg.
    assert (cl_frees s1 slot = 0) as Hz by (rewrite Hf; done). split; [|split].
    + split; [done|]. exists 0. unfold allocations. rewrite decide_True by done. simpl fst. simpl snd. rewrite Hz. split; [done|lia].
    + exists h. split; [|unfold IsCompleted; rewrite Htot, Hcmp; done].
      unfold GetHotChecked. simpl fst. simpl snd. rewrite Hh. sbind. unfold ValidateGeneration.
      destruct Hwf as [[Hs Ep] _ _ _]. rewrite (held_generation s1 slot h Hs), Hz by by rewrite Ep. done.
    + unfold timeout_events. rewrite Hc, Hfn, Hcx. done.
Qed.

Lemma nodup_singleton (l : list Z) x : NoDup l -> (forall y, y ∈ l <-> y = x) -> l = [x].
Proof.
  intros Hn Hl. apply Permutation_singleton_r. apply NoDup_Permutation; [done|apply NoDup_singleton|].
  intros y. rewrite Hl. by rewrite list_elem_of_singleton.
Qed.

End lemmas.

(** ** Properties *)

Section properties.
Import RpcEndpoint RpcSlotHot RpcSlotPool.

(** C8: The life of a call. On any device, [SendRequest] without data either
    fails, because no slot is free or because the inline send failed - and then
    no slot is lost and nothing is on the wire - or takes a
    slot nobody holds and queues one request that names it. The completion of
    that request runs the caller's callback once, with status 0, and returns
    the slot; delivered again it is recognised as stale. This holds when the
    slot was freed fewer than 256 times modulo 4096; otherwise the completion
    is dropped and the call does not finish. *)
Theorem request_completes_once {HW P} `{!Verbs HW, !BufferSource P} (w : World HW P) (s : Client) hd len ctx fn :
  ep_wf w s ->
  exists w1 r, SendRequest w hd len None ctx fn = Some (w1, r) /\ (exists s1, ep_wf w1 s1)
    /\ match r with
       | RErr e =>
           AvailableCount (slot_pool_ w1) = AvailableCount (slot_pool_ w) /\ posted (hw w1) = posted (hw w)
           /\ (AvailableCount (slot_pool_ w) = 0
               \/ status_ok e = false /\ exists wrid, (Connection.SendInline (hw w) (conn_ w) hd len wrid).2 = e)
       | RVal slot =>
           slot ∉ (cl_held s).*1 /\ AvailableCount (slot_pool_ w1) = AvailableCount (slot_pool_ w) - 1
           /\ exists wr, posted (hw w1) = posted (hw w) ++ [wr]
              /\ if decide (cl_frees s slot mod 4096 < 256)
                 then exists w2, OnSendComplete w1 (completion_of (wr_id wr)) = Some (w2, callback fn ctx slot 0)
                      /\ AvailableCount (slot_pool_ w2) = AvailableCount (slot_pool_ w)
                      /\ OnSendComplete w2 (completion_of (wr_id wr)) = Some (w2, [])
                 else OnSendComplete w1 (completion_of (wr_id wr)) = Some (w1, [])
       end.
Proof.
  intros Hwf. destruct (start_request_inv w s hd len ctx fn Hwf) as (w1 & r & E & Hr).
  unfold SendRequest. rewrite E. sbind. destruct r as [e|[[slot gen] wrid]].
  { exists w1, (RErr e). split; [done|]. destruct Hr as ((s1 & Hs1 & _) & ? & ?). split; [by exists s1|done]. }
  destruct Hr as (Hsl & Hnh & Hgen & Hwr & (wr & Hp & Ewr) & Htop & s1 & h & c & Hwf1 & Hf & Hin & Hh & Htot
    & Hcmp & Herr & Hc & Hfn & Hcx).
  apply held_head in Hin.
  exists w1, (RVal slot). split; [done|]. split; [by exists s1|]. split; [done|]. split; [done|].
  exists wr. split; [done|].
  destruct (encoded_slot (Connection.conn_id_ (conn_ w)) gen slot) as [Es Eg].
  { apply (ew_conn _ _ Hwf). } { rewrite Hgen. unfold is_u. zdm. } { unfold is_u, kMaxSlots in *. lia. }
  pose proof (OnSendComplete_last w1 s1 slot h c (completion_of (wr_id wr)) Hwf1 Hin) as Hlast.
  rewrite Hf, Hcmp, Htot, Hfn, Hcx, Herr in Hlast. cbn [completion_of wc_wr_id] in Hlast.
  rewrite Ewr, Hwr in *. specialize (Hlast Es (eq_trans Eg Hgen) Hh ltac:(lia) eq_refl Hc).
  case_decide; [|done]. destruct Hlast as (w2 & E2 & Ht2 & E2' & _). exists w2. split; [done|].
  split; [|done]. unfold AvailableCount. rewrite Ht2, Htop. lia.
Qed.

Lemma request_completes_once_witness :
  exists w1 slot wr w2, SendRequest example_world 4096 32 None 7 9 = Some (w1, RVal slot)
    /\ posted (hw w1) = [wr]
    /\ OnSendComplete w1 (completion_of (wr_id wr)) = Some (w2, [ECallback 9 7 slot 0])
    /\ OnSendComplete w2 (completion_of (wr_id wr)) = Some (w2, []).
Proof.
  destruct (request_completes_once example_world (client_new kMaxSlots) 4096 32 7 9 example_world_wf)
    as (w1 & r & E & _ & H).
  destruct r as [slot|e].
  - destruct H as (_ & _ & wr & Hp & H). rewrite decide_True in H by reflexivity.
    destruct H as (w2 & E2 & _ & E3).
    exists w1, slot, wr, w2. exact (conj E (conj Hp (conj E2 E3))).
  - exfalso. destruct H as (_ & _ & [H|(He & wrid & <-)]).
    + cbn in H. unfold kMaxSlots in H. lia.
    + cbn in He. discriminate.
Defined.

(** Timeouts: for a list of expired entries that stem from the last 255
    allocations of their slots, [CheckTimeouts] runs without fault; it times out
    exactly the overdue calls, each once, in a single callback with status 1,
    returns one slot for each and reports their number; every other slot's header
    stays as it is; and the same list once more does nothing. *)
Theorem CheckTimeouts_once {HW P} `{!Verbs HW, !BufferSource P} (w : World HW P) (s : Client) expired :
  ep_wf w s -> Forall (issued s) expired ->
  exists w' timed,
    CheckTimeouts w expired = Some (w', concat (timeout_events w <$> timed), Z.of_nat (length timed))
    /\ NoDup timed /\ (forall i, i ∈ timed <-> exists g, (i, g) ∈ expired /\ overdue w (i, g))
    /\ AvailableCount (slot_pool_ w') = AvailableCount (slot_pool_ w) + Z.of_nat (length timed)
    /\ (forall j, j ∉ timed -> GetHot (slot_pool_ w') j = GetHot (slot_pool_ w) j)
    /\ (exists s', ep_wf w' s') /\ CheckTimeouts w' expired = Some (w', [], 0).
Proof.
  intros Hwf Hl. destruct (CheckTimeouts_inv expired w s Hwf Hl)
    as (w' & s' & timed & E & Hwf' & Hiss & _ & Ht & Hnd & Hmem & _ & Hoth & Hdone).
  exists w', timed. split; [done|]. split; [done|]. split; [done|]. split; [done|]. split; [done|].
  split; [by exists s'|]. destruct (CheckTimeouts_inv expired w' s' Hwf')
    as (w2 & s2 & timed2 & E2 & _ & _ & Hsame & _ & _ & Hmem2 & _).
  { eapply Forall_impl; [exact Hl|]. exact Hiss. }
  assert (timed2 = []) as ->.
  { destruct timed2 as [|i l]; [done|]. exfalso. destruct (proj1 (Hmem2 i)) as (g & Hin & Ho); [by left|].
    rewrite Forall_forall in Hl. destruct (decide (i ∈ timed)) as [Hi|Hi].
    - revert Ho. apply Hdone; [by apply Hl|done].
    - apply Hi, Hmem. exists g. split; [done|]. apply (overdue_ext w w' (i, g)); [by apply Hoth|done]. }
  rewrite E2. by rewrite (Hsame eq_refl).
Qed.

Lemma CheckTimeouts_once_witness :
  exists w1 slot w2, SendRequest example_world 4096 32 None 7 9 = Some (w1, RVal slot)
    /\ CheckTimeouts w1 [(slot, 0); (slot, 0)] = Some (w2, [ECallback 9 7 slot 1], 1).
Proof.
  destruct example_request as (w1 & slot & s1 & E & Hwf & Hi & Ho & Hev).
  destruct (CheckTimeouts_once w1 s1 [(slot, 0); (slot, 0)] Hwf) as (w2 & timed & E2 & Hnd & Hm & _).
  { apply Forall_cons. split; [exact Hi|]. apply Forall_cons. split; [exact Hi|]. apply Forall_nil. exact I. }
  exists w1, slot, w2. split; [exact E|]. assert (timed = [slot]) as ->.
  { apply nodup_singleton; [exact Hnd|]. intros j. rewrite Hm. split.
    - intros (g & Hin & _). rewrite !elem_of_cons, elem_of_nil in Hin. destruct Hin as [[= -> _]|[[= -> _]|[]]]; reflexivity.
    - intros ->. exists 0. split; [apply elem_of_cons; left; reflexivity|exact Ho]. }
  rewrite E2. simpl fmap. rewrite Hev. reflexivity.
Defined.

(** The immediate of a data transfer names its call, that of a read response
    does not: what [WriteWithImm] posts for [(slot, generation)] is decoded by
    the peer as [(slot, generation)]; [SendReadResponse] swaps the bytes once
    more, and the client looks up slot [256 * generation] with generation
    [slot / 256] instead. *)
Theorem read_response_misdirected {HW P} `{!Verbs HW, !BufferSource P}
    (w client : World HW P) data (rb : RemoteMemoryInfo) slot gen wrid :
  0 <= slot < 65536 -> 0 <= gen < 256 ->
  (forall h c st, Connection.WriteWithImm (hw w) (conn_ w) data (rmi_addr rb) (rmi_rkey rb)
                       (encode_imm gen slot) wrid = (h, c, st) ->
     status_ok st = true ->
     exists wr, posted h = posted (hw w) ++ [wr]
       /\ forall wc, wc_imm_data wc = imm_data wr ->
            OnWriteWithImmRecv client wc = complete_response client slot gen)
  /\ (forall w' st, SendReadResponse w slot gen data rb = (w', st) -> status_ok st = true ->
     exists wr, posted (hw w') = posted (hw w) ++ [wr]
       /\ forall wc, wc_imm_data wc = imm_data wr ->
            OnWriteWithImmRecv client wc = complete_response client (256 * gen) (slot / 256)).
Proof.
  intros Hs Hg. split.
  - intros h c st E Hst. apply WriteWithImm_posted in E. rewrite Hst in E. destruct E as (wr & Hp & Him).
    exists wr. split; [done|]. intros wc Ewc. apply request_imm_received; [done..|congruence].
  - intros w' st E Hst. unfold SendReadResponse in E.
    destruct (Connection.WriteWithImm _ _ _ _ _ _ _) as [[h c] st'] eqn:EW. injection E as <- <-.
    apply WriteWithImm_posted in EW. rewrite Hst in EW. destruct EW as (wr & Hp & Him).
    exists wr. split; [done|]. intros wc Ewc. apply response_imm_received; [done..|congruence].
Qed.

Lemma read_response_misdirected_witness :
  exists wr, posted (hw (SendReadResponse example_world 5 9 example_buffer example_remote).1) = [wr]
    /\ OnWriteWithImmRecv example_world (response_of wr) = complete_response example_world 2304 0.
Proof.
  destruct (read_response_misdirected example_world example_world example_buffer example_remote 5 9 0) as [_ H];
    [lia|lia|].
  destruct (H (SendReadResponse example_world 5 9 example_buffer example_remote).1
              (SendReadResponse example_world 5 9 example_buffer example_remote).2
              (surjective_pairing _) eq_refl) as (wr & Hp & Him).
  exists wr. split; [exact Hp|]. exact (Him (response_of wr) eq_refl).
Defined.


End properties.
