(* ===== verification/RpcTimeout.v ===== *)
(** * Calls that are never answered

    The endpoint ([rpc/rpc_endpoint.*]) and the wheel it is given
    ([common/timing_wheel.h]) together: [SendRequest] schedules the call's timeout
    in the wheel, the caller's loop ticks the wheel and hands what has expired to
    [CheckTimeouts]. *)

From S2P Require Import Prelude Types WrId Verbs Buffer BufferPool RpcSlot TimingWheel QueuePair Connection RpcEndpoint.

(** ** Specification *)

Section specification.
Import RpcEndpoint RpcSlotPool.
Context {HW P : Type} `{!Verbs HW, !BufferSource P}.
Implicit Types (w : World HW P).

(** One round of the caller's loop, and [n] of them. *)
Definition tick w : option (World HW P * list Event) :=
  '(t, expired) ← TimingWheel.Tick (timing_wheel_ w);
  '(w, evs, _) ← CheckTimeouts (set_wheel w t) expired;
  Some (w, evs).

Fixpoint wait (n : nat) w : option (World HW P * list Event) :=
  match n with
  | O => Some (w, [])
  | S n =>
      '(w, evs) ← tick w;
      '(w, evs') ← wait n w;
      Some (w, evs ++ evs')
  end.

(** An event that is not about a slot. *)
Definition other (slot : Z) (e : Event) : Prop := match e with ECallback _ _ i _ => i <> slot end.

(** An entry of the wheel stems from one of the last 254 allocations of its slot. *)
Definition recent (s : Client) (e : Z * Z) : Prop :=
  0 <= e.1 < kMaxSlots
  /\ exists f, e.2 = f mod 256 /\ 0 <= f < allocations s e.1 /\ allocations s e.1 <= f + 254.

(** What holds of every entry of the wheel. *)
Definition entries_are (t : SWheel) (P : Z * Z -> Prop) : Prop :=
  forall u e, 0 <= u < 1024 -> e ∈ (sw_items (sw_buckets t) u).*2 -> P e.

(** The endpoint, its slots and its wheel [t]. *)
Record loop_ok w (s : Client) (t : SWheel) : Prop := {
  lo_endpoint : ep_wf w s;
  lo_wheel : wheel_rep (timing_wheel_ w) t;
  lo_entries : entries_are t (issued s);
}.

End specification.

(** ** Lemmas *)

Section lemmas.
Import RpcEndpoint RpcSlotHot RpcSlotPool.
Context {HW P : Type} `{!Verbs HW, !BufferSource P}.
Implicit Types (w : World HW P).

Lemma CheckTimeouts_wheel l w w' evs n :
  CheckTimeouts w l = Some (w', evs, n) -> timing_wheel_ w' = timing_wheel_ w /\ config_ w' = config_ w.
Proof.
  revert w w' evs n. induction l as [|[i g] l IH]; intros w w' evs n; cbn [CheckTimeouts]; [by intros [= <- _ _]|].
  intros ([[w1 e1] b] & E1 & ([[w2 e2] n2] & E2 & E)%bind_Some)%bind_Some. simplify_eq.
  apply IH in E2 as [-> ->]. unfold timeout_one in E1.
  apply bind_Some in E1 as ([h|] & _ & E1); [|by simplify_eq]. destruct (IsCompleted h); [by simplify_eq|].
  apply bind_Some in E1 as (p & _ & E1). apply bind_Some in E1 as (c & _ & E1). apply bind_Some in E1 as (p2 & _ & E1).
  by simplify_eq.
Qed.

Lemma entries_tick t (Q : Z * Z -> Prop) :
  0 <= sw_current t < 1024 -> length (sw_buckets t) = 1024%nat -> entries_are t Q ->
  Forall Q (sw_tick t).2 /\ entries_are (sw_tick t).1 Q.
Proof.
  intros Hc Hl HQ. unfold sw_tick. cbn [fst snd]. split.
  - apply Forall_forall. intros e. by apply HQ.
  - intros u e Hu. cbn [sw_buckets]. rewrite sw_items_insert by lia. case_decide; [by intros ?%elem_of_nil|by apply HQ].
Qed.

Lemma entries_schedule t slot gen ms (Q : Z * Z -> Prop) :
  0 <= sw_current t < 1024 -> length (sw_buckets t) = 1024%nat -> entries_are t Q -> Q (slot, gen) ->
  entries_are (sw_schedule t slot gen ms).1 Q.
Proof.
  intros Hc Hl HQ Hq. unfold sw_schedule. destruct (sw_free t) as [|i fl]; [done|].
  pose proof (Z.mod_pos_bound (sw_current t + ms) 1024 ltac:(lia)).
  intros u e Hu. cbn [fst sw_buckets]. unfold sw_push. rewrite sw_items_insert by lia. case_decide; [|by apply HQ].
  rewrite fmap_cons, elem_of_cons. intros [->|He]; [done|]. by eapply HQ; [|exact He].
Qed.

(** One round: the overdue calls among the expired entries, each once. *)
Lemma tick_ok w s t :
  loop_ok w s t ->
  exists w' s' timed, tick w = Some (w', concat (timeout_events w <$> timed)) /\ loop_ok w' s' (sw_tick t).1
    /\ (forall e, issued s e -> issued s' e)
    /\ NoDup timed /\ (forall i, i ∈ timed <-> exists g, (i, g) ∈ (sw_tick t).2 /\ overdue w (i, g))
    /\ slots_context_ (slot_pool_ w') = slots_context_ (slot_pool_ w)
    /\ (forall j, j ∉ timed -> GetHot (slot_pool_ w') j = GetHot (slot_pool_ w) j)
    /\ (forall e, issued s e -> e.1 ∈ timed -> ~ overdue w' e).
Proof.
  intros [Hw Ht He]. destruct Ht as (Hrep & Hcur & Hc & Hl).
  destruct (wheel_tick_refines (timing_wheel_ w) t (conj Hrep (conj Hcur (conj Hc Hl)))) as (tw & Et & Ht').
  destruct (entries_tick t _ Hc Hl He) as [Hl1 He1]. unfold tick. rewrite Et. sbind.
  assert (Hw1 : ep_wf (set_wheel w tw) s) by (destruct Hw; split; [done|by eexists|done|done]).
  destruct (CheckTimeouts_inv (sw_tick t).2 (set_wheel w tw) s Hw1 Hl1)
    as (w' & s' & timed & E & Hw' & Hi & _ & _ & Hnd & Hm & Hctx & Hh & Hdone).
  destruct (CheckTimeouts_wheel _ _ _ _ _ E) as [Ewheel _].
  exists w', s', timed. rewrite E. split; [done|]. split; [|by split_and!].
  split; [done|by rewrite Ewheel|]. intros u e Hu Hin. by eapply Hi, He1.
Qed.

Lemma other_events w slot l : slot ∉ l -> Forall (other slot) (concat (timeout_events w <$> l)).
Proof.
  intros Hn. apply Forall_concat, Forall_fmap, Forall_forall. intros i Hin. cbn. unfold timeout_events.
  destruct (GetContext _ _) as [c|]; [|constructor]. unfold callback.
  destruct (_ =? 0); [constructor|]. repeat constructor. cbn. congruence.
Qed.

(** Rounds in which a slot's calls are not overdue are silent about the slot. *)
Lemma wait_silent n w s t slot hot (Q : SWheel -> nat -> Prop) :
  loop_ok w s t -> Q t n -> GetHot (slot_pool_ w) slot = hot ->
  (forall t n, Q t (S n) -> 0 <= sw_current t < 1024 -> length (sw_buckets t) = 1024%nat -> Q (sw_tick t).1 n) ->
  (forall t n g w0 s0, Q t (S n) -> loop_ok w0 s0 t -> GetHot (slot_pool_ w0) slot = hot ->
     (slot, g) ∈ (sw_tick t).2 -> ~ overdue w0 (slot, g)) ->
  exists w' s' t' evs, wait n w = Some (w', evs) /\ loop_ok w' s' t' /\ Q t' 0%nat
    /\ (forall e, issued s e -> issued s' e)
    /\ Forall (other slot) evs /\ GetHot (slot_pool_ w') slot = hot
    /\ slots_context_ (slot_pool_ w') = slots_context_ (slot_pool_ w).
Proof.
  intros Hok HQ Hhot Hstep Hno.
  revert w s t Hok HQ Hhot. induction n as [|n IH]; intros w s t Hok HQ Hhot; cbn [wait].
  { exists w, s, t, []. by split_and!. }
  destruct (tick_ok w s t Hok) as (w1 & s1 & timed & -> & Hok1 & Hi1 & Hnd & Hm & Hctx & Hh & _). sbind.
  assert (Hnt : slot ∉ timed) by (intros (g & Hin & Ho)%Hm; by eapply (Hno t n g w s)).
  pose proof (lo_wheel _ _ _ Hok) as (_ & _ & Hc & Hl).
  destruct (IH w1 s1 (sw_tick t).1 Hok1 (Hstep t n HQ Hc Hl) ltac:(by rewrite Hh))
    as (w' & s' & t' & evs & -> & Hok' & HQ' & Hi' & Hev & Hhot' & Hctx'). sbind.
  exists w', s', t', (concat (timeout_events w <$> timed) ++ evs). split_and!; try done.
  - intros e He. by apply Hi', Hi1.
  - apply Forall_app. split; [by apply other_events|done].
  - congruence.
Qed.

End lemmas.

Section lost.
Import RpcEndpoint RpcSlotHot RpcSlotPool.
Context {HW P : Type} `{!Verbs HW, !BufferSource P}.
Implicit Types (w : World HW P).

(** Entries of older calls are still recognisable after one more allocation. *)
Lemma recent_issued s s1 slot gen e :
  cl_frees s1 = cl_frees s -> cl_held s1 = (slot, gen) :: cl_held s -> recent s e -> issued s1 e.
Proof.
  intros Hf Hh (Hr & f & Ef & Hlo & Hhi). split; [done|]. exists f. split; [done|].
  assert (allocations s e.1 <= allocations s1 e.1 <= allocations s e.1 + 1); [|lia].
  unfold allocations. rewrite Hf, Hh, fmap_cons. destruct (decide (e.1 ∈ (cl_held s).*1)).
  - rewrite decide_True by set_solver. lia.
  - case_decide; lia.
Qed.

(** The wheel holds no entry of a call that is being made. *)
Lemma recent_new s slot t :
  slot ∉ (cl_held s).*1 -> entries_are t (recent s) -> due t slot (cl_frees s slot mod 256) None.
Proof.
  intros Hn He u Hu. split; [|by intros (? & ? & _)]. intros Hin. apply He in Hin as (_ & f & Ef & Hlo & Hhi); [|done].
  exfalso. cbn [fst snd] in *. unfold allocations in *. rewrite decide_False in Hlo, Hhi by done. zdm.
Qed.

(** A call that waits for its timeout. *)
Record waiting w (s : Client) (t : SWheel) (slot gen d : Z) (evs : list Event) : Prop := {
  wa_loop : loop_ok w s t;
  wa_due : due t slot gen (Some d);
  wa_overdue : forall g, overdue w (slot, g) <-> g = gen;
  wa_events : timeout_events w slot = evs;
}.

(** After the call its slot is overdue for the 12-bit generation of the header. *)
Lemma SendRequest_scheduled w s t hd len ctx fn w1 slot :
  ep_wf w s -> wheel_rep (timing_wheel_ w) t -> entries_are t (recent s) ->
  SendRequest w hd len None ctx fn = Some (w1, RVal slot) ->
  slot ∉ (cl_held s).*1 /\ timeout_events w1 slot = callback fn ctx slot 1
  /\ (forall g, overdue w1 (slot, g) <-> g = cl_frees s slot mod 4096)
  /\ exists s1, loop_ok w1 s1 (sw_schedule t slot (cl_frees s slot mod 256) (timeout_ms (config_ w))).1.
Proof.
  intros Hw Ht He E. destruct (start_request_inv w s hd len ctx fn Hw) as (w1' & r & E1 & Hr).
  unfold SendRequest in E. rewrite E1 in E. cbn [mbind option_bind] in E. destruct r as [e|[[i0 g0] wrid]]; [done|].
  injection E as <- <-. rename i0 into slot. destruct Hr as (Hsl & Hnh & -> & _ & _ & _ & s1 & h & c & Hw1 & Hfr & Hh & Hhot & Htot & Hcmp & _ & Hc & Hfn & Hcx).
  destruct (start_request_frame _ _ _ _ _ _ _ E1) as (_ & _ & [(_ & [? ?] & _)|(p & i & g & b & _ & Es & _ & Ei & Eg)]); [done|].
  rewrite <- Ei, <- Eg in Es. clear Ei Eg i g.
  destruct (wheel_schedule_refines _ t slot (cl_frees s slot mod 256) (timeout_ms (config_ w)) Ht (ew_timeout _ _ Hw))
    as (tw & Es' & Ht1). rewrite Es in Es'. simplify_eq. pose proof Ht as (_ & _ & Hcu & Hl).
  destruct Hw1 as [[Hs Ep] Hwh Hconn Hto]. split; [done|]. split; [|split].
  - unfold timeout_events. by rewrite Hc.
  - intros g. unfold overdue, GetHotChecked. cbn [fst snd]. rewrite Hhot. cbn [mbind option_bind]. unfold ValidateGeneration.
    rewrite (held_generation s1 slot h Hs) by by rewrite Ep. rewrite Hfr.
    destruct (Z.eqb_spec (cl_frees s slot mod 4096) g) as [<-|Hne].
    + split; [done|]. intros _. exists h. split; [done|]. unfold IsCompleted. by rewrite Htot, Hcmp.
    + split; [by intros (? & ? & _)|congruence].
  - exists s1. split; [by split|done|]. apply entries_schedule; try done.
    + intros u e Hu Hin. eapply recent_issued; [exact Hfr|exact Hh|]. by eapply He.
    + split; [done|]. exists (cl_frees s slot). unfold allocations. cbn [fst snd].
      rewrite decide_True by (rewrite Hh, fmap_cons; set_solver). rewrite Hfr.
      pose proof (ci_frees _ _ Hs slot) as Hf0. rewrite Hfr in Hf0.
      split; [done|]. lia.
Qed.

(** The call's entry is in the wheel and carries the whole generation. *)
Definition scheduled (s : Client) (t : SWheel) (slot : Z) : Prop := sw_free t <> [] /\ cl_frees s slot mod 4096 < 256.

#[export] Instance scheduled_dec s t slot : Decision (scheduled s t slot).
Proof. unfold scheduled. apply _. Defined.

Lemma SendRequest_waiting w s t hd len ctx fn w1 slot :
  ep_wf w s -> wheel_rep (timing_wheel_ w) t -> entries_are t (recent s) ->
  SendRequest w hd len None ctx fn = Some (w1, RVal slot) -> scheduled s t slot ->
  exists s1 t1, waiting w1 s1 t1 slot (cl_frees s slot mod 256) (timeout_ms (config_ w) mod 1024) (callback fn ctx slot 1).
Proof.
  intros Hw Ht He E [Hf Hg]. destruct (SendRequest_scheduled w s t hd len ctx fn w1 slot Hw Ht He E) as (Hnh & Hev & Ho & s1 & Hok).
  do 2 eexists. split; [exact Hok| | |exact Hev].
  - pose proof Ht as (_ & _ & Hcu & Hl). by apply due_scheduled; [..|apply recent_new|].
  - intros g. rewrite Ho. by replace (cl_frees s slot mod 4096) with (cl_frees s slot mod 256) by zdm.
Qed.

(** Rounds without an entry of the call. *)
Lemma unscheduled_silent w s t slot G :
  loop_ok w s t -> entries_are t (fun e => e <> (slot, G)) -> (forall g, overdue w (slot, g) -> g = G) ->
  forall n, exists w' evs, wait n w = Some (w', evs) /\ Forall (other slot) evs.
Proof.
  intros Hok He Ho n.
  destruct (wait_silent n w s t slot (GetHot (slot_pool_ w) slot) (fun t _ => entries_are t (fun e => e <> (slot, G))) Hok He eq_refl)
    as (w' & _ & _ & evs & E & _ & _ & _ & Hev & _).
  - intros t0 k He0 Hc0 Hl0. by apply entries_tick.
  - intros t0 k g w0 s0 He0 Hok0 Hh0 Hg Hov. pose proof (lo_wheel _ _ _ Hok0) as (_ & _ & Hc0 & Hl0).
    destruct (entries_tick t0 _ Hc0 Hl0 He0) as [Hf0 _]. rewrite Forall_forall in Hf0.
    apply (overdue_ext w w0 (slot, g) Hh0), Ho in Hov as ->. by apply (Hf0 _ Hg).
  - by exists w', evs.
Qed.

Lemma SendRequest_unscheduled w s t hd len ctx fn w1 slot :
  ep_wf w s -> wheel_rep (timing_wheel_ w) t -> entries_are t (recent s) ->
  SendRequest w hd len None ctx fn = Some (w1, RVal slot) -> ~ scheduled s t slot ->
  forall n, exists w' evs, wait n w1 = Some (w', evs) /\ Forall (other slot) evs.
Proof.
  intros Hw Ht He E Hsc. destruct (SendRequest_scheduled w s t hd len ctx fn w1 slot Hw Ht He E) as (Hnh & _ & Ho & s1 & Hok).
  apply (unscheduled_silent w1 s1 _ slot (cl_frees s slot mod 4096) Hok); [|by intros g ?%Ho].
  assert (Hold : entries_are t (fun e => e <> (slot, cl_frees s slot mod 4096))).
  { intros u e Hu Hin ->. pose proof (He _ _ Hu Hin) as (_ & f & Ef & _). cbn [fst snd] in Ef.
    destruct (recent_new s slot t Hnh He u Hu) as [Hn _]. enough (exists j : Z, None = Some j /\ u = (sw_current t + j) mod 1024) as (? & ? & _) by done. apply Hn.
    assert (cl_frees s slot mod 4096 < 256) as Hg by (rewrite Ef; apply Z.mod_pos_bound; lia). clear Ef.
    by replace (cl_frees s slot mod 256) with (cl_frees s slot mod 4096) by zdm. }
  destruct (sw_free t) as [|i fl] eqn:Ef; [unfold sw_schedule; by rewrite Ef|].
  pose proof Ht as (_ & _ & Hcu & Hl). apply entries_schedule; try done. intros [= Eg]. apply Hsc. split; [by rewrite Ef|]. zdm.
Qed.

(** Until its deadline the call waits. *)
Lemma waiting_runs w s t slot gen d evs0 :
  waiting w s t slot gen d evs0 -> 0 <= d < 1024 ->
  exists w' s' t' evs, wait (Z.to_nat d) w = Some (w', evs) /\ Forall (other slot) evs /\ waiting w' s' t' slot gen 0 evs0.
Proof.
  intros [Hok Hd Ho He] Hr.
  destruct (wait_silent (Z.to_nat d) w s t slot (GetHot (slot_pool_ w) slot)
    (fun t n => due t slot gen (Some (Z.of_nat n)) /\ (n < 1024)%nat) Hok) as (w' & s' & t' & evs & E & Hok' & [Hd' _] & _ & Hev & Hh & Hc).
  - rewrite Z2Nat.id by lia. split; [done|lia].
  - done.
  - intros t0 n [Hd0 Hn] Hc0 Hl0. split; [|lia].
    pose proof (proj2 (due_tick t0 slot gen _ Hc0 Hl0 Hd0 ltac:(intros j [= <-]; lia))) as H. cbn [fmap option_fmap option_map] in H.
    by replace (Z.of_nat n) with (Z.pred (Z.of_nat (S n))) by lia.
  - intros t0 n g w0 s0 [Hd0 Hn] Hok0 Hh0 Hin Hov. pose proof (lo_wheel _ _ _ Hok0) as (_ & _ & Hc0 & Hl0).
    apply (overdue_ext w w0 (slot, g) Hh0) in Hov. apply Ho in Hov as ->.
    by destruct (due_tick t0 slot gen _ Hc0 Hl0 Hd0 ltac:(intros j [= <-]; lia)) as [Hno _].
  - exists w', s', t', evs. split; [done|]. split; [done|]. split; [done|done| |].
    + intros g. by rewrite (overdue_ext w w' (slot, g) Hh).
    + unfold timeout_events, GetContext in *. by rewrite Hc.
Qed.

(** At its deadline the call is timed out, and then it is over. *)
Lemma waiting_fires w s t slot gen evs :
  waiting w s t slot gen 0 evs ->
  exists w' before after, tick w = Some (w', before ++ evs ++ after)
    /\ Forall (other slot) before /\ Forall (other slot) after
    /\ forall n, exists w4 evs4, wait n w' = Some (w4, evs4) /\ Forall (other slot) evs4.
Proof.
  intros [Hok Hd Ho He]. pose proof (lo_wheel _ _ _ Hok) as (_ & _ & Hc & Hl).
  destruct (tick_ok w s t Hok) as (w1 & s1 & timed & -> & Hok1 & _ & Hnd & Hm & _ & _ & Hdone).
  assert (Hin : slot ∈ timed).
  { apply Hm. exists gen. split; [by apply due_now|by apply Ho]. }
  destruct (list_elem_of_split _ _ Hin) as (l1 & l2 & ->). apply NoDup_app in Hnd as (_ & Hn1 & Hn2).
  apply NoDup_cons in Hn2 as [Hn2 _].
  exists w1, (concat (timeout_events w <$> l1)), (concat (timeout_events w <$> l2)). split; [|split; [|split]].
  - rewrite fmap_app, fmap_cons, concat_app. cbn [concat]. by rewrite He.
  - apply other_events. intros H. by apply (Hn1 slot H), elem_of_cons; left.
  - by apply other_events.
  - intros n. destruct (entries_tick t _ Hc Hl (lo_entries _ _ _ Hok)) as [_ He1].
    destruct (wait_silent n w1 s1 (sw_tick t).1 slot (GetHot (slot_pool_ w1) slot) (fun t _ => entries_are t (issued s)) Hok1 He1
      eq_refl) as (w4 & _ & _ & evs4 & E4 & _ & _ & _ & Hev & _).
    + intros t0 k He0 Hc0 Hl0. by apply entries_tick.
    + intros t0 k g w0 s0 He0 Hok0 Hh0 Hg Hov. pose proof (lo_wheel _ _ _ Hok0) as (_ & _ & Hc0 & Hl0).
      destruct (entries_tick t0 _ Hc0 Hl0 He0) as [Hf0 _]. rewrite Forall_forall in Hf0.
      apply (overdue_ext w1 w0 (slot, g) Hh0) in Hov. by apply (Hdone (slot, g) (Hf0 _ Hg) Hin).
    + by exists w4, evs4.
Qed.

End lost.

Lemma sw_items_new n u : 0 <= u < 1024 -> sw_items (sw_buckets (sw_new n)) u = [].
Proof. intros Hu. unfold sw_items, sw_new. cbn [sw_buckets]. by rewrite lookup_replicate_2 by lia. Qed.

(** ** Properties *)

Section properties.
Import RpcEndpoint RpcSlotHot RpcSlotPool.

(** C15: What becomes of a call that is never answered. Let [SendRequest] succeed on
    an endpoint in order - its pool working, its slots, wheel and connection as
    their invariants say, no entry of the wheel older than 254 allocations of its
    slot - and let neither the send nor the answer complete. The caller's loop
    never fails. When the wheel had a free entry and the 12-bit generation of the
    slot is below 256, nothing happens to the slot for the first [timeout mod 1024]
    ticks, the next tick runs the callback with status 1, and however long the
    loop goes on the slot is not heard of again: the call times out once.
    Otherwise - no free entry, or a generation whose low 8 bits, which is all an
    entry of the wheel keeps, no longer identify it - the call never times out:
    however long the loop goes on, no callback is run for it. *)
Theorem lost_call_times_out {HW P} `{!Verbs HW, !BufferSource P} (w : World HW P) s t hd len ctx fn w1 slot :
  ep_wf w s -> wheel_rep (timing_wheel_ w) t -> entries_are t (recent s) ->
  SendRequest w hd len None ctx fn = Some (w1, RVal slot) ->
  if decide (scheduled s t slot) then
    exists w2 evs w3 before after,
      wait (Z.to_nat (timeout_ms (config_ w) mod 1024)) w1 = Some (w2, evs) /\ Forall (other slot) evs
      /\ tick w2 = Some (w3, before ++ callback fn ctx slot 1 ++ after)
      /\ Forall (other slot) before /\ Forall (other slot) after
      /\ forall n, exists w4 evs4, wait n w3 = Some (w4, evs4) /\ Forall (other slot) evs4
  else forall n, exists w2 evs, wait n w1 = Some (w2, evs) /\ Forall (other slot) evs.
Proof.
  intros Hw Ht He E. case_decide as Hsc; [|by eapply SendRequest_unscheduled].
  destruct (SendRequest_waiting w s t hd len ctx fn w1 slot Hw Ht He E Hsc) as (s1 & t1 & H1).
  destruct (waiting_runs _ _ _ _ _ _ _ H1 (Z.mod_pos_bound _ 1024 ltac:(lia))) as (w2 & s2 & t2 & evs & E2 & Hev & H2).
  destruct (waiting_fires _ _ _ _ _ _ H2) as (w3 & before & after & E3 & Hb & Ha & H3).
  exists w2, evs, w3, before, after. by split_and!.
Qed.

Lemma lost_call_times_out_witness :
  exists w1 slot w2 evs w3 before after, SendRequest example_world 4096 32 None 7 9 = Some (w1, RVal slot)
    /\ wait 304 w1 = Some (w2, evs) /\ tick w2 = Some (w3, before ++ [ECallback 9 7 slot 1] ++ after).
Proof.
  destruct example_request as (w1 & slot & s1 & E & _).
  pose proof (lost_call_times_out example_world (client_new kMaxSlots) (sw_new TimingWheel.kMaxEntries) 4096 32 7 9 w1 slot
    example_world_wf) as H. rewrite decide_True in H.
  2:{ split; [|reflexivity]. unfold sw_new. cbn [sw_free]. rewrite seqZ_cons by reflexivity. discriminate. }
  destruct H as (w2 & evs & w3 & before & after & E2 & _ & E3 & _).
  - change (timing_wheel_ example_world) with (TimingWheel.make TimingWheel.kMaxEntries). apply wheel_new_rep. reflexivity.
  - intros u e Hu He. exfalso. revert He. rewrite sw_items_new by lia. exact (not_elem_of_nil e).
  - exact E.
  - exists w1, slot, w2, evs, w3, before, after. exact (conj E (conj E2 E3)).
Defined.

End properties.
