(* ===== verification/RpcLife.v ===== *)
(** * The endpoint as a table of calls

    The endpoint ([rpc/rpc_endpoint.*]) as the rest of the program drives it: calls,
    completions of sends and receives, answers and rounds of the wheel
    ([common/timing_wheel.h]) in any order, on a connection that others use too.
    A table of pending calls is its specification. *)

From S2P Require Import Prelude Types WrId Verbs Buffer BufferPool RpcSlot TimingWheel QueuePair Connection RpcEndpoint RpcTimeout.

(** ** The steps of the endpoint *)

Section steps.
Import RpcEndpoint RpcSlotHot RpcSlotPool.
Context {HW P : Type} `{!Verbs HW, !BufferSource P}.
Implicit Types (w : World HW P).

(** [OOther]: another user of the connection has posted on it. *)
Inductive EndpointOp :=
  | OCall (header len : Z) (data : option Buffer) (ctx fn : Z)
  | OCallSGL (header len : Z) (iov : list iovec) (ctx fn : Z)
  | OSent (wc : ibv_wc)
  | OReceived (wc : ibv_wc)
  | ORespond (slot gen : Z) (data : Buffer) (client_buffer : RemoteMemoryInfo)
  | OTick
  | OOther (h : HW) (c : Connection).

Inductive EndpointOut := OutCall (r : Result Z) | OutEvents (evs : list Event) | OutStatus (st : Status).

Definition endpoint_step w (o : EndpointOp) : option (World HW P * EndpointOut) :=
  match o with
  | OCall hd len data ctx fn => '(w, r) ← SendRequest w hd len data ctx fn; Some (w, OutCall r)
  | OCallSGL hd len iov ctx fn =>
      r ← SendRequestSGL (length iov) w hd len (Some iov) (Z.of_nat (length iov)) ctx fn;
      '(w, r) ← r; Some (w, OutCall r)
  | OSent wc => '(w, evs) ← OnSendComplete w wc; Some (w, OutEvents evs)
  | OReceived wc => '(w, evs) ← OnWriteWithImmRecv w wc; Some (w, OutEvents evs)
  | ORespond slot gen data cb => let '(w, st) := SendReadResponse w slot gen data cb in Some (w, OutStatus st)
  | OTick => '(w, evs) ← tick w; Some (w, OutEvents evs)
  | OOther h c => Some (set_conn w h c, OutEvents [])
  end.

Fixpoint endpoint_run w (os : list EndpointOp) : option (World HW P * list EndpointOut) :=
  match os with
  | [] => Some (w, [])
  | o :: os =>
      '(w, r) ← endpoint_step w o;
      '(w, rs) ← endpoint_run w os;
      Some (w, r :: rs)
  end.

(** The slot and the generation a completion carries. *)
Definition handle_of (o : EndpointOp) : option (Z * Z) :=
  match o with
  | OSent wc => Some (WrId.GetSlotIndex (wc_wr_id wc), WrId.GetGeneration (wc_wr_id wc))
  | OReceived wc =>
      let imm := QueuePair.ntohl (wc_imm_data wc) in Some (Z.land imm 0xFFFF, u8 (Z.land (Z.shiftr imm 16) 0xFF))
  | _ => None
  end.

(** *** What is asked of the environment

    A handle names a slot, and when its generation is the slot's the slot is in
    use. An entry of the wheel may also meet a slot whose last call is over. What
    the code itself posts meets this with one exception: the later fragments of a
    fragmented scatter-gather call ([QueuePair.frag_wr_id]) carry handles outside
    the slots, and their completion is undefined
    ([RpcReentry.fragment_completion]). *)
Definition handle_ok w (slot gen : Z) : bool :=
  match GetHotChecked (slot_pool_ w) slot gen with
  | Some (Some h) => GetState h =? kStateInUse
  | Some None => true
  | None => false
  end.

Definition entry_ok w (e : Z * Z) : bool :=
  match GetHotChecked (slot_pool_ w) e.1 e.2 with
  | Some (Some h) => (GetState h =? kStateInUse) || IsCompleted h
  | Some None => true
  | None => false
  end.

Definition op_admissible w (o : EndpointOp) : bool :=
  match o with
  | OCall _ _ _ _ _ | ORespond _ _ _ _ => true
  | OCallSGL _ _ _ _ _ =>
      let m := QueuePair.max_send_sge (QueuePair.config_ (Connection.qp (conn_ w))) in (1 <=? m) && (m <=? 16)
  | OSent _ | OReceived _ => match handle_of o with Some (slot, gen) => handle_ok w slot gen | None => true end
  | OTick => match TimingWheel.Tick (timing_wheel_ w) with Some (_, l) => forallb (entry_ok w) l | None => true end
  | OOther _ c => Connection.conn_id_ c =? Connection.conn_id_ (conn_ w)
  end.

Fixpoint admissible w (os : list EndpointOp) : bool :=
  match os with
  | [] => true
  | o :: os => op_admissible w o && match endpoint_step w o with Some (w, _) => admissible w os | None => true end
  end.

End steps.
Arguments EndpointOp : clear implicits.

(** ** Specification: a table of calls *)

Section specification.
Import RpcEndpoint RpcSlotHot RpcSlotPool.
Context {HW : Type}.

(** A call: its callback and how many completions it still waits for. *)
Record Call := { c_fn : Z; c_ctx : Z; c_left : Z }.

(** The pending calls by slot, how often each slot was freed, the deadlines, and
    the timeout of a call. *)
Record Calls := { pending : gmap Z Call; freed : Z -> Z; deadlines : SWheel; timeout : Z }.

Definition set_pending (a : Calls) (m : gmap Z Call) : Calls :=
  {| pending := m; freed := freed a; deadlines := deadlines a; timeout := timeout a |}.

(** A slot is given back. *)
Definition release (a : Calls) (slot : Z) : Calls :=
  {| pending := delete slot (pending a); freed := fun j => if j =? slot then freed a j + 1 else freed a j;
     deadlines := deadlines a; timeout := timeout a |}.

Definition schedule (a : Calls) (slot : Z) : Calls :=
  {| pending := pending a; freed := freed a;
     deadlines := (sw_schedule (deadlines a) slot (freed a slot mod 256) (timeout a)).1; timeout := timeout a |}.

(** A slot is taken by a call, and its deadline set. *)
Definition accept (a : Calls) (slot : Z) (c : Call) : Calls :=
  schedule (set_pending a (<[slot := c]> (pending a))) slot.

(** The call a handle names: the generation is the 12-bit one of the slot. *)
Definition named (a : Calls) (slot gen : Z) : option Call :=
  if freed a slot mod 4096 =? gen then pending a !! slot else None.

(** A completion. *)
Definition complete_call (a : Calls) (slot gen : Z) : Calls * list Event :=
  match named a slot gen with
  | Some c =>
      if c_left c =? 1 then (release a slot, callback (c_fn c) (c_ctx c) slot 0)
      else (set_pending a (<[slot := {| c_fn := c_fn c; c_ctx := c_ctx c; c_left := c_left c - 1 |}]> (pending a)), [])
  | None => (a, [])
  end.

(** Deadlines that have passed. *)
Definition expire_call (a : Calls) (e : Z * Z) : Calls * list Event :=
  match named a e.1 e.2 with
  | Some c => (release a e.1, callback (c_fn c) (c_ctx c) e.1 1)
  | None => (a, [])
  end.

Fixpoint expire_calls (a : Calls) (l : list (Z * Z)) : Calls * list Event :=
  match l with
  | [] => (a, [])
  | e :: l => let '(a, evs) := expire_call a e in let '(a, evs') := expire_calls a l in (a, evs ++ evs')
  end.

Definition calls_tick (a : Calls) : Calls * list Event :=
  let '(t, expired) := sw_tick (deadlines a) in
  expire_calls {| pending := pending a; freed := freed a; deadlines := t; timeout := timeout a |} expired.

(** The callback, its context and the number of completions of a request. *)
Definition request_of (o : EndpointOp HW) : option Call :=
  match o with
  | OCall _ _ data ctx fn =>
      Some {| c_fn := fn; c_ctx := ctx;
              c_left := match data with Some d => if Buffer.IsValid d then 2 else 1 | None => 1 end |}
  | OCallSGL _ _ iov ctx fn =>
      Some {| c_fn := fn; c_ctx := ctx; c_left := if 0 <? Z.of_nat (length iov) then 2 else 1 |}
  | _ => None
  end.

Inductive calls_step (a : Calls) (o : EndpointOp HW) : EndpointOut -> Calls -> Prop :=
  | calls_accepts c slot :
      request_of o = Some c -> 0 <= slot < kMaxSlots -> pending a !! slot = None ->
      calls_step a o (OutCall (RVal slot)) (accept a slot c)
  | calls_full c e :
      request_of o = Some c -> Z.of_nat (size (pending a)) = kMaxSlots -> calls_step a o (OutCall (RErr e)) a
  | calls_unsent c e slot :
      request_of o = Some c -> 0 <= slot < kMaxSlots -> pending a !! slot = None -> status_ok e = false ->
      calls_step a o (OutCall (RErr e)) (release (schedule a slot) slot)
  | calls_completes slot gen :
      handle_of o = Some (slot, gen) ->
      calls_step a o (OutEvents (complete_call a slot gen).2) (complete_call a slot gen).1
  | calls_ticks : o = OTick -> calls_step a o (OutEvents (calls_tick a).2) (calls_tick a).1
  | calls_responds slot gen data cb st : o = ORespond slot gen data cb -> calls_step a o (OutStatus st) a
  | calls_waits h c : o = OOther h c -> calls_step a o (OutEvents []) a.

Inductive calls_run (a : Calls) : list (EndpointOp HW) -> list EndpointOut -> Calls -> Prop :=
  | calls_run_nil : calls_run a [] [] a
  | calls_run_cons o os r rs a1 a2 :
      calls_step a o r a1 -> calls_run a1 os rs a2 -> calls_run a (o :: os) (r :: rs) a2.

Definition calls_new (t : SWheel) (timeout : Z) : Calls :=
  {| pending := ∅; freed := fun _ => 0; deadlines := t; timeout := timeout |}.

(** Who is called back, by its callback, context and slot; a null callback is
    nobody. *)
Definition client (fn ctx slot : Z) : list (Z * Z * Z) := if fn =? 0 then [] else [(fn, ctx, slot)].

Definition accepted (o : EndpointOp HW) (r : EndpointOut) : list (Z * Z * Z) :=
  match request_of o, r with Some c, OutCall (RVal slot) => client (c_fn c) (c_ctx c) slot | _, _ => [] end.

Definition called_back (r : EndpointOut) : list (Z * Z * Z) :=
  match r with OutEvents evs => (fun '(ECallback fn ctx slot _) => (fn, ctx, slot)) <$> evs | _ => [] end.

Definition waiting_clients (m : gmap Z Call) : list (Z * Z * Z) :=
  concat ((fun '(slot, c) => client (c_fn c) (c_ctx c) slot) <$> map_to_list m).

End specification.

(** *** The table an endpoint represents *)

Section representation.
Import RpcEndpoint RpcSlotHot RpcSlotPool.
Context {HW P : Type} `{!Verbs HW, !BufferSource P}.

(** The header and the context of a pending slot. A call that waits for nothing
    more is being called back. *)
Definition call_in (p : RpcSlotPool) (i : Z) (c : Call) : Prop :=
  exists h x, GetHot p i = Some h /\ GetContext p i = Some x
    /\ callback_fn x = c_fn c /\ callback_ctx x = c_ctx c /\ (1 <= c_left c -> error_code h = 0)
    /\ 0 <= completed_wr_count h /\ 0 <= c_left c /\ total_wr_count h = completed_wr_count h + c_left c
    /\ total_wr_count h <= 2.

(** Between the operations every pending call waits for a completion. *)
Definition all_wait (a : Calls) : Prop := map_Forall (fun _ c => 1 <= c_left c) (pending a).

Record calls_rep (w : World HW P) (s : Client) (a : Calls) : Prop := {
  cr_endpoint : ep_wf w s;
  cr_wheel : wheel_rep (timing_wheel_ w) (deadlines a);
  cr_timeout : timeout_ms (config_ w) = timeout a;
  cr_buffers : exists held, bs_held (buffer_pool_ w) held;
  cr_freed : forall i, freed a i = cl_frees s i;
  cr_held : forall i, is_Some (pending a !! i) <-> i ∈ (cl_held s).*1;
  cr_call : forall i c, pending a !! i = Some c -> call_in (slot_pool_ w) i c;
}.

End representation.

(** ** Lemmas *)

Section lemmas.
Import RpcEndpoint RpcSlotHot RpcSlotPool.
Context {HW P : Type} `{!Verbs HW, !BufferSource P}.
Implicit Types (w : World HW P).

Lemma call_in_others p p' i j c : others i p p' -> j <> i -> call_in p j c -> call_in p' j c.
Proof. intros Ho Hj (h & x & Hh & Hx & H). destruct (Ho j Hj) as [Eh Ex]. exists h, x. by rewrite Eh, Ex. Qed.

(** A slot is pending or free. *)
Lemma pending_slot w s a i c : calls_rep w s a -> pending a !! i = Some c ->
  i ∈ (cl_held s).*1 /\ 0 <= i < kMaxSlots /\ call_in (slot_pool_ w) i c.
Proof.
  intros H Hi. assert (i ∈ (cl_held s).*1) as Hin by (apply (cr_held _ _ _ H); by eexists).
  destruct (ew_slots _ _ (cr_endpoint _ _ _ H)) as [Hs _]. split; [done|]. split; [by eapply held_range|].
  exact (cr_call _ _ _ H i c Hi).
Qed.

(** What a handle meets. *)
Lemma checked_slot w s a i g o : calls_rep w s a -> GetHotChecked (slot_pool_ w) i g = Some o ->
  0 <= i < kMaxSlots
  /\ exists h, GetHot (slot_pool_ w) i = Some h /\ o = (if freed a i mod 4096 =? g then Some h else None)
    /\ (GetState h = kStateInUse <-> is_Some (pending a !! i)).
Proof.
  intros H. destruct (ew_slots _ _ (cr_endpoint _ _ _ H)) as [Hs Ep]. unfold GetHotChecked.
  destruct (GetHot (slot_pool_ w) i) as [h|] eqn:Eh; [|done]. sbind. intros E. rewrite <- Ep in Eh.
  split. { apply aget_lt in Eh. by rewrite (ci_hot _ _ Hs) in Eh. }
  exists h. split; [done|]. unfold ValidateGeneration in E. rewrite (held_generation s i h Hs Eh) in E.
  rewrite (cr_freed _ _ _ H). split; [congruence|]. rewrite (cr_held _ _ _ H).
  destruct (ci_slot _ _ Hs i h Eh) as (_ & _ & ->). by case_decide.
Qed.

(** Another user of the connection is not seen. *)
Lemma set_conn_rep w s a h c : calls_rep w s a -> Connection.conn_id_ c = Connection.conn_id_ (conn_ w) ->
  calls_rep (set_conn w h c) s a.
Proof.
  intros [[Hs Hw Hc Ht] Hd Et Hb Hf Hh Hl] Ec. split; [|done..]. split; [done|done|by cbn; rewrite Ec|done].
Qed.

(** A store to the header of a pending slot that makes it the header of [c']. *)
Lemma store_rep w s a i c h c' h' :
  calls_rep w s a -> pending a !! i = Some c -> GetHot (slot_pool_ w) i = Some h ->
  flags h' = flags h -> slot_gen_packed h' = slot_gen_packed h -> (1 <= c_left c' -> error_code h' = 0) ->
  0 <= completed_wr_count h' -> 0 <= c_left c' -> total_wr_count h' = completed_wr_count h' + c_left c' ->
  total_wr_count h' <= 2 -> c_fn c' = c_fn c -> c_ctx c' = c_ctx c ->
  exists p s', PutHot (slot_pool_ w) i h' = Some p
    /\ calls_rep (set_slots w p) s' (set_pending a (<[i := c']> (pending a))).
Proof.
  intros H Hi Eh Ef Ep Ee H0 H1 Et H2 Efn Ecx.
  destruct (pending_slot _ _ _ _ _ H Hi) as (Hin & Hr & h0 & x & _ & Ex & Hfn & Hcx & _).
  destruct H as [[[Hs Epl] Hw Hc Ht] Hd Eto Hb Hf Hh Hl]. rewrite <- Epl in Eh, Ex.
  destruct (ci_slot _ _ Hs i h Eh) as (Hfl & _ & _).
  destruct (PutHot_inv s i h h' Hs Hin Eh) as (p & E & Hs' & Eh' & Ec' & _); [by rewrite Ef|done|by unfold GetState; rewrite Ef|].
  rewrite Epl in E. exists p, (with_pool s p). split; [done|].
  split; cbn [set_pending pending freed deadlines timeout set_slots timing_wheel_ config_ buffer_pool_ slot_pool_]; try done.
  - intros j. cbn [with_pool cl_held]. rewrite <- Hh. destruct (decide (j = i)) as [->|Hj].
    + rewrite lookup_insert_eq, Hi. split; intros _; by eexists.
    + by rewrite lookup_insert_ne.
  - intros j cj. destruct (decide (j = i)) as [->|Hj].
    + rewrite lookup_insert_eq. intros [= <-]. exists h', x. unfold GetContext in *. rewrite Ec'. split_and!; [done..| | | | | | |]; congruence || lia.
    + rewrite lookup_insert_ne by done. intros Hcj. by eapply call_in_others; [eapply PutHot_others| |apply Hl].
Qed.

(** The slot of a call is given back. *)
Lemma free_rep w s a i c :
  calls_rep w s a -> pending a !! i = Some c ->
  exists p s', Free (slot_pool_ w) i = Some p /\ calls_rep (set_slots w p) s' (release a i).
Proof.
  intros H Hi. destruct (pending_slot _ _ _ _ _ H Hi) as (Hin & Hr & _).
  destruct H as [[[Hs Ep] Hw Hc Ht] Hd Eto Hb Hf Hh Hl].
  destruct (Free_inv s i Hs Hin) as (p & E & _ & _ & _ & s2 & Hs2 & Ep2 & Hf2 & Hh2). rewrite Ep in E.
  exists p, s2. split; [done|].
  split; cbn [release pending freed deadlines timeout set_slots timing_wheel_ config_ buffer_pool_ slot_pool_]; try done.
  - intros j. by rewrite Hf2, Hf.
  - intros j. rewrite Hh2, <- Hh. destruct (decide (j = i)) as [->|Hj].
    + rewrite lookup_delete_eq. split; [by intros []|by intros []].
    + rewrite lookup_delete_ne by done. tauto.
  - intros j cj [Hj Hcj]%lookup_delete_Some. eapply call_in_others; [by eapply Free_others|done|by apply Hl].
Qed.

(** A call that waits for nothing more. *)
Definition answered (a : Calls) (i : Z) (c : Call) : Calls :=
  set_pending a (<[i := {| c_fn := c_fn c; c_ctx := c_ctx c; c_left := 0 |}]> (pending a)).

Lemma release_answered a i c : release (answered a i c) i = release a i.
Proof. unfold release. cbn [answered set_pending pending freed deadlines timeout]. by rewrite delete_insert_eq. Qed.

(** The end of a call: a last store to its header. *)
Lemma answered_rep w s a i c h h' :
  calls_rep w s a -> pending a !! i = Some c -> GetHot (slot_pool_ w) i = Some h ->
  flags h' = flags h -> slot_gen_packed h' = slot_gen_packed h ->
  0 <= completed_wr_count h' <= 2 -> total_wr_count h' = completed_wr_count h' ->
  exists p s', PutHot (slot_pool_ w) i h' = Some p /\ GetHot p i = Some h'
    /\ GetContext p i = GetContext (slot_pool_ w) i /\ calls_rep (set_slots w p) s' (answered a i c).
Proof.
  intros H Hi Eh Ef Ep Hc Ht.
  destruct (store_rep w s a i c h {| c_fn := c_fn c; c_ctx := c_ctx c; c_left := 0 |} h' H Hi Eh)
    as (p & s' & E & H'); try done; cbn [c_left]; [lia..|].
  exists p, s'. split; [done|]. unfold PutHot in E. apply bind_Some in E as (l & E & [= <-]).
  apply aset_inv in E as [Hr ->]. unfold GetHot. cbn [set_hot slots_hot_]. by rewrite aget_insert, decide_True.
Qed.

(** *** Completions *)

Lemma IsCompleted_left h n : total_wr_count h = completed_wr_count h + n -> IsCompleted h = (n <=? 0).
Proof.
  intros E. unfold IsCompleted. destruct (Z.leb_spec n 0); [apply Z.leb_le|apply Z.leb_gt]; lia.
Qed.

(** A completion is counted; it is the last when the call waited for one. *)
Definition counted (a : Calls) (i : Z) (c : Call) : Calls :=
  set_pending a (<[i := {| c_fn := c_fn c; c_ctx := c_ctx c; c_left := c_left c - 1 |}]> (pending a)).

Lemma counted_last a i c : c_left c = 1 -> counted a i c = answered a i c.
Proof. intros E. unfold counted, answered. by rewrite E. Qed.

Lemma counted_rep w s a i c h :
  calls_rep w s a -> pending a !! i = Some c -> 1 <= c_left c -> GetHot (slot_pool_ w) i = Some h ->
  exists p s', PutHot (slot_pool_ w) i (MarkCompleted h) = Some p /\ GetHot p i = Some (MarkCompleted h)
    /\ IsCompleted (MarkCompleted h) = (c_left c =? 1) /\ error_code (MarkCompleted h) = 0
    /\ GetContext p i = GetContext (slot_pool_ w) i /\ calls_rep (set_slots w p) s' (counted a i c).
Proof.
  intros H Hi Hl Eh. destruct (pending_slot _ _ _ _ _ H Hi) as (_ & _ & h0 & x & Eh0 & _ & _ & _ & He & Hc & _ & Ht & Hm).
  rewrite Eh in Eh0. injection Eh0 as <-.
  assert (completed_wr_count (MarkCompleted h) = completed_wr_count h + 1) as Em.
  { unfold MarkCompleted. cbn [set_counts completed_wr_count]. apply wrap_id. unfold is_u. lia. }
  destruct (store_rep w s a i c h {| c_fn := c_fn c; c_ctx := c_ctx c; c_left := c_left c - 1 |} (MarkCompleted h) H Hi Eh)
    as (p & s2 & E & H2); try done; cbn [c_left]; [by intros _; apply He|lia|lia|rewrite Em; cbn [MarkCompleted set_counts total_wr_count]; lia|].
  exists p, s2. split; [done|]. unfold PutHot in E. apply bind_Some in E as (l & E & [= <-]). apply aset_inv in E as [Hr ->].
  split; [unfold GetHot; cbn [set_hot slots_hot_]; by rewrite aget_insert, decide_True|].
  split; [|by split_and!; [apply He|..]]. unfold IsCompleted. rewrite Em. cbn [MarkCompleted set_counts total_wr_count].
  destruct (Z.eqb_spec (c_left c) 1); [apply Z.leb_le|apply Z.leb_gt]; lia.
Qed.

(** A completion of a pending call. *)
Lemma complete_wr_rep w s a i c h :
  calls_rep w s a -> pending a !! i = Some c -> 1 <= c_left c -> GetHot (slot_pool_ w) i = Some h ->
  exists w' s', complete_wr w i h = Some (w', (complete_call a i (freed a i mod 4096)).2)
    /\ calls_rep w' s' (complete_call a i (freed a i mod 4096)).1.
Proof.
  intros H Hi Hl Eh. destruct (pending_slot _ _ _ _ _ H Hi) as (_ & _ & _ & x & _ & Ex & Hfn & Hcx & _).
  unfold complete_call, named. rewrite Z.eqb_refl, Hi. unfold complete_wr.
  destruct (counted_rep w s a i c h H Hi Hl Eh) as (p & s1 & -> & Ehp & -> & He & Exp & H1). sbind.
  destruct (Z.eqb_spec (c_left c) 1) as [E1|E1]; [|by exists (set_slots w p), s1].
  rewrite counted_last in H1 by done. destruct (free_rep _ _ _ i _ H1 (lookup_insert_eq _ _ _)) as (p2 & s2 & E2 & H2).
  rewrite release_answered in H2. unfold OnRpcComplete. cbn [set_slots slot_pool_] in *. rewrite Exp, Ex, Ehp, E2. sbind.
  exists (set_slots w p2), s2. by rewrite He, Hfn, Hcx.
Qed.

(** A handle meets the call it names, or nothing. *)
Lemma handle_rep w s a i g : calls_rep w s a -> all_wait a -> handle_ok w i g = true ->
  (GetHotChecked (slot_pool_ w) i g = Some None /\ complete_call a i g = (a, []))
  \/ exists h w' s', GetHotChecked (slot_pool_ w) i g = Some (Some h)
      /\ complete_wr w i h = Some (w', (complete_call a i g).2) /\ calls_rep w' s' (complete_call a i g).1.
Proof.
  intros H Hw. unfold handle_ok. destruct (GetHotChecked (slot_pool_ w) i g) as [o|] eqn:E; [|done].
  destruct (checked_slot _ _ _ _ _ _ H E) as (Hr & h & Eh & -> & Hu). unfold complete_call at 1, named.
  destruct (Z.eqb_spec (freed a i mod 4096) g) as [<-|_]; [|by left]. intros [c Hc]%Z.eqb_eq%Hu. right.
  destruct (complete_wr_rep w s a i c h H Hc (Hw i c Hc) Eh) as (w' & s' & E' & H'). by exists h, w', s'.
Qed.

Lemma OnSendComplete_rep w s a wc :
  calls_rep w s a -> all_wait a -> op_admissible w (OSent wc) = true ->
  let c := complete_call a (WrId.GetSlotIndex (wc_wr_id wc)) (WrId.GetGeneration (wc_wr_id wc)) in
  exists w' s', OnSendComplete w wc = Some (w', c.2) /\ calls_rep w' s' c.1.
Proof.
  intros H Hw Ho. unfold OnSendComplete. destruct (handle_rep _ _ _ _ _ H Hw Ho) as [[-> ->]|(h & w' & s' & -> & E & H')]; sbind.
  - by exists w, s.
  - by exists w', s'.
Qed.

Lemma RepostRecvBuffer_rep w s a : calls_rep w s a ->
  exists w', RepostRecvBuffer w = Some w' /\ calls_rep w' s a.
Proof.
  intros [[Hs Hw Hc Ht] Hd Et [held Hb] Hf Hh Hl]. unfold RepostRecvBuffer.
  destruct (bs_allocate_spec _ _ Hb) as (b & buf & -> & Hv). sbind. destruct (Buffer.IsValid buf).
  - destruct (Connection.PostRecv _ _ _ _) as [h st]. eexists. split; [done|].
    split; [done..| |done|done|done]. exists (buf :: held). apply Hv.
  - subst b. eexists. split; [done|]. split; [done..| |done|done|done]. by exists held.
Qed.

Lemma OnWriteWithImmRecv_rep w s a wc :
  calls_rep w s a -> all_wait a -> op_admissible w (OReceived wc) = true ->
  let imm := QueuePair.ntohl (wc_imm_data wc) in
  let c := complete_call a (Z.land imm 0xFFFF) (u8 (Z.land (Z.shiftr imm 16) 0xFF)) in
  exists w' s', OnWriteWithImmRecv w wc = Some (w', c.2) /\ calls_rep w' s' c.1.
Proof.
  intros H Hw Ho. cbv zeta. unfold OnWriteWithImmRecv, complete_response.
  destruct (handle_rep _ _ _ _ _ H Hw Ho) as [[-> ->]|(h & w1 & s1 & -> & E & H1)]; sbind.
  - by exists w, s.
  - rewrite E. sbind. destruct (RepostRecvBuffer_rep _ _ _ H1) as (w2 & -> & H2). sbind. by exists w2, s1.
Qed.

(** *** Timeouts *)

Lemma entry_ok_others w w' i e :
  others i (slot_pool_ w) (slot_pool_ w') -> e.1 <> i -> entry_ok w e = true -> entry_ok w' e = true.
Proof. intros Ho He. unfold entry_ok, GetHotChecked. by destruct (Ho e.1 He) as [-> _]. Qed.

Lemma Free_completed p p' i h : GetHot p i = Some h -> Free p i = Some p' ->
  exists h', GetHot p' i = Some h' /\ IsCompleted h' = IsCompleted h.
Proof.
  intros Eh. unfold Free, PutHot. rewrite Eh. sbind. destruct (aset (slots_hot_ p) i _) as [l|] eqn:E; [|done]. sbind.
  intros (st & _ & E')%bind_Some. simplify_eq. apply aset_inv in E as [Hr ->].
  unfold GetHot. cbn [set_stack set_hot slots_hot_]. rewrite aget_insert, decide_True by done. by eexists.
Qed.

Lemma release_waits a i : all_wait a -> all_wait (release a i).
Proof. apply map_Forall_delete. Qed.

Lemma expire_call_waits a e : all_wait a -> all_wait (expire_call a e).1.
Proof. intros H. unfold expire_call. destruct (named _ _ _); [by apply release_waits|done]. Qed.

(** An expired entry: the call it names fails. *)
Lemma timeout_one_rep w s a e :
  calls_rep w s a -> all_wait a -> entry_ok w e = true ->
  exists w' s' b, timeout_one w e.1 e.2 = Some (w', (expire_call a e).2, b) /\ calls_rep w' s' (expire_call a e).1
    /\ forall e', entry_ok w e' = true -> entry_ok w' e' = true.
Proof.
  intros H Hw He. unfold timeout_one. unfold entry_ok in He.
  destruct (GetHotChecked (slot_pool_ w) e.1 e.2) as [o|] eqn:E; [|done]. sbind.
  destruct (checked_slot _ _ _ _ _ _ H E) as (Hr & h & Eh & -> & Hu). unfold expire_call, named.
  destruct (Z.eqb_spec (freed a e.1 mod 4096) e.2) as [Eg|_]; [|by exists w, s, false].
  destruct (pending a !! e.1) as [c|] eqn:Hc.
  - destruct (pending_slot _ _ _ _ _ H Hc) as (_ & _ & h0 & x & Eh0 & Ex & Hfn & Hcx & _ & Hn & _ & Ht & Hm).
    rewrite Eh in Eh0. injection Eh0 as <-. pose proof (Hw _ _ Hc) as Hl. cbn in Hl. rewrite (IsCompleted_left _ _ Ht), (proj2 (Z.leb_gt _ _)) by lia.
    set (h' := set_counts h _ _ _).
    destruct (answered_rep w s a e.1 c h h' H Hc Eh eq_refl eq_refl) as (p & s1 & EP & Ehp & Exp & H1);
      [cbn [h' set_counts completed_wr_count]; lia|done|]. rewrite EP. sbind.
    destruct (free_rep _ _ _ e.1 _ H1 (lookup_insert_eq _ _ _)) as (p2 & s2 & E2 & H2). rewrite release_answered in H2.
    cbn [set_slots slot_pool_] in E2. rewrite Exp, Ex, E2. sbind.
    exists (set_slots w p2), s2, true. split; [by rewrite <- Hfn, <- Hcx|]. split; [done|].
    assert (others e.1 (slot_pool_ w) p2) as Ho by (eapply others_trans; [by eapply PutHot_others|by eapply Free_others]).
    intros e' He'. destruct (decide (e'.1 = e.1)) as [Ei|Hne]; [|by eapply entry_ok_others].
    destruct (Free_completed _ _ _ _ Ehp E2) as (h2 & Eh2 & Ecmp). unfold entry_ok, GetHotChecked.
    cbn [set_slots slot_pool_]. rewrite Ei, Eh2. sbind. destruct (ValidateGeneration h2 e'.2); [|done].
    rewrite Ecmp. unfold IsCompleted at 1. cbn [h' set_counts total_wr_count completed_wr_count].
    rewrite Z.leb_refl. apply orb_true_r.
  - destruct (IsCompleted h) eqn:Ec; [by exists w, s, false|].
    rewrite orb_false_r in He. apply Z.eqb_eq, Hu in He. by destruct He.
Qed.

Lemma CheckTimeouts_rep l w s a :
  calls_rep w s a -> all_wait a -> Forall (fun e => entry_ok w e = true) l ->
  exists w' s' n, CheckTimeouts w l = Some (w', (expire_calls a l).2, n) /\ calls_rep w' s' (expire_calls a l).1.
Proof.
  revert w s a. induction l as [|[i g] l IH]; intros w s a H Hw Hl; cbn [CheckTimeouts expire_calls]; [by exists w, s, 0|].
  apply Forall_cons in Hl as [He Hl]. destruct (timeout_one_rep w s a (i, g) H Hw He) as (w1 & s1 & b & E1 & H1 & Hk).
  pose proof (expire_call_waits a (i, g) Hw) as Hw1.
  cbn [fst snd] in E1. rewrite E1. sbind. destruct (expire_call a (i, g)) as [a1 evs]. cbn [fst snd] in *.
  destruct (IH w1 s1 a1 H1 Hw1) as (w2 & s2 & n & E2 & H2); [by eapply Forall_impl|]. rewrite E2. sbind.
  destruct (expire_calls a1 l) as [a2 evs2]. by exists w2, s2, ((if b then 1 else 0) + n).
Qed.

Lemma tick_rep w s a : calls_rep w s a -> all_wait a -> op_admissible w OTick = true ->
  exists w' s', tick w = Some (w', (calls_tick a).2) /\ calls_rep w' s' (calls_tick a).1.
Proof.
  intros [[Hs Hw Hc Ht] Hd Et Hb Hf Hh Hl] Ha Ho. destruct (wheel_tick_refines _ _ Hd) as (t & E & Hd').
  unfold op_admissible in Ho. rewrite E in Ho. unfold tick, calls_tick. rewrite E. sbind.
  destruct (sw_tick (deadlines a)) as [d l]. cbn [fst snd] in *.
  destruct (CheckTimeouts_rep l (set_wheel w t) s {| pending := pending a; freed := freed a; deadlines := d; timeout := timeout a |})
    as (w' & s' & n & E' & H').
  - split; [|done..]. by split; [|eexists| |].
  - done.
  - apply Forall_forall. intros e He. by eapply forallb_forall, list_elem_of_In.
  - rewrite E'. sbind. by exists w', s'.
Qed.

(** *** Requests *)

Lemma pending_size w s a : calls_rep w s a ->
  Z.of_nat (size (pending a)) = kMaxSlots - AvailableCount (slot_pool_ w).
Proof.
  intros H. destruct (ew_slots _ _ (cr_endpoint _ _ _ H)) as [Hs Ep].
  rewrite <- size_dom. assert (dom (pending a) = list_to_set (C := gset Z) (cl_held s).*1) as ->.
  { apply set_eq. intros i. rewrite elem_of_dom, (cr_held _ _ _ H), elem_of_list_to_set. done. }
  rewrite size_list_to_set by by apply (held_NoDup kMaxSlots). rewrite length_fmap.
  pose proof (held_count kMaxSlots s Hs ltac:(unfold kMaxSlots; lia)). unfold AvailableCount. rewrite <- Ep. lia.
Qed.

(** A slot that is scheduled, and taken or given back at once. *)
Lemma scheduled_rep w s a w1 s1 slot b (m : gmap Z Call) n :
  calls_rep w s a -> ep_wf w1 s1 -> buffer_pool_ w1 = buffer_pool_ w -> config_ w1 = config_ w ->
  TimingWheel.Schedule (timing_wheel_ w) slot (cl_frees s slot mod 256) (timeout_ms (config_ w)) = Some (timing_wheel_ w1, b) ->
  others slot (slot_pool_ w) (slot_pool_ w1) -> slot ∉ (cl_held s).*1 ->
  (forall j, cl_frees s1 j = n j) -> (forall j, is_Some (m !! j) <-> j ∈ (cl_held s1).*1) ->
  (forall j c, m !! j = Some c -> j <> slot /\ pending a !! j = Some c \/ call_in (slot_pool_ w1) j c) ->
  calls_rep w1 s1 {| pending := m; freed := n; deadlines := deadlines (schedule a slot); timeout := timeout a |}.
Proof.
  intros H H1 Eb Ec Es Ho Hn Hf Hh Hl.
  destruct (wheel_schedule_refines _ _ slot (cl_frees s slot mod 256) _ (cr_wheel _ _ _ H) (ew_timeout _ _ (cr_endpoint _ _ _ H)))
    as (t & Es' & Ht). rewrite Es in Es'. injection Es' as <- ->.
  split; cbn [schedule pending freed deadlines timeout]; try done.
  - by rewrite (cr_freed _ _ _ H), <- (cr_timeout _ _ _ H).
  - by rewrite Ec, (cr_timeout _ _ _ H).
  - rewrite Eb. apply (cr_buffers _ _ _ H).
  - intros j c Hc. destruct (Hl j c Hc) as [[Hj Hp]|]; [|done]. eapply call_in_others; [exact Ho|done|by apply (cr_call _ _ _ H)].
Qed.

(** Steps 1 to 4 of a request. *)
Lemma start_rep w s a hd len ctx fn :
  calls_rep w s a ->
  exists w1 r, start_request w hd len ctx fn = Some (w1, r)
    /\ match r with
       | inl e =>
           (Z.of_nat (size (pending a)) = kMaxSlots /\ exists s1, calls_rep w1 s1 a)
           \/ status_ok e = false /\ exists slot, 0 <= slot < kMaxSlots /\ pending a !! slot = None
              /\ exists s1, calls_rep w1 s1 (release (schedule a slot) slot)
       | inr (slot, gen, wrid) =>
           0 <= slot < kMaxSlots /\ pending a !! slot = None
           /\ exists s1 h, calls_rep w1 s1 (accept a slot {| c_fn := fn; c_ctx := ctx; c_left := 1 |})
              /\ GetHot (slot_pool_ w1) slot = Some h /\ completed_wr_count h = 0
       end.
Proof.
  intros H. destruct (start_request_inv w s hd len ctx fn (cr_endpoint _ _ _ H)) as (w1 & r & E & Hr).
  destruct (start_request_frame _ _ _ _ _ _ _ E) as (Eb & Ec & Hcase). exists w1, r. split; [done|].
  assert (Hfree : forall i, i ∉ (cl_held s).*1 -> pending a !! i = None).
  { intros i Hi. apply eq_None_not_Some. by rewrite (cr_held _ _ _ H). }
  destruct r as [e|[[slot gen] wrid]].
  - destruct Hr as ((s1 & H1 & Hh1 & [(-> & -> & Hz)|(He & p & i & g & EA & Hr & Hni & Eg & Hf1)]) & _).
    { left. split; [|by exists s]. rewrite (pending_size _ _ _ H). unfold AvailableCount. lia. }
    right. split; [done|]. exists i. split; [done|]. split; [by apply Hfree|]. exists s1.
    destruct Hcase as [(_ & _ & p' & g' & EA')|(p' & i' & g' & b & EA' & Es & Ho & _)]; rewrite EA in EA'; simplify_eq.
    { unfold kMaxSlots, UINT32_MAX in *. lia. }
    apply (scheduled_rep w s a w1 s1 i' b); try done.
    + intros j. rewrite Hf1. cbn [schedule freed]. by rewrite !(cr_freed _ _ _ H).
    + intros j. cbn [schedule pending]. rewrite Hh1, <- (cr_held _ _ _ H), delete_id; [done|by apply Hfree].
    + intros j c [Hj Hc]%lookup_delete_Some. by left.
  - destruct Hr as (Hr & Hni & Eg & _ & _ & _ & s1 & h & x & H1 & Hf1 & Hh1 & Hh & Ht & Hc & He & Hx & Hfn & Hcx).
    split; [done|]. split; [by apply Hfree|]. exists s1, h.
    split; [|done]. destruct Hcase as [(_ & [? ?] & _)|(p' & i' & g' & b & EA' & Es & Ho & Ei & Eg')]; [done|].
    rewrite <- Ei, <- Eg', Eg in Es. rewrite <- Ei in Ho.
    apply (scheduled_rep w s a w1 s1 slot b); try done.
    + intros j. rewrite Hf1. cbn [accept schedule set_pending freed]. by rewrite (cr_freed _ _ _ H).
    + intros j. cbn [accept schedule set_pending pending]. rewrite Hh1, fmap_cons, elem_of_cons, <- (cr_held _ _ _ H). cbn [fst].
      rewrite lookup_insert_is_Some. destruct (decide (j = slot)); naive_solver.
    + intros j c. cbn [accept schedule set_pending pending]. intros [[<- <-]|[Hj Hc']]%lookup_insert_Some; [right|left; split; congruence].
      exists h, x. cbn [c_fn c_ctx c_left]. split_and!; done || lia.
Qed.

(** Step 5: the call waits for one completion more. *)
Lemma add_wr_rep w s a slot fn ctx h :
  calls_rep w s (accept a slot {| c_fn := fn; c_ctx := ctx; c_left := 1 |}) ->
  GetHot (slot_pool_ w) slot = Some h -> completed_wr_count h = 0 ->
  exists p s', add_wr (slot_pool_ w) slot = Some p
    /\ calls_rep (set_slots w p) s' (accept a slot {| c_fn := fn; c_ctx := ctx; c_left := 2 |}).
Proof.
  intros H Eh Hc. pose proof (lookup_insert_eq (pending a) slot {| c_fn := fn; c_ctx := ctx; c_left := 1 |}) as Hi.
  destruct (pending_slot _ _ _ slot _ H Hi) as (_ & _ & h0 & x & Eh0 & _ & _ & _ & He & _ & _ & Ht & Hm).
  rewrite Eh in Eh0. injection Eh0 as <-. cbn [c_left] in Ht. unfold add_wr. rewrite Eh. sbind.
  assert (u8 (total_wr_count h + 1) = 2) as -> by (rewrite Ht, Hc; done).
  destruct (store_rep w s _ slot _ h {| c_fn := fn; c_ctx := ctx; c_left := 2 |} (set_counts h 2 (completed_wr_count h) (error_code h)) H Hi Eh)
    as (p & s' & E & H'); try done; cbn [set_counts completed_wr_count total_wr_count c_left error_code]; [by intros _; apply He|lia..|].
  exists p, s'. split; [done|]. cbn [accept schedule set_pending pending] in H'. by rewrite insert_insert_eq in H'.
Qed.

Lemma WriteWithImm_conn (h : HW) c buf ra rk imm wrid :
  Connection.conn_id_ (Connection.WriteWithImm h c buf ra rk imm wrid).1.2 = Connection.conn_id_ c.
Proof.
  unfold Connection.WriteWithImm. case_bool_decide; [|done]. cbn [negb].
  by destruct (QueuePair.PostWriteWithImm _ _ _ _ _ _ _) as [[h' q'] st].
Qed.

(** A request ends as the table says. *)
Lemma SendRequest_rep w s a hd len data ctx fn :
  calls_rep w s a ->
  exists w' r s' a', SendRequest w hd len data ctx fn = Some (w', r)
    /\ calls_step a (OCall hd len data ctx fn : EndpointOp HW) (OutCall r) a' /\ calls_rep w' s' a'.
Proof.
  intros H. destruct (start_rep w s a hd len ctx fn H) as (w1 & r & E & Hr). unfold SendRequest. rewrite E. sbind.
  destruct r as [e|[[slot gen] wrid]].
  - destruct Hr as [(Hz & s1 & H1)|(He & slot & Hr & Hn & s1 & H1)]; do 4 eexists; (split; [done|]); (split; [|exact H1]).
    + by eapply calls_full.
    + by eapply calls_unsent.
  - destruct Hr as (Hr & Hn & s1 & h & H1 & Eh & Hc).
    assert (forall d, data = d -> match d with Some d => Buffer.IsValid d | None => false end = false ->
      calls_step a (OCall hd len data ctx fn : EndpointOp HW) (OutCall (RVal slot))
        (accept a slot {| c_fn := fn; c_ctx := ctx; c_left := 1 |})) as Hone.
    { intros d -> Hd. apply calls_accepts; [|done..]. cbn [request_of]. destruct d as [d|]; [by rewrite Hd|done]. }
    destruct data as [d|]; [|do 4 eexists; split; [done|]; split; [by eapply Hone|exact H1]].
    destruct (Buffer.IsValid d) eqn:Ed; [|do 4 eexists; split; [done|]; split; [by eapply Hone|exact H1]].
    destruct (add_wr_rep _ _ _ _ _ _ _ H1 Eh Hc) as (p & s2 & -> & H2). sbind.
    pose proof (WriteWithImm_conn (hw w1) (conn_ w1) d (rmi_addr (Connection.remote_recv_buffer_ (conn_ w1)))
      (rmi_rkey (Connection.remote_recv_buffer_ (conn_ w1))) (encode_imm gen slot) wrid) as Hcid.
    cbn [set_slots conn_ hw]. destruct (Connection.WriteWithImm _ _ _ _ _ _ _) as [[h2 c2] st].
    do 4 eexists. split; [done|]. split; [|by apply set_conn_rep].
    apply calls_accepts; [|done..]. cbn [request_of]. by rewrite Ed.
Qed.

Lemma PostSendSGL_returns (h : HW) q (iov : list iovec) base conn gen :
  1 <= QueuePair.max_send_sge (QueuePair.config_ q) <= 16 ->
  exists r, QueuePair.PostSendSGL (length iov) h q iov (Z.of_nat (length iov)) base conn gen = Some (Some r).
Proof.
  intros Hm. unfold QueuePair.PostSendSGL. destruct (Z.leb_spec (Z.of_nat (length iov)) (QueuePair.max_send_sge (QueuePair.config_ q))).
  - destruct (QueuePair.ShouldSignal q) as [q1 signaled].
    destruct (DoPostSendSGL_spec h q1 iov (Z.of_nat (length iov)) base signaled) as (h' & st & -> & _); [lia..|]. by eexists.
  - destruct (sgl_loop_spec (length iov) h q iov (QueuePair.max_send_sge (QueuePair.config_ q)) (Z.of_nat (length iov)) 0 0
      base conn gen) as (h' & q' & st & _ & -> & _); [lia..|]. by eexists.
Qed.

Lemma start_request_qp w hd len ctx fn w1 r :
  start_request w hd len ctx fn = Some (w1, r) ->
  QueuePair.config_ (Connection.qp (conn_ w1)) = QueuePair.config_ (Connection.qp (conn_ w)).
Proof.
  unfold start_request. intros ([p [i g]] & _ & E)%bind_Some. destruct (_ =? _); [by simplify_eq|].
  apply bind_Some in E as (p2 & _ & E). apply bind_Some in E as ([t b] & _ & E).
  cbn [set_slots set_wheel conn_ hw] in E. destruct (Connection.SendInline _ _ _ _ _) as [[h c] st] eqn:ES.
  assert (QueuePair.config_ (Connection.qp c) = QueuePair.config_ (Connection.qp (conn_ w))) as Hc.
  { revert ES. unfold Connection.SendInline, QueuePair.PostSendInline. case_bool_decide; cbn [negb]; [|by intros [= _ <- _]].
    destruct (_ <? len); [by intros [= _ <- _]|]. pose proof (ShouldSignal_config (Connection.qp (conn_ w))) as Hq.
    destruct (QueuePair.ShouldSignal _) as [q sg]. destruct (QueuePair.post _ _ _ _). by intros [= _ <- _]. }
  destruct (negb _); [|by simplify_eq]. apply bind_Some in E as (p3 & _ & E). by simplify_eq.
Qed.

Lemma SendRequestSGL_rep w s a hd len iov ctx fn :
  calls_rep w s a -> op_admissible w (OCallSGL hd len iov ctx fn) = true ->
  exists w' r s' a',
    SendRequestSGL (length iov) w hd len (Some iov) (Z.of_nat (length iov)) ctx fn = Some (Some (w', r))
    /\ calls_step a (OCallSGL hd len iov ctx fn : EndpointOp HW) (OutCall r) a' /\ calls_rep w' s' a'.
Proof.
  intros H [Hm1 Hm2]%andb_true_iff. apply Z.leb_le in Hm1, Hm2.
  destruct (start_rep w s a hd len ctx fn H) as (w1 & r & E & Hr). pose proof (start_request_qp _ _ _ _ _ _ _ E) as Hq.
  unfold SendRequestSGL. rewrite E. sbind. destruct r as [e|[[slot gen] wrid]].
  - destruct Hr as [(Hz & s1 & H1)|(He & slot & Hr & Hn & s1 & H1)]; do 4 eexists; (split; [done|]); (split; [|exact H1]).
    + by eapply calls_full.
    + by eapply calls_unsent.
  - destruct Hr as (Hr & Hn & s1 & h & H1 & Eh & Hc). destruct (0 <? Z.of_nat (length iov)) eqn:El.
    2: { do 4 eexists. split; [done|]. split; [|exact H1]. apply calls_accepts; [|done..]. cbn [request_of]. by rewrite El. }
    destruct (add_wr_rep _ _ _ _ _ _ _ H1 Eh Hc) as (p & s2 & -> & H2). sbind. cbn [set_slots conn_ hw].
    destruct (PostSendSGL_returns (hw w1) (Connection.qp (conn_ w1)) iov slot (Connection.conn_id_ (conn_ w1)) gen)
      as ([[h2 q2] st] & ->); [by rewrite Hq|]. sbind.
    do 4 eexists. split; [done|]. split; [|by apply set_conn_rep]. apply calls_accepts; [|done..]. cbn [request_of]. by rewrite El.
Qed.

(** *** Steps and runs *)

(** Every step the environment may ask for is a step of the table. *)
Lemma endpoint_step_rep w s a o :
  calls_rep w s a -> all_wait a -> op_admissible w o = true ->
  exists w' r s' a', endpoint_step w o = Some (w', r) /\ calls_step a o r a' /\ calls_rep w' s' a'.
Proof.
  intros H Hw Ho. destruct o as [hd len data ctx fn|hd len iov ctx fn|wc|wc|slot gen data cb| |h c]; cbn [endpoint_step].
  - destruct (SendRequest_rep w s a hd len data ctx fn H) as (w' & r & s' & a' & -> & Hst & H'). sbind. by exists w', (OutCall r), s', a'.
  - destruct (SendRequestSGL_rep w s a hd len iov ctx fn H Ho) as (w' & r & s' & a' & -> & Hst & H'). sbind.
    by exists w', (OutCall r), s', a'.
  - destruct (OnSendComplete_rep w s a wc H Hw Ho) as (w' & s' & -> & H'). sbind.
    do 4 eexists. split; [done|]. split; [by apply calls_completes|done].
  - destruct (OnWriteWithImmRecv_rep w s a wc H Hw Ho) as (w' & s' & -> & H'). sbind.
    do 4 eexists. split; [done|]. split; [by apply calls_completes|done].
  - unfold SendReadResponse. pose proof (WriteWithImm_conn (hw w) (conn_ w) data (rmi_addr cb) (rmi_rkey cb)
      (QueuePair.htonl (encode_imm gen slot)) 0) as Hc.
    destruct (Connection.WriteWithImm _ _ _ _ _ _ _) as [[h' c'] st].
    do 4 eexists. split; [done|]. split; [by eapply calls_responds|by apply set_conn_rep].
  - destruct (tick_rep w s a H Hw Ho) as (w' & s' & -> & H'). sbind. do 4 eexists. split; [done|]. split; [by apply calls_ticks|done].
  - do 4 eexists. split; [done|]. split; [by eapply calls_waits|]. apply set_conn_rep; [done|]. by apply Z.eqb_eq.
Qed.

Lemma expire_calls_waits l a : all_wait a -> all_wait (expire_calls a l).1.
Proof.
  revert a. induction l as [|e l IH]; intros a H; cbn [expire_calls]; [done|].
  pose proof (expire_call_waits a e H) as H1. destruct (expire_call a e) as [a1 evs]. specialize (IH a1 H1).
  by destruct (expire_calls a1 l).
Qed.

Lemma request_waits (o : EndpointOp HW) c : request_of o = Some c -> 1 <= c_left c.
Proof. destruct o; intros [= <-]; cbn; repeat case_match; lia. Qed.

Lemma calls_step_waits a (o : EndpointOp HW) r a' : calls_step a o r a' -> all_wait a -> all_wait a'.
Proof.
  intros [c slot E _ _|c e _ _|c e slot _ _ _ _|slot gen _|_|slot gen data cb st _|h c _] H; try done.
  - apply map_Forall_insert_2; [by eapply request_waits|done].
  - by apply release_waits.
  - unfold complete_call, named. destruct (_ =? gen); [|done]. destruct (pending a !! slot) as [c|] eqn:Hc; [|done].
    destruct (Z.eqb_spec (c_left c) 1); [by apply release_waits|]. apply map_Forall_insert_2; [|done].
    specialize (H _ _ Hc). cbn in *. lia.
  - unfold calls_tick. destruct (sw_tick (deadlines a)) as [t l]. by apply expire_calls_waits.
Qed.

Lemma endpoint_run_rep os w s a :
  calls_rep w s a -> all_wait a -> admissible w os = true ->
  exists w' rs s' a', endpoint_run w os = Some (w', rs) /\ calls_run a os rs a' /\ calls_rep w' s' a'.
Proof.
  revert w s a. induction os as [|o os IH]; intros w s a H Hw Ho; cbn [endpoint_run admissible] in *.
  { exists w, [], s, a. split_and!; [done|constructor|done]. }
  apply andb_true_iff in Ho as [Ho Hos]. destruct (endpoint_step_rep w s a o H Hw Ho) as (w1 & r & s1 & a1 & E & Hst & H1).
  rewrite E in Hos. rewrite E. sbind. destruct (IH w1 s1 a1 H1 (calls_step_waits _ _ _ _ Hst Hw) Hos) as (w2 & rs & s2 & a2 & -> & Hrun & H2). sbind.
  exists w2, (r :: rs), s2, a2. split_and!; [done|by econstructor|done].
Qed.

Lemma calls_new_waits d T : all_wait (calls_new d T).
Proof. apply map_Forall_empty. Qed.

(** A new endpoint represents the empty table. *)
Lemma Create_rep h c b t config w d :
  Create h (Some c) (Some b) (Some t) config = RVal w -> is_u 16 (Connection.conn_id_ c) -> is_u 32 (timeout_ms config) ->
  (exists held, bs_held b held) -> wheel_rep t d ->
  calls_rep w (client_new kMaxSlots) (calls_new d (timeout_ms config)).
Proof.
  intros [= <-] Hc Ht Hb Hd. split; [|exact Hd|reflexivity|exact Hb|reflexivity| |].
  - split; [|exists d; exact Hd|exact Hc|exact Ht]. split; [|reflexivity]. apply client_new_inv. unfold kMaxSlots. lia.
  - intros i. cbn [calls_new pending client_new cl_held]. rewrite lookup_empty. split; [by intros []|by intros ?%elem_of_nil].
  - intros i x. cbn [calls_new pending]. by rewrite lookup_empty.
Qed.

(** *** Who is called back *)

Lemma waiting_clients_insert m i c : m !! i = None ->
  waiting_clients (<[i := c]> m) ≡ₚ client (c_fn c) (c_ctx c) i ++ waiting_clients m.
Proof. intros Hi. unfold waiting_clients. by rewrite (map_to_list_insert m i c Hi). Qed.

Lemma waiting_clients_delete m i c : m !! i = Some c ->
  waiting_clients m ≡ₚ client (c_fn c) (c_ctx c) i ++ waiting_clients (delete i m).
Proof. intros Hi. rewrite <- (insert_delete_id m i c Hi) at 1. apply waiting_clients_insert, lookup_delete_eq. Qed.

Lemma called_back_callback fn ctx slot st : called_back (OutEvents (callback fn ctx slot st)) = client fn ctx slot.
Proof. unfold callback, client. by destruct (_ =? 0). Qed.

Lemma called_back_app l1 l2 : called_back (OutEvents (l1 ++ l2)) = called_back (OutEvents l1) ++ called_back (OutEvents l2).
Proof. apply fmap_app. Qed.

Lemma complete_call_clients a slot gen :
  waiting_clients (pending a)
  ≡ₚ called_back (OutEvents (complete_call a slot gen).2) ++ waiting_clients (pending (complete_call a slot gen).1).
Proof.
  unfold complete_call, named. destruct (_ =? gen); [|done]. destruct (pending a !! slot) as [c|] eqn:Hc; [|done].
  destruct (_ =? 1); cbn [fst snd release set_pending pending].
  - rewrite called_back_callback. by apply waiting_clients_delete.
  - cbn [called_back fmap list_fmap app]. rewrite <- insert_delete_eq.
    rewrite waiting_clients_insert by apply lookup_delete_eq. exact (waiting_clients_delete _ _ _ Hc).
Qed.

Lemma expire_calls_clients l a :
  waiting_clients (pending a)
  ≡ₚ called_back (OutEvents (expire_calls a l).2) ++ waiting_clients (pending (expire_calls a l).1).
Proof.
  revert a. induction l as [|e l IH]; intros a; cbn [expire_calls]; [done|].
  assert (waiting_clients (pending a)
    ≡ₚ called_back (OutEvents (expire_call a e).2) ++ waiting_clients (pending (expire_call a e).1)) as H.
  { unfold expire_call, named. destruct (_ =? _); [|done]. destruct (pending a !! e.1) as [c|] eqn:Hc; [|done].
    cbn [fst snd release pending]. rewrite called_back_callback. by apply waiting_clients_delete. }
  destruct (expire_call a e) as [a1 evs]. cbn [fst snd] in H. specialize (IH a1).
  destruct (expire_calls a1 l) as [a2 evs2]. cbn [fst snd] in *. by rewrite H, IH, called_back_app, app_assoc.
Qed.

(** One step keeps the count: who was accepted was called back or still waits. *)
Lemma calls_step_clients a (o : EndpointOp HW) r a' : calls_step a o r a' ->
  accepted o r ++ waiting_clients (pending a) ≡ₚ called_back r ++ waiting_clients (pending a').
Proof.
  intros [c slot E _ Hn|c e E _|c e slot E _ Hn _|slot gen E|E|slot gen data cb st E|h c E].
  - unfold accepted. rewrite E. cbn [called_back app accept schedule set_pending pending]. by rewrite waiting_clients_insert.
  - unfold accepted. by rewrite E.
  - unfold accepted. rewrite E. cbn [called_back app schedule release pending]. by rewrite delete_id.
  - assert (accepted o (OutEvents (complete_call a slot gen).2) = []) as -> by (unfold accepted; by destruct (request_of o)).
    apply complete_call_clients.
  - subst o. unfold calls_tick. destruct (sw_tick (deadlines a)) as [t l].
    exact (expire_calls_clients l {| pending := pending a; freed := freed a; deadlines := t; timeout := timeout a |}).
  - by subst o.
  - by subst o.
Qed.

Lemma calls_run_clients a (os : list (EndpointOp HW)) rs a' : calls_run a os rs a' ->
  concat (zip_with accepted os rs) ++ waiting_clients (pending a)
  ≡ₚ concat (called_back <$> rs) ++ waiting_clients (pending a').
Proof.
  induction 1 as [|a o os r rs a1 a2 Hst _ IH]; [done|]. cbn [zip_with fmap list_fmap concat].
  rewrite <- !app_assoc, <- IH, (Permutation_app_comm (concat _) _), app_assoc, (calls_step_clients _ _ _ _ Hst).
  rewrite <- app_assoc. by rewrite (Permutation_app_comm (waiting_clients (pending a1))).
Qed.

(** *** Handles *)

(** A handle of one of the last 255 allocations of its slot is admissible. *)
Lemma issued_handle_ok w s slot gen : ep_wf w s -> issued s (slot, gen) -> handle_ok w slot gen = true.
Proof.
  intros [[Hs Ep] _ _ _] Hi. unfold handle_ok. destruct (GetHotChecked (slot_pool_ w) slot gen) as [[h|]|] eqn:E; [|done|].
  - rewrite <- Ep in E. destruct (issued_current s (slot, gen) h Hs Hi E) as [Hin Eh].
    destruct (ci_slot _ _ Hs slot h Eh) as (_ & _ & Hst). rewrite decide_True in Hst by done. by rewrite Hst.
  - destruct (slot_read _ _ _ Hs (proj1 Hi)) as [h Eh]. unfold GetHotChecked in E. rewrite <- Ep in E. cbn [fst] in Eh. by rewrite Eh in E.
Qed.

End lemmas.

(** *** Deadlines *)

Section deadlines.
Import RpcEndpoint RpcSlotHot RpcSlotPool.
Context {HW : Type} (fn ctx slot f : Z).

(** The call of [fn] and [ctx] holds its slot since it was freed for the [f]-th
    time. *)
Definition holds (a : Calls) : Prop :=
  freed a slot = f /\ exists c, pending a !! slot = Some c /\ c_fn c = fn /\ c_ctx c = ctx.

(** It is in the wheel, [k] ticks from now. *)
Definition overdue_in (t : SWheel) (k : Z) : Prop :=
  (slot, f mod 256) ∈ (sw_items (sw_buckets t) ((sw_current t + k) mod 1024)).*2.

Definition wheel_shape (t : SWheel) : Prop := 0 <= sw_current t < 1024 /\ length (sw_buckets t) = 1024%nat.

(** The step has called back. *)
Definition answers (r : EndpointOut) : Prop := client fn ctx slot ⊆ called_back r.

Definition ticks_in (os : list (EndpointOp HW)) : Z :=
  sumZ ((fun o => match o with OTick => 1 | _ => 0 end) <$> os).

Lemma holds_other a i m fr d : holds a -> i <> slot ->
  (forall j, j <> i -> m !! j = pending a !! j) -> (forall j, j <> i -> fr j = freed a j) ->
  holds {| pending := m; freed := fr; deadlines := d; timeout := timeout a |}.
Proof. intros [Hf Hc] Hi Hm Hfr. split; cbn [pending freed]; [by rewrite Hfr|by rewrite Hm]. Qed.

Lemma holds_release a i : holds a -> i <> slot -> holds (release a i).
Proof.
  intros H Hi. apply (holds_other a i); [done..| |].
  - intros j Hj. by rewrite lookup_delete_ne.
  - intros j Hj. by destruct (Z.eqb_spec j i).
Qed.

Lemma holds_end a i c : holds a -> pending a !! i = Some c ->
  i = slot /\ client (c_fn c) (c_ctx c) i = client fn ctx slot \/ i <> slot.
Proof.
  intros [_ (c' & Hc & <- & <-)] Hi. destruct (decide (i = slot)) as [->|]; [left|by right]. by simplify_eq.
Qed.

Lemma expire_calls_holds l a : holds a ->
  answers (OutEvents (expire_calls a l).2) \/ holds (expire_calls a l).1 /\ (slot, f mod 4096) ∉ l.
Proof.
  revert a. induction l as [|e l IH]; intros a H; cbn [expire_calls]; [right; split; [done|apply not_elem_of_nil]|].
  assert (answers (OutEvents (expire_call a e).2) \/ holds (expire_call a e).1 /\ e <> (slot, f mod 4096)) as H1.
  { unfold expire_call, named. destruct (Z.eqb_spec (freed a e.1 mod 4096) e.2) as [Eg|Eg].
    - destruct (pending a !! e.1) as [c|] eqn:Hc.
      + destruct (holds_end _ _ _ H Hc) as [[Ei Ec]|Hi]; [left|right].
        * unfold answers. cbn [snd]. by rewrite called_back_callback, Ec.
        * split; [by apply holds_release|]. by intros ->.
      + right. split; [done|]. intros ->. destruct H as [_ (c & Hc' & _)]. cbn [fst] in Hc. congruence.
    - right. split; [done|]. intros ->. destruct H as [Hf _]. cbn [fst snd] in Eg. congruence. }
  destruct (expire_call a e) as [a1 evs]. cbn [fst snd] in H1. destruct (expire_calls a1 l) as [a2 evs2] eqn:E2.
  cbn [fst snd]. unfold answers in *. rewrite called_back_app. destruct H1 as [H1|[H1 Hne]]; [left; set_solver|].
  specialize (IH a1 H1). rewrite E2 in IH. cbn [fst snd] in IH. destruct IH as [IH|[IH Hn]]; [left; set_solver|right].
  split; [done|]. rewrite not_elem_of_cons. split; [congruence|done].
Qed.

Lemma expire_calls_deadlines l a : deadlines (expire_calls a l).1 = deadlines a.
Proof.
  revert a. induction l as [|e l IH]; intros a; cbn [expire_calls]; [done|].
  assert (deadlines (expire_call a e).1 = deadlines a) as H by (unfold expire_call; by destruct (named _ _ _)).
  destruct (expire_call a e) as [a1 evs]. specialize (IH a1). destruct (expire_calls a1 l). cbn [fst] in *. congruence.
Qed.

Lemma overdue_schedule t i g ms k : wheel_shape t -> overdue_in t k -> overdue_in (sw_schedule t i g ms).1 k.
Proof.
  intros [Hc Hl]. unfold overdue_in, sw_schedule. destruct (sw_free t) as [|j fl]; [done|]. cbn [fst sw_buckets sw_current].
  pose proof (Z.mod_pos_bound (sw_current t + ms) 1024 ltac:(lia)). pose proof (Z.mod_pos_bound (sw_current t + k) 1024 ltac:(lia)).
  unfold sw_push. rewrite sw_items_insert by lia. case_decide as E; [|done]. rewrite E, fmap_cons. by right.
Qed.

Lemma schedule_shape t i g ms : wheel_shape t -> wheel_shape (sw_schedule t i g ms).1.
Proof.
  intros [Hc Hl]. unfold sw_schedule. destruct (sw_free t); [done|]. split; [done|]. cbn [fst sw_buckets]. unfold sw_push. by rewrite length_insert.
Qed.

Lemma tick_shape t : wheel_shape t -> wheel_shape (sw_tick t).1.
Proof.
  intros [Hc Hl]. unfold sw_tick. split; cbn [fst sw_buckets sw_current]; [apply Z.mod_pos_bound; lia|by rewrite length_insert].
Qed.

(** A tick takes what is due now and brings the rest nearer. *)
Lemma overdue_tick t k : wheel_shape t -> 0 <= k < 1024 -> overdue_in t k ->
  if decide (k = 0) then (slot, f mod 256) ∈ (sw_tick t).2 else overdue_in (sw_tick t).1 (k - 1).
Proof.
  intros [Hc Hl] Hk. unfold overdue_in, sw_tick. cbn [fst snd sw_buckets sw_current]. case_decide as E.
  - by rewrite E, Z.add_0_r, (Z.mod_small (sw_current t)) by lia.
  - pose proof (Z.mod_pos_bound ((sw_current t + 1) mod 1024 + (k - 1)) 1024 ltac:(lia)).
    rewrite sw_items_insert by lia. rewrite decide_False by zdm.
    by replace (((sw_current t + 1) mod 1024 + (k - 1)) mod 1024) with ((sw_current t + k) mod 1024) by zdm.
Qed.

(** The call is held, and in the wheel. *)
Record held_until (a : Calls) (k : Z) : Prop := {
  hu_holds : holds a;
  hu_shape : wheel_shape (deadlines a);
  hu_overdue : overdue_in (deadlines a) k;
}.

Lemma held_until_schedule a i k : held_until a k -> held_until (schedule a i) k.
Proof. intros [Hh Hs Ho]. split; [done|by apply schedule_shape|by apply overdue_schedule]. Qed.

Lemma held_until_complete a i g k : held_until a k ->
  answers (OutEvents (complete_call a i g).2) \/ held_until (complete_call a i g).1 k.
Proof.
  intros [Hh Hs Ho]. unfold complete_call, named. destruct (_ =? g); [|by right].
  destruct (pending a !! i) as [c|] eqn:Hc; [|by right]. pose proof (holds_end _ _ _ Hh Hc) as Hi.
  destruct (_ =? 1); cbn [fst snd].
  - destruct Hi as [[-> Ec]|Hi]; [left|right; split; [by apply holds_release|done..]].
    unfold answers. by rewrite called_back_callback, Ec.
  - right. split; [|done..]. destruct (decide (i = slot)) as [->|Hne].
    + destruct Hh as [Hf (c' & Hc' & Hfn & Hcx)]. simplify_eq. split; [done|]. eexists. split; [apply lookup_insert_eq|done].
    + apply (holds_other a i); [done..| |done]. intros j Hj. by rewrite lookup_insert_ne.
Qed.

Lemma held_until_tick a k : f mod 4096 < 256 -> 0 <= k < 1024 -> held_until a k ->
  answers (OutEvents (calls_tick a).2) \/ 0 < k /\ held_until (calls_tick a).1 (k - 1).
Proof.
  intros Hg Hk [Hh Hs Ho]. pose proof (overdue_tick _ _ Hs Hk Ho) as Ht. pose proof (tick_shape _ Hs) as Hs'.
  unfold calls_tick. destruct (sw_tick (deadlines a)) as [t l]. cbn [fst snd] in *.
  destruct (expire_calls_holds l {| pending := pending a; freed := freed a; deadlines := t; timeout := timeout a |})
    as [H|[H Hn]]; [done|by left|right]. assert (f mod 4096 = f mod 256) as Eg by zdm. rewrite Eg in Hn.
  case_decide as E; [done|]. split; [lia|]. split; [done|..]; by rewrite expire_calls_deadlines.
Qed.

Lemma held_until_step a (o : EndpointOp HW) r a' k : f mod 4096 < 256 -> 0 <= k < 1024 ->
  held_until a k -> calls_step a o r a' ->
  answers r \/ match o with OTick => 0 < k /\ held_until a' (k - 1) | _ => held_until a' k end.
Proof.
  intros Hg Hk H Hst. assert (Hne : forall i, pending a !! i = None -> i <> slot).
  { intros i Hi ->. destruct H as [[_ (c & Hc & _)] _ _]. congruence. }
  destruct Hst as [c i E _ Hn|c e E _|c e i E _ Hn _|i g E|E|i g data cb st E|h c E].
  - right. assert (held_until (accept a i c) k) as H'; [|by destruct o].
    apply held_until_schedule. destruct H as [Hh Hs Ho]. split; [|done..].
    apply (holds_other a i); [done|by apply Hne| |done]. intros j Hj. cbn [set_pending pending]. by rewrite lookup_insert_ne.
  - right. by destruct o.
  - right. assert (held_until (release (schedule a i) i) k) as H'; [|by destruct o].
    destruct (held_until_schedule a i k H) as [Hh Hs Ho]. split; [|done..]. apply holds_release; [done|by apply Hne].
  - destruct (held_until_complete a i g k H); [by left|right]. by destruct o.
  - subst o. by apply held_until_tick.
  - right. by subst o.
  - right. by subst o.
Qed.

(** A held call is called back before its ticks are over. *)
Lemma held_until_run a (os : list (EndpointOp HW)) rs a' k : f mod 4096 < 256 -> 0 <= k < 1024 ->
  held_until a k -> calls_run a os rs a' -> k < ticks_in os -> client fn ctx slot ⊆ concat (called_back <$> rs).
Proof.
  intros Hg Hk H Hrun. revert k Hk H. induction Hrun as [|a o os r rs a1 a2 Hst _ IH]; intros k Hk H Ht.
  { cbn in Ht. lia. }
  unfold ticks_in in Ht. cbn [fmap list_fmap sumZ foldr concat] in *. fold (ticks_in os) in Ht.
  destruct (held_until_step _ _ _ _ _ Hg Hk H Hst) as [Ha|Ha]; [unfold answers in Ha; set_solver|].
  assert (client fn ctx slot ⊆ concat (called_back <$> rs)); [|set_solver].
  destruct o; try (apply (IH k); [done|done|exact Ht]). destruct Ha as [Hp Ha]. apply (IH (k - 1)); [lia|done|].
  unfold ticks_in, sumZ in *. lia.
Qed.

End deadlines.

(** ** Example *)

Section example.
Import RpcEndpoint RpcSlotPool.
Context {HW P : Type} `{!Verbs HW, !BufferSource P}.
Implicit Types (w : World HW P).

Lemma admissible_cons w o os w1 r :
  op_admissible w o = true -> endpoint_step w o = Some (w1, r) -> admissible w1 os = true -> admissible w (o :: os) = true.
Proof. intros Ho E Hos. cbn [admissible]. by rewrite Ho, E. Qed.

(** Rounds of the wheel are admissible when its entries are recent. *)
Lemma ticks_admissible n w s t : loop_ok w s t -> admissible w (replicate n OTick) = true.
Proof.
  revert w s t. induction n as [|n IH]; intros w s t H; [done|]. cbn [replicate].
  destruct (tick_ok w s t H) as (w1 & s1 & timed & E & H1 & _). destruct H as [Hw Ht He].
  eapply admissible_cons; [|cbn [endpoint_step]; rewrite E; reflexivity|by eapply IH].
  cbn [op_admissible]. destruct (wheel_tick_refines _ _ Ht) as (tw & -> & _). apply forallb_forall.
  intros e Hin. destruct Ht as (_ & _ & Hc & Hl). destruct (entries_tick t _ Hc Hl He) as [Hall _].
  rewrite Forall_forall in Hall. apply list_elem_of_In, Hall in Hin. destruct e as [i g].
  pose proof (issued_handle_ok w s i g Hw Hin) as Hok. unfold handle_ok in Hok. unfold entry_ok. cbn [fst snd].
  destruct (GetHotChecked _ i g) as [[h|]|]; [by rewrite Hok|done..].
Qed.

End example.

Section example_run.
Import RpcEndpoint RpcSlotPool.

Definition example_call : EndpointOp (list ibv_send_wr) := OCall 4096 32 None 7 9.

Definition sent (slot : Z) : ibv_wc := completion_of (WrId.Encode 0 REQUEST_SEND 0 slot).

Lemma example_calls_rep :
  calls_rep example_world (client_new kMaxSlots) (calls_new (sw_new TimingWheel.kMaxEntries) 30000).
Proof.
  apply (Create_rep [] (Connection.set_state example_connection CONNECTED) reduced_fifo TimingWheel.TimingWheel_new Config_default).
  - reflexivity.
  - unfold is_u. cbn. lia.
  - unfold is_u. cbn. lia.
  - exists []. exact reduced_fifo_held.
  - apply wheel_new_rep. reflexivity.
Qed.

(** A call and its completion. *)
Lemma example_admissible :
  exists slot w1, endpoint_step example_world example_call = Some (w1, OutCall (RVal slot))
    /\ admissible example_world [example_call; OSent (sent slot)] = true.
Proof.
  destruct example_request as (w1 & slot & s1 & E & Hw & Hi & _).
  assert (endpoint_step example_world example_call = Some (w1, OutCall (RVal slot))) as E'.
  { unfold example_call. cbn [endpoint_step]. rewrite E. reflexivity. }
  exists slot, w1. split; [exact E'|]. eapply admissible_cons; [reflexivity|exact E'|].
  assert (op_admissible w1 (OSent (sent slot)) = true) as Ho.
  { destruct (encoded_slot 0 0 slot) as [Es Eg]; [unfold is_u; lia|unfold is_u; lia| |].
    - destruct Hi as [Hr _]. cbn [fst] in Hr. unfold is_u, kMaxSlots in *. lia.
    - cbn [op_admissible handle_of sent completion_of wc_wr_id]. rewrite Es, Eg. exact (issued_handle_ok w1 s1 slot 0 Hw Hi). }
  cbn [admissible]. rewrite Ho. destruct (endpoint_step w1 _) as [[w2 r]|]; reflexivity.
Qed.

Lemma calls_run_two {HW} a (o1 o2 : EndpointOp HW) r1 rs a' : calls_run a [o1; o2] (r1 :: rs) a' ->
  exists a1 r2, rs = [r2] /\ calls_step a o1 r1 a1 /\ calls_step a1 o2 r2 a'.
Proof.
  inversion 1 as [|? ? ? ? a1 ? H1 H2]; subst. inversion H2 as [|? ? r2 rs2 a2 ? H3 H4]; subst.
  inversion H4; subst. by exists a1, r2.
Qed.

Lemma example_outcome {P} `{!BufferSource P} (w : World (list ibv_send_wr) P) d slot w1 w' rs a :
  endpoint_step w example_call = Some (w1, OutCall (RVal slot)) ->
  endpoint_run w [example_call; OSent (sent slot)] = Some (w', rs) ->
  calls_run (calls_new d 30000) [example_call; OSent (sent slot)] rs a ->
  rs = [OutCall (RVal slot); OutEvents [ECallback 9 7 slot 0]] /\ pending a = ∅.
Proof.
  intros E1 E Hrun. cbn [endpoint_run] in E. rewrite E1 in E. cbn [mbind option_bind] in E.
  apply bind_Some in E as ([w2 rs2] & _ & E). injection E as <- <-.
  apply calls_run_two in Hrun as (a1 & r2 & -> & H1 & H3). clear E1.
  inversion H1 as [c ? Er Hr _| | | | | |]; subst; try done. injection Er as <-. clear H1.
  inversion H3 as [| | |i g Eh| | |]; subst; try done. cbn [handle_of sent completion_of wc_wr_id] in Eh. injection Eh as <- <-.
  destruct (encoded_slot 0 0 slot) as [-> ->]; [unfold is_u; lia|unfold is_u; lia|unfold is_u, kMaxSlots in *; lia|].
  unfold complete_call, named. cbn [accept schedule set_pending pending freed calls_new].
  rewrite lookup_insert_eq. split; [reflexivity|]. exact (delete_insert_id _ _ _ (lookup_empty slot)).
Qed.

End example_run.

(** ** Properties *)

Section properties.
Import RpcEndpoint RpcSlotHot RpcSlotPool.

(** A new endpoint on any device, with a buffer source, and an environment that
    keeps to what is asked of it. *)
Context {HW P : Type} `{!Verbs HW, !BufferSource P} (h : HW) (c : Connection) (b : P) (t : TimingWheel.TimingWheel)
  (config : Config) (w : World HW P) (d : SWheel) (os : list (EndpointOp HW)).

(** C5: The endpoint is a table of calls. On any device and with any buffer source, a
    new endpoint serves every admissible sequence of calls, completions, answers
    and rounds of its wheel without undefined behaviour, and every output is the
    one of the table: a call is refused when all 65536 slots are pending, fails
    with its send, or takes a free slot and a deadline; a completion counts for
    the call its handle names, and the last one calls back with status 0; a
    deadline that passes calls back with status 1; any other handle and any other
    entry does nothing. The free slots are those without a pending call.
    (Admissible, [op_admissible]: the handles delivered name a slot, and one in use
    when their generation is the slot's; this leaves out the completions of the
    later fragments of a fragmented scatter-gather call, which are undefined, see
    [clients_called_back_once].) *)
Theorem endpoint_refines_calls :
  Create h (Some c) (Some b) (Some t) config = RVal w -> is_u 16 (Connection.conn_id_ c) -> is_u 32 (timeout_ms config) ->
  (exists held, bs_held b held) -> wheel_rep t d -> admissible w os = true ->
  exists w' rs a, endpoint_run w os = Some (w', rs) /\ calls_run (calls_new d (timeout_ms config)) os rs a
    /\ wheel_rep (timing_wheel_ w') (deadlines a)
    /\ AvailableCount (slot_pool_ w') = kMaxSlots - Z.of_nat (size (pending a)).
Proof.
  intros Hw Hc Ht Hb Hd Ho.
  destruct (endpoint_run_rep os w _ _ (Create_rep h c b t config w d Hw Hc Ht Hb Hd) (calls_new_waits _ _) Ho) as (w' & rs & s' & a & E & Hrun & H).
  exists w', rs, a. split_and!; [done|done|by apply (cr_wheel _ _ _ H)|]. pose proof (pending_size _ _ _ H). lia.
Qed.

(** C7: Every call ends by its deadline. Let an endpoint accept a call when its wheel
    has a free entry and the slot's generation fits in 8 bits. Whatever admissible
    operations follow, the caller is called back before [timeout mod 1024 + 1]
    rounds of the wheel are among them. *)
Theorem calls_end_by_deadline (s : Client) (a : Calls) o x slot w1 :
  calls_rep w s a -> all_wait a -> request_of o = Some x -> op_admissible w o = true ->
  endpoint_step w o = Some (w1, OutCall (RVal slot)) -> sw_free (deadlines a) <> [] -> freed a slot mod 4096 < 256 ->
  admissible w1 os = true -> timeout a mod 1024 < ticks_in os ->
  exists w2 rs, endpoint_run w1 os = Some (w2, rs) /\ client (c_fn x) (c_ctx x) slot ⊆ concat (called_back <$> rs).
Proof.
  intros H Hw Ex Ho E Hfree Hg Hos Ht. destruct (endpoint_step_rep w s a o H Hw Ho) as (w1' & r & s1 & a1 & E' & Hst & H1).
  rewrite E in E'. injection E' as <- <-.
  destruct (endpoint_run_rep os w1 s1 a1 H1 (calls_step_waits _ _ _ _ Hst Hw) Hos) as (w2 & rs & s2 & a2 & E2 & Hrun & _). exists w2, rs. split; [done|].
  destruct (cr_wheel _ _ _ H) as (_ & _ & Hcur & Hlen). destruct (cr_wheel _ _ _ H1) as (_ & _ & Hcur1 & Hlen1).
  pose proof (Z.mod_pos_bound (timeout a) 1024 ltac:(lia)).
  apply (held_until_run (c_fn x) (c_ctx x) slot (freed a slot) a1 os rs a2 (timeout a mod 1024)); [done|done| |done|done].
  inversion Hst as [y ? Ey Hr Hn| | | | | |]; subst; try done. rewrite Ex in Ey. injection Ey as <-. split; [|done|].
  - split; [done|]. exists x. split; [apply lookup_insert_eq|done].
  - unfold overdue_in. cbn [accept schedule set_pending deadlines freed timeout]. unfold sw_schedule.
    destruct (sw_free (deadlines a)) as [|j fl]; [done|]. cbn [fst sw_buckets sw_current]. unfold sw_push.
    pose proof (Z.mod_pos_bound (sw_current (deadlines a) + timeout a) 1024 ltac:(lia)).
    rewrite Zplus_mod_idemp_r, sw_items_insert, decide_True, fmap_cons by lia. by left.
Qed.

End properties.

Section witnesses.
Import RpcEndpoint RpcSlotPool.

Lemma endpoint_refines_calls_witness :
  exists slot w', endpoint_run example_world [example_call; OSent (sent slot)]
                  = Some (w', [OutCall (RVal slot); OutEvents [ECallback 9 7 slot 0]])
    /\ AvailableCount (slot_pool_ w') = 65536.
Proof.
  destruct example_admissible as (slot & w1 & E1 & Ha).
  destruct (endpoint_refines_calls [] (Connection.set_state example_connection CONNECTED) reduced_fifo TimingWheel.TimingWheel_new
    Config_default example_world (sw_new TimingWheel.kMaxEntries) [example_call; OSent (sent slot)])
    as (w' & rs & a & E & Hrun & _ & Hn).
  - reflexivity.
  - unfold is_u. cbn. lia.
  - unfold is_u. cbn. lia.
  - exists []. exact reduced_fifo_held.
  - apply wheel_new_rep. reflexivity.
  - exact Ha.
  - destruct (example_outcome _ _ _ _ _ _ _ E1 E Hrun) as [-> Hp]. exists slot, w'. split; [exact E|].
    rewrite Hn, Hp. reflexivity.
Defined.

Lemma calls_end_by_deadline_witness :
  exists slot w1 w2 rs, endpoint_step example_world example_call = Some (w1, OutCall (RVal slot))
    /\ endpoint_run w1 (replicate 305 OTick) = Some (w2, rs) /\ (9, 7, slot) ∈ concat (called_back <$> rs).
Proof.
  destruct example_request as (w1 & slot & s1 & E & _).
  assert (endpoint_step example_world example_call = Some (w1, OutCall (RVal slot))) as E1.
  { unfold example_call. cbn [endpoint_step]. rewrite E. reflexivity. }
  assert (wheel_rep (timing_wheel_ example_world) (sw_new TimingWheel.kMaxEntries)) as Hd by (apply wheel_new_rep; reflexivity).
  assert (sw_free (sw_new TimingWheel.kMaxEntries) <> []) as Hf.
  { unfold sw_new. cbn [sw_free]. rewrite seqZ_cons by reflexivity. discriminate. }
  destruct (SendRequest_waiting example_world (client_new kMaxSlots) (sw_new TimingWheel.kMaxEntries) 4096 32 7 9 w1 slot
    example_world_wf Hd) as (s2 & t2 & Hwait); [|exact E|split; [exact Hf|reflexivity]|].
  { intros u e Hu He. exfalso. revert He. rewrite sw_items_new by lia. exact (not_elem_of_nil e). }
  destruct (calls_end_by_deadline example_world (replicate 305 OTick) (client_new kMaxSlots)
    (calls_new (sw_new TimingWheel.kMaxEntries) 30000) example_call {| c_fn := 9; c_ctx := 7; c_left := 1 |} slot w1 example_calls_rep)
    as (w2 & rs & E2 & Hin); [apply calls_new_waits|reflexivity|reflexivity|exact E1|exact Hf|reflexivity| |reflexivity|].
  { exact (ticks_admissible 305 w1 s2 t2 (wa_loop _ _ _ _ _ _ _ Hwait)). }
  exists slot, w1, w2, rs. split; [exact E1|]. split; [exact E2|]. apply Hin. apply list_elem_of_here.
Defined.

End witnesses.
