(* ===== verification/RpcReentry.v ===== *)
(** * Callbacks that call

    The handlers of the endpoint ([rpc/rpc_endpoint.*]) with callbacks that send
    requests through the endpoint that runs them: the callback runs before the
    slot of its call is given back. [None] is undefined behaviour. *)

From S2P Require Import Prelude Types WrId Verbs Buffer BufferPool RpcSlot TimingWheel QueuePair Connection RpcEndpoint RpcTimeout RpcLife.

(** What a callback sends. *)
Record Request := { rq_header : Z; rq_length : Z; rq_data : option Buffer; rq_ctx : Z; rq_fn : Z }.

Definition call_op {HW} (q : Request) : EndpointOp HW :=
  OCall (rq_header q) (rq_length q) (rq_data q) (rq_ctx q) (rq_fn q).

Module Reentrant.
Import RpcEndpoint RpcSlotHot RpcSlotPool.

(** A callback with the results of its requests. *)
Abbreviation Called := (RpcEndpoint.Event * list EndpointOut)%type.

Section handlers.
Context {HW P : Type} `{!Verbs HW, !BufferSource P} (react : Event -> list Request).
Implicit Types (w : World HW P).

Definition run_callback w (c : RpcSlotContext) (slot status : Z) : option (World HW P * list Called) :=
  if callback_fn c =? 0 then Some (w, [])
  else
    let e := ECallback (callback_fn c) (callback_ctx c) slot status in
    '(w, rs) ← endpoint_run w (call_op <$> react e);
    Some (w, [(e, rs)]).

Definition OnRpcComplete w (slot_index : Z) : option (World HW P * list Called) :=
  c ← GetContext (slot_pool_ w) slot_index;
  h ← GetHot (slot_pool_ w) slot_index;
  '(w, l) ← run_callback w c slot_index (error_code h);
  p ← Free (slot_pool_ w) slot_index;
  Some (set_slots w p, l).

Definition complete_wr w (slot_index : Z) (h : RpcSlotHot) : option (World HW P * list Called) :=
  let h := MarkCompleted h in
  p ← PutHot (slot_pool_ w) slot_index h;
  let w := set_slots w p in
  if IsCompleted h then OnRpcComplete w slot_index else Some (w, []).

Definition OnSendComplete w (wc : ibv_wc) : option (World HW P * list Called) :=
  let slot_index := WrId.GetSlotIndex (wc_wr_id wc) in
  let generation := WrId.GetGeneration (wc_wr_id wc) in
  hot ← GetHotChecked (slot_pool_ w) slot_index generation;
  match hot with
  | None => Some (w, [])
  | Some h => complete_wr w slot_index h
  end.

Definition OnWriteWithImmRecv w (wc : ibv_wc) : option (World HW P * list Called) :=
  let imm := QueuePair.ntohl (wc_imm_data wc) in
  let slot_index := Z.land imm 0xFFFF in
  let generation := u8 (Z.land (Z.shiftr imm 16) 0xFF) in
  hot ← GetHotChecked (slot_pool_ w) slot_index generation;
  match hot with
  | None => Some (w, [])
  | Some h =>
      '(w, l) ← complete_wr w slot_index h;
      w ← RepostRecvBuffer w;
      Some (w, l)
  end.

(** One iteration of the loop of [CheckTimeouts]; the flag says it counts. *)
Definition timeout_one w (slot_index generation : Z) : option (World HW P * list Called * bool) :=
  hot ← GetHotChecked (slot_pool_ w) slot_index generation;
  match hot with
  | None => Some (w, [], false)
  | Some h =>
      if IsCompleted h then Some (w, [], false)
      else
        p ← PutHot (slot_pool_ w) slot_index (set_counts h (total_wr_count h) (total_wr_count h) 1);
        c ← GetContext p slot_index;
        '(w, l) ← run_callback (set_slots w p) c slot_index 1;
        p ← Free (slot_pool_ w) slot_index;
        Some (set_slots w p, l, true)
  end.

Fixpoint CheckTimeouts w (expired : list (Z * Z)) : option (World HW P * list Called * Z) :=
  match expired with
  | [] => Some (w, [], 0)
  | (slot, gen) :: expired =>
      '(w, l, b) ← timeout_one w slot gen;
      '(w, l', n) ← CheckTimeouts w expired;
      Some (w, l ++ l', (if b : bool then 1 else 0) + n)
  end.

(** *** Steps *)

Inductive Out := Returned (r : EndpointOut) | Ran (l : list Called).

Definition step w (o : EndpointOp HW) : option (World HW P * Out) :=
  match o with
  | OSent wc => '(w, l) ← OnSendComplete w wc; Some (w, Ran l)
  | OReceived wc => '(w, l) ← OnWriteWithImmRecv w wc; Some (w, Ran l)
  | OTick =>
      '(t, expired) ← TimingWheel.Tick (timing_wheel_ w);
      '(w, l, _) ← CheckTimeouts (set_wheel w t) expired;
      Some (w, Ran l)
  | _ => '(w, r) ← endpoint_step w o; Some (w, Returned r)
  end.

Fixpoint run w (os : list (EndpointOp HW)) : option (World HW P * list Out) :=
  match os with
  | [] => Some (w, [])
  | o :: os =>
      '(w, r) ← step w o;
      '(w, rs) ← run w os;
      Some (w, r :: rs)
  end.

(** What is asked of the environment, of an entry of the wheel when its turn
    comes. *)
Fixpoint entries_admissible w (l : list (Z * Z)) : bool :=
  match l with
  | [] => true
  | e :: l =>
      entry_ok w e && match timeout_one w e.1 e.2 with Some (w, _, _) => entries_admissible w l | None => true end
  end.

Definition admissible_op w (o : EndpointOp HW) : bool :=
  match o with
  | OTick =>
      match TimingWheel.Tick (timing_wheel_ w) with
      | Some (t, l) => entries_admissible (set_wheel w t) l
      | None => true
      end
  | _ => op_admissible w o
  end.

Fixpoint admissible_run w (os : list (EndpointOp HW)) : bool :=
  match os with
  | [] => true
  | o :: os => admissible_op w o && match step w o with Some (w, _) => admissible_run w os | None => true end
  end.

(** Who was accepted, in a callback or outside, and who was called back. *)
Definition nested (l : list Called) : list (Z * Z * Z) :=
  concat ((fun '(e, rs) => concat (zip_with (accepted (HW := HW)) (call_op <$> react e) rs)) <$> l).

Definition accepted_in (o : EndpointOp HW) (r : Out) : list (Z * Z * Z) :=
  match r with Returned r => accepted o r | Ran l => nested l end.

Definition called_back_in (r : Out) : list (Z * Z * Z) :=
  match r with Returned r => called_back r | Ran l => called_back (OutEvents l.*1) end.

End handlers.
End Reentrant.

(** ** Lemmas *)

Section lemmas.
Import RpcEndpoint RpcSlotHot RpcSlotPool Reentrant.
Context {HW P : Type} `{!Verbs HW, !BufferSource P}.
Implicit Types (w : World HW P).

(** Requests meet a table in any state, and leave the pending calls alone. *)
Lemma requests_rep l w s a :
  calls_rep w s a ->
  exists w' rs s' a', endpoint_run w (call_op <$> l) = Some (w', rs)
    /\ calls_run a (call_op <$> l : list (EndpointOp HW)) rs a' /\ calls_rep w' s' a'
    /\ concat (called_back <$> rs) = [].
Proof.
  revert w s a. induction l as [|q l IH]; intros w s a H; cbn [fmap list_fmap endpoint_run].
  { exists w, [], s, a. split_and!; [done|constructor|done|done]. }
  destruct (SendRequest_rep w s a (rq_header q) (rq_length q) (rq_data q) (rq_ctx q) (rq_fn q) H)
    as (w1 & r & s1 & a1 & E & Hst & H1).
  assert (endpoint_step w (call_op q) = Some (w1, OutCall r)) as -> by (unfold call_op; cbn [endpoint_step]; by rewrite E).
  sbind. destruct (IH w1 s1 a1 H1) as (w2 & rs & s2 & a2 & -> & Hrun & H2 & Hs). sbind.
  exists w2, (OutCall r :: rs), s2, a2. split_and!; [done|by econstructor|done|exact Hs].
Qed.

(** All pending calls but that of slot [i] wait. *)
Definition others_wait (i : Z) (a : Calls) : Prop := map_Forall (fun _ c => 1 <= c_left c) (delete i (pending a)).

Lemma requests_keep l a rs a' i c :
  calls_run a (call_op <$> l : list (EndpointOp HW)) rs a' -> pending a !! i = Some c -> others_wait i a ->
  pending a' !! i = Some c /\ others_wait i a'.
Proof.
  intros Hrun Hi Hw. remember (call_op <$> l) as os eqn:Eos. revert l Eos Hi Hw.
  induction Hrun as [|a o os r rs a1 a2 Hst _ IH]; intros l Eos Hi Hw; [done|].
  destruct l as [|q l]; [done|]. injection Eos as -> ->.
  enough (pending a1 !! i = Some c /\ others_wait i a1) as [Hi1 Hw1] by by eapply IH.
  inversion Hst as [x slot E Hr Hn|x e E Hz|x e slot E Hr Hn He|slot gen E|E|slot gen d b st E|h' c' E]; subst; try done.
  - assert (i <> slot) as Hne by congruence. unfold others_wait. cbn [accept schedule set_pending pending].
    rewrite lookup_insert_ne, delete_insert_ne by done. split; [done|].
    apply map_Forall_insert_2; [by eapply request_waits|done].
  - unfold others_wait. cbn [release schedule pending]. rewrite (delete_id (pending a) slot) by done. done.
Qed.

(** The callback of a call that waits for nothing more, and the end of its slot. *)
Lemma callback_rep react w s a i c x st :
  calls_rep w s (answered a i c) -> pending a !! i = Some c -> all_wait a ->
  callback_fn x = c_fn c -> callback_ctx x = c_ctx c ->
  exists w1 l p s' a', run_callback react w x i st = Some (w1, l) /\ Free (slot_pool_ w1) i = Some p
    /\ calls_rep (set_slots w1 p) s' a' /\ all_wait a'
    /\ nested (HW := HW) react l ++ waiting_clients (pending a)
       ≡ₚ called_back (OutEvents l.*1) ++ waiting_clients (pending a').
Proof.
  intros H Hi Hw Hfn Hcx. unfold run_callback. rewrite Hfn, Hcx.
  assert (others_wait i (answered a i c)) as Ho.
  { unfold others_wait. cbn [answered set_pending pending]. rewrite delete_insert_eq. by apply map_Forall_delete. }
  assert (waiting_clients (pending (answered a i c)) ≡ₚ waiting_clients (pending a)) as Hp.
  { rewrite (waiting_clients_delete _ _ _ Hi). cbn [answered set_pending pending]. rewrite <- insert_delete_eq.
    by rewrite waiting_clients_insert by apply lookup_delete_eq. }
  pose proof (lookup_insert_eq (pending a) i {| c_fn := c_fn c; c_ctx := c_ctx c; c_left := 0 |}) as Hi0.
  destruct (Z.eqb_spec (c_fn c) 0) as [E0|E0].
  - destruct (free_rep w s _ i _ H Hi0) as (p & s' & EF & H'). exists w, [], p, s', (release (answered a i c) i).
    split_and!; [done|done|done|exact Ho|]. cbn [nested fmap list_fmap concat app called_back]. rewrite release_answered.
    rewrite (waiting_clients_delete _ _ _ Hi). unfold client. by rewrite (proj2 (Z.eqb_eq _ _) E0).
  - destruct (requests_rep (react (ECallback (c_fn c) (c_ctx c) i st)) w s _ H) as (w1 & rs & s1 & a1 & -> & Hrun & H1 & Hsil). sbind.
    destruct (requests_keep _ _ _ _ i _ Hrun Hi0 Ho) as [Hi1 Ho1].
    destruct (free_rep w1 s1 a1 i _ H1 Hi1) as (p & s2 & EF & H2).
    exists w1, [(ECallback (c_fn c) (c_ctx c) i st, rs)], p, s2, (release a1 i).
    split_and!; [done|done|done|exact Ho1|]. cbn [nested fmap list_fmap concat app called_back fst release pending].
    rewrite app_nil_r, <- Hp, (calls_run_clients _ _ _ _ Hrun), Hsil, (waiting_clients_delete _ _ _ Hi1).
    unfold client. cbn [c_fn c_ctx app]. by rewrite (proj2 (Z.eqb_neq _ _) E0).
Qed.

(** What a step does to the table, and to who is waiting. *)
Definition balanced react (a : Calls) (l : list Called) (a' : Calls) : Prop :=
  all_wait a' /\ nested (HW := HW) react l ++ waiting_clients (pending a)
                 ≡ₚ called_back (OutEvents l.*1) ++ waiting_clients (pending a').

Lemma nested_app react l1 l2 : nested (HW := HW) react (l1 ++ l2) = nested (HW := HW) react l1 ++ nested (HW := HW) react l2.
Proof. unfold nested. by rewrite fmap_app, concat_app. Qed.

Lemma balanced_trans react a l1 a1 l2 a2 : balanced react a l1 a1 -> balanced react a1 l2 a2 -> balanced react a (l1 ++ l2) a2.
Proof.
  intros [_ H1] [Hw H2]. split; [done|]. rewrite nested_app, fmap_app, called_back_app, <- !app_assoc, <- H2.
  rewrite (app_assoc (called_back _)), (Permutation_app_comm (called_back _)), <- app_assoc, <- H1.
  rewrite !app_assoc. by rewrite (Permutation_app_comm (nested _ l1)).
Qed.

Lemma complete_wr_reentrant react w s a i c h :
  calls_rep w s a -> all_wait a -> pending a !! i = Some c -> GetHot (slot_pool_ w) i = Some h ->
  exists w' l s' a', Reentrant.complete_wr react w i h = Some (w', l) /\ calls_rep w' s' a' /\ balanced react a l a'.
Proof.
  intros H Hw Hi Eh. pose proof (Hw i c Hi) as Hl. cbn in Hl.
  destruct (pending_slot _ _ _ _ _ H Hi) as (_ & _ & _ & x & _ & Ex & Hfn & Hcx & _).
  unfold Reentrant.complete_wr. destruct (counted_rep w s a i c h H Hi Hl Eh) as (p & s1 & -> & Ehp & -> & _ & Exp & H1). sbind.
  destruct (Z.eqb_spec (c_left c) 1) as [E1|E1].
  - rewrite counted_last in H1 by done. unfold Reentrant.OnRpcComplete. cbn [set_slots slot_pool_]. rewrite Exp, Ex, Ehp. sbind.
    destruct (callback_rep react _ _ _ _ _ x (error_code (MarkCompleted h)) H1 Hi Hw Hfn Hcx)
      as (w1 & l & p2 & s2 & a2 & -> & EF & H2 & Hb). sbind. rewrite EF. sbind. by exists (set_slots w1 p2), l, s2, a2.
  - do 4 eexists. split; [done|]. split; [exact H1|]. split; [apply map_Forall_insert_2; [cbn; lia|done]|].
    cbn [nested fmap list_fmap concat app called_back counted set_pending pending]. rewrite <- insert_delete_eq.
    rewrite waiting_clients_insert by apply lookup_delete_eq. exact (waiting_clients_delete _ _ _ Hi).
Qed.

(** A handle meets a pending call, or nothing. *)
Lemma handle_reentrant react w s a i g :
  calls_rep w s a -> all_wait a -> handle_ok w i g = true ->
  GetHotChecked (slot_pool_ w) i g = Some None
  \/ exists h w' l s' a', GetHotChecked (slot_pool_ w) i g = Some (Some h)
      /\ Reentrant.complete_wr react w i h = Some (w', l) /\ calls_rep w' s' a' /\ balanced react a l a'.
Proof.
  intros H Hw. unfold handle_ok. destruct (GetHotChecked (slot_pool_ w) i g) as [o|] eqn:E; [|done].
  destruct (checked_slot _ _ _ _ _ _ H E) as (Hr & h & Eh & -> & Hu).
  destruct (_ =? g); [|by left]. intros [c Hc]%Z.eqb_eq%Hu. right.
  destruct (complete_wr_reentrant react w s a i c h H Hw Hc Eh) as (w' & l & s' & a' & ?). by exists h, w', l, s', a'.
Qed.

Lemma OnSendComplete_reentrant react w s a wc :
  calls_rep w s a -> all_wait a -> op_admissible w (OSent wc) = true ->
  exists w' l s' a', Reentrant.OnSendComplete react w wc = Some (w', l) /\ calls_rep w' s' a' /\ balanced react a l a'.
Proof.
  intros H Hw Ho. unfold Reentrant.OnSendComplete.
  destruct (handle_reentrant react _ _ _ _ _ H Hw Ho) as [->|(h & w' & l & s' & a' & -> & E & H' & Hb)]; sbind.
  - by exists w, [], s, a.
  - by exists w', l, s', a'.
Qed.

Lemma OnWriteWithImmRecv_reentrant react w s a wc :
  calls_rep w s a -> all_wait a -> op_admissible w (OReceived wc) = true ->
  exists w' l s' a', Reentrant.OnWriteWithImmRecv react w wc = Some (w', l) /\ calls_rep w' s' a' /\ balanced react a l a'.
Proof.
  intros H Hw Ho. unfold Reentrant.OnWriteWithImmRecv.
  destruct (handle_reentrant react _ _ _ _ _ H Hw Ho) as [->|(h & w1 & l & s1 & a1 & -> & E & H1 & Hb)]; sbind.
  - by exists w, [], s, a.
  - rewrite E. sbind. destruct (RepostRecvBuffer_rep _ _ _ H1) as (w2 & -> & H2). sbind. by exists w2, l, s1, a1.
Qed.

Lemma timeout_one_reentrant react w s a e :
  calls_rep w s a -> all_wait a -> entry_ok w e = true ->
  exists w' l b s' a', Reentrant.timeout_one react w e.1 e.2 = Some (w', l, b) /\ calls_rep w' s' a' /\ balanced react a l a'.
Proof.
  intros H Hw He. unfold Reentrant.timeout_one. unfold entry_ok in He.
  destruct (GetHotChecked (slot_pool_ w) e.1 e.2) as [o|] eqn:E; [|done]. sbind.
  destruct (checked_slot _ _ _ _ _ _ H E) as (Hr & h & Eh & -> & Hu).
  destruct (_ =? e.2); [|by exists w, [], false, s, a].
  destruct (IsCompleted h) eqn:Ec; [by exists w, [], false, s, a|].
  rewrite orb_false_r in He. apply Z.eqb_eq, Hu in He as [c Hc].
  destruct (pending_slot _ _ _ _ _ H Hc) as (_ & _ & h0 & x & Eh0 & Ex & Hfn & Hcx & _ & Hn & Hl & Ht & Hm).
  rewrite Eh in Eh0. injection Eh0 as <-. set (h' := set_counts h _ _ _).
  destruct (answered_rep w s a e.1 c h h' H Hc Eh eq_refl eq_refl) as (p & s1 & EP & Ehp & Exp & H1);
    [cbn [h' set_counts completed_wr_count]; lia|done|]. rewrite EP. sbind. rewrite Exp, Ex. sbind.
  destruct (callback_rep react _ _ _ _ _ x 1 H1 Hc Hw Hfn Hcx) as (w1 & l & p2 & s2 & a2 & -> & EF & H2 & Hb). sbind.
  rewrite EF. sbind. by exists (set_slots w1 p2), l, true, s2, a2.
Qed.

Lemma CheckTimeouts_reentrant react expired w s a :
  calls_rep w s a -> all_wait a -> entries_admissible react w expired = true ->
  exists w' l n s' a', Reentrant.CheckTimeouts react w expired = Some (w', l, n) /\ calls_rep w' s' a' /\ balanced react a l a'.
Proof.
  revert w s a. induction expired as [|[i g] expired IH]; intros w s a H Hw Ha;
    cbn [Reentrant.CheckTimeouts entries_admissible] in *.
  { by exists w, [], 0, s, a. }
  apply andb_true_iff in Ha as [He Ha].
  destruct (timeout_one_reentrant react w s a (i, g) H Hw He) as (w1 & l1 & b & s1 & a1 & E1 & H1 & Hb1).
  cbn [fst snd] in E1, Ha. rewrite E1 in *. sbind.
  destruct (IH w1 s1 a1 H1 (proj1 Hb1) Ha) as (w2 & l2 & n & s2 & a2 & -> & H2 & Hb2). sbind.
  exists w2, (l1 ++ l2), ((if b then 1 else 0) + n), s2, a2. split_and!; [done|done|by eapply balanced_trans].
Qed.

(** Every step the environment may ask for runs, and keeps the balance. *)
Lemma reentrant_step react w s a o :
  calls_rep w s a -> all_wait a -> admissible_op react w o = true ->
  exists w' r s' a', step react w o = Some (w', r) /\ calls_rep w' s' a' /\ all_wait a'
    /\ accepted_in react o r ++ waiting_clients (pending a) ≡ₚ called_back_in r ++ waiting_clients (pending a').
Proof.
  intros H Hw Ho.
  assert (step react w o = ('(w, r) ← endpoint_step w o; Some (w, Returned r)) -> op_admissible w o = true ->
    exists w' r s' a', step react w o = Some (w', r) /\ calls_rep w' s' a' /\ all_wait a'
      /\ accepted_in react o r ++ waiting_clients (pending a) ≡ₚ called_back_in r ++ waiting_clients (pending a')) as Hplain.
  { intros -> Ho'. destruct (endpoint_step_rep w s a o H Hw Ho') as (w' & r & s' & a' & -> & Hst & H'). sbind.
    exists w', (Returned r), s', a'. split_and!; [done|done|by eapply calls_step_waits|by apply (calls_step_clients a o)]. }
  destruct o as [hd len data ctx fn|hd len iov ctx fn|wc|wc|slot gen data cb| |h c]; try by apply Hplain.
  - destruct (OnSendComplete_reentrant react w s a wc H Hw Ho) as (w' & l & s' & a' & E & H' & Hw' & Hb).
    cbn [step]. rewrite E. sbind. by exists w', (Ran l), s', a'.
  - destruct (OnWriteWithImmRecv_reentrant react w s a wc H Hw Ho) as (w' & l & s' & a' & E & H' & Hw' & Hb).
    cbn [step]. rewrite E. sbind. by exists w', (Ran l), s', a'.
  - cbn [step admissible_op] in *. destruct H as [[Hs Hwh Hc Ht] Hd Et Hbf Hf Hh Hl].
    destruct (wheel_tick_refines _ _ Hd) as (t & E & Hd'). rewrite E in *. sbind.
    destruct (CheckTimeouts_reentrant react (sw_tick (deadlines a)).2 (set_wheel w t) s
      {| pending := pending a; freed := freed a; deadlines := (sw_tick (deadlines a)).1; timeout := timeout a |})
      as (w' & l & n & s' & a' & -> & H' & Hw' & Hb); [|done|done|].
    + split; [|done..]. by split; [|eexists| |].
    + sbind. by exists w', (Ran l), s', a'.
Qed.

Lemma reentrant_run react os w s a :
  calls_rep w s a -> all_wait a -> admissible_run react w os = true ->
  exists w' rs s' a', run react w os = Some (w', rs) /\ calls_rep w' s' a' /\ all_wait a'
    /\ concat (zip_with (accepted_in react) os rs) ++ waiting_clients (pending a)
       ≡ₚ concat (called_back_in <$> rs) ++ waiting_clients (pending a').
Proof.
  revert w s a. induction os as [|o os IH]; intros w s a H Hw Ho; cbn [run admissible_run] in *.
  { by exists w, [], s, a. }
  apply andb_true_iff in Ho as [Ho Hos].
  destruct (reentrant_step react w s a o H Hw Ho) as (w1 & r & s1 & a1 & E & H1 & Hw1 & Hb1).
  rewrite E in *. sbind. destruct (IH w1 s1 a1 H1 Hw1 Hos) as (w2 & rs & s2 & a2 & -> & H2 & Hw2 & Hb2). sbind.
  exists w2, (r :: rs), s2, a2. split_and!; [done|done|done|]. cbn [zip_with fmap list_fmap concat].
  rewrite <- !app_assoc, <- Hb2, (Permutation_app_comm (concat _) (waiting_clients (pending a))), app_assoc, Hb1, <- app_assoc.
  by rewrite (Permutation_app_comm (waiting_clients (pending a1))).
Qed.

(** The completion of a later fragment of a scatter-gather call leaves the slots. *)
Lemma fragment_completion react w s a wc conn gen base k :
  calls_rep w s a -> is_u 16 conn -> is_u 8 gen -> 0 < k < 256 ->
  wc_wr_id wc = QueuePair.frag_wr_id conn gen base k -> step react w (OSent wc) = None.
Proof.
  intros H Hc Hg Hk E. destruct (fragment_slot_out_of_range conn gen base k Hc Hg Hk) as (_ & _ & _ & Hs).
  destruct (cr_endpoint _ _ _ H) as [[Hi Ep] _ _ _]. pose proof (ci_hot _ _ Hi) as Hl. rewrite Ep in Hl.
  cbn [step]. unfold OnSendComplete, GetHotChecked, GetHot. rewrite E.
  destruct (aget (slots_hot_ (slot_pool_ w)) _) eqn:Eg; [|done]. apply aget_lt in Eg. rewrite Hl in Eg. unfold kMaxSlots in Eg. lia.
Qed.

(** *** Without reactions *)

(** A callback that sent nothing. *)
Definition quiet (e : Event) : Called := (e, []).

Definition quiet_out (o : EndpointOp HW) (r : EndpointOut) : Out :=
  match o, r with
  | (OSent _ | OReceived _ | OTick), OutEvents evs => Ran (quiet <$> evs)
  | _, _ => Returned r
  end.

Lemma run_callback_quiet w x i st :
  run_callback (fun _ => []) w x i st = Some (w, quiet <$> callback (callback_fn x) (callback_ctx x) i st).
Proof. unfold run_callback, callback. by destruct (_ =? 0). Qed.

Lemma complete_wr_quiet w i h :
  Reentrant.complete_wr (fun _ => []) w i h = (r ← RpcEndpoint.complete_wr w i h; Some (r.1, map quiet r.2)).
Proof.
  unfold Reentrant.complete_wr, RpcEndpoint.complete_wr. destruct (PutHot _ _ _) as [p|]; [|done]. sbind.
  destruct (IsCompleted _); [|done]. unfold Reentrant.OnRpcComplete, RpcEndpoint.OnRpcComplete.
  destruct (GetContext _ _) as [x|]; [|done]. sbind. destruct (GetHot _ _) as [h'|]; [|done]. sbind.
  rewrite run_callback_quiet. sbind. by destruct (Free _ _).
Qed.

Lemma timeout_one_quiet w i g :
  Reentrant.timeout_one (fun _ => []) w i g 
  = (r ← RpcEndpoint.timeout_one w i g; Some (r.1.1, map quiet r.1.2, r.2)).
Proof.
  unfold Reentrant.timeout_one, RpcEndpoint.timeout_one. destruct (GetHotChecked _ _ _) as [[h|]|]; [|done..]. sbind.
  destruct (IsCompleted _); [done|]. destruct (PutHot _ _ _) as [p|]; [|done]. sbind.
  destruct (GetContext _ _) as [x|]; [|done]. sbind. rewrite run_callback_quiet. sbind.
  cbn [set_slots slot_pool_]. by destruct (Free _ _).
Qed.

Lemma CheckTimeouts_quiet l w :
  Reentrant.CheckTimeouts (fun _ => []) w l = (r ← RpcEndpoint.CheckTimeouts w l; Some (r.1.1, map quiet r.1.2, r.2)).
Proof.
  revert w. induction l as [|[i g] l IH]; intros w; cbn [Reentrant.CheckTimeouts RpcEndpoint.CheckTimeouts]; [done|].
  rewrite timeout_one_quiet. destruct (RpcEndpoint.timeout_one w i g) as [[[w1 evs] b]|]; [|done]. sbind. cbn [fst snd]. rewrite IH.
  destruct (RpcEndpoint.CheckTimeouts w1 l) as [[[w2 evs2] n]|]; [|done]. sbind. cbn [fst snd]. by rewrite map_app.
Qed.

Lemma step_quiet w o :
  step (fun _ => []) w o = (r ← endpoint_step w o; Some (r.1, quiet_out o r.2)).
Proof.
  destruct o as [hd len data ctx fn|hd len iov ctx fn|wc|wc|slot gen data cb| |h c]; cbn [step];
    try by destruct (endpoint_step w _) as [[w1 r]|].
  all: cbn [endpoint_step].
  - unfold Reentrant.OnSendComplete, RpcEndpoint.OnSendComplete. destruct (GetHotChecked _ _ _) as [[h|]|]; [|done..]. sbind.
    rewrite complete_wr_quiet. by destruct (RpcEndpoint.complete_wr _ _ _) as [[w1 evs]|].
  - unfold Reentrant.OnWriteWithImmRecv, RpcEndpoint.OnWriteWithImmRecv, complete_response.
    destruct (GetHotChecked _ _ _) as [[h|]|]; [|done..]. sbind. rewrite complete_wr_quiet.
    destruct (RpcEndpoint.complete_wr _ _ _) as [[w1 evs]|]; [|done]. sbind. cbn [fst snd]. by destruct (RepostRecvBuffer w1).
  - unfold tick. destruct (TimingWheel.Tick _) as [[t l]|]; [|done]. sbind. rewrite CheckTimeouts_quiet.
    by destruct (RpcEndpoint.CheckTimeouts _ _) as [[[w1 evs] n]|].
Qed.

End lemmas.

(** ** Properties *)

Section properties.
Import RpcEndpoint RpcSlotPool Reentrant.

(** C6: Nobody is called back twice and nobody is forgotten, also when callbacks send
    requests themselves. Take a new endpoint on a working pool and any interleaving
    of calls, completions, timeouts, refused calls and the requests of callbacks
    that is admissible ([admissible_run]): a handle that a completion or an answer
    delivers names one of the 65536 slots and, when its generation is still the
    slot's, a slot in use, as the handles of the last 255 calls of a slot do
    ([issued_handle_ok]); an entry that the wheel expires does too, or meets a slot
    whose last call is over; the connection keeps its id, and scatter-gather calls
    go through a queue pair with 1 to 16 elements a request.
    Then the endpoint runs without undefined behaviour, and the callbacks that have
    run and those that still wait in a slot are, with their multiplicity, those of
    the calls that were accepted. The condition leaves out one completion that the
    code itself causes: that of a later fragment of a fragmented scatter-gather
    request, whose [wr_id] has the fragment's index in the slot field. In every
    state reached this way, handling it is undefined: it reads outside the slots. *)
Theorem clients_called_back_once {HW P} `{!Verbs HW, !BufferSource P} (react : Event -> list Request) (h : HW)
    (c : Connection) (b : P) (t : TimingWheel.TimingWheel) (config : Config) (w : World HW P) (d : SWheel)
    (os : list (EndpointOp HW)) :
  Create h (Some c) (Some b) (Some t) config = RVal w -> is_u 16 (Connection.conn_id_ c) -> is_u 32 (timeout_ms config) ->
  (exists held, bs_held b held) -> wheel_rep t d -> admissible_run react w os = true ->
  exists w' rs m, run react w os = Some (w', rs)
    /\ concat (zip_with (accepted_in react) os rs) ≡ₚ concat (called_back_in <$> rs) ++ waiting_clients m
    /\ (forall slot x, m !! slot = Some x -> call_in (slot_pool_ w') slot x /\ 1 <= c_left x)
    /\ Z.of_nat (size m) = kMaxSlots - AvailableCount (slot_pool_ w')
    /\ (forall wc conn gen base k, is_u 16 conn -> is_u 8 gen -> 0 < k < 256 ->
          wc_wr_id wc = QueuePair.frag_wr_id conn gen base k -> step react w' (OSent wc) = None).
Proof.
  intros Hw Hc Ht Hb Hd Ho.
  destruct (reentrant_run react os w _ _ (Create_rep h c b t config w d Hw Hc Ht Hb Hd) (calls_new_waits _ _) Ho)
    as (w' & rs & s' & a & E & H & Hwait & Hp).
  exists w', rs, (pending a). split; [done|]. split; [|split; [|split; [by apply (pending_size _ s')|by intros *; apply (fragment_completion react w' s' a)]]].
  - cbn [calls_new pending] in Hp. assert (waiting_clients ∅ = []) as E0 by (unfold waiting_clients; by rewrite map_to_list_empty).
    by rewrite E0, app_nil_r in Hp.
  - intros slot x Hx. split; [by apply (cr_call _ _ _ H)|by apply (Hwait slot x)].
Qed.

(** Callbacks that send nothing make no difference: the handlers that let
    callbacks call are then the handlers of the endpoint. *)
Theorem quiet_callbacks_agree {HW P} `{!Verbs HW, !BufferSource P} (w : World HW P) (os : list (EndpointOp HW)) :
  run (fun _ => []) w os = (r ← endpoint_run w os; Some (r.1, zip_with quiet_out os r.2)).
Proof.
  revert w. induction os as [|o os IH]; intros w; cbn [run endpoint_run]; [done|].
  rewrite step_quiet. destruct (endpoint_step w o) as [[w1 r]|]; [|done]. sbind. cbn [fst snd]. rewrite IH.
  by destruct (endpoint_run w1 os) as [[w2 rs]|].
Qed.

End properties.

Section witnesses.
Import RpcEndpoint RpcSlotPool Reentrant.

(** A callback that calls again. *)
Definition again (e : Event) : list Request :=
  match e with
  | ECallback _ 7 _ _ => [{| rq_header := 4096; rq_length := 32; rq_data := None; rq_ctx := 8; rq_fn := 9 |}]
  | _ => []
  end.

Section runs.
Context {HW P : Type} `{!Verbs HW, !BufferSource P} (react : Event -> list Request).
Implicit Types (w : World HW P).

Lemma run_head w o os w1 r w' rs :
  step react w o = Some (w1, r) -> run react w (o :: os) = Some (w', rs) -> exists rs', rs = r :: rs'.
Proof.
  intros Es E. cbn [run] in E. rewrite Es in E. cbn [mbind option_bind] in E.
  apply bind_Some in E as ([w2 rs2] & _ & E). injection E as _ <-. by exists rs2.
Qed.

(** A call and a completion. *)
Lemma call_completion_admissible w q wc w1 r :
  endpoint_step w (call_op q) = Some (w1, r) -> admissible w [call_op q; OSent wc] = true ->
  step react w (call_op q) = Some (w1, Returned r) /\ admissible_run react w [call_op q; OSent wc] = true.
Proof.
  intros E Ha. assert (step react w (call_op q) = Some (w1, Returned r)) as Es by (unfold call_op in *; cbn [step]; by rewrite E).
  split; [done|]. cbn [admissible] in Ha. rewrite E in Ha. apply andb_true_iff in Ha as [_ Ha]. apply andb_true_iff in Ha as [Ha _].
  cbn [admissible_run]. rewrite Es. change (admissible_op react w1 (OSent wc)) with (op_admissible w1 (OSent wc)).
  rewrite Ha. by destruct (step react w1 _) as [[w2 r2]|].
Qed.

End runs.

Lemma clients_called_back_once_witness :
  exists slot w' rs m, run again example_world [example_call; OSent (sent slot)] = Some (w', Returned (OutCall (RVal slot)) :: rs)
    /\ (9, 7, slot) ∈ concat (called_back_in <$> (Returned (OutCall (RVal slot)) :: rs)) ++ waiting_clients m.
Proof.
  destruct example_admissible as (slot & w1 & E1 & Ha).
  destruct (call_completion_admissible again example_world
    {| rq_header := 4096; rq_length := 32; rq_data := None; rq_ctx := 7; rq_fn := 9 |} (sent slot) w1 _ E1 Ha) as [Es Hr].
  destruct (clients_called_back_once again [] (Connection.set_state example_connection CONNECTED) reduced_fifo
    TimingWheel.TimingWheel_new Config_default example_world (sw_new TimingWheel.kMaxEntries) [example_call; OSent (sent slot)])
    as (w' & rs & m & E & Hp & _).
  - reflexivity.
  - unfold is_u. cbn. lia.
  - unfold is_u. cbn. lia.
  - exists []. exact reduced_fifo_held.
  - apply wheel_new_rep. reflexivity.
  - exact Hr.
  - destruct (run_head again example_world _ _ _ _ _ _ Es E) as [rs' ->]. exists slot, w', rs', m. split; [exact E|].
    rewrite <- Hp. apply list_elem_of_here.
Defined.

End witnesses.
