(* ===== verification/MpscQueue.v ===== *)
(** * The lock-free queues

    Models [include/rdma/common/mpsc_queue.h], and of [src/reactor/reactor.cpp]
    the loop [ProcessTasks] that consumes the task queue. Threads are modelled by
    the atomic steps of the operations: an action executes one access to shared
    memory, and a run is any sequence of actions. Memory is sequentially
    consistent; the release store and acquire load that order the plain accesses
    in the code are the accesses to [head_] and [tail_]. Nodes are numbers other
    than 0, the null pointer. *)

From S2P Require Import Prelude Chain.

Module MpscQueue.

(** [next_] holds the [next] members of the nodes. *)
Record MpscQueue := { head_ : Z; next_ : gmap Z Z }.

Definition MpscQueue_new : MpscQueue := {| head_ := 0; next_ := ∅ |}.

Definition set_head (q : MpscQueue) (h : Z) : MpscQueue := {| head_ := h; next_ := next_ q |}.

(** [node->next = old_head]. *)
Definition write_next (q : MpscQueue) (node old_head : Z) : MpscQueue :=
  {| head_ := head_ q; next_ := <[node := old_head]> (next_ q) |}.

(** [compare_exchange_weak]; it may fail for no reason. The results are the new
    queue, whether it succeeded, and the value left in [old_head]. *)
Definition compare_exchange_weak (q : MpscQueue) (old_head node : Z) (spurious : bool)
    : MpscQueue * bool * Z :=
  if (head_ q =? old_head) && negb spurious then (set_head q node, true, old_head)
  else (q, false, head_ q).

Definition PopAll (q : MpscQueue) : MpscQueue * Z := (set_head q 0, head_ q).

Definition Empty (q : MpscQueue) : bool := head_ q =? 0.

(** Where a thread is in [Push]: before the store to [next], before the
    exchange. A thread that is not in [Push] has no entry. *)
Inductive Producer := Loaded (node old_head : Z) | Linked (node old_head : Z).

(** Where the consumer is in [ProcessTasks]: at the loop's test, or between
    reading [next] and calling the task. *)
Inductive Consumer := CIdle | CAt (head count : Z) | CCall (head next count : Z).

(** The threads, and as ghost state: the nodes handed over and not yet called
    back, the nodes pushed in the order of their exchanges, the tasks called,
    and the results of [ProcessTasks]. *)
Record System := {
  queue : MpscQueue;
  producers : gmap nat Producer;
  consumer : Consumer;
  owned : gset Z;
  pushed : list Z;
  executed : list Z;
  returned : list Z;
}.

Definition System_new : System :=
  {| queue := MpscQueue_new; producers := ∅; consumer := CIdle; owned := ∅;
     pushed := []; executed := []; returned := [] |}.

Definition set_producer (s : System) (q : MpscQueue) (ps : gmap nat Producer) : System :=
  {| queue := q; producers := ps; consumer := consumer s; owned := owned s;
     pushed := pushed s; executed := executed s; returned := returned s |}.

Definition set_consumer (s : System) (q : MpscQueue) (c : Consumer) : System :=
  {| queue := q; producers := producers s; consumer := c; owned := owned s;
     pushed := pushed s; executed := executed s; returned := returned s |}.

Inductive Action :=
  | ALoad (t : nat) (node : Z)      (* Push: load head_ *)
  | AWrite (t : nat)                (* Push: node->next = old_head *)
  | AExchange (t : nat) (spurious : bool)
  | APopAll                         (* ProcessTasks: PopAll *)
  | ANext                           (* ProcessTasks: next = head->next *)
  | ACall                           (* ProcessTasks: head->fn(head->ctx) *)
  | AReturn.                        (* ProcessTasks: return count *)

(** [Push] begins; the node must not be the queue's already. *)
Definition push_load (s : System) (t : nat) (node : Z) : option System :=
  if decide (producers s !! t = None /\ node <> 0 /\ node ∉ owned s) then
    Some {| queue := queue s; producers := <[t := Loaded node (head_ (queue s))]> (producers s);
            consumer := consumer s; owned := {[node]} ∪ owned s;
            pushed := pushed s; executed := executed s; returned := returned s |}
  else None.

Definition push_write (s : System) (t : nat) : option System :=
  match producers s !! t with
  | Some (Loaded node old_head) =>
      Some (set_producer s (write_next (queue s) node old_head) (<[t := Linked node old_head]> (producers s)))
  | _ => None
  end.

Definition push_exchange (s : System) (t : nat) (spurious : bool) : option System :=
  match producers s !! t with
  | Some (Linked node old_head) =>
      let '(q, done, old_head) := compare_exchange_weak (queue s) old_head node spurious in
      if done then
        Some {| queue := q; producers := delete t (producers s); consumer := consumer s;
                owned := owned s; pushed := pushed s ++ [node]; executed := executed s;
                returned := returned s |}
      else Some (set_producer s q (<[t := Loaded node old_head]> (producers s)))
  | _ => None
  end.

(** [PopAll], and the test of its result. *)
Definition pop_all (s : System) : option System :=
  match consumer s with
  | CIdle => let '(q, head) := PopAll (queue s) in Some (set_consumer s q (CAt head 0))
  | _ => None
  end.

Definition read_next (s : System) : option System :=
  match consumer s with
  | CAt head count =>
      if head =? 0 then None
      else next ← next_ (queue s) !! head; Some (set_consumer s (queue s) (CCall head next count))
  | _ => None
  end.

(** The call hands the task back to its owner. *)
Definition call_task (s : System) : option System :=
  match consumer s with
  | CCall head next count =>
      Some {| queue := queue s; producers := producers s; consumer := CAt next (count + 1);
              owned := owned s ∖ {[head]}; pushed := pushed s; executed := executed s ++ [head];
              returned := returned s |}
  | _ => None
  end.

Definition return_count (s : System) : option System :=
  match consumer s with
  | CAt head count =>
      if head =? 0 then
        Some {| queue := queue s; producers := producers s; consumer := CIdle; owned := owned s;
                pushed := pushed s; executed := executed s; returned := returned s ++ [count] |}
      else None
  | _ => None
  end.

(** [None]: the action is not the next one of its thread, or it reads through a
    pointer that was never written. *)
Definition exec (s : System) (a : Action) : option System :=
  match a with
  | ALoad t node => push_load s t node
  | AWrite t => push_write s t
  | AExchange t spurious => push_exchange s t spurious
  | APopAll => pop_all s
  | ANext => read_next s
  | ACall => call_task s
  | AReturn => return_count s
  end.

Fixpoint exec_all (s : System) (l : list Action) : option System :=
  match l with
  | [] => Some s
  | a :: l => s ← exec s a; exec_all s l
  end.

End MpscQueue.

Module SpscRingBuffer.
Section ring.
Context {T : Type}.

(** [Capacity] is a template argument. *)
Record SpscRingBuffer := { capacity : Z; head_ : Z; tail_ : Z; buffer_ : list T }.

Definition SpscRingBuffer_new (capacity : Z) (init : T) : SpscRingBuffer :=
  {| capacity := capacity; head_ := 0; tail_ := 0; buffer_ := replicate (Z.to_nat capacity) init |}.

(** [(i + 1) & (Capacity - 1)]. *)
Definition advance (r : SpscRingBuffer) (i : Z) : Z := Z.land (u64 (i + 1)) (capacity r - 1).

Definition Empty (r : SpscRingBuffer) : bool := head_ r =? tail_ r.

Definition Size (r : SpscRingBuffer) : Z :=
  Z.land (u64 (u64 (head_ r - tail_ r) + capacity r)) (capacity r - 1).

(** Where the producer is in [Push]: before the load of [tail_], the store of the
    item, the store of [head_]. *)
Inductive Producer := PIdle | PLoaded (item : T) (head : Z) | PRoom (item : T) (head next_head : Z)
  | PStored (item : T) (next_head : Z).

(** Where the consumer is in [Pop]. *)
Inductive Consumer := CIdle | CLoaded (tail : Z) | CItem (tail : Z) | CRead (tail : Z) (item : T).

(** Ghost state: the items pushed and popped by the operations that returned
    true, in order. *)
Record System := {
  ring : SpscRingBuffer;
  producer : Producer;
  consumer : Consumer;
  pushed : list T;
  popped : list T;
}.

Definition System_new (capacity : Z) (init : T) : System :=
  {| ring := SpscRingBuffer_new capacity init; producer := PIdle; consumer := CIdle; pushed := []; popped := [] |}.

Inductive Action :=
  | APushLoad (item : T) | APushTest | APushStore | APushPublish
  | APopLoad | APopTest | APopRead | APopPublish.

Definition with_producer (s : System) (r : SpscRingBuffer) (p : Producer) : System :=
  {| ring := r; producer := p; consumer := consumer s; pushed := pushed s; popped := popped s |}.

Definition with_consumer (s : System) (r : SpscRingBuffer) (c : Consumer) : System :=
  {| ring := r; producer := producer s; consumer := c; pushed := pushed s; popped := popped s |}.

(** The steps of [Push]; a full ring ends it with false. [None] when the thread
    is elsewhere or the store is outside the buffer. *)
Definition push_step (s : System) (a : Action) : option System :=
  let r := ring s in
  match a, producer s with
  | APushLoad item, PIdle => Some (with_producer s r (PLoaded item (head_ r)))
  | APushTest, PLoaded item head =>
      let next_head := advance r head in
      Some (with_producer s r (if next_head =? tail_ r then PIdle else PRoom item head next_head))
  | APushStore, PRoom item head next_head =>
      b ← aset (buffer_ r) head item;
      Some {| ring := {| capacity := capacity r; head_ := head_ r; tail_ := tail_ r; buffer_ := b |};
              producer := PStored item next_head; consumer := consumer s;
              pushed := pushed s; popped := popped s |}
  | APushPublish, PStored item next_head =>
      Some {| ring := {| capacity := capacity r; head_ := next_head; tail_ := tail_ r; buffer_ := buffer_ r |};
              producer := PIdle; consumer := consumer s;
              pushed := pushed s ++ [item]; popped := popped s |}
  | _, _ => None
  end.

(** The steps of [Pop]; an empty ring ends it with false. *)
Definition pop_step (s : System) (a : Action) : option System :=
  let r := ring s in
  match a, consumer s with
  | APopLoad, CIdle => Some (with_consumer s r (CLoaded (tail_ r)))
  | APopTest, CLoaded tail => Some (with_consumer s r (if tail =? head_ r then CIdle else CItem tail))
  | APopRead, CItem tail => item ← aget (buffer_ r) tail; Some (with_consumer s r (CRead tail item))
  | APopPublish, CRead tail item =>
      Some {| ring := {| capacity := capacity r; head_ := head_ r; tail_ := advance r tail; buffer_ := buffer_ r |};
              producer := producer s; consumer := CIdle;
              pushed := pushed s; popped := popped s ++ [item] |}
  | _, _ => None
  end.

Definition exec (s : System) (a : Action) : option System :=
  match a with
  | APushLoad _ | APushTest | APushStore | APushPublish => push_step s a
  | APopLoad | APopTest | APopRead | APopPublish => pop_step s a
  end.

Fixpoint exec_all (s : System) (l : list Action) : option System :=
  match l with
  | [] => Some s
  | a :: l => s ← exec s a; exec_all s l
  end.

End ring.
Arguments SpscRingBuffer : clear implicits.
Arguments Producer : clear implicits.
Arguments Consumer : clear implicits.
Arguments System : clear implicits.
Arguments Action : clear implicits.
End SpscRingBuffer.

(** ** Specification *)

Section specification.
Import MpscQueue.

Definition step (s s' : System) : Prop := exists a, exec s a = Some s'.

(** States some interleaving leads to. *)
Definition reachable (s : System) : Prop := rtc step System_new s.

Definition node_of (p : Producer) : Z := match p with Loaded n _ | Linked n _ => n end.

(** [q]: the nodes in the queue, [r]: the tasks the consumer has taken and not
    yet called, [bs]: the batches taken so far, in the order of their pushes. *)
Record mpsc_inv (s : System) (q r : list Z) (bs : list (list Z)) : Prop := {
  mi_queue : next_chain (next_ (queue s)) (head_ (queue s)) q;
  mi_consumer : match consumer s with
                | CIdle => r = []
                | CAt h _ => next_chain (next_ (queue s)) h r
                | CCall h n _ => exists r', r = h :: r' /\ h <> 0 /\ next_chain (next_ (queue s)) n r'
                end;
  mi_nodup : NoDup (q ++ r);
  mi_owned : forall x, x ∈ owned s <->
    x ∈ q ++ r \/ exists t p, producers s !! t = Some p /\ node_of p = x;
  mi_pending : forall t p, producers s !! t = Some p -> node_of p ∉ q ++ r /\ node_of p <> 0;
  mi_distinct : forall t1 t2 p1 p2, producers s !! t1 = Some p1 -> producers s !! t2 = Some p2 ->
    node_of p1 = node_of p2 -> t1 = t2;
  mi_linked : forall t n o, producers s !! t = Some (Linked n o) -> next_ (queue s) !! n = Some o;
  mi_pushed : pushed s = concat bs ++ rev q;
  mi_executed : executed s ++ r = concat (@rev Z <$> bs);
  mi_count : sumZ (returned s) + match consumer s with CIdle => 0 | CAt _ c | CCall _ _ c => c end
             = Z.of_nat (length (executed s));
}.

(** Two producers whose exchanges interleave, and the consumer. *)
Definition contended_trace : list Action :=
  [ALoad 1 10; ALoad 2 20; AWrite 1; AWrite 2; AExchange 2 false; AExchange 1 false; AWrite 1;
   AExchange 1 true; AWrite 1; AExchange 1 false; APopAll; ANext; ACall; ANext; ALoad 2 10; ACall; AReturn].

End specification.

(** [w]: the items in the ring, oldest first. A thread inside an operation knows
    its own index; room seen by the producer and an item seen by the consumer
    stay. *)
Section ring_specification.
Import SpscRingBuffer.
Context {T : Type}.

Record ring_inv (C : Z) (s : System T) (w : list T) : Prop := {
  ri_capacity : capacity (ring s) = C;
  ri_length : Z.of_nat (length (buffer_ (ring s))) = C;
  ri_tail : 0 <= tail_ (ring s) < C;
  ri_head : head_ (ring s) = (tail_ (ring s) + Z.of_nat (length w)) mod C;
  ri_room : Z.of_nat (length w) < C;
  ri_window : forall j x, w !! j = Some x -> aget (buffer_ (ring s)) ((tail_ (ring s) + Z.of_nat j) mod C) = Some x;
  ri_pushed : pushed s = popped s ++ w;
  ri_producer : match producer s with
                | PIdle => True
                | PLoaded _ h => h = head_ (ring s)
                | PRoom _ h n => h = head_ (ring s) /\ n = (h + 1) mod C /\ Z.of_nat (length w) + 1 < C
                | PStored x n => n = (head_ (ring s) + 1) mod C /\ Z.of_nat (length w) + 1 < C
                                 /\ aget (buffer_ (ring s)) (head_ (ring s)) = Some x
                end;
  ri_consumer : match consumer s with
                | CIdle => True
                | CLoaded i => i = tail_ (ring s)
                | CItem i => i = tail_ (ring s) /\ w <> []
                | CRead i x => i = tail_ (ring s) /\ head w = Some x
                end;
}.

End ring_specification.

(** ** Lemmas *)

Section lemmas.
Import MpscQueue.

Lemma mpsc_new_inv : mpsc_inv System_new [] [] [].
Proof.
  constructor; simpl; try done; [constructor|]. intros x. rewrite elem_of_nil. split; [set_solver|].
  intros [[]|(t & p & H & _)]. by rewrite lookup_empty in H.
Qed.

Lemma push_load_inv s t node s' q r bs :
  mpsc_inv s q r bs -> push_load s t node = Some s' -> mpsc_inv s' q r bs.
Proof.
  intros H. unfold push_load. case_decide as Hc; [|done]. destruct Hc as (Ht & Hn & Ho). intros [= <-].
  assert (Hnew : node ∉ q ++ r /\ forall t' p, producers s !! t' = Some p -> node_of p <> node).
  { split; [intros Hin; apply Ho, (mi_owned _ _ _ _ H); by left|]. intros t' p Hp E.
    apply Ho, (mi_owned _ _ _ _ H). right. by exists t', p. }
  destruct Hnew as [Hq Hp]. constructor; cbn; try apply H.
  - intros x. rewrite elem_of_union, elem_of_singleton, (mi_owned _ _ _ _ H). split.
    + intros [->|[Hx|(t' & p & E & <-)]]; [right; exists t; eexists; by rewrite lookup_insert_eq|by left|].
      right. exists t', p. rewrite lookup_insert_ne; [done|]. intros ->. congruence.
    + intros [Hx|(t' & p & E & <-)]; [right; by left|].
      apply lookup_insert_Some in E as [[<- <-]|[Hne E]]; [by left|]. right. right. by exists t', p.
  - intros t' p [[<- <-]|[Hne E]]%lookup_insert_Some; [done|]. by apply (mi_pending _ _ _ _ H t').
  - intros t1 t2 p1 p2 [[<- <-]|[Hne E]]%lookup_insert_Some [[<- <-]|[Hne' E']]%lookup_insert_Some; simpl; intros Hx;
      [done|exfalso; by eapply Hp|exfalso; by eapply Hp|]. by apply (mi_distinct _ _ _ _ H t1 t2 p1 p2).
  - intros t' n o [[<- E]|[Hne E]]%lookup_insert_Some; [done|]. by apply (mi_linked _ _ _ _ H t').
Qed.

(** A producer of the system stays at its node. *)
Lemma producers_owned (s : System) t p p' : producers s !! t = Some p -> node_of p' = node_of p ->
  forall x, (exists t' p'', <[t := p']> (producers s) !! t' = Some p'' /\ node_of p'' = x)
            <-> (exists t' p'', producers s !! t' = Some p'' /\ node_of p'' = x).
Proof.
  intros Ht En x. split.
  - intros (t' & p'' & [[<- <-]|[Hne E]]%lookup_insert_Some & <-); [exists t, p|exists t', p'']; done.
  - intros (t' & p'' & E & <-). destruct (decide (t' = t)) as [->|Hne].
    + exists t, p'. rewrite lookup_insert_eq. split; [done|congruence].
    + exists t', p''. by rewrite lookup_insert_ne.
Qed.

Lemma producers_distinct s q r bs t p p' : mpsc_inv s q r bs ->
  producers s !! t = Some p -> node_of p' = node_of p ->
  forall t1 t2 p1 p2, <[t := p']> (producers s) !! t1 = Some p1 -> <[t := p']> (producers s) !! t2 = Some p2 ->
    node_of p1 = node_of p2 -> t1 = t2.
Proof.
  intros H Ht En t1 t2 p1 p2 [[<- <-]|[Hne E]]%lookup_insert_Some [[<- <-]|[Hne' E']]%lookup_insert_Some Hx.
  - done.
  - apply (mi_distinct _ _ _ _ H t t2 p p2); congruence.
  - apply (mi_distinct _ _ _ _ H t1 t p1 p); congruence.
  - by apply (mi_distinct _ _ _ _ H t1 t2 p1 p2).
Qed.

Lemma push_write_inv s t s' q r bs :
  mpsc_inv s q r bs -> push_write s t = Some s' -> mpsc_inv s' q r bs.
Proof.
  intros H. unfold push_write. destruct (producers s !! t) as [[node old|]|] eqn:Et; [|done..]. intros [= <-].
  destruct (mi_pending _ _ _ _ H t _ Et) as [Hni Hn0]. simpl in Hni, Hn0.
  rewrite elem_of_app in Hni. constructor; cbn; try apply H.
  - apply next_chain_frame; [tauto|apply H].
  - pose proof (mi_consumer _ _ _ _ H) as Hc. destruct (consumer s) as [|h c|h n c]; [done| |].
    + apply next_chain_frame; [tauto|done].
    + destruct Hc as (r' & -> & Hh & Hc). exists r'. split; [done|]. split; [done|].
      apply next_chain_frame; [set_solver|done].
  - intros x. rewrite (mi_owned _ _ _ _ H). by rewrite (producers_owned s t _ (Linked node old) Et eq_refl).
  - intros t' p [[<- <-]|[Hne E]]%lookup_insert_Some; [|by apply (mi_pending _ _ _ _ H t')].
    by apply (mi_pending _ _ _ _ H t _ Et).
  - by apply (producers_distinct s q r bs t _ _ H Et).
  - intros t' n o [[<- [= <- <-]]|[Hne E]]%lookup_insert_Some; [by rewrite lookup_insert_eq|].
    rewrite lookup_insert_ne; [by apply (mi_linked _ _ _ _ H t')|].
    intros ->. apply Hne. by apply (mi_distinct _ _ _ _ H t t' _ _ Et E).
Qed.

Lemma push_exchange_inv s t b s' q r bs :
  mpsc_inv s q r bs -> push_exchange s t b = Some s' -> exists q', mpsc_inv s' q' r bs.
Proof.
  intros H. unfold push_exchange, compare_exchange_weak.
  destruct (producers s !! t) as [[|node old]|] eqn:Et; [done| |done].
  destruct (mi_pending _ _ _ _ H t _ Et) as [Hni Hn0]. simpl in Hni, Hn0.
  destruct ((head_ (queue s) =? old) && negb b) eqn:Ec; intros [= <-].
  - apply andb_true_iff in Ec as [Eh%Z.eqb_eq _]. exists (node :: q). constructor; cbn; try apply H.
    + split; [done|]. split; [done|]. exists old. split; [by apply (mi_linked _ _ _ _ H t)|].
      rewrite <- Eh. apply H.
    + constructor; [done|apply H].
    + intros x. rewrite (mi_owned _ _ _ _ H), elem_of_cons. split.
      * intros [Hx|(t' & p & E & <-)]; [by left; right|]. destruct (decide (t' = t)) as [->|Hne].
        -- left. left. rewrite Et in E. by injection E as <-.
        -- right. exists t', p. by rewrite lookup_delete_ne.
      * intros [[->|Hx]|(t' & p & E & <-)]; [right; by exists t, (Linked node old)|by left|].
        apply lookup_delete_Some in E as [_ E]. right. by exists t', p.
    + intros t' p [Hne E]%lookup_delete_Some. destruct (mi_pending _ _ _ _ H t' p E) as [Hp Hp0].
      split; [|done]. rewrite elem_of_cons. intros [En|]; [|done]. apply Hne.
      by apply (mi_distinct _ _ _ _ H t t' (Linked node old) p).
    + intros t1 t2 p1 p2 [_ E1]%lookup_delete_Some [_ E2]%lookup_delete_Some.
      by apply (mi_distinct _ _ _ _ H).
    + intros t' n o [_ E]%lookup_delete_Some. by apply (mi_linked _ _ _ _ H t').
    + rewrite (mi_pushed _ _ _ _ H). by rewrite <- app_assoc.
  - exists q. constructor; cbn; try apply H.
    + intros x. rewrite (mi_owned _ _ _ _ H).
      by rewrite (producers_owned s t _ (Loaded node (head_ (queue s))) Et eq_refl).
    + intros t' p [[<- <-]|[Hne E]]%lookup_insert_Some; [|by apply (mi_pending _ _ _ _ H t')].
      by apply (mi_pending _ _ _ _ H t _ Et).
    + by apply (producers_distinct s q r bs t _ _ H Et).
    + intros t' n o [[<- E]|[Hne E]]%lookup_insert_Some; [done|]. by apply (mi_linked _ _ _ _ H t').
Qed.

Lemma pop_all_inv s s' q r bs :
  mpsc_inv s q r bs -> pop_all s = Some s' -> mpsc_inv s' [] q (bs ++ [rev q]).
Proof.
  intros H. unfold pop_all, PopAll. pose proof (mi_consumer _ _ _ _ H) as Hc.
  destruct (consumer s) eqn:Ec; [|done..]. subst r. intros [= <-].
  pose proof (mi_nodup _ _ _ _ H) as Hn. rewrite app_nil_r in Hn.
  constructor; cbn; try done.
  - apply H.
  - intros x. rewrite (mi_owned _ _ _ _ H). by rewrite app_nil_r.
  - intros t p E. pose proof (mi_pending _ _ _ _ H t p E) as Hp. by rewrite app_nil_r in Hp.
  - apply H.
  - apply H.
  - rewrite (mi_pushed _ _ _ _ H), concat_app. simpl. by rewrite !app_nil_r.
  - rewrite fmap_app, concat_app, <- (mi_executed _ _ _ _ H), app_nil_r. simpl. by rewrite app_nil_r, rev_involutive.
  - pose proof (mi_count _ _ _ _ H) as Hk. rewrite Ec in Hk. done.
Qed.

Lemma read_next_inv s s' q r bs :
  mpsc_inv s q r bs -> read_next s = Some s' -> mpsc_inv s' q r bs.
Proof.
  intros H. unfold read_next. pose proof (mi_consumer _ _ _ _ H) as Hc. pose proof (mi_count _ _ _ _ H) as Hk.
  destruct (consumer s) as [|h c|] eqn:Ec; [done| |done]. destruct (Z.eqb_spec h 0) as [|Hh]; [done|].
  destruct (next_ (queue s) !! h) as [n|] eqn:En; [|done]. sbind. intros [= <-].
  constructor; cbn; try apply H; [|done].
  destruct r as [|i r]; simpl in Hc; [done|]. destruct Hc as (<- & _ & n' & En' & Hc). simplify_eq.
  by exists r.
Qed.

Lemma call_task_inv s s' q r bs :
  mpsc_inv s q r bs -> call_task s = Some s' -> exists r', mpsc_inv s' q r' bs.
Proof.
  intros H. unfold call_task. pose proof (mi_consumer _ _ _ _ H) as Hc. pose proof (mi_count _ _ _ _ H) as Hk.
  destruct (consumer s) as [| |h n c] eqn:Ec; [done..|]. destruct Hc as (r' & -> & Hh & Hc). intros [= <-].
  pose proof (mi_nodup _ _ _ _ H) as Hnd. rewrite <- Permutation_middle in Hnd. apply NoDup_cons in Hnd as [Hh' Hnd].
  exists r'. constructor; cbn; try apply H; try done.
  - intros x. rewrite elem_of_difference, elem_of_singleton, (mi_owned _ _ _ _ H), !elem_of_app, elem_of_cons. split.
    + intros [[[?|[?|?]]|?] Hx]; [by left; left|done|by left; right|by right].
    + rewrite elem_of_app in Hh'. intros [[?|?]|(t & p & E & <-)].
      * split; [tauto|]. intros ->. tauto.
      * split; [tauto|]. intros ->. tauto.
      * split; [right; by exists t, p|]. intros E'. destruct (mi_pending _ _ _ _ H t p E) as [Hp _].
        apply Hp. rewrite E'. set_solver.
  - intros t p E. destruct (mi_pending _ _ _ _ H t p E) as [Hp Hp0]. split; [set_solver|done].
  - rewrite <- (mi_executed _ _ _ _ H). by rewrite <- app_assoc.
  - unfold sumZ in *. rewrite length_app. cbn [length]. lia.
Qed.

Lemma return_count_inv s s' q r bs :
  mpsc_inv s q r bs -> return_count s = Some s' -> mpsc_inv s' q r bs.
Proof.
  intros H. unfold return_count. pose proof (mi_consumer _ _ _ _ H) as Hc. pose proof (mi_count _ _ _ _ H) as Hk.
  destruct (consumer s) as [|h c|] eqn:Ec; [done| |done]. destruct (Z.eqb_spec h 0) as [->|]; [|done]. intros [= <-].
  constructor; cbn; try apply H; [by apply (next_chain_head _ _ _ Hc)|]. fold (sumZ (returned s ++ [c])). rewrite sumZ_app. change (sumZ [c]) with (c + 0). lia.
Qed.

Lemma exec_inv s a s' q r bs :
  mpsc_inv s q r bs -> exec s a = Some s' -> exists q' r' bs', mpsc_inv s' q' r' bs'.
Proof.
  intros H E. destruct a; cbn [exec] in E.
  - exists q, r, bs. by eapply push_load_inv.
  - exists q, r, bs. by eapply push_write_inv.
  - destruct (push_exchange_inv _ _ _ _ _ _ _ H E) as [q' H']. by exists q', r, bs.
  - eexists [], q, _. by eapply pop_all_inv.
  - exists q, r, bs. by eapply read_next_inv.
  - destruct (call_task_inv _ _ _ _ _ H E) as [r' H']. by exists q, r', bs.
  - exists q, r, bs. by eapply return_count_inv.
Qed.

Lemma reachable_inv s : reachable s -> exists q r bs, mpsc_inv s q r bs.
Proof.
  apply (rtc_ind_r (fun s => exists q r bs, mpsc_inv s q r bs)).
  - exists [], [], []. apply mpsc_new_inv.
  - intros s1 s2 _ [a E] (q & r & bs & H). by eapply exec_inv.
Qed.

Lemma concat_rev_perm (bs : list (list Z)) : concat (@rev Z <$> bs) ≡ₚ concat bs.
Proof.
  induction bs as [|b bs IH]; [done|]. rewrite fmap_cons. simpl. rewrite IH.
  by rewrite <- (Permutation_rev b).
Qed.

(** With an unchanged head a producer finishes in two steps. *)
Lemma push_alone s t n :
  producers s !! t = Some (Loaded n (head_ (queue s))) ->
  exists s', exec_all s [AWrite t; AExchange t false] = Some s'
    /\ pushed s' = pushed s ++ [n] /\ producers s' !! t = None /\ head_ (queue s') = n.
Proof.
  intros Ht. cbn [exec_all exec]. unfold push_write. rewrite Ht. sbind.
  unfold push_exchange, compare_exchange_weak. cbn [set_producer producers queue write_next head_].
  rewrite lookup_insert_eq, Z.eqb_refl. simpl. eexists. split; [done|]. simpl.
  split; [done|]. split; [|done]. apply lookup_delete_eq.
Qed.

(** With a changed head it loses one exchange and is up to date afterwards. *)
Lemma push_lost s t n old :
  producers s !! t = Some (Loaded n old) -> head_ (queue s) <> old ->
  exists s', exec_all s [AWrite t; AExchange t false] = Some s'
    /\ producers s' !! t = Some (Loaded n (head_ (queue s'))) /\ pushed s' = pushed s.
Proof.
  intros Ht Hne. cbn [exec_all exec]. unfold push_write. rewrite Ht. sbind.
  unfold push_exchange, compare_exchange_weak. cbn [set_producer producers queue write_next head_].
  rewrite lookup_insert_eq. destruct (Z.eqb_spec (head_ (queue s)) old); [done|]. simpl.
  eexists. split; [done|]. split; [apply lookup_insert_eq|done].
Qed.

Lemma exec_all_app s l1 l2 : exec_all s (l1 ++ l2) = s' ← exec_all s l1; exec_all s' l2.
Proof.
  revert s. induction l1 as [|a l1 IH]; intros s; [done|]. cbn [app exec_all].
  destruct (exec s a); [|done]. sbind. apply IH.
Qed.

Lemma exec_all_reachable s l s' : reachable s -> exec_all s l = Some s' -> reachable s'.
Proof.
  revert s. induction l as [|a l IH]; intros s Hs; cbn [exec_all]; [by intros [= <-]|].
  destruct (exec s a) as [s1|] eqn:E; [|done]. sbind. apply IH. eapply rtc_r; [exact Hs|]. by exists a.
Qed.

End lemmas.

Section ring_lemmas.
Import SpscRingBuffer.
Context {T : Type}.
Implicit Types s : System T.

Lemma mask_mod k i : 0 <= k <= 63 -> Z.land i (2 ^ k - 1) = i mod 2 ^ k.
Proof. intros Hk. rewrite <- Z.land_ones by lia. by rewrite Z.ones_equiv. Qed.

Lemma advance_mod k s w i : 0 <= k <= 63 -> ring_inv (2 ^ k) s w -> 0 <= i < 2 ^ k ->
  advance (ring s) i = (i + 1) mod 2 ^ k.
Proof.
  intros Hk H Hi. unfold advance. rewrite (ri_capacity _ _ _ H), mask_mod by done. f_equal.
  apply wrap_id. unfold is_u. pose proof (Z.pow_le_mono_r 2 k 63 ltac:(lia) ltac:(lia)). lia.
Qed.

Lemma head_range C s w : ring_inv C s w -> 0 <= head_ (ring s) < C.
Proof. intros H. rewrite (ri_head _ _ _ H). apply Z.mod_pos_bound. pose proof (ri_tail _ _ _ H). lia. Qed.

(** The distance of two indices less than a capacity apart. *)
Lemma ring_distance C i m n : 0 < C -> 0 <= m < C -> 0 <= n < C -> (i + m) mod C = (i + n) mod C -> m = n.
Proof.
  intros HC Hm Hn E. rewrite <- (Z.mod_small m C), <- (Z.mod_small n C) by done.
  replace m with ((i + m) - i) by lia. replace n with ((i + n) - i) by lia.
  rewrite (Zminus_mod (i + m)), E, <- Zminus_mod. done.
Qed.

Lemma full_iff C s w : ring_inv C s w ->
  (head_ (ring s) + 1) mod C = tail_ (ring s) <-> Z.of_nat (length w) = C - 1.
Proof.
  intros H. pose proof (ri_tail _ _ _ H) as Ht. pose proof (ri_room _ _ _ H) as Hr.
  rewrite (ri_head _ _ _ H), Zplus_mod_idemp_l. split.
  - intros E. destruct (decide (Z.of_nat (length w) + 1 = C)) as [|Hne]; [lia|].
    assert (Z.of_nat (length w) + 1 = 0); [|lia]. apply (ring_distance C (tail_ (ring s))); try lia.
    rewrite Z.add_assoc, E, Z.add_0_r. by rewrite Z.mod_small.
  - intros E. replace (tail_ (ring s) + Z.of_nat (length w) + 1) with (tail_ (ring s) + 1 * C) by lia.
    rewrite Z.mod_add by lia. by apply Z.mod_small.
Qed.

Lemma empty_iff C s w : ring_inv C s w -> tail_ (ring s) = head_ (ring s) <-> w = [].
Proof.
  intros H. pose proof (ri_tail _ _ _ H) as Ht. pose proof (ri_room _ _ _ H) as Hr.
  rewrite (ri_head _ _ _ H). split.
  - intros E. assert (0 = Z.of_nat (length w)); [|destruct w; [done|simpl in *; lia]].
    apply (ring_distance C (tail_ (ring s))); try lia. rewrite Z.add_0_r, Z.mod_small by done. done.
  - intros ->. simpl. by rewrite Z.add_0_r, Z.mod_small.
Qed.

Lemma Size_window k s w : 0 <= k <= 63 -> ring_inv (2 ^ k) s w -> Size (ring s) = Z.of_nat (length w).
Proof.
  intros Hk H. unfold Size. rewrite (ri_capacity _ _ _ H), mask_mod by done.
  pose proof (Z.pow_le_mono_r 2 k 63 ltac:(lia) ltac:(lia)) as Hp. pose proof (ri_room _ _ _ H).
  assert (Hd : (2 ^ k | 2 ^ 64)) by (exists (2 ^ (64 - k)); rewrite <- Z.pow_add_r by lia; f_equal; lia).
  assert (Hu : forall x, u64 x mod 2 ^ k = x mod 2 ^ k).
  { intros x. unfold wrap. symmetry. apply Znumtheory.Zmod_div_mod; [lia..|done]. }
  rewrite Hu, Zplus_mod, Hu, <- Zplus_mod, (ri_head _ _ _ H).
  replace (2 ^ k) with (1 * 2 ^ k) at 2 by lia. rewrite Z.mod_add by lia.
  rewrite Zminus_mod, Zmod_mod, <- Zminus_mod. rewrite Z.mod_small by lia. lia.
Qed.

Lemma ring_new_inv k (x : T) : 0 <= k <= 63 -> ring_inv (2 ^ k) (System_new (2 ^ k) x) [].
Proof.
  intros Hk. pose proof (Z.pow_pos_nonneg 2 k ltac:(lia) ltac:(lia)).
  constructor; cbn; try done; try lia. rewrite length_replicate. lia.
Qed.

Lemma push_step_inv k s a s' w : 0 <= k <= 63 -> ring_inv (2 ^ k) s w -> push_step s a = Some s' ->
  exists w', ring_inv (2 ^ k) s' w'.
Proof.
  intros Hk H. pose proof (head_range _ _ _ H) as Hh. pose proof (ri_tail _ _ _ H) as Ht.
  pose proof (ri_room _ _ _ H) as Hr. pose proof (ri_producer _ _ _ H) as Hp.
  unfold push_step. destruct a as [x| | | | | | |]; try done; destruct (producer s) as [|y h|y h n|y n]; try done.
  - intros [= <-]. exists w. constructor; try apply H. done.
  - intros [= <-]. exists w. constructor; try apply H. cbn. subst h.
    rewrite (advance_mod k s w) by done. destruct (Z.eqb_spec ((head_ (ring s) + 1) mod 2 ^ k) (tail_ (ring s))) as [|Ef]; [done|].
    pose proof (full_iff _ _ _ H). split; [done|]. split; [done|]. lia.
  - destruct Hp as (-> & -> & Hroom). destruct (aset _ _ _) as [b|] eqn:Eb; [|done]. sbind. intros [= <-].
    apply aset_inv in Eb as [Hb ->]. exists w. constructor; cbn; try apply H.
    + rewrite length_insert. apply H.
    + intros j x Hj. rewrite aget_insert by done. rewrite decide_False; [by apply H|].
      rewrite (ri_head _ _ _ H). intros E. apply lookup_lt_Some in Hj.
      apply ring_distance in E; lia.
    + split; [done|]. split; [done|]. rewrite aget_insert by done. by rewrite decide_True.
  - destruct Hp as (-> & Hroom & Hx). intros [= <-]. exists (w ++ [y]). constructor; cbn; try apply H.
    + rewrite (ri_head _ _ _ H), Zplus_mod_idemp_l, length_app. cbn [length]. f_equal. lia.
    + rewrite length_app. cbn [length]. lia.
    + intros j x [Hj|[Hj1 Hj2]]%lookup_app_Some; [by apply H|].
      apply list_lookup_singleton_Some in Hj2 as [Hj2 ->]. replace j with (length w) by lia.
      by rewrite <- (ri_head _ _ _ H).
    + rewrite (ri_pushed _ _ _ H). by rewrite <- app_assoc.
    + done.
    + pose proof (ri_consumer _ _ _ H) as Hc. destruct (consumer s); [done|done| |].
      * split; [tauto|]. by destruct w.
      * destruct Hc as [? Hw]. split; [done|]. by destruct w.
Qed.

Lemma pop_step_inv k s a s' w : 0 <= k <= 63 -> ring_inv (2 ^ k) s w -> pop_step s a = Some s' ->
  exists w', ring_inv (2 ^ k) s' w'.
Proof.
  intros Hk H. pose proof (ri_tail _ _ _ H) as Ht. pose proof (ri_consumer _ _ _ H) as Hc.
  unfold pop_step. destruct a as [x| | | | | | |]; try done; destruct (consumer s) as [|i|i|i x]; try done.
  - intros [= <-]. exists w. constructor; try apply H. done.
  - intros [= <-]. exists w. constructor; try apply H. cbn. subst i.
    pose proof (empty_iff _ _ _ H). destruct (Z.eqb_spec (tail_ (ring s)) (head_ (ring s))) as [|Ee]; [done|]. split; [done|]. tauto.
  - destruct Hc as [-> Hw]. destruct (aget _ _) as [y|] eqn:Ey; [|done]. sbind. intros [= <-].
    exists w. constructor; try apply H. cbn. split; [done|]. destruct w as [|x w]; [done|].
    pose proof (ri_window _ _ _ H 0 x eq_refl) as Hx. rewrite Z.add_0_r, Z.mod_small in Hx by done. simpl. congruence.
  - destruct Hc as [-> Hw]. intros [= <-]. destruct w as [|y w]; [done|]. simpl in Hw. injection Hw as ->.
    pose proof (ri_room _ _ _ H) as Hr. cbn [length] in Hr. exists w.
    constructor; cbn; rewrite ?(advance_mod k s (x :: w)) by done; try apply H.
    + apply Z.mod_pos_bound. lia.
    + rewrite (ri_head _ _ _ H), Zplus_mod_idemp_l. cbn [length]. f_equal. lia.
    + lia.
    + intros j y Hj. rewrite Zplus_mod_idemp_l. rewrite <- (ri_window _ _ _ H (S j) y Hj). f_equal. f_equal. lia.
    + rewrite (ri_pushed _ _ _ H). by rewrite <- app_assoc.
    + pose proof (ri_producer _ _ _ H) as Hp. destruct (producer s); cbn [length] in *; [done|done| |];
        intuition lia.
    + done.
Qed.

Lemma ring_run_inv k s l s' w : 0 <= k <= 63 -> ring_inv (2 ^ k) s w -> exec_all s l = Some s' ->
  exists w', ring_inv (2 ^ k) s' w'.
Proof.
  intros Hk. revert s w. induction l as [|a l IH]; intros s w H; cbn [exec_all]; [intros [= <-]; by exists w|].
  destruct (exec s a) as [s1|] eqn:E; [|done]. sbind.
  assert (exists w1, ring_inv (2 ^ k) s1 w1) as [w1 H1]; [|by eapply IH].
  destruct a; cbn [exec] in E; first [by eapply push_step_inv|by eapply pop_step_inv].
Qed.

Lemma push_test_spec k s w : 0 <= k <= 63 -> ring_inv (2 ^ k) s w ->
  forall x h, producer s = PLoaded x h ->
    exists s', exec s APushTest = Some s' /\ (producer s' = PIdle <-> Z.of_nat (length w) = 2 ^ k - 1).
Proof.
  intros Hk H x h Ep. pose proof (ri_producer _ _ _ H) as Hp. rewrite Ep in Hp. subst h.
  cbn [exec]. unfold push_step. rewrite Ep. eexists. split; [done|]. cbn [with_producer producer].
  rewrite (advance_mod k s w) by (done || by eapply head_range). rewrite <- (full_iff _ _ _ H).
  by destruct (Z.eqb_spec ((head_ (ring s) + 1) mod 2 ^ k) (tail_ (ring s))).
Qed.

Lemma pop_test_spec C s w : ring_inv C s w ->
  forall i, consumer s = CLoaded i -> exists s', exec s APopTest = Some s' /\ (consumer s' = CIdle <-> w = []).
Proof.
  intros H i Ec. pose proof (ri_consumer _ _ _ H) as Hc. rewrite Ec in Hc. subst i.
  cbn [exec]. unfold pop_step. rewrite Ec. eexists. split; [done|]. cbn [with_consumer consumer].
  rewrite <- (empty_iff _ _ _ H). by destruct (Z.eqb_spec (tail_ (ring s)) (head_ (ring s))).
Qed.

(** The indices the threads use are inside the buffer. *)
Lemma push_step_enabled C s w : ring_inv C s w -> producer s <> PIdle -> exists a s', push_step s a = Some s'.
Proof.
  intros H Hp. pose proof (ri_producer _ _ _ H) as Hi. unfold push_step.
  destruct (producer s) as [|x h|x h n|x n] eqn:Ep; [done| | |].
  - by eexists APushTest, _.
  - destruct Hi as (-> & _). pose proof (head_range _ _ _ H). exists APushStore.
    rewrite aset_Some by (rewrite (ri_length _ _ _ H); done). by eexists.
  - by eexists APushPublish, _.
Qed.

Lemma pop_step_enabled C s w : ring_inv C s w -> consumer s <> CIdle -> exists a s', pop_step s a = Some s'.
Proof.
  intros H Hc. pose proof (ri_consumer _ _ _ H) as Hi. unfold pop_step.
  destruct (consumer s) as [|i|i|i x] eqn:Ec; [done| | |].
  - by eexists APopTest, _.
  - destruct Hi as (-> & _). exists APopRead.
    destruct (aget_is_Some (buffer_ (ring s)) (tail_ (ring s))) as [y Ey]; [|rewrite Ey; by eexists].
    rewrite (ri_length _ _ _ H). apply H.
  - by eexists APopPublish, _.
Qed.

End ring_lemmas.

(** ** Properties *)

Section properties.

(** C16: Tasks handed to the reactor are called exactly once. Whatever the
    interleaving of producers and consumer, the nodes pushed so far, in the order
    of their exchanges, are the batches taken by [PopAll] followed by the queue's
    content; the consumer has called the batches in order, each from its newest
    task to its oldest, up to the tasks it still holds. When the consumer is idle
    and the queue empty every pushed task has been called, and the counts that
    [ProcessTasks] returned add up to the calls. *)
Theorem tasks_called_once (s : MpscQueue.System) :
  reachable s ->
  exists bs q r,
    MpscQueue.pushed s = concat bs ++ rev q
    /\ MpscQueue.executed s ++ r = concat (@rev Z <$> bs)
    /\ (MpscQueue.Empty (MpscQueue.queue s) = true <-> q = [])
    /\ (MpscQueue.consumer s = MpscQueue.CIdle ->
        r = [] /\ sumZ (MpscQueue.returned s) = Z.of_nat (length (MpscQueue.executed s)))
    /\ (MpscQueue.consumer s = MpscQueue.CIdle -> MpscQueue.Empty (MpscQueue.queue s) = true ->
        MpscQueue.executed s ≡ₚ MpscQueue.pushed s).
Proof.
  intros (q & r & bs & H)%reachable_inv. exists bs, q, r.
  assert (He : MpscQueue.Empty (MpscQueue.queue s) = true <-> q = []).
  { unfold MpscQueue.Empty. rewrite Z.eqb_eq. eapply next_chain_head, H. }
  assert (Hi : MpscQueue.consumer s = MpscQueue.CIdle ->
    r = [] /\ sumZ (MpscQueue.returned s) = Z.of_nat (length (MpscQueue.executed s))).
  { intros Ec. pose proof (mi_consumer _ _ _ _ H) as Hc. pose proof (mi_count _ _ _ _ H) as Hk.
    rewrite Ec in Hc, Hk. split; [done|lia]. }
  split_and!; [apply H|apply H|done..|]. intros Ec Eq. destruct (Hi Ec) as [-> _]. apply He in Eq as ->.
  pose proof (mi_executed _ _ _ _ H) as E1. pose proof (mi_pushed _ _ _ _ H) as E2.
  rewrite app_nil_r in E1, E2. rewrite E1, E2. apply concat_rev_perm.
Qed.

Lemma tasks_called_once_witness :
  exists s, MpscQueue.exec_all MpscQueue.System_new contended_trace = Some s
    /\ MpscQueue.executed s = [10; 20] /\ MpscQueue.pushed s = [20; 10] /\ MpscQueue.returned s = [2]
    /\ exists bs q r, MpscQueue.pushed s = concat bs ++ rev q
                      /\ MpscQueue.executed s ++ r = concat (@rev Z <$> bs).
Proof.
  destruct (MpscQueue.exec_all MpscQueue.System_new contended_trace) as [s|] eqn:E; [|vm_compute in E; discriminate].
  exists s. destruct (tasks_called_once s) as (bs & q & r & E1 & E2 & _).
  { exact (exec_all_reachable MpscQueue.System_new contended_trace s (rtc_refl _ _) E). }
  vm_compute in E. injection E as <-.
  split; [reflexivity|]. split; [reflexivity|]. split; [reflexivity|]. split; [reflexivity|].
  exists bs, q, r. split; [exact E1|exact E2].
Defined.

(** No thread gets stuck. In every reachable state the next step of a thread
    that is inside an operation is possible - in particular the consumer never
    follows a [next] that was not written - and a producer that runs alone,
    wherever the others are, finishes: in two steps if the head is the one it
    loaded and in four if another thread changed it, and its node is on top. *)
Theorem queue_progress (s : MpscQueue.System) :
  reachable s ->
  (forall t p b, MpscQueue.producers s !! t = Some p ->
     exists s', match p with
                | MpscQueue.Loaded _ _ => MpscQueue.exec s (MpscQueue.AWrite t) = Some s'
                | MpscQueue.Linked _ _ => MpscQueue.exec s (MpscQueue.AExchange t b) = Some s'
                end)
  /\ (MpscQueue.consumer s <> MpscQueue.CIdle ->
      exists a s', a ∈ [MpscQueue.ANext; MpscQueue.ACall; MpscQueue.AReturn] /\ MpscQueue.exec s a = Some s')
  /\ (forall t n old, MpscQueue.producers s !! t = Some (MpscQueue.Loaded n old) ->
      exists s', MpscQueue.exec_all s
                   (if MpscQueue.head_ (MpscQueue.queue s) =? old
                    then [MpscQueue.AWrite t; MpscQueue.AExchange t false]
                    else [MpscQueue.AWrite t; MpscQueue.AExchange t false; MpscQueue.AWrite t; MpscQueue.AExchange t false])
                 = Some s'
        /\ MpscQueue.pushed s' = MpscQueue.pushed s ++ [n] /\ MpscQueue.producers s' !! t = None
        /\ MpscQueue.head_ (MpscQueue.queue s') = n).
Proof.
  intros (q & r & bs & H)%reachable_inv. split_and!.
  - intros t p b Hp. destruct p; cbn [MpscQueue.exec]; unfold MpscQueue.push_write, MpscQueue.push_exchange;
      rewrite Hp; [by eexists|]. destruct (MpscQueue.compare_exchange_weak _ _ _ _) as [[q' []] o]; by eexists.
  - intros Hc. pose proof (mi_consumer _ _ _ _ H) as Hr. destruct (MpscQueue.consumer s) as [|h c|h n c] eqn:Ec; [done| |].
    + destruct (Z.eqb_spec h 0) as [->|Hh].
      * exists MpscQueue.AReturn. cbn [MpscQueue.exec]. unfold MpscQueue.return_count. rewrite Ec. simpl. eexists. split; [set_solver|done].
      * destruct r as [|i r]; simpl in Hr; [done|]. destruct Hr as (<- & _ & n & En & _).
        exists MpscQueue.ANext. cbn [MpscQueue.exec]. unfold MpscQueue.read_next. rewrite Ec, En. sbind.
        destruct (Z.eqb_spec h 0); [done|]. eexists. split; [set_solver|done].
    + exists MpscQueue.ACall. cbn [MpscQueue.exec]. unfold MpscQueue.call_task. rewrite Ec. eexists. split; [set_solver|done].
  - intros t n old Ht. destruct (Z.eqb_spec (MpscQueue.head_ (MpscQueue.queue s)) old) as [<-|Hne].
    + by apply push_alone.
    + destruct (push_lost s t n old Ht Hne) as (s2 & E2 & Ht2 & Hp2).
      destruct (push_alone s2 t n Ht2) as (s' & E & Hps & Hpr & Hhd). exists s'.
      split; [|split; [congruence|done]].
      change [MpscQueue.AWrite t; MpscQueue.AExchange t false; MpscQueue.AWrite t; MpscQueue.AExchange t false]
        with ([MpscQueue.AWrite t; MpscQueue.AExchange t false] ++ [MpscQueue.AWrite t; MpscQueue.AExchange t false]).
      rewrite exec_all_app, E2. exact E.
Qed.

Lemma queue_progress_witness :
  exists s s', MpscQueue.exec_all MpscQueue.System_new [MpscQueue.ALoad 1 10] = Some s
    /\ MpscQueue.exec_all s [MpscQueue.AWrite 1; MpscQueue.AExchange 1 false] = Some s'
    /\ MpscQueue.pushed s' = [10].
Proof.
  destruct (MpscQueue.exec_all MpscQueue.System_new [MpscQueue.ALoad 1 10]) as [s|] eqn:E;
    [|vm_compute in E; discriminate].
  destruct (queue_progress s) as (_ & _ & H).
  { exact (exec_all_reachable MpscQueue.System_new [MpscQueue.ALoad 1 10] s (rtc_refl _ _) E). }
  exists s. vm_compute in E. injection E as <-. destruct (H 1%nat 10 0 eq_refl) as (s' & E' & Hp & _).
  exists s'. split; [reflexivity|]. split; [exact E'|exact Hp].
Defined.

(** C36: The ring buffer is a bounded first-in first-out queue for one producer
    and one consumer, under every interleaving of their steps: the items popped
    and then the items still in the ring are exactly the items pushed, in order;
    [Size] counts the items in the ring and stays below the capacity; [Push] fails
    exactly when the ring holds one item less than its capacity at the moment it
    looks, [Pop] exactly when the ring is empty; and no step leaves the buffer. *)
Theorem ring_fifo {T} (k : Z) (init : T) l (s : SpscRingBuffer.System T) :
  0 <= k <= 63 -> SpscRingBuffer.exec_all (SpscRingBuffer.System_new (2 ^ k) init) l = Some s ->
  exists w,
    SpscRingBuffer.pushed s = SpscRingBuffer.popped s ++ w
    /\ SpscRingBuffer.Size (SpscRingBuffer.ring s) = Z.of_nat (length w) /\ Z.of_nat (length w) < 2 ^ k
    /\ (forall x h, SpscRingBuffer.producer s = SpscRingBuffer.PLoaded x h ->
        exists s', SpscRingBuffer.exec s SpscRingBuffer.APushTest = Some s'
          /\ (SpscRingBuffer.producer s' = SpscRingBuffer.PIdle <-> Z.of_nat (length w) = 2 ^ k - 1))
    /\ (forall i, SpscRingBuffer.consumer s = SpscRingBuffer.CLoaded i ->
        exists s', SpscRingBuffer.exec s SpscRingBuffer.APopTest = Some s'
          /\ (SpscRingBuffer.consumer s' = SpscRingBuffer.CIdle <-> w = []))
    /\ (SpscRingBuffer.producer s <> SpscRingBuffer.PIdle ->
        exists a s', SpscRingBuffer.push_step s a = Some s')
    /\ (SpscRingBuffer.consumer s <> SpscRingBuffer.CIdle ->
        exists a s', SpscRingBuffer.pop_step s a = Some s').
Proof.
  intros Hk E. destruct (ring_run_inv k _ l s [] Hk (ring_new_inv k init Hk) E) as [w H].
  exists w. split; [apply H|]. split; [by eapply Size_window|]. split; [apply H|]. split_and!.
  - by apply push_test_spec.
  - by apply (pop_test_spec (2 ^ k)).
  - by apply (push_step_enabled (2 ^ k) s w).
  - by apply (pop_step_enabled (2 ^ k) s w).
Qed.

Lemma ring_fifo_witness :
  exists s, SpscRingBuffer.exec_all (SpscRingBuffer.System_new (2 ^ 1) 0)
              [SpscRingBuffer.APushLoad 7; SpscRingBuffer.APopLoad; SpscRingBuffer.APushTest;
               SpscRingBuffer.APopTest; SpscRingBuffer.APushStore; SpscRingBuffer.APushPublish;
               SpscRingBuffer.APushLoad 8; SpscRingBuffer.APushTest] = Some s
    /\ exists w, SpscRingBuffer.pushed s = SpscRingBuffer.popped s ++ w /\ Z.of_nat (length w) < 2.
Proof.
  destruct (SpscRingBuffer.exec_all (SpscRingBuffer.System_new (2 ^ 1) 0)
              [SpscRingBuffer.APushLoad 7; SpscRingBuffer.APopLoad; SpscRingBuffer.APushTest;
               SpscRingBuffer.APopTest; SpscRingBuffer.APushStore; SpscRingBuffer.APushPublish;
               SpscRingBuffer.APushLoad 8; SpscRingBuffer.APushTest]) as [s|] eqn:E; [|vm_compute in E; discriminate].
  destruct (ring_fifo 1 0 _ s ltac:(lia) E) as (w & Hp & _ & Hl & _).
  exists s. split; [reflexivity|]. exists w. split; [exact Hp|exact Hl].
Defined.

End properties.
