(* ===== verification/Handshake.v ===== *)
(** * The handshake channel

    Models [include/rdma/transport/handshake_channel.h],
    [include/rdma/transport/tcp_handshake.h] and
    [src/transport/tcp_handshake.cpp]. The socket calls are the operations of an
    operating system that implements [Sockets]; each takes and returns its state.
    Messages travel as the memory image of the struct on a little-endian host. *)

From stdpp Require Import pretty.
From S2P Require Import Prelude Types.

(** An element of the list [getaddrinfo] returns. *)
Definition Addr := Z.

(** The system calls. A failing call returns its [errno] on the left; [sys_poll]
    returns its result and [errno]. Descriptors are numbers, [open_fds] those
    the process holds; [outgoing] and [incoming] are the bytes a descriptor has
    accepted and has still to deliver. [stalls] bounds how many interrupted or
    empty transfers are still to come: the environment does not interrupt for
    ever. *)
Class Sockets (OS : Type) := {
  EINTR : Z;
  EINPROGRESS : Z;
  getaddrinfo : OS -> option string -> string -> option (list Addr);
  sys_socket : OS -> Addr -> OS * (Z + Z);
  sys_set_nonblocking : OS -> Z -> bool -> OS;
  sys_connect : OS -> Z -> Addr -> OS * option Z;
  sys_poll : OS -> Z -> Z -> OS * Z * Z;
  sys_so_error : OS -> Z -> OS * Z;
  sys_setsockopt : OS -> Z -> string -> OS;
  sys_bind : OS -> Z -> Addr -> OS * bool;
  sys_listen : OS -> Z -> Z -> OS * option Z;
  sys_accept : OS -> Z -> OS * (Z + Z);
  getnameinfo : OS -> Z -> option (string * string);
  sys_close : OS -> Z -> OS;
  sys_write : OS -> Z -> list Z -> OS * (Z + Z);
  sys_read : OS -> Z -> Z -> OS * (Z + list Z);
  open_fds : OS -> gset Z;
  outgoing : OS -> Z -> list Z;
  incoming : OS -> Z -> list Z;
  stalls : OS -> nat;
  socket_law os a : match sys_socket os a with
                    | (os', inl _) => open_fds os' = open_fds os
                    | (os', inr fd) => 0 <= fd /\ fd ∉ open_fds os /\ open_fds os' = {[fd]} ∪ open_fds os
                    end;
  accept_law os l : match sys_accept os l with
                    | (os', inl _) => open_fds os' = open_fds os
                    | (os', inr fd) => 0 <= fd /\ fd ∉ open_fds os /\ open_fds os' = {[fd]} ∪ open_fds os
                    end;
  close_law os fd : open_fds (sys_close os fd) = open_fds os ∖ {[fd]};
  nonblocking_fds os fd b : open_fds (sys_set_nonblocking os fd b) = open_fds os;
  connect_fds os fd a : open_fds (sys_connect os fd a).1 = open_fds os;
  poll_fds os fd t : open_fds (sys_poll os fd t).1.1 = open_fds os;
  so_error_fds os fd : open_fds (sys_so_error os fd).1 = open_fds os;
  setsockopt_fds os fd o : open_fds (sys_setsockopt os fd o) = open_fds os;
  bind_fds os fd a : open_fds (sys_bind os fd a).1 = open_fds os;
  listen_fds os fd n : open_fds (sys_listen os fd n).1 = open_fds os;
  write_law os fd d : match sys_write os fd d with
                      | (os', inl e) => outgoing os' fd = outgoing os fd
                                        /\ (e = EINTR -> (stalls os' < stalls os)%nat)
                      | (os', inr n) => 0 <= n <= Z.of_nat (length d)
                                        /\ outgoing os' fd = outgoing os fd ++ take (Z.to_nat n) d
                                        /\ (stalls os' <= stalls os)%nat
                                        /\ (n = 0 -> d <> [] -> (stalls os' < stalls os)%nat)
                      end;
  read_law os fd n : 0 <= n -> match sys_read os fd n with
                     | (os', inl e) => incoming os' fd = incoming os fd
                                       /\ (e = EINTR -> (stalls os' < stalls os)%nat)
                     | (os', inr d) => Z.of_nat (length d) <= n /\ incoming os fd = d ++ incoming os' fd
                                       /\ (stalls os' <= stalls os)%nat
                     end;
  write_fds os fd d : open_fds (sys_write os fd d).1 = open_fds os;
  read_fds os fd n : open_fds (sys_read os fd n).1 = open_fds os;
}.

Module HandshakeMessage.

Record HandshakeMessage := {
  qp_params : QpConnParams;
  recv_buffer_info : RemoteMemoryInfo;
  conn_id : Z;
  version : Z;
  flags : Z;
  hostname : list Z;                   (* char[64] *)
}.

(** [sizeof(HandshakeMessage)]. *)
Definition size : Z := 128.

(** The memory image; [p1], [p2] and [p3] are the padding bytes after [lid],
    [gid_index] and [qp_params], whose values the program does not set. *)
Definition bytes (p1 : list Z) (p2 : Z) (p3 : list Z) (m : HandshakeMessage) : list Z :=
  let q := qp_params m in
  let r := recv_buffer_info m in
  le_bytes 2 (lid q) ++ p1 ++ le_bytes 4 (qp_num q) ++ le_bytes 4 (psn q) ++ gid q
  ++ le_bytes 2 (port_num q) ++ le_bytes 1 (gid_index q) ++ [p2] ++ le_bytes 4 (mtu q) ++ p3
  ++ le_bytes 8 (rmi_addr r) ++ le_bytes 4 (rmi_rkey r) ++ le_bytes 4 (rmi_length r)
  ++ le_bytes 2 (conn_id m) ++ le_bytes 2 (version m) ++ le_bytes 4 (flags m) ++ hostname m.

(** Reading the members of a struct that holds [l]. *)
Definition of_bytes (l : list Z) : HandshakeMessage :=
  {| qp_params := {| lid := field 0 2 l; qp_num := field 4 4 l; psn := field 8 4 l;
                     gid := take 16 (drop 12 l); port_num := field 28 2 l; gid_index := field 30 1 l;
                     mtu := field 32 4 l |};
     recv_buffer_info := {| rmi_addr := field 40 8 l; rmi_rkey := field 48 4 l; rmi_length := field 52 4 l |};
     conn_id := field 56 2 l; version := field 58 2 l; flags := field 60 4 l;
     hostname := take 64 (drop 64 l) |}.

End HandshakeMessage.

Export HandshakeMessage (HandshakeMessage).

Module TcpHandshakeChannel.

Record TcpHandshakeChannel := { fd_ : Z; peer_address_ : string }.

Section os.
Context {OS : Type} `{!Sockets OS}.

Definition IsConnected (c : TcpHandshakeChannel) : bool := 0 <=? fd_ c.
Definition GetPeerAddress (c : TcpHandshakeChannel) : string := peer_address_ c.

(** The loop of [Connect] over the addresses: the descriptor, or -1. *)
Fixpoint connect_loop (os : OS) (addrs : list Addr) (timeout_ms : Z) : OS * Z :=
  match addrs with
  | [] => (os, -1)
  | rp :: addrs =>
      match sys_socket os rp with
      | (os, inl _) => connect_loop os addrs timeout_ms
      | (os, inr fd) =>
          let os := sys_set_nonblocking os fd true in
          let '(os, ret) := sys_connect os fd rp in
          match ret with
          | None => (sys_set_nonblocking os fd false, fd)
          | Some errno =>
              if negb (errno =? EINPROGRESS) then connect_loop (sys_close os fd) addrs timeout_ms
              else
                let '(os, ret, _) := sys_poll os fd timeout_ms in
                if ret <=? 0 then connect_loop (sys_close os fd) addrs timeout_ms
                else
                  let '(os, error) := sys_so_error os fd in
                  if negb (error =? 0) then connect_loop (sys_close os fd) addrs timeout_ms
                  else (sys_set_nonblocking os fd false, fd)
          end
      end
  end.

Definition Connect (os : OS) (host : string) (port timeout_ms : Z) : OS * Result TcpHandshakeChannel :=
  match getaddrinfo os (Some host) (pretty port) with
  | None => (os, RErr (Err.IOError "Failed to resolve host" 0))
  | Some addrs =>
      let '(os, fd) := connect_loop os addrs timeout_ms in
      if fd <? 0 then (os, RErr (Err.ConnectionRefused "Failed to connect"))
      else (sys_setsockopt os fd "TCP_NODELAY",
            RVal {| fd_ := fd; peer_address_ := host +:+ ":" +:+ pretty port |})
  end.

Definition Accept (os : OS) (listen_fd timeout_ms : Z) : OS * Result TcpHandshakeChannel :=
  let '(os, ret, errno) := sys_poll os listen_fd timeout_ms in
  if ret <? 0 then (os, RErr (Err.IOError "poll failed" errno))
  else if ret =? 0 then (os, RErr (Err.Timeout "Accept timeout"))
  else match sys_accept os listen_fd with
       | (os, inl errno) => (os, RErr (Err.IOError "accept failed" errno))
       | (os, inr fd) =>
           let os := sys_setsockopt os fd "TCP_NODELAY" in
           (os, RVal {| fd_ := fd;
                        peer_address_ := match getnameinfo os fd with
                                         | Some (host, service) => host +:+ ":" +:+ service
                                         | None => ""
                                         end |})
       end.

Fixpoint bind_loop (os : OS) (addrs : list Addr) : OS * Z :=
  match addrs with
  | [] => (os, -1)
  | rp :: addrs =>
      match sys_socket os rp with
      | (os, inl _) => bind_loop os addrs
      | (os, inr fd) =>
          let os := sys_setsockopt os fd "SO_REUSEADDR" in
          let '(os, ok) := sys_bind os fd rp in
          if ok : bool then (os, fd) else bind_loop (sys_close os fd) addrs
      end
  end.

Definition CreateListenSocket (os : OS) (bind_addr : string) (port backlog : Z) : OS * Result Z :=
  match getaddrinfo os (if decide (bind_addr = "") then None else Some bind_addr) (pretty port) with
  | None => (os, RErr (Err.IOError "Failed to resolve bind address" 0))
  | Some addrs =>
      let '(os, fd) := bind_loop os addrs in
      if fd <? 0 then (os, RErr (Err.IOError "Failed to bind socket" 0))
      else match sys_listen os fd backlog with
           | (os, Some errno) => (sys_close os fd, RErr (Err.IOError "Failed to listen" errno))
           | (os, None) => (os, RVal fd)
           end
  end.

(** The loop of [Send] on the bytes of the message; [None] when the fuel ends. *)
Fixpoint send_loop (fuel : nat) (os : OS) (fd : Z) (data : list Z) (sent : Z) : option (OS * Status) :=
  if Z.of_nat (length data) <=? sent then Some (os, Err.Status_OK)
  else
    match fuel with
    | O => None
    | S fuel =>
        match sys_write os fd (drop (Z.to_nat sent) data) with
        | (os, inl errno) =>
            if errno =? EINTR then send_loop fuel os fd data sent
            else Some (os, Err.IOError "write failed" errno)
        | (os, inr n) => send_loop fuel os fd data (sent + n)
        end
    end.

Definition Send (fuel : nat) (os : OS) (c : TcpHandshakeChannel) (data : list Z) : option (OS * Status) :=
  if fd_ c <? 0 then Some (os, Err.InvalidArgument "Channel not connected")
  else send_loop fuel os (fd_ c) data 0.

(** The loop of [Receive]; [data] is the part of the message that has arrived. *)
Fixpoint receive_loop (fuel : nat) (os : OS) (fd : Z) (total : Z) (data : list Z)
    : option (OS * Status * list Z) :=
  if total <=? Z.of_nat (length data) then Some (os, Err.Status_OK, data)
  else
    match fuel with
    | O => None
    | S fuel =>
        match sys_read os fd (total - Z.of_nat (length data)) with
        | (os, inl errno) =>
            if errno =? EINTR then receive_loop fuel os fd total data
            else Some (os, Err.IOError "read failed" errno, data)
        | (os, inr d) =>
            if decide (d = []) then Some (os, Err.ConnectionReset "Connection closed", data)
            else receive_loop fuel os fd total (data ++ d)
        end
    end.

Definition Receive (fuel : nat) (os : OS) (c : TcpHandshakeChannel) : option (OS * Status * list Z) :=
  if fd_ c <? 0 then Some (os, Err.InvalidArgument "Channel not connected", [])
  else receive_loop fuel os (fd_ c) HandshakeMessage.size [].

Definition Close (os : OS) (c : TcpHandshakeChannel) : OS * TcpHandshakeChannel :=
  if 0 <=? fd_ c then (sys_close os (fd_ c), {| fd_ := -1; peer_address_ := peer_address_ c |})
  else (os, c).

End os.
End TcpHandshakeChannel.

Export TcpHandshakeChannel (TcpHandshakeChannel).

Module TcpHandshakeServer.

Record TcpHandshakeServer := { listen_fd_ : Z; port_ : Z }.

Section os.
Context {OS : Type} `{!Sockets OS}.

Definition Create (os : OS) (bind_addr : string) (port backlog : Z) : OS * Result TcpHandshakeServer :=
  let '(os, fd_result) := TcpHandshakeChannel.CreateListenSocket os bind_addr port backlog in
  match fd_result with
  | RErr s => (os, RErr s)
  | RVal fd => (os, RVal {| listen_fd_ := fd; port_ := port |})
  end.

Definition Accept (os : OS) (s : TcpHandshakeServer) (timeout_ms : Z) : OS * Result TcpHandshakeChannel :=
  TcpHandshakeChannel.Accept os (listen_fd_ s) timeout_ms.

Definition GetPort (s : TcpHandshakeServer) : Z := port_ s.

Definition Close (os : OS) (s : TcpHandshakeServer) : OS * TcpHandshakeServer :=
  if 0 <=? listen_fd_ s then (sys_close os (listen_fd_ s), {| listen_fd_ := -1; port_ := port_ s |})
  else (os, s).

End os.
End TcpHandshakeServer.

(** ** Specification *)

Section specification.

Definition qp_params_wf (q : QpConnParams) : Prop :=
  is_u 16 (lid q) /\ is_u 32 (qp_num q) /\ is_u 32 (psn q) /\ length (gid q) = 16%nat
  /\ is_u 16 (port_num q) /\ is_u 8 (gid_index q) /\ is_u 32 (mtu q).

Definition message_wf (m : HandshakeMessage) : Prop :=
  qp_params_wf (HandshakeMessage.qp_params m)
  /\ is_u 64 (rmi_addr (HandshakeMessage.recv_buffer_info m))
  /\ is_u 32 (rmi_rkey (HandshakeMessage.recv_buffer_info m))
  /\ is_u 32 (rmi_length (HandshakeMessage.recv_buffer_info m))
  /\ is_u 16 (HandshakeMessage.conn_id m) /\ is_u 16 (HandshakeMessage.version m)
  /\ is_u 32 (HandshakeMessage.flags m) /\ length (HandshakeMessage.hostname m) = 64%nat.

(** What a call that opens a descriptor leaves behind: one more descriptor, the
    result's, or none. *)
Definition opens_one {OS T} `{!Sockets OS} (os : OS) (fd_of : T -> Z) (r : OS * Result T) : Prop :=
  match r with
  | (os', RVal c) => 0 <= fd_of c /\ fd_of c ∉ open_fds os /\ open_fds os' = {[fd_of c]} ∪ open_fds os
  | (os', RErr _) => open_fds os' = open_fds os
  end.

(** A scripted system: the next transfers are cut to the sizes of the plan, 0
    stands for an interruption; after the plan every transfer is complete. The
    first [so_refused] connections are refused. *)
Record Script := {
  so_out : list Z;
  so_in : list Z;
  so_plan : list nat;
  so_open : gset Z;
  so_refused : nat;
}.

Definition fresh_fd (s : Script) : Z := foldr Z.max 2 (elements (so_open s)) + 1.

Definition script_open (s : Script) : Script * (Z + Z) :=
  ({| so_out := so_out s; so_in := so_in s; so_plan := so_plan s;
      so_open := {[fresh_fd s]} ∪ so_open s; so_refused := so_refused s |}, inr (fresh_fd s)).

Definition script_connect (s : Script) : Script * option Z :=
  match so_refused s with
  | O => (s, None)
  | S n => ({| so_out := so_out s; so_in := so_in s; so_plan := so_plan s; so_open := so_open s;
               so_refused := n |}, Some 111)
  end.

Definition script_write (s : Script) (d : list Z) : Script * (Z + Z) :=
  match so_plan s with
  | [] => ({| so_out := so_out s ++ d; so_in := so_in s; so_plan := []; so_open := so_open s;
              so_refused := so_refused s |}, inr (Z.of_nat (length d)))
  | O :: plan => ({| so_out := so_out s; so_in := so_in s; so_plan := plan; so_open := so_open s;
                     so_refused := so_refused s |}, inl 4)
  | n :: plan => ({| so_out := so_out s ++ take n d; so_in := so_in s; so_plan := plan;
                     so_open := so_open s; so_refused := so_refused s |},
                  inr (Z.of_nat (length (take n d))))
  end.

Definition script_read (s : Script) (n : Z) : Script * (Z + list Z) :=
  let result plan k :=
    ({| so_out := so_out s; so_in := drop k (so_in s); so_plan := plan; so_open := so_open s;
        so_refused := so_refused s |}, inr (take k (so_in s))) in
  match so_plan s with
  | [] => result [] (Z.to_nat n)
  | O :: plan => ({| so_out := so_out s; so_in := so_in s; so_plan := plan; so_open := so_open s;
                     so_refused := so_refused s |}, inl 4)
  | k :: plan => result plan (Nat.min k (Z.to_nat n))
  end.

Definition script_close (s : Script) (fd : Z) : Script :=
  {| so_out := so_out s; so_in := so_in s; so_plan := so_plan s; so_open := so_open s ∖ {[fd]};
     so_refused := so_refused s |}.

Definition example_message : HandshakeMessage :=
  {| HandshakeMessage.qp_params :=
       {| lid := 5; qp_num := 77; psn := 0; gid := replicate 16 254; port_num := 1; gid_index := 0; mtu := 3 |};
     HandshakeMessage.recv_buffer_info := {| rmi_addr := 2 ^ 40; rmi_rkey := 9; rmi_length := 4096 |};
     HandshakeMessage.conn_id := 3; HandshakeMessage.version := 1; HandshakeMessage.flags := 0;
     HandshakeMessage.hostname := replicate 64 0 |}.

Definition example_channel : TcpHandshakeChannel :=
  {| TcpHandshakeChannel.fd_ := 3; TcpHandshakeChannel.peer_address_ := "" |}.

(** Interrupted and cut transfers on both sides. *)
Definition example_sender : Script :=
  {| so_out := []; so_in := []; so_plan := [0; 100; 0; 7]%nat; so_open := {[3]}; so_refused := 0 |}.

Definition example_receiver : Script :=
  {| so_out := []; so_in := HandshakeMessage.bytes [0; 0] 0 [0; 0; 0; 0] example_message ++ [1; 2; 3];
     so_plan := [1; 0; 120]%nat; so_open := {[3]}; so_refused := 0 |}.

Lemma fresh_fd_spec s : 0 <= fresh_fd s /\ fresh_fd s ∉ so_open s.
Proof.
  unfold fresh_fd. assert (H : forall x l, x ∈ l -> x <= foldr Z.max 2 l).
  { intros x l. induction l as [|y l IH]; simpl; [by intros ?%elem_of_nil|].
    intros [->|Hx%IH]%elem_of_cons; lia. }
  assert (H0 : forall l, 2 <= foldr Z.max 2 l) by (induction l; simpl; lia).
  split; [specialize (H0 (elements (so_open s))); lia|]. intros Hin.
  specialize (H _ _ (proj2 (elem_of_elements _ _) Hin)). lia.
Qed.

Lemma take_length_take {A} n (d : list A) : take (length (take n d)) d = take n d.
Proof. revert n. induction d as [|x d IH]; intros [|n]; [done..|]. simpl. by rewrite IH. Qed.

#[export, refine] Instance scripted : Sockets Script := {|
  EINTR := 4;
  EINPROGRESS := 115;
  getaddrinfo _ _ _ := Some [1; 2];
  sys_socket s _ := script_open s;
  sys_set_nonblocking s _ _ := s;
  sys_connect s _ _ := script_connect s;
  sys_poll s _ _ := (s, 1, 0);
  sys_so_error s _ := (s, 0);
  sys_setsockopt s _ _ := s;
  sys_bind s _ _ := (s, true);
  sys_listen s _ _ := (s, None);
  sys_accept s _ := script_open s;
  getnameinfo _ _ := None;
  sys_close := script_close;
  sys_write s _ d := script_write s d;
  sys_read s _ n := script_read s n;
  open_fds := so_open;
  outgoing s _ := so_out s;
  incoming s _ := so_in s;
  stalls s := length (so_plan s);
|}.
Proof.
  all: try done.
  - intros s a. simpl. pose proof (fresh_fd_spec s). tauto.
  - intros s l. simpl. pose proof (fresh_fd_spec s). tauto.
  - intros s fd a. unfold script_connect. by destruct (so_refused s).
  - intros s fd d. unfold script_write. destruct (so_plan s) as [|[|n] plan]; simpl.
    + rewrite Nat2Z.id, firstn_all. split; [lia|]. split; [done|]. split; [done|]. by destruct d.
    + split; [done|]. lia.
    + split; [pose proof (length_take_le d (S n)); destruct d; simpl; rewrite ?length_take; lia|].
      rewrite Nat2Z.id. split; [|split; [lia|destruct d; simpl; lia]].
      f_equal. symmetry. apply (take_length_take (S n)).
  - intros s fd n Hn. unfold script_read. destruct (so_plan s) as [|[|k] plan]; simpl.
    + rewrite length_take, take_drop. split; [lia|done].
    + split; [done|]. lia.
    + rewrite length_take, take_drop. split; [destruct (Z.to_nat n) eqn:?; lia|]. split; [done|lia].
  - intros s fd d. unfold script_write. by destruct (so_plan s) as [|[|n] plan].
  - intros s fd n. unfold script_read. by destruct (so_plan s) as [|[|k] plan].
Defined.

End specification.

(** ** Lemmas *)

Section lemmas.
Import TcpHandshakeChannel.
Context {OS : Type} `{!Sockets OS}.
Implicit Types os : OS.

Lemma drop_take_app {A} (l : list A) a b : 0 <= a -> 0 <= b ->
  take (Z.to_nat b) (drop (Z.to_nat a) l) ++ drop (Z.to_nat (a + b)) l = drop (Z.to_nat a) l.
Proof.
  intros Ha Hb. rewrite Z2Nat.inj_add by done. rewrite <- drop_drop. apply take_drop.
Qed.

(** [Send] terminates; what it has put on the stream is a prefix of the message,
    the whole message exactly when it reports success. *)
Lemma send_loop_spec fuel os fd data sent :
  0 <= sent <= Z.of_nat (length data) ->
  (Z.to_nat (Z.of_nat (length data) - sent) + stalls os <= fuel)%nat ->
  exists os' st n, send_loop fuel os fd data sent = Some (os', st)
    /\ sent <= n <= Z.of_nat (length data)
    /\ outgoing os fd ++ drop (Z.to_nat sent) data = outgoing os' fd ++ drop (Z.to_nat n) data
    /\ (st = Err.Status_OK /\ n = Z.of_nat (length data)
        \/ exists e, e <> EINTR /\ st = Err.IOError "write failed" e /\ n < Z.of_nat (length data)).
Proof.
  revert os sent. induction fuel as [|fuel IH]; intros os sent Hs Hf.
  - assert (sent = Z.of_nat (length data)) as -> by lia. exists os, Err.Status_OK, (Z.of_nat (length data)).
    simpl. rewrite Z.leb_refl. split_and!; try done; try lia. by left.
  - cbn [send_loop]. destruct (Z.leb_spec (Z.of_nat (length data)) sent) as [Hle|Hlt].
    { exists os, Err.Status_OK, sent. split_and!; try done; try lia. left. split; [done|lia]. }
    pose proof (write_law os fd (drop (Z.to_nat sent) data)) as Hw.
    destruct (sys_write os fd (drop (Z.to_nat sent) data)) as [os1 [e|k]].
    + destruct Hw as [Ho Hst]. destruct (Z.eqb_spec e EINTR) as [->|He].
      * destruct (IH os1 sent Hs) as (os' & st & n & E & Hn & Hout & Hres); [specialize (Hst eq_refl); lia|].
        exists os', st, n. split; [done|]. split; [done|]. by rewrite <- Ho.
      * exists os1, (Err.IOError "write failed" e), sent. split_and!; try done; try lia; [by rewrite Ho|].
        right. exists e. split_and!; [done..|lia].
    + destruct Hw as (Hk & Ho & Hle & Hst). rewrite length_drop in Hk.
      destruct (IH os1 (sent + k)) as (os' & st & n & E & Hn & Hout & Hres); [lia| |].
      { destruct (decide (k = 0)) as [->|]; [|lia]. assert (drop (Z.to_nat sent) data <> []) as Hd.
        { intros Hd%(f_equal length). rewrite length_drop in Hd. simpl in Hd. lia. }
        specialize (Hst eq_refl Hd). lia. }
      exists os', st, n. split; [done|]. split; [lia|]. split; [|done].
      rewrite <- Hout, Ho, <- app_assoc. f_equal. symmetry. apply drop_take_app; lia.
Qed.

(** [Receive] terminates; it takes a prefix of the stream, a whole message exactly
    when it reports success. *)
Lemma receive_loop_spec fuel os fd total data :
  Z.of_nat (length data) <= total ->
  (Z.to_nat (total - Z.of_nat (length data)) + stalls os <= fuel)%nat ->
  exists os' st d, receive_loop fuel os fd total data = Some (os', st, data ++ d)
    /\ incoming os fd = d ++ incoming os' fd /\ Z.of_nat (length (data ++ d)) <= total
    /\ (st = Err.Status_OK /\ Z.of_nat (length (data ++ d)) = total
        \/ Z.of_nat (length (data ++ d)) < total
           /\ (st = Err.ConnectionReset "Connection closed"
               \/ exists e, e <> EINTR /\ st = Err.IOError "read failed" e)).
Proof.
  revert os data. induction fuel as [|fuel IH]; intros os data Hs Hf.
  - exists os, Err.Status_OK, []. rewrite app_nil_r. simpl.
    destruct (Z.leb_spec total (Z.of_nat (length data))); [|lia]. split_and!; try done. left. split; [done|lia].
  - cbn [receive_loop]. destruct (Z.leb_spec total (Z.of_nat (length data))) as [Hle|Hlt].
    { exists os, Err.Status_OK, []. rewrite app_nil_r. split_and!; try done. left. split; [done|lia]. }
    pose proof (read_law os fd (total - Z.of_nat (length data)) ltac:(lia)) as Hr.
    destruct (sys_read os fd (total - Z.of_nat (length data))) as [os1 [e|d]].
    + destruct Hr as [Hi Hst]. destruct (Z.eqb_spec e EINTR) as [->|He].
      * destruct (IH os1 data Hs) as (os' & st & d & E & Hn & Hout & Hres); [specialize (Hst eq_refl); lia|].
        exists os', st, d. split; [done|]. by rewrite <- Hi.
      * exists os1, (Err.IOError "read failed" e), []. rewrite app_nil_r. split_and!; try done.
        right. split; [lia|]. right. by exists e.
    + destruct Hr as (Hd & Hi & Hst). case_decide as Hn.
      { subst d. exists os1, (Err.ConnectionReset "Connection closed"), []. rewrite app_nil_r. split_and!; try done.
        right. split; [lia|]. by left. }
      assert (0 < Z.of_nat (length d)) by (destruct d; [done|simpl; lia]).
      destruct (IH os1 (data ++ d)) as (os' & st & d' & E & Hin & Hlen & Hres); [rewrite length_app; lia..|].
      exists os', st, (d ++ d'). rewrite (app_assoc data). split; [done|]. split; [|done].
      by rewrite Hi, Hin, app_assoc.
Qed.

(** More fuel changes nothing; so each transfer has one outcome. *)
Lemma send_loop_mono f f' os fd data sent r :
  send_loop f os fd data sent = Some r -> (f <= f')%nat -> send_loop f' os fd data sent = Some r.
Proof.
  revert f' os sent. induction f as [|f IH]; intros f' os sent E Hf; cbn [send_loop] in E.
  - destruct f'; cbn [send_loop]; by case_match.
  - destruct f' as [|f']; [lia|]. cbn [send_loop]. destruct (_ <=? _); [done|].
    destruct (sys_write _ _ _) as [os1 [e|n]]; [destruct (_ =? _); [|done]|]; (apply IH; [done|lia]).
Qed.

Lemma receive_loop_mono f f' os fd total data r :
  receive_loop f os fd total data = Some r -> (f <= f')%nat -> receive_loop f' os fd total data = Some r.
Proof.
  revert f' os data. induction f as [|f IH]; intros f' os data E Hf; cbn [receive_loop] in E.
  - destruct f'; cbn [receive_loop]; by case_match.
  - destruct f' as [|f']; [lia|]. cbn [receive_loop]. destruct (_ <=? _); [done|].
    destruct (sys_read _ _ _) as [os1 [e|d]]; [destruct (_ =? _); [|done]|case_decide; [done|]]; (apply IH; [done|lia]).
Qed.

Lemma Send_mono f f' os c data r : (f <= f')%nat -> Send f os c data = Some r -> Send f' os c data = Some r.
Proof. unfold Send. destruct (fd_ c <? 0); [done|intros ? ?; by eapply send_loop_mono]. Qed.

Lemma Receive_mono f f' os c r : (f <= f')%nat -> Receive f os c = Some r -> Receive f' os c = Some r.
Proof. unfold Receive. destruct (fd_ c <? 0); [done|intros ? ?; by eapply receive_loop_mono]. Qed.

Lemma Send_total os c data :
  exists os' st, forall fuel, (length data + stalls os <= fuel)%nat -> Send fuel os c data = Some (os', st).
Proof.
  unfold Send. destruct (fd_ c <? 0); [by do 2 eexists|].
  destruct (send_loop_spec (length data + stalls os) os (fd_ c) data 0) as (os' & st & n & E & _); [lia|lia|].
  exists os', st. intros fuel Hf. by eapply send_loop_mono.
Qed.

Lemma Receive_total os c :
  exists os' st d, forall fuel, (128 + stalls os <= fuel)%nat -> Receive fuel os c = Some (os', st, d).
Proof.
  unfold Receive. destruct (fd_ c <? 0); [by do 3 eexists|].
  destruct (receive_loop_spec (128 + stalls os) os (fd_ c) HandshakeMessage.size []) as (os' & st & d & E & _);
    [done|unfold HandshakeMessage.size; simpl; lia|].
  exists os', st, ([] ++ d). intros fuel Hf. by eapply receive_loop_mono.
Qed.

(** *** The message image *)

Lemma bytes_length p1 p2 p3 m : message_wf m -> length p1 = 2%nat -> length p3 = 4%nat ->
  Z.of_nat (length (HandshakeMessage.bytes p1 p2 p3 m)) = HandshakeMessage.size.
Proof.
  intros (Hq & _ & _ & _ & _ & _ & _ & Hh) H1 H3. destruct Hq as (_ & _ & _ & Hg & _).
  unfold HandshakeMessage.bytes. rewrite !length_app, !le_bytes_length, H1, H3, Hg, Hh. done.
Qed.

Lemma of_bytes_bytes p1 p2 p3 m : message_wf m -> length p1 = 2%nat -> length p3 = 4%nat ->
  HandshakeMessage.of_bytes (HandshakeMessage.bytes p1 p2 p3 m) = m.
Proof.
  intros (Hq & Ha & Hr & Hl & Hc & Hv & Hf & Hh) H1 H3.
  destruct Hq as (Q1 & Q2 & Q3 & Hg & Q4 & Q5 & Q6).
  destruct m as [[lid qpn psn gid pn gi mtu] [ad rk ln] ci ve fl ho]; simpl in *.
  do 3 (destruct p1 as [|? p1]; [try done|]; try done). do 5 (destruct p3 as [|? p3]; [try done|]; try done).
  do 17 (destruct gid as [|? gid]; [try done|]; try done).
  unfold HandshakeMessage.of_bytes. f_equal.
  - f_equal; [exact (le_word_bytes 2 lid Q1)|exact (le_word_bytes 4 qpn Q2)|exact (le_word_bytes 4 psn Q3)
      |exact (le_word_bytes 2 pn Q4)|exact (le_word_bytes 1 gi Q5)|exact (le_word_bytes 4 mtu Q6)].
  - f_equal; [exact (le_word_bytes 8 ad Ha)|exact (le_word_bytes 4 rk Hr)|exact (le_word_bytes 4 ln Hl)].
  - exact (le_word_bytes 2 ci Hc).
  - exact (le_word_bytes 2 ve Hv).
  - exact (le_word_bytes 4 fl Hf).
  - change (take 64 ho = ho). apply take_ge. lia.
Qed.

(** *** Descriptors *)

Lemma connect_loop_fds addrs os timeout :
  let '(os', fd) := connect_loop os addrs timeout in
  if fd <? 0 then open_fds os' = open_fds os
  else fd ∉ open_fds os /\ open_fds os' = {[fd]} ∪ open_fds os.
Proof.
  revert os. induction addrs as [|rp addrs IH]; intros os; [done|]. cbn [connect_loop].
  pose proof (socket_law os rp) as Hso. destruct (sys_socket os rp) as [os1 [e|fd]].
  { rewrite <- Hso. apply IH. }
  destruct Hso as (Hfd & Hnew & Hopen).
  set (os2 := sys_set_nonblocking os1 fd true).
  assert (H2 : open_fds os2 = open_fds os1) by apply nonblocking_fds.
  pose proof (connect_fds os2 fd rp) as H3. destruct (sys_connect os2 fd rp) as [os3 ret]. simpl in H3.
  assert (Hretry : forall os4, open_fds os4 = open_fds os1 ->
    let '(os', fd) := connect_loop (sys_close os4 fd) addrs timeout in
    if fd <? 0 then open_fds os' = open_fds os
    else fd ∉ open_fds os /\ open_fds os' = {[fd]} ∪ open_fds os).
  { intros os4 E4. specialize (IH (sys_close os4 fd)).
    assert (E : open_fds (sys_close os4 fd) = open_fds os) by (rewrite close_law, E4, Hopen; set_solver).
    rewrite E in IH. exact IH. }
  assert (Hdone : forall os4, open_fds os4 = open_fds os1 ->
    if fd <? 0 then open_fds (sys_set_nonblocking os4 fd false) = open_fds os
    else fd ∉ open_fds os /\ open_fds (sys_set_nonblocking os4 fd false) = {[fd]} ∪ open_fds os).
  { intros os4 E4. destruct (Z.ltb_spec fd 0); [lia|]. rewrite nonblocking_fds, E4. done. }
  destruct ret as [errno|]; [|apply Hdone; congruence].
  destruct (negb (errno =? EINPROGRESS)); [apply Hretry; congruence|].
  pose proof (poll_fds os3 fd timeout) as H4. destruct (sys_poll os3 fd timeout) as [[os4 r] ?]. simpl in H4.
  destruct (r <=? 0); [apply Hretry; congruence|].
  pose proof (so_error_fds os4 fd) as H5. destruct (sys_so_error os4 fd) as [os5 error]. simpl in H5.
  destruct (negb (error =? 0)); [apply Hretry|apply Hdone]; congruence.
Qed.

Lemma bind_loop_fds addrs os :
  let '(os', fd) := bind_loop os addrs in
  if fd <? 0 then open_fds os' = open_fds os
  else fd ∉ open_fds os /\ open_fds os' = {[fd]} ∪ open_fds os.
Proof.
  revert os. induction addrs as [|rp addrs IH]; intros os; [done|]. cbn [bind_loop].
  pose proof (socket_law os rp) as Hso. destruct (sys_socket os rp) as [os1 [e|fd]].
  { rewrite <- Hso. apply IH. }
  destruct Hso as (Hfd & Hnew & Hopen).
  set (os2 := sys_setsockopt os1 fd _). assert (H2 : open_fds os2 = open_fds os1) by apply setsockopt_fds.
  pose proof (bind_fds os2 fd rp) as H3. destruct (sys_bind os2 fd rp) as [os3 []]; simpl in H3.
  - destruct (Z.ltb_spec fd 0); [lia|]. split; [done|congruence].
  - specialize (IH (sys_close os3 fd)).
    assert (E : open_fds (sys_close os3 fd) = open_fds os) by (rewrite close_law, H3, H2, Hopen; set_solver).
    rewrite E in IH. exact IH.
Qed.

Lemma Connect_opens os host port timeout : opens_one os fd_ (Connect os host port timeout).
Proof.
  unfold Connect. destruct (getaddrinfo os _ _) as [addrs|]; [|done].
  pose proof (connect_loop_fds addrs os timeout) as H. destruct (connect_loop os addrs timeout) as [os1 fd].
  destruct (Z.ltb_spec fd 0); [done|]. simpl. by rewrite setsockopt_fds.
Qed.

Lemma listen_opens os addr port backlog : opens_one os (fun fd => fd) (CreateListenSocket os addr port backlog).
Proof.
  unfold CreateListenSocket. destruct (getaddrinfo os _ _) as [addrs|]; [|done].
  pose proof (bind_loop_fds addrs os) as H. destruct (bind_loop os addrs) as [os1 fd].
  destruct (Z.ltb_spec fd 0); [done|]. pose proof (listen_fds os1 fd backlog) as Hli.
  destruct (sys_listen os1 fd backlog) as [os2 [e|]]; simpl in *.
  - rewrite close_law, Hli. destruct H as [H ->]. set_solver.
  - by rewrite Hli.
Qed.

Lemma Accept_opens os listen_fd timeout : opens_one os fd_ (Accept os listen_fd timeout).
Proof.
  unfold Accept. pose proof (poll_fds os listen_fd timeout) as Hp.
  destruct (sys_poll os listen_fd timeout) as [[os1 r] e]. simpl in Hp.
  destruct (r <? 0); [done|]. destruct (r =? 0); [done|]. pose proof (accept_law os1 listen_fd) as Ha.
  destruct (sys_accept os1 listen_fd) as [os2 [e'|fd]]; simpl; [congruence|]. rewrite setsockopt_fds. by rewrite <- Hp.
Qed.

Lemma server_opens os addr port backlog :
  opens_one os TcpHandshakeServer.listen_fd_ (TcpHandshakeServer.Create os addr port backlog).
Proof.
  pose proof (listen_opens os addr port backlog) as H. unfold TcpHandshakeServer.Create.
  by destruct (CreateListenSocket os addr port backlog) as [os1 [fd|st]].
Qed.

(** The transfers open and close nothing. *)
Lemma Send_fds fuel os c data os' st : Send fuel os c data = Some (os', st) -> open_fds os' = open_fds os.
Proof.
  unfold Send. destruct (fd_ c <? 0); [by intros [= <- _]|]. generalize 0 as sent. revert os.
  induction fuel as [|fuel IH]; intros os sent; cbn [send_loop]; (destruct (_ <=? _); [by intros [= <- _]|]); [done|].
  pose proof (write_fds os (fd_ c) (drop (Z.to_nat sent) data)) as H.
  destruct (sys_write _ _ _) as [os1 [e|n]]; cbn [fst] in H; rewrite <- H; [|apply IH].
  destruct (_ =? _); [apply IH|by intros [= <- _]].
Qed.

Lemma Receive_fds fuel os c os' st d : Receive fuel os c = Some (os', st, d) -> open_fds os' = open_fds os.
Proof.
  unfold Receive. destruct (fd_ c <? 0); [by intros [= <- _ _]|]. generalize (@nil Z) as data. revert os.
  induction fuel as [|fuel IH]; intros os data; cbn [receive_loop]; (destruct (_ <=? _); [by intros [= <- _ _]|]); [done|].
  pose proof (read_fds os (fd_ c) (HandshakeMessage.size - Z.of_nat (length data))) as H.
  destruct (sys_read _ _ _) as [os1 [e|l]]; cbn [fst] in H; rewrite <- H.
  - destruct (_ =? _); [apply IH|by intros [= <- _ _]].
  - case_decide; [by intros [= <- _ _]|apply IH].
Qed.

(** Closing a channel gives its descriptor back. *)
Lemma Close_fds os c : 0 <= fd_ c -> open_fds (Close os c).1 = open_fds os ∖ {[fd_ c]}.
Proof. intros Hc. unfold Close. rewrite (proj2 (Z.leb_le _ _)) by done. apply close_law. Qed.

Lemma server_Close_fds os s : 0 <= TcpHandshakeServer.listen_fd_ s ->
  open_fds (TcpHandshakeServer.Close os s).1 = open_fds os ∖ {[TcpHandshakeServer.listen_fd_ s]}.
Proof. intros Hs. unfold TcpHandshakeServer.Close. rewrite (proj2 (Z.leb_le _ _)) by done. apply close_law. Qed.

End lemmas.

(** ** Properties *)

Section properties.
Import TcpHandshakeChannel.

(** C35: A handshake message arrives whole and unchanged. Whatever the system does
    - short writes and reads, interruptions - [Send] ends and has put a prefix of
    the message's image on the stream, all of it exactly when it reports OK. On
    any peer whose descriptor then delivers these bytes and possibly more,
    [Receive] ends, takes at most one message, and when it reports OK the struct
    it filled is the message that was sent, whatever the padding bytes were, and
    the rest of the stream is untouched. *)
Theorem handshake_roundtrip {OSA OSB} `{!Sockets OSA, !Sockets OSB} (a : OSA) (b : OSB)
    (ca cb : TcpHandshakeChannel) m p1 p2 p3 rest fuel :
  message_wf m -> length p1 = 2%nat -> length p3 = 4%nat -> 0 <= fd_ ca -> 0 <= fd_ cb ->
  (128 + stalls a <= fuel)%nat -> (128 + stalls b <= fuel)%nat ->
  exists a' sa n, Send fuel a ca (HandshakeMessage.bytes p1 p2 p3 m) = Some (a', sa)
    /\ outgoing a' (fd_ ca) = outgoing a (fd_ ca) ++ take n (HandshakeMessage.bytes p1 p2 p3 m)
    /\ (status_ok sa = true <-> n = 128%nat) /\ (n <= 128)%nat
    /\ (status_ok sa = true ->
        incoming b (fd_ cb) = HandshakeMessage.bytes p1 p2 p3 m ++ rest ->
        exists b' sb d, Receive fuel b cb = Some (b', sb, d)
          /\ HandshakeMessage.bytes p1 p2 p3 m ++ rest = d ++ incoming b' (fd_ cb)
          /\ (status_ok sb = true <-> length d = 128%nat)
          /\ (status_ok sb = true -> HandshakeMessage.of_bytes d = m /\ incoming b' (fd_ cb) = rest)).
Proof.
  intros Hm H1 H3 Ha Hb Hfa Hfb. pose proof (bytes_length p1 p2 p3 m Hm H1 H3) as Hlen.
  unfold HandshakeMessage.size in Hlen. pose proof (of_bytes_bytes p1 p2 p3 m Hm H1 H3) as Hdec.
  set (wire := HandshakeMessage.bytes p1 p2 p3 m) in *. clearbody wire.
  unfold Send. destruct (Z.ltb_spec (fd_ ca) 0); [lia|].
  destruct (send_loop_spec fuel a (fd_ ca) wire 0) as (a' & sa & n & E & Hn & Hout & Hres); [lia|lia|].
  exists a', sa, (Z.to_nat n). split; [done|]. split; [|split; [|split; [lia|]]].
  - apply (app_inv_tail (drop (Z.to_nat n) wire)). rewrite <- Hout, <- app_assoc, take_drop. done.
  - destruct Hres as [[-> ->]|(e & _ & -> & Hl)]; simpl.
    + split; [lia|done].
    + split; [done|intros ?; exfalso; lia].
  - intros _ Hin. unfold Receive. destruct (Z.ltb_spec (fd_ cb) 0); [lia|].
    destruct (receive_loop_spec fuel b (fd_ cb) HandshakeMessage.size []) as (b' & sb & d & E' & Hd & Hdl & Hres');
      [done|unfold HandshakeMessage.size; simpl; lia|]. simpl in *. unfold HandshakeMessage.size in *.
    exists b', sb, d. split; [done|]. split; [congruence|].
    assert (Hok : status_ok sb = true <-> length d = 128%nat).
    { destruct Hres' as [[-> Hd']|[Hd' [->|(e & _ & ->)]]]; simpl;
        (split; [|done || (intros ?; exfalso; lia)]); [lia|done..]. }
    split; [done|]. intros Hsb%Hok. rewrite Hin in Hd.
    apply app_inj_1 in Hd as [<- <-]; [done|lia].
Qed.

Lemma handshake_roundtrip_witness :
  exists a' b' d,
    Send 140 example_sender example_channel (HandshakeMessage.bytes [0; 0] 0 [0; 0; 0; 0] example_message)
    = Some (a', Err.Status_OK)
    /\ Receive 140 example_receiver example_channel = Some (b', Err.Status_OK, d)
    /\ HandshakeMessage.of_bytes d = example_message.
Proof.
  destruct (handshake_roundtrip example_sender example_receiver example_channel example_channel example_message
    [0; 0] 0 [0; 0; 0; 0] [1; 2; 3] 140) as (a' & sa & n & E & _ & _ & _ & H);
    [repeat split; vm_compute; congruence|reflexivity|reflexivity|vm_compute; congruence|vm_compute; congruence
    |vm_compute; lia|vm_compute; lia|].
  assert (sa = Err.Status_OK) as ->.
  { apply (f_equal (option_map snd)) in E. vm_compute in E. injection E as <-. reflexivity. }
  destruct (H eq_refl eq_refl) as (b' & sb & d & E' & _ & _ & Hd).
  assert (sb = Err.Status_OK) as ->.
  { apply (f_equal (option_map (fun r => snd (fst r)))) in E'. vm_compute in E'. injection E' as <-. reflexivity. }
  exists a', b', d. split; [exact E|]. split; [exact E'|]. apply (Hd eq_refl).
Defined.

(** No descriptor is lost. [Connect], [Accept] and [CreateListenSocket] leave
    exactly the descriptor they return open when they succeed and none when they
    fail, over every list of addresses and on every error path; closing the
    result restores the set of open descriptors, and closing again does
    nothing. *)
Theorem no_descriptor_leak {OS} `{!Sockets OS} (os : OS) host port timeout listen_fd addr backlog :
  opens_one os fd_ (Connect os host port timeout)
  /\ opens_one os fd_ (Accept os listen_fd timeout)
  /\ opens_one os (fun fd => fd) (CreateListenSocket os addr port backlog)
  /\ opens_one os TcpHandshakeServer.listen_fd_ (TcpHandshakeServer.Create os addr port backlog)
  /\ (forall os' c, Connect os host port timeout = (os', RVal c) ->
      open_fds (Close os' c).1 = open_fds os
      /\ Close (Close os' c).1 (Close os' c).2 = Close os' c /\ IsConnected (Close os' c).2 = false).
Proof.
  split; [apply Connect_opens|]. split; [apply Accept_opens|]. split; [apply listen_opens|].
  split; [apply server_opens|]. intros os' c E. pose proof (Connect_opens os host port timeout) as Hc.
  rewrite E in Hc. destruct Hc as (Hp & Hn & Ho). split; [rewrite Close_fds, Ho by done; set_solver|].
  unfold Close, IsConnected. by destruct (Z.leb_spec 0 (fd_ c)); [|lia].
Qed.

End properties.
