(* ===== verification/Reactor.v ===== *)
(** * The reactor

    Models [include/rdma/reactor/reactor.h] and [src/reactor/reactor.cpp] on the
    dispatcher, the timing wheel and the task queue. Completion queues are the
    device's, through [CompletionSource]. Several queues may share a dispatcher:
    dispatchers are looked up by address. Handlers, tasks and pollers are events;
    they do not re-enter the reactor, and the results of pollers are a parameter.
    [None] is undefined behaviour. *)

From S2P Require Import Prelude Chain Types Logging Float32 WrId Verbs CompletionDispatcher TimingWheel MpscQueue.

(** [ibv_poll_cq]: an error code, or the completions written, at most [max].
    [pending] are the completions a queue holds, oldest first. *)
Class CompletionSource (HW : Type) := {
  ibv_poll_cq : HW -> Z -> Z -> HW * (Z + list ibv_wc);
  pending : HW -> Z -> list ibv_wc;
  poll_law hw cq max : match ibv_poll_cq hw cq max with
                       | (hw', inl e) => e < 0 /\ pending hw' cq = pending hw cq
                       | (hw', inr l) => Z.of_nat (length l) <= Z.max 0 max
                                         /\ pending hw cq = l ++ pending hw' cq
                                         /\ (0 < max -> l = [] -> pending hw cq = [])
                       end;
  poll_other hw cq max cq' : cq' <> cq -> pending (ibv_poll_cq hw cq max).1 cq' = pending hw cq';
}.

Module Reactor.

Record ReactorConfig := {
  batch_mode : BatchMode;
  latency_batch_size : Z;
  throughput_batch_size : Z;
  max_batch_size : Z;
  max_spin_count : Z;
  cpu_core : Z;
  numa_node : Z;
}.

Definition ReactorConfig_default : ReactorConfig :=
  {| batch_mode := THROUGHPUT; latency_batch_size := 16; throughput_batch_size := 64;
     max_batch_size := 128; max_spin_count := 1000; cpu_core := -1; numa_node := -1 |}.

Inductive Event :=
  | EDispatch (e : CompletionDispatcher.Event)
  | ETask (fn ctx : Z)
  | EPoller (fn ctx : Z).

(** [tasks] are the members [fn] and [ctx] of the task nodes. *)
Record Reactor := {
  config_ : ReactorConfig;
  running_ : bool;
  cq_entries_ : list (Z * Z);          (* queue and dispatcher *)
  pollers_ : list (Z * Z);             (* fn and ctx *)
  timing_wheel_ : TimingWheel.TimingWheel;
  task_queue_ : MpscQueue.MpscQueue;
  tasks : gmap Z (Z * Z);
  wc_buffer_size_ : Z;
  current_batch_size_ : Z;
  poll_count_ : Z;                     (* uint64_t *)
  total_wc_count_ : Z;                 (* uint64_t *)
  idle_spin_count_ : Z;                (* uint32_t *)
  thread_id_ : option Z;               (* std::thread::id, [None] for no thread *)
}.

Definition GetCurrentBatchSize (r : Reactor) : Z := current_batch_size_ r.
Definition IsRunning (r : Reactor) : bool := running_ r.
Definition GetThreadId (r : Reactor) : option Z := thread_id_ r.
Definition GetTimingWheel (r : Reactor) : TimingWheel.TimingWheel := timing_wheel_ r.

(** [Create]; [buffer] says whether the completion buffer could be allocated. *)
Definition Create (buffer : bool) (config : ReactorConfig) : Result Reactor :=
  let batch := match batch_mode config with
               | LATENCY => latency_batch_size config
               | THROUGHPUT => throughput_batch_size config
               | ADAPTIVE => 32
               end in
  if negb buffer then RErr (Err.ResourceExhausted "Failed to allocate WC buffer")
  else RVal {| config_ := config; running_ := false; cq_entries_ := []; pollers_ := [];
               timing_wheel_ := TimingWheel.TimingWheel_new; task_queue_ := MpscQueue.MpscQueue_new;
               tasks := ∅; wc_buffer_size_ := max_batch_size config; current_batch_size_ := batch;
               poll_count_ := 0; total_wc_count_ := 0; idle_spin_count_ := 0; thread_id_ := None |}.

Definition set_entries (r : Reactor) (cqs pollers : list (Z * Z)) : Reactor :=
  {| config_ := config_ r; running_ := running_ r; cq_entries_ := cqs; pollers_ := pollers;
     timing_wheel_ := timing_wheel_ r; task_queue_ := task_queue_ r; tasks := tasks r;
     wc_buffer_size_ := wc_buffer_size_ r; current_batch_size_ := current_batch_size_ r;
     poll_count_ := poll_count_ r; total_wc_count_ := total_wc_count_ r;
     idle_spin_count_ := idle_spin_count_ r; thread_id_ := thread_id_ r |}.

Definition set_wheel (r : Reactor) (t : TimingWheel.TimingWheel) : Reactor :=
  {| config_ := config_ r; running_ := running_ r; cq_entries_ := cq_entries_ r; pollers_ := pollers_ r;
     timing_wheel_ := t; task_queue_ := task_queue_ r; tasks := tasks r;
     wc_buffer_size_ := wc_buffer_size_ r; current_batch_size_ := current_batch_size_ r;
     poll_count_ := poll_count_ r; total_wc_count_ := total_wc_count_ r;
     idle_spin_count_ := idle_spin_count_ r; thread_id_ := thread_id_ r |}.

Definition set_queue (r : Reactor) (q : MpscQueue.MpscQueue) : Reactor :=
  {| config_ := config_ r; running_ := running_ r; cq_entries_ := cq_entries_ r; pollers_ := pollers_ r;
     timing_wheel_ := timing_wheel_ r; task_queue_ := q; tasks := tasks r;
     wc_buffer_size_ := wc_buffer_size_ r; current_batch_size_ := current_batch_size_ r;
     poll_count_ := poll_count_ r; total_wc_count_ := total_wc_count_ r;
     idle_spin_count_ := idle_spin_count_ r; thread_id_ := thread_id_ r |}.

Definition set_stats (r : Reactor) (batch polls total idle : Z) : Reactor :=
  {| config_ := config_ r; running_ := running_ r; cq_entries_ := cq_entries_ r; pollers_ := pollers_ r;
     timing_wheel_ := timing_wheel_ r; task_queue_ := task_queue_ r; tasks := tasks r;
     wc_buffer_size_ := wc_buffer_size_ r; current_batch_size_ := batch;
     poll_count_ := polls; total_wc_count_ := total; idle_spin_count_ := idle; thread_id_ := thread_id_ r |}.

Definition set_running (r : Reactor) (b : bool) : Reactor :=
  {| config_ := config_ r; running_ := b; cq_entries_ := cq_entries_ r; pollers_ := pollers_ r;
     timing_wheel_ := timing_wheel_ r; task_queue_ := task_queue_ r; tasks := tasks r;
     wc_buffer_size_ := wc_buffer_size_ r; current_batch_size_ := current_batch_size_ r;
     poll_count_ := poll_count_ r; total_wc_count_ := total_wc_count_ r;
     idle_spin_count_ := idle_spin_count_ r; thread_id_ := thread_id_ r |}.

Definition set_thread (r : Reactor) (id : option Z) : Reactor :=
  {| config_ := config_ r; running_ := running_ r; cq_entries_ := cq_entries_ r; pollers_ := pollers_ r;
     timing_wheel_ := timing_wheel_ r; task_queue_ := task_queue_ r; tasks := tasks r;
     wc_buffer_size_ := wc_buffer_size_ r; current_batch_size_ := current_batch_size_ r;
     poll_count_ := poll_count_ r; total_wc_count_ := total_wc_count_ r;
     idle_spin_count_ := idle_spin_count_ r; thread_id_ := id |}.

Section initialize.

(** The calling thread, and what [pthread_setaffinity_np] returns for it and a set
    of processors; the build with logging. *)
Variables (thread : Z) (pthread_setaffinity_np : list Z -> Z) (enabled : bool).

(** [CPU_SET] ignores a processor that the set has no room for. *)
Definition cpuset (cpu_core : Z) : list Z := if cpu_core <? 1024 then [cpu_core] else [].

(** On Linux. *)
Definition PinThread (log : Logger.Logger) (cpu_core : Z) : Logger.Logger * Status :=
  let ret := pthread_setaffinity_np (cpuset cpu_core) in
  if negb (ret =? 0) then (log, Err.IOError "Failed to set CPU affinity" ret)
  else (Logger.RDMA_LOG_INFO enabled log "reactor.cpp" 190 "Thread pinned to CPU %d" [Logger.AInt cpu_core], Err.Status_OK).

(** A thread that cannot be pinned is no error. *)
Definition Initialize (log : Logger.Logger) (r : Reactor) : Logger.Logger * Reactor * Status :=
  let r := set_thread r (Some thread) in
  if 0 <=? cpu_core (config_ r) then
    let '(log, status) := PinThread log (cpu_core (config_ r)) in
    let log := if negb (status_ok status)
               then Logger.RDMA_LOG_WARN enabled log "reactor.cpp" 60 "Failed to pin thread to CPU %d: %s"
                      [Logger.AInt (cpu_core (config_ r)); Logger.AString (Err.message status)]
               else log in
    (log, r, Err.Status_OK)
  else (log, r, Err.Status_OK).

End initialize.

Definition RegisterCQ (r : Reactor) (cq dispatcher : Z) : Reactor :=
  set_entries r (cq_entries_ r ++ [(cq, dispatcher)]) (pollers_ r).

Definition RegisterPoller (r : Reactor) (fn ctx : Z) : Reactor :=
  set_entries r (cq_entries_ r) (pollers_ r ++ [(fn, ctx)]).

(** The result of [Schedule] is dropped. *)
Definition ScheduleTimeout (r : Reactor) (slot_index generation timeout_ms : Z) : option Reactor :=
  '(t, _) ← TimingWheel.Schedule (timing_wheel_ r) slot_index generation timeout_ms;
  Some (set_wheel r t).

Definition Stop (r : Reactor) : Reactor := set_running r false.

(** [Execute], run without interference; the interleavings are in [MpscQueue]. *)
Definition Execute (r : Reactor) (task fn ctx : Z) : Reactor :=
  let q := task_queue_ r in
  let r := set_queue r (MpscQueue.set_head (MpscQueue.write_next q task (MpscQueue.head_ q)) task) in
  {| config_ := config_ r; running_ := running_ r; cq_entries_ := cq_entries_ r; pollers_ := pollers_ r;
     timing_wheel_ := timing_wheel_ r; task_queue_ := task_queue_ r; tasks := <[task := (fn, ctx)]> (tasks r);
     wc_buffer_size_ := wc_buffer_size_ r; current_batch_size_ := current_batch_size_ r;
     poll_count_ := poll_count_ r; total_wc_count_ := total_wc_count_ r;
     idle_spin_count_ := idle_spin_count_ r; thread_id_ := thread_id_ r |}.

(** The loop of [ProcessTasks]; the fuel is the number of nodes. *)
Fixpoint tasks_loop (fuel : nat) (r : Reactor) (head count : Z) : option (list Event * Z) :=
  if head =? 0 then Some ([], count)
  else
    match fuel with
    | O => None
    | S fuel =>
        next ← MpscQueue.next_ (task_queue_ r) !! head;
        '(fn, ctx) ← tasks r !! head;
        '(evs, count) ← tasks_loop fuel r next (count + 1);
        Some (ETask fn ctx :: evs, count)
    end.

Definition ProcessTasks (r : Reactor) : option (Reactor * list Event * Z) :=
  let '(q, head) := MpscQueue.PopAll (task_queue_ r) in
  let r := set_queue r q in
  '(evs, count) ← tasks_loop (size (MpscQueue.next_ q)) r head 0;
  Some (r, evs, count).

(** The expired entries are counted and dropped. *)
Definition ProcessTimeouts (r : Reactor) : option (Reactor * Z) :=
  '(t, expired) ← TimingWheel.Tick (timing_wheel_ r);
  Some (set_wheel r t, Z.of_nat (length expired)).

(** [AdaptBatchSize]; doubling beyond the range of [int] is undefined. *)
Definition AdaptBatchSize (r : Reactor) : option Reactor :=
  let c := config_ r in
  match batch_mode c with
  | ADAPTIVE =>
      let size := current_batch_size_ r in
      let avg_wc := Float32.div (Float32.of_Z (total_wc_count_ r)) (Float32.of_Z (poll_count_ r)) in
      size ←
        (if Float32.ltb (Float32.mul (Float32.of_Z size) Float32.f0_8) avg_wc then
           if decide (-2 ^ 31 <= size * 2 < 2 ^ 31) then Some (Z.min (size * 2) (max_batch_size c)) else None
         else if Float32.ltb avg_wc (Float32.mul (Float32.of_Z size) Float32.f0_2)
                 && (latency_batch_size c <? size)
         then Some (Z.max (Z.quot size 2) (latency_batch_size c))
         else Some size);
      Some (set_stats r size 0 0 (idle_spin_count_ r))
  | _ => Some r
  end.

(** [AdaptiveBackoff] on x86; the pauses are left out. *)
Definition AdaptiveBackoff (r : Reactor) : Reactor :=
  let idle := u32 (idle_spin_count_ r + 1) in
  let idle := if idle <? 100 then idle
              else if idle <? 1000 then idle
              else if idle <? max_spin_count (config_ r) then idle
              else max_spin_count (config_ r) in
  set_stats r (current_batch_size_ r) (poll_count_ r) (total_wc_count_ r) idle.

Section device.
Context {HW : Type} `{!CompletionSource HW}.

(** What a call of [poller] returns. *)
Variable poller : Z -> Z -> Z.

(** The device, the dispatchers and the reactor. *)
Record World := {
  hw : HW;
  dispatchers : gmap Z CompletionDispatcher.CompletionDispatcher;
  reactor : Reactor;
}.

(** Step 1 of [Poll]. A queue that returned more completions than the buffer
    holds would have written outside it. *)
Fixpoint poll_queues (w : World) (entries : list (Z * Z)) (total_events : Z)
    : option (World * list Event * Z) :=
  match entries with
  | [] => Some (w, [], total_events)
  | (cq, d) :: entries =>
      let r := reactor w in
      match ibv_poll_cq (hw w) cq (current_batch_size_ r) with
      | (h, inl _) => poll_queues {| hw := h; dispatchers := dispatchers w; reactor := r |} entries total_events
      | (h, inr wcs) =>
          let n := Z.of_nat (length wcs) in
          if wc_buffer_size_ r <? n then None
          else if 0 <? n then
            dispatcher ← dispatchers w !! d;
            '(dispatcher, evs) ← CompletionDispatcher.DispatchBatchSimple dispatcher wcs;
            let r := set_stats r (current_batch_size_ r) (poll_count_ r) (u64 (total_wc_count_ r + n))
                       (idle_spin_count_ r) in
            '(w, evs', total_events) ←
              poll_queues {| hw := h; dispatchers := <[d := dispatcher]> (dispatchers w); reactor := r |}
                entries (total_events + n);
            Some (w, (EDispatch <$> evs) ++ evs', total_events)
          else poll_queues {| hw := h; dispatchers := dispatchers w; reactor := r |} entries total_events
      end
  end.

Definition with_reactor (w : World) (r : Reactor) : World :=
  {| hw := hw w; dispatchers := dispatchers w; reactor := r |}.

(** Steps 2 to 6 of [Poll], which only concern the reactor. [total_events] is not
    bounded to the range of [int]. *)
Definition poll_rest (r : Reactor) (total_events : Z) : option (Reactor * list Event * Z) :=
  '(r, evs1, n) ← ProcessTasks r;
  let total_events := total_events + n in
  '(r, n) ← ProcessTimeouts r;
  let total_events := total_events + n in
  let evs2 := (fun p => EPoller p.1 p.2) <$> pollers_ r in
  let total_events := total_events + sumZ ((fun p => poller p.1 p.2) <$> pollers_ r) in
  let polls := u64 (poll_count_ r + 1) in
  let r := set_stats r (current_batch_size_ r) polls (total_wc_count_ r) (idle_spin_count_ r) in
  r ← (if polls mod 1000 =? 0 then AdaptBatchSize r else Some r);
  let r := if 0 <? total_events
           then set_stats r (current_batch_size_ r) (poll_count_ r) (total_wc_count_ r) 0
           else AdaptiveBackoff r in
  Some (r, evs1 ++ evs2, total_events).

Definition Poll (w : World) : option (World * list Event * Z) :=
  '(w, evs1, total_events) ← poll_queues w (cq_entries_ (reactor w)) 0;
  '(r, evs2, total_events) ← poll_rest (reactor w) total_events;
  Some (with_reactor w r, evs1 ++ evs2, total_events).

(** [n] iterations of the loop of [Run]. *)
Fixpoint polls (n : nat) (w : World) : option (World * list Event) :=
  match n with
  | O => Some (w, [])
  | S n =>
      '(w, evs, _) ← Poll w;
      '(w, evs') ← polls n w;
      Some (w, evs ++ evs')
  end.

End device.
Arguments World : clear implicits.
End Reactor.

(** ** Specification *)

Section specification.
Import Reactor.
Context {HW : Type} `{!CompletionSource HW}.

(** The sizes the reactor relies on: no batch is larger than the buffer. *)
Definition config_ok (c : ReactorConfig) : Prop :=
  0 < latency_batch_size c <= max_batch_size c /\ 0 < throughput_batch_size c <= max_batch_size c
  /\ (batch_mode c = ADAPTIVE -> 32 <= max_batch_size c) /\ max_batch_size c < 2 ^ 30.

Definition valid_id (wc : ibv_wc) : Prop := WrId.GetConnId (wc_wr_id wc) <> 0xFFFF.

Definition dispatchers_ok (ds : gmap Z CompletionDispatcher.CompletionDispatcher) (specs : gmap Z Spec) : Prop :=
  forall d s, specs !! d = Some s -> exists disp, ds !! d = Some disp /\ represents disp s.

Definition entries_ok (h : HW) (specs : gmap Z Spec) (entries : list (Z * Z)) : Prop :=
  forall e, e ∈ entries -> is_Some (specs !! e.2) /\ Forall valid_id (pending h e.1).

(** The reactor itself is in order: the batches fit the buffer, the wheel is [t],
    [q] are the tasks queued, newest first. *)
Record core_ok (r : Reactor) (q : list Z) (t : SWheel) : Prop := {
  ro_config : config_ok (config_ r);
  ro_buffer : wc_buffer_size_ r = max_batch_size (config_ r);
  ro_batch : 0 < current_batch_size_ r <= max_batch_size (config_ r);
  ro_wheel : wheel_rep (timing_wheel_ r) t;
  ro_queue : next_chain (MpscQueue.next_ (task_queue_ r)) (MpscQueue.head_ (task_queue_ r)) q;
  ro_nodup : NoDup q;
  ro_tasks : forall i, i ∈ q -> is_Some (tasks r !! i);
}.

(** So are the queues and the dispatchers, which represent the registries. *)
Record reactor_ok (w : World HW) (specs : gmap Z Spec) (q : list Z) (t : SWheel) : Prop := {
  ro_core : core_ok (reactor w) q t;
  ro_entries : entries_ok (hw w) specs (cq_entries_ (reactor w));
  ro_dispatchers : dispatchers_ok (dispatchers w) specs;
}.

(** What one round takes from the queues, without the dispatching. *)
Fixpoint take_batches (h : HW) (entries : list (Z * Z)) (max : Z) : HW * list (list ibv_wc) :=
  match entries with
  | [] => (h, [])
  | (cq, _) :: entries =>
      let '(h, r) := ibv_poll_cq h cq max in
      let '(h, bs) := take_batches h entries max in
      (h, (match r with inl _ => [] | inr l => l end) :: bs)
  end.

Definition dispatch_events (specs : gmap Z Spec) (entry : Z * Z) (b : list ibv_wc) : list Event :=
  EDispatch <$> (b ≫= spec_dispatch (default spec_new (specs !! entry.2))).

Definition round_events (specs : gmap Z Spec) (entries : list (Z * Z)) (bs : list (list ibv_wc)) : list Event :=
  concat (zip_with (dispatch_events specs) entries bs).

Definition poller_events (r : Reactor) : list Event := (fun p => EPoller p.1 p.2) <$> pollers_ r.

Definition task_event (r : Reactor) (i : Z) : Event :=
  let '(fn, ctx) := default (0, 0) (tasks r !! i) in ETask fn ctx.

(** A device whose queues are lists; it never fails. *)
#[export, refine] Instance listed : CompletionSource (gmap Z (list ibv_wc)) := {|
  ibv_poll_cq h cq max :=
    let l := default [] (h !! cq) in
    (<[cq := drop (Z.to_nat max) l]> h, inr (take (Z.to_nat max) l));
  pending h cq := default [] (h !! cq);
|}.
Proof.
  - intros h cq max. simpl. rewrite lookup_insert_eq, length_take. simpl. split; [lia|].
    rewrite take_drop. split; [done|]. intros Hm E. destruct (default [] (h !! cq)) as [|x l]; [done|].
    destruct (Z.to_nat max) eqn:En; [lia|done].
  - intros h cq max cq' Hne. simpl. by rewrite lookup_insert_ne.
Defined.

End specification.

(** *** Examples *)

Section examples.
Import Reactor.

Definition example_queues : gmap Z (list ibv_wc) :=
  {[100 := [completion 3 0 IBV_WC_SUCCESS; completion 4 1 12]; 200 := [completion 5 7 IBV_WC_SUCCESS]]}.

(** Two queues that share a dispatcher, a poller and two tasks. *)
Definition example_reactor (r : Reactor) : Reactor :=
  Execute (Execute (RegisterPoller (RegisterCQ (RegisterCQ r 100 1) 200 1) 70 71) 10 51 61) 20 52 62.

(** Connection 3 is registered, 4 and 5 are not. *)
Definition example_spec : Spec := {| sp_map := {[3 := (900, 901)]}; sp_err := (902, 903) |}.

Definition world_of (queues : gmap Z (list ibv_wc)) (disp : CompletionDispatcher.CompletionDispatcher) (r : Reactor)
    : World (gmap Z (list ibv_wc)) :=
  {| hw := queues; dispatchers := {[1 := disp]}; reactor := r |}.

Definition oversized : ReactorConfig :=
  {| batch_mode := THROUGHPUT; latency_batch_size := 1; throughput_batch_size := 2;
     max_batch_size := 1; max_spin_count := 1000; cpu_core := -1; numa_node := -1 |}.

End examples.

(** ** Lemmas *)

Section lemmas.
Import Reactor.

Lemma tasks_loop_spec (r : Reactor) fuel h q count :
  next_chain (MpscQueue.next_ (task_queue_ r)) h q -> (forall i, i ∈ q -> is_Some (tasks r !! i)) ->
  (length q <= fuel)%nat ->
  tasks_loop fuel r h count = Some (task_event r <$> q, count + Z.of_nat (length q)).
Proof.
  revert fuel h count. induction q as [|i q IH]; intros fuel h count Hc Ht Hf.
  - simpl in Hc. subst h. rewrite Z.add_0_r. by destruct fuel.
  - destruct Hc as (-> & Hi & n & En & Hc). destruct fuel as [|fuel]; [simpl in Hf; lia|].
    cbn [tasks_loop]. destruct (Z.eqb_spec i 0); [done|]. rewrite En. sbind.
    destruct (Ht i) as [[fn ctx] Ei]; [by left|]. rewrite Ei. sbind.
    rewrite (IH fuel n (count + 1)); [|done|intros j Hj; apply Ht; by right|simpl in Hf; lia]. sbind.
    rewrite fmap_cons. unfold task_event at 2. rewrite Ei. simpl. f_equal. f_equal. lia.
Qed.

Lemma AdaptBatchSize_bounds (r : Reactor) :
  config_ok (config_ r) -> 0 < current_batch_size_ r <= max_batch_size (config_ r) ->
  exists size polls total, AdaptBatchSize r = Some (set_stats r size polls total (idle_spin_count_ r))
    /\ 0 < size <= max_batch_size (config_ r).
Proof.
  intros (Hl & _ & _ & Hmax) Hb. unfold AdaptBatchSize.
  destruct (batch_mode (config_ r)).
  1, 2: exists (current_batch_size_ r), (poll_count_ r), (total_wc_count_ r); by destruct r.
  destruct (Float32.ltb _ _).
  - rewrite decide_True by lia. sbind. do 3 eexists. split; [done|]. lia.
  - destruct (Float32.ltb _ _ && _) eqn:E; sbind; do 3 eexists; (split; [done|]); [|lia].
    apply andb_true_iff in E as [_ E%Z.ltb_lt].
    rewrite Z.quot_div_nonneg by lia.
    pose proof (Z.div_le_upper_bound (current_batch_size_ r) 2 (current_batch_size_ r)). lia.
Qed.

Lemma set_stats_id (r : Reactor) :
  set_stats r (current_batch_size_ r) (poll_count_ r) (total_wc_count_ r) (idle_spin_count_ r) = r.
Proof. by destruct r. Qed.

Context {HW : Type} `{!CompletionSource HW}.

(** Polling takes a prefix of one queue. *)
Lemma pending_poll (h : HW) cq max cq' :
  exists l, pending h cq' = l ++ pending (ibv_poll_cq h cq max).1 cq'.
Proof.
  destruct (decide (cq' = cq)) as [->|Hne]; [|exists []; by rewrite poll_other].
  pose proof (poll_law h cq max) as H. destruct (ibv_poll_cq h cq max) as [h' [e|l]].
  - exists []. symmetry. apply H.
  - exists l. apply H.
Qed.

Lemma entries_ok_poll (h : HW) cq max specs entries :
  entries_ok h specs entries -> entries_ok (ibv_poll_cq h cq max).1 specs entries.
Proof.
  intros H e He. destruct (H e He) as [Hs Hv]. split; [done|].
  destruct (pending_poll h cq max e.1) as [l E]. rewrite E in Hv. by apply Forall_app in Hv as [_ Hv].
Qed.

Lemma entries_ok_cons (h : HW) specs e entries : entries_ok h specs (e :: entries) -> entries_ok h specs entries.
Proof. intros H e' He. apply H. by right. Qed.

Lemma dispatchers_ok_insert ds specs d s disp :
  dispatchers_ok ds specs -> specs !! d = Some s -> represents disp s -> dispatchers_ok (<[d := disp]> ds) specs.
Proof.
  intros H Hd Hr d' s' Hd'. destruct (decide (d' = d)) as [->|Hne].
  - simplify_eq. exists disp. by rewrite lookup_insert_eq.
  - rewrite lookup_insert_ne by done. by apply H.
Qed.

Lemma take_batches_pending (h : HW) entries max :
  forall cq, exists l, pending h cq = l ++ pending (take_batches h entries max).1 cq.
Proof.
  revert h. induction entries as [|[cq d] entries IH]; intros h c; [by exists []|]. cbn [take_batches].
  destruct (pending_poll h cq max c) as [l1 E1]. destruct (ibv_poll_cq h cq max) as [h1 r].
  destruct (IH h1 c) as [l2 E2]. destruct (take_batches h1 entries max) as [h2 bs]. simpl in *.
  exists (l1 ++ l2). by rewrite E1, E2, app_assoc.
Qed.

Lemma entries_ok_take (h : HW) specs entries entries' max :
  entries_ok h specs entries -> entries_ok (take_batches h entries' max).1 specs entries.
Proof.
  intros H e He. destruct (H e He) as [Hs Hv]. split; [done|].
  destruct (take_batches_pending h entries' max e.1) as [l E]. rewrite E in Hv. by apply Forall_app in Hv as [_ Hv].
Qed.

Lemma poll_queues_spec (w : World HW) specs entries te :
  entries_ok (hw w) specs entries -> dispatchers_ok (dispatchers w) specs ->
  0 < current_batch_size_ (reactor w) <= wc_buffer_size_ (reactor w) ->
  let '(h, bs) := take_batches (hw w) entries (current_batch_size_ (reactor w)) in
  exists ds total,
    poll_queues w entries te
    = Some ({| hw := h; dispatchers := ds;
               reactor := set_stats (reactor w) (current_batch_size_ (reactor w)) (poll_count_ (reactor w)) total
                            (idle_spin_count_ (reactor w)) |},
            round_events specs entries bs, te + sumZ ((fun b => Z.of_nat (length b)) <$> bs))
    /\ dispatchers_ok ds specs.
Proof.
  revert w te. induction entries as [|[cq d] entries IH]; intros [h ds r] te He Hd Hb; cbn [hw dispatchers reactor] in *.
  { cbn [take_batches]. exists ds, (total_wc_count_ r). rewrite set_stats_id, Z.add_0_r. done. }
  pose proof (entries_ok_cons _ _ _ _ (entries_ok_poll h cq (current_batch_size_ r) specs _ He)) as He'.
  cbn [take_batches poll_queues]. cbn [hw dispatchers reactor].
  pose proof (poll_law h cq (current_batch_size_ r)) as Hlaw.
  destruct (He (cq, d)) as [[s Hs] Hv]; [by left|]. simpl in Hs, Hv.
  destruct (ibv_poll_cq h cq (current_batch_size_ r)) as [h1 [e|l]]; simpl in He'.
  - specialize (IH {| hw := h1; dispatchers := ds; reactor := r |} te He' Hd Hb). cbn [hw dispatchers reactor] in IH.
    destruct (take_batches h1 entries _) as [h2 bs]. exact IH.
  - destruct Hlaw as (Hlen & Hp & _). destruct (Z.ltb_spec (wc_buffer_size_ r) (Z.of_nat (length l))); [lia|].
    rewrite Hp in Hv. apply Forall_app in Hv as [Hv _].
    destruct (Z.ltb_spec 0 (Z.of_nat (length l))) as [Hl|Hl].
    + destruct (Hd d s Hs) as (disp & Ed & Hr). rewrite Ed. sbind.
      destruct (DispatchBatchSimple_spec disp s l Hr Hv) as (disp' & -> & Hr'). sbind.
      specialize (IH {| hw := h1; dispatchers := <[d := disp']> ds;
        reactor := set_stats r (current_batch_size_ r) (poll_count_ r) (u64 (total_wc_count_ r + Z.of_nat (length l)))
                     (idle_spin_count_ r) |} (te + Z.of_nat (length l)) He' (dispatchers_ok_insert _ _ _ _ _ Hd Hs Hr') Hb).
      cbn [hw dispatchers reactor set_stats current_batch_size_ poll_count_ idle_spin_count_] in IH.
      cbn [set_stats current_batch_size_ poll_count_ idle_spin_count_].
      destruct (take_batches h1 entries _) as [h2 bs]. destruct IH as (ds' & total & E & Hd'). rewrite E. sbind.
      exists ds', total. split; [|done]. unfold round_events, dispatch_events at 2. cbn [zip_with concat snd].
      rewrite Hs. cbn [default]. rewrite fmap_cons, sumZ_cons, Z.add_assoc. done.
    + destruct l as [|wc l]; [|simpl in Hl; lia].
      specialize (IH {| hw := h1; dispatchers := ds; reactor := r |} te He' Hd Hb). cbn [hw dispatchers reactor] in IH.
      destruct (take_batches h1 entries _) as [h2 bs]. exact IH.
Qed.

(** Steps 5 and 6 only change the counters and the batch size. *)
Lemma adapt_step (r : Reactor) (b : bool) :
  config_ok (config_ r) -> 0 < current_batch_size_ r <= max_batch_size (config_ r) ->
  exists size polls total idle, (if b then AdaptBatchSize r else Some r) = Some (set_stats r size polls total idle)
    /\ 0 < size <= max_batch_size (config_ r).
Proof.
  intros Hc Hb. destruct b.
  - destruct (AdaptBatchSize_bounds r Hc Hb) as (size & polls & total & -> & Hs). by do 4 eexists.
  - do 4 eexists. rewrite set_stats_id. done.
Qed.

Lemma backoff_step (r : Reactor) (b : bool) :
  exists idle, (if b then set_stats r (current_batch_size_ r) (poll_count_ r) (total_wc_count_ r) 0 else AdaptiveBackoff r)
    = set_stats r (current_batch_size_ r) (poll_count_ r) (total_wc_count_ r) idle.
Proof. destruct b; by eexists. Qed.

Lemma ProcessTasks_spec (r : Reactor) q :
  next_chain (MpscQueue.next_ (task_queue_ r)) (MpscQueue.head_ (task_queue_ r)) q -> NoDup q ->
  (forall i, i ∈ q -> is_Some (tasks r !! i)) ->
  ProcessTasks r = Some (set_queue r (MpscQueue.set_head (task_queue_ r) 0), task_event r <$> q, Z.of_nat (length q)).
Proof.
  intros Hc Hn Ht. unfold ProcessTasks, MpscQueue.PopAll.
  rewrite (tasks_loop_spec (set_queue r _) _ _ q 0); [done|done|done|by eapply (next_chain_length (MpscQueue.next_ (task_queue_ r)))].
Qed.

(** Steps 2 to 6. *)
Lemma poll_rest_spec poller (r : Reactor) q t te :
  core_ok r q t ->
  exists r', poll_rest poller r te
    = Some (r', (task_event r <$> q) ++ poller_events r,
            te + Z.of_nat (length q) + Z.of_nat (length (sw_tick t).2) + sumZ ((fun p => poller p.1 p.2) <$> pollers_ r))
    /\ cq_entries_ r' = cq_entries_ r /\ pollers_ r' = pollers_ r /\ core_ok r' [] (sw_tick t).1.
Proof.
  intros [Hc Hbuf Hb Hw Hq Hn Ht]. unfold poll_rest. rewrite (ProcessTasks_spec r q Hq Hn Ht). sbind. unfold ProcessTimeouts.
  destruct (wheel_tick_refines _ t Hw) as (tw & Et & Hw'). cbn [timing_wheel_ set_queue]. rewrite Et. sbind.
  match goal with |- context [if ?b then AdaptBatchSize ?r else _] =>
    destruct (adapt_step r b Hc Hb) as (size & np & nt & idle & -> & Hs) end.
  sbind. match goal with |- context [if ?b then set_stats ?r _ _ _ 0 else _] =>
    destruct (backoff_step r b) as (idle' & ->) end.
  eexists. split; [reflexivity|]. split_and!; try done.
  split; try done; [apply NoDup_nil_2|]. intros i Hi. by apply elem_of_nil in Hi.
Qed.

Lemma Poll_spec poller (w : World HW) specs q t :
  reactor_ok w specs q t ->
  let r := reactor w in
  let '(h, bs) := take_batches (hw w) (cq_entries_ r) (current_batch_size_ r) in
  exists w',
    Poll poller w
    = Some (w', round_events specs (cq_entries_ r) bs ++ (task_event r <$> q) ++ poller_events r,
            sumZ ((fun b => Z.of_nat (length b)) <$> bs) + Z.of_nat (length q) + Z.of_nat (length (sw_tick t).2)
            + sumZ ((fun p => poller p.1 p.2) <$> pollers_ r))
    /\ hw w' = h /\ cq_entries_ (reactor w') = cq_entries_ r /\ pollers_ (reactor w') = pollers_ r
    /\ reactor_ok w' specs [] (sw_tick t).1.
Proof.
  intros [Hcore He Hd] r. subst r. pose proof Hcore as [Hc Hbuf Hb Hw Hq Hn Ht].
  assert (Hb' : 0 < current_batch_size_ (reactor w) <= wc_buffer_size_ (reactor w)) by lia.
  pose proof (poll_queues_spec w specs _ 0 He Hd Hb') as Hpq.
  pose proof (entries_ok_take (hw w) specs _ (cq_entries_ (reactor w)) (current_batch_size_ (reactor w)) He) as He'.
  destruct (take_batches (hw w) (cq_entries_ (reactor w)) (current_batch_size_ (reactor w))) as [h bs].
  destruct Hpq as (ds & total & E & Hd'). rewrite Z.add_0_l in E. unfold Poll. rewrite E. sbind. cbn [hw dispatchers reactor fst] in *.
  match goal with |- context [poll_rest poller ?r ?te] => set (r1 := r);
    destruct (poll_rest_spec poller r1 q t te) as (r' & -> & Hent & Hpol & Hcore') end; [by split|]. sbind.
  eexists. split; [reflexivity|]. split; [done|]. split; [exact Hent|]. split; [exact Hpol|].
  split; [done| |done]. cbn [hw reactor with_reactor]. by rewrite Hent.
Qed.

(** A round takes from every listed queue at least one completion, if it has one. *)
Lemma take_batches_lookup (h : HW) entries max cq d :
  NoDup entries.*1 -> (cq, d) ∈ entries -> 0 < max ->
  (forall h cq max, exists h' l, ibv_poll_cq h cq max = (h', inr l)) ->
  let '(h', bs) := take_batches h entries max in
  exists i b, entries !! i = Some (cq, d) /\ bs !! i = Some b /\ pending h cq = b ++ pending h' cq
    /\ (b = [] -> pending h cq = []).
Proof.
  intros Hn Hin Hm Hf. revert h Hn Hin. induction entries as [|[c d'] entries IH]; intros h Hn Hin; [by apply elem_of_nil in Hin|].
  apply NoDup_cons in Hn as [Hc Hn]. cbn [take_batches].
  destruct (Hf h c max) as (h1 & l & E). pose proof (poll_law h c max) as Hl. pose proof (poll_other h c max cq) as Ho.
  rewrite E in *. cbn [fst] in Ho. apply elem_of_cons in Hin as [[= <- <-]|Hin].
  - destruct Hl as (_ & Hp & Hz). assert (Hrest : pending (take_batches h1 entries max).1 cq = pending h1 cq).
    { clear -Hc HW. simpl in Hc. revert h1. induction entries as [|[c d'] entries IH]; intros h1; [done|]. cbn [take_batches].
      simpl in Hc. apply not_elem_of_cons in Hc as [Hne Hc]. pose proof (poll_other h1 c max cq Hne) as Ho.
      destruct (ibv_poll_cq h1 c max) as [h2 r]. specialize (IH Hc h2). destruct (take_batches h2 entries max). simpl in *. congruence. }
    destruct (take_batches h1 entries max) as [h2 bs]. simpl in Hrest. exists 0%nat, l. split_and!; [done|done| |by apply Hz].
    by rewrite Hrest.
  - assert (Hne : cq <> c). { intros ->. apply Hc. apply list_elem_of_fmap. by exists (c, d). }
    specialize (IH h1 Hn Hin). destruct (take_batches h1 entries max) as [h2 bs].
    destruct IH as (i & b & E1 & E2 & E3 & E4). rewrite Ho in E3, E4 by done. by exists (S i), b.
Qed.

Lemma round_events_lookup specs entries bs i e b :
  entries !! i = Some e -> bs !! i = Some b -> dispatch_events specs e b `sublist_of` round_events specs entries bs.
Proof.
  intros He Hb. unfold round_events.
  assert (Hz : zip_with (dispatch_events specs) entries bs !! i = Some (dispatch_events specs e b))
    by (rewrite lookup_zip_with, He, Hb; done).
  apply list_elem_of_split_length in Hz as (l1 & l2 & -> & _). rewrite concat_app. cbn [concat].
  apply sublist_inserts_l, sublist_inserts_r. done.
Qed.

Lemma polls_spec poller (w : World HW) specs q t n cq d s :
  reactor_ok w specs q t -> NoDup (cq_entries_ (reactor w)).*1 -> (cq, d) ∈ cq_entries_ (reactor w) ->
  specs !! d = Some s -> (forall h cq max, exists h' l, ibv_poll_cq h cq max = (h', inr l)) ->
  (length (pending (hw w) cq) <= n)%nat ->
  exists w' evs, polls poller n w = Some (w', evs) /\ pending (hw w') cq = []
    /\ (EDispatch <$> (pending (hw w) cq ≫= spec_dispatch s)) `sublist_of` evs.
Proof.
  intros Hok Hn Hin Hs Hf. revert w q t Hok Hn Hin. induction n as [|n IH]; intros w q t Hok Hn Hin Hlen.
  { exists w, []. destruct (pending (hw w) cq); [done|simpl in Hlen; lia]. }
  pose proof (Poll_spec poller w specs q t Hok) as HP. cbn zeta in HP.
  pose proof (take_batches_lookup (hw w) _ (current_batch_size_ (reactor w)) cq d Hn Hin
    (proj1 (ro_batch _ _ _ (ro_core _ _ _ _ Hok))) Hf) as HT.
  destruct (take_batches (hw w) (cq_entries_ (reactor w)) _) as [h bs].
  destruct HP as (w1 & E & Eh & Ec & _ & Hok1), HT as (i & b & E1 & E2 & E3 & E4). subst h.
  destruct (IH w1 [] (sw_tick t).1 Hok1) as (w2 & evs & E' & Hp & Hsub); [by rewrite Ec..| |].
  { rewrite E3 in Hlen, E4. rewrite length_app in Hlen. destruct b as [|x b]; [|simpl in Hlen; lia].
    specialize (E4 eq_refl). simpl in E4. rewrite E4. simpl. lia. }
  cbn [polls]. rewrite E. sbind. rewrite E'. sbind. eexists _, _. split; [done|]. split; [done|].
  rewrite E3, bind_app, fmap_app. apply sublist_app; [|done]. apply sublist_inserts_r.
  pose proof (round_events_lookup specs _ _ _ _ _ E1 E2) as Hr. unfold dispatch_events in Hr. simpl in Hr. by rewrite Hs in Hr.
Qed.

Lemma Create_core c r :
  config_ok c -> Create true c = RVal r -> core_ok r [] (sw_new TimingWheel.kMaxEntries).
Proof.
  intros Hc [= <-]. pose proof (wheel_new_rep TimingWheel.kMaxEntries ltac:(reflexivity)) as Hw.
  change (TimingWheel.make TimingWheel.kMaxEntries) with TimingWheel.TimingWheel_new in Hw.
  revert Hw. generalize TimingWheel.TimingWheel_new, (sw_new TimingWheel.kMaxEntries). intros tw t Hw.
  split; cbn -[Z.mul Z.pow]; try done.
  - destruct Hc as (Hl & Ht & Ha & Hm). destruct (batch_mode c); [lia|lia|]. specialize (Ha eq_refl). lia.
  - apply NoDup_nil_2.
  - intros i Hi. by apply elem_of_nil in Hi.
Qed.

Lemma Create_ok c r (h : HW) ds specs :
  config_ok c -> Create true c = RVal r -> dispatchers_ok ds specs ->
  reactor_ok {| hw := h; dispatchers := ds; reactor := r |} specs [] (sw_new TimingWheel.kMaxEntries).
Proof.
  intros Hc E Hd. pose proof (Create_core c r Hc E) as Hr. revert Hr. generalize (sw_new TimingWheel.kMaxEntries). intros t Hr.
  split; [done| |done]. injection E as <-. intros e He. by apply elem_of_nil in He.
Qed.

(** [Initialize] always succeeds and changes nothing but the thread; a failure to
    pin it is visible in the log only. *)
Lemma Initialize_core thread setaffinity enabled log (r : Reactor) q t :
  core_ok r q t ->
  let '(log', r', status) := Initialize thread setaffinity enabled log r in
  status = Err.Status_OK /\ thread_id_ r' = Some thread /\ core_ok r' q t
  /\ (enabled = false -> log' = log) /\ (cpu_core (config_ r) < 0 -> log' = log).
Proof.
  intros [Hc Hbuf Hb Hw Hq Hn Ht]. unfold Initialize, PinThread. cbn [config_ set_thread].
  destruct (Z.leb_spec 0 (cpu_core (config_ r))); [destruct (negb _)|]; cbn; (split_and!; [done|done|by split| |]);
    try done; try lia; by intros ->.
Qed.

Lemma RegisterCQ_core (r : Reactor) q t cq d : core_ok r q t -> core_ok (RegisterCQ r cq d) q t.
Proof. by intros []; split. Qed.

Lemma RegisterCQ_ok (w : World HW) specs q t cq d :
  reactor_ok w specs q t -> is_Some (specs !! d) -> Forall valid_id (pending (hw w) cq) ->
  reactor_ok (with_reactor w (RegisterCQ (reactor w) cq d)) specs q t.
Proof.
  intros [Hr He Hds] Hd Hp. split; [by apply RegisterCQ_core| |done].
  intros e [Hin|Hin%list_elem_of_singleton]%elem_of_app; [by apply He|]. by subst e.
Qed.

Lemma RegisterPoller_ok (w : World HW) specs q t fn ctx :
  reactor_ok w specs q t -> reactor_ok (with_reactor w (RegisterPoller (reactor w) fn ctx)) specs q t.
Proof. by intros [[] ? ?]; split; [split|..]. Qed.

Lemma Execute_ok (w : World HW) specs q t task fn ctx :
  reactor_ok w specs q t -> task <> 0 -> task ∉ q ->
  reactor_ok (with_reactor w (Execute (reactor w) task fn ctx)) specs (task :: q) t.
Proof.
  intros [[] ? ?] Ht Hq. split; [split; try done|done|done].
  - simpl. split_and!; [done|done|]. eexists. rewrite lookup_insert_eq. split; [done|]. by apply next_chain_frame.
  - by apply NoDup_cons.
  - simpl. intros i [->|Hi]%elem_of_cons; [by rewrite lookup_insert_eq|].
    rewrite lookup_insert_ne by (by intros ->). auto.
Qed.

Lemma ScheduleTimeout_ok (w : World HW) specs q t slot gen ms :
  reactor_ok w specs q t -> is_u 32 ms ->
  exists r, ScheduleTimeout (reactor w) slot gen ms = Some r
    /\ reactor_ok (with_reactor w r) specs q (sw_schedule t slot gen ms).1.
Proof.
  intros [[] ? ?] Hms. destruct (wheel_schedule_refines _ t slot gen ms ro_wheel0 Hms) as (tw & E & Hw).
  unfold ScheduleTimeout. rewrite E. sbind. eexists. split; [done|]. by split; [split|..].
Qed.

End lemmas.

Section example_lemmas.
Import Reactor.

Lemma example_dispatcher :
  exists disp, CompletionDispatcher.RegisterConnection
      (CompletionDispatcher.SetErrorHandler CompletionDispatcher.CompletionDispatcher_new 902 903) 3 900 901 = Some disp
    /\ represents disp example_spec.
Proof.
  destruct (represents_step PRegister _ _ (OSetError 902 903) PRegister (proj1 represents_new) (proj2 represents_new))
    as (d1 & E1 & H1 & I1); [done|done|]. cbn [CompletionDispatcher.step] in E1.
  assert (d1 = CompletionDispatcher.SetErrorHandler CompletionDispatcher.CompletionDispatcher_new 902 903) as ->
    by congruence. clear E1.
  destruct (represents_step PRegister _ _ (ORegister 3 900 901) PRegister H1 I1) as (d2 & E2 & H2 & _); [done|done|].
  cbn [CompletionDispatcher.step] in E2.
  destruct (CompletionDispatcher.RegisterConnection _ 3 900 901) as [d|]; cbn [mbind option_bind] in E2; [|done].
  injection E2 as <-. by exists d.
Qed.

Lemma example_ok disp r :
  Create true ReactorConfig_default = RVal r -> represents disp example_spec ->
  reactor_ok (world_of example_queues disp (example_reactor r)) {[1 := example_spec]} [20; 10]
    (sw_new TimingWheel.kMaxEntries).
Proof.
  intros E Hr. assert (Hv : is_Some ({[1 := example_spec]} !! 1)) by (rewrite lookup_singleton_eq; by eexists).
  assert (H : reactor_ok (world_of example_queues disp r) {[1 := example_spec]} [] (sw_new TimingWheel.kMaxEntries)).
  { apply (Create_ok ReactorConfig_default); [repeat split; vm_compute; congruence|done|].
    intros d s [<- <-]%lookup_singleton_Some. exists disp. by rewrite lookup_singleton_eq. }
  eapply (RegisterCQ_ok _ _ _ _ 100 1) in H; [|exact Hv|repeat constructor; vm_compute; congruence].
  eapply (RegisterCQ_ok _ _ _ _ 200 1) in H; [|exact Hv|repeat constructor; vm_compute; congruence].
  eapply (RegisterPoller_ok _ _ _ _ 70 71), (Execute_ok _ _ _ _ 10 51 61) in H; [|done|apply not_elem_of_nil].
  eapply (Execute_ok _ _ _ _ 20 52 62) in H; [|done|by intros ?%list_elem_of_singleton]. exact H.
Qed.

End example_lemmas.

(** ** Properties *)

Section properties.
Import Reactor.

(** C21: One round of the event loop, of a reactor fit to poll ([reactor_ok]: the
    batch sizes fit its buffer, tasks, wheel and dispatchers are in order, no
    pending completion carries the reserved id 0xFFFF): each registered queue is
    asked for one batch, every completion of it is dispatched to the handler the
    registry gives it, in order; then every queued task runs once, the newest
    first, then the expired timeouts are counted and every poller is called. The
    count returned is that of all these events, and the round leaves the queue of
    tasks empty and everything else fit for the next round. *)
Theorem reactor_poll {HW} `{!CompletionSource HW} poller (w : World HW) specs q t :
  reactor_ok w specs q t ->
  let r := reactor w in
  let '(h, bs) := take_batches (hw w) (cq_entries_ r) (current_batch_size_ r) in
  exists w',
    Poll poller w
    = Some (w', round_events specs (cq_entries_ r) bs ++ (task_event r <$> q) ++ poller_events r,
            sumZ ((fun b => Z.of_nat (length b)) <$> bs) + Z.of_nat (length q) + Z.of_nat (length (sw_tick t).2)
            + sumZ ((fun p => poller p.1 p.2) <$> pollers_ r))
    /\ hw w' = h /\ cq_entries_ (reactor w') = cq_entries_ r /\ pollers_ (reactor w') = pollers_ r
    /\ reactor_ok w' specs [] (sw_tick t).1.
Proof. apply Poll_spec. Qed.

Lemma reactor_poll_witness :
  exists r disp w', Create true ReactorConfig_default = RVal r /\ represents disp example_spec
    /\ Poll (fun _ _ => 5) (world_of example_queues disp (example_reactor r))
      = Some (w', [EDispatch (CompletionDispatcher.ECall 901 900 (completion 3 0 IBV_WC_SUCCESS));
                   EDispatch (CompletionDispatcher.EError 903 902 4 12);
                   ETask 52 62; ETask 51 61; EPoller 70 71],
              3 + 2 + Z.of_nat (length (sw_tick (sw_new TimingWheel.kMaxEntries)).2) + 5).
Proof.
  destruct example_dispatcher as (disp & _ & Hr). destruct (Create true ReactorConfig_default) as [r|] eqn:E; [|done].
  pose proof (reactor_poll (fun _ _ => 5) _ _ _ _ (example_ok disp r E Hr)) as H. cbn zeta in H.
  destruct (take_batches _ _ _) as [h bs] eqn:Et. destruct H as (w' & EP & _).
  exists r, disp, w'. split; [done|]. split; [done|]. rewrite EP. injection E as <-.
  change (take_batches example_queues [(100, 1); (200, 1)] 64 = (h, bs)) in Et.
  vm_compute in Et. injection Et as <- <-. reflexivity.
Defined.

(** C20: No completion is lost: when the device does not fail, after as many
    rounds as a registered queue holds completions, the queue is empty and each
    of them was dispatched, in the order of the queue, by the dispatcher
    registered for it, whatever the other queues, tasks, timeouts and pollers
    do and however the batch size adapts. The reactor starts fit to poll
    ([reactor_ok]): the batch sizes fit its buffer, its queue of tasks and its
    wheel are in order, the dispatchers hold their registries, and no completion
    pending in a registered queue carries the reserved id 0xFFFF; each queue is
    registered once. *)
Theorem reactor_drains {HW} `{!CompletionSource HW} poller (w : World HW) specs q t n cq d s :
  reactor_ok w specs q t -> NoDup (cq_entries_ (reactor w)).*1 -> (cq, d) ∈ cq_entries_ (reactor w) ->
  specs !! d = Some s -> (forall h cq max, exists h' l, ibv_poll_cq h cq max = (h', inr l)) ->
  (length (pending (hw w) cq) <= n)%nat ->
  exists w' evs, polls poller n w = Some (w', evs) /\ pending (hw w') cq = []
    /\ (EDispatch <$> (pending (hw w) cq ≫= spec_dispatch s)) `sublist_of` evs.
Proof. apply polls_spec. Qed.

Lemma reactor_drains_witness :
  exists r disp w' evs, Create true ReactorConfig_default = RVal r
    /\ polls (fun _ _ => 0) 2 (world_of example_queues disp (example_reactor r)) = Some (w', evs)
    /\ pending (hw w') 100 = []
    /\ [EDispatch (CompletionDispatcher.ECall 901 900 (completion 3 0 IBV_WC_SUCCESS));
        EDispatch (CompletionDispatcher.EError 903 902 4 12)] `sublist_of` evs.
Proof.
  destruct example_dispatcher as (disp & _ & Hr). destruct (Create true ReactorConfig_default) as [r|] eqn:E; [|done].
  destruct (reactor_drains (fun _ _ => 0) _ _ _ _ 2 100 1 example_spec (example_ok disp r E Hr)) as (w' & evs & H).
  - injection E as <-. change (NoDup [100; 200]). apply (bool_decide_unpack _). vm_compute. exact I.
  - injection E as <-. change ((100, 1) ∈ [(100, 1); (200, 1)]). left.
  - reflexivity.
  - intros h cq max. eexists _, _. reflexivity.
  - apply Nat.leb_le. reflexivity.
  - exists r, disp, w', evs. split; [done|exact H].
Defined.

(** The buffer for completions has [max_batch_size] entries but the batch
    size of the configuration is not checked against it: with a larger
    [throughput_batch_size], a queue that holds more than [max_batch_size]
    completions makes the first round write outside the buffer. *)
Theorem oversized_batch_overruns c r disp cq d wcs poller :
  batch_mode c = THROUGHPUT -> max_batch_size c < throughput_batch_size c -> 0 <= max_batch_size c ->
  max_batch_size c < Z.of_nat (length wcs) -> Create true c = RVal r ->
  Poll poller (world_of {[cq := wcs]} disp (RegisterCQ r cq d)) = None.
Proof.
  intros Hm Ht H0 Hl [= <-]. unfold Poll, world_of, RegisterCQ. cbn [reactor set_entries cq_entries_ app poll_queues].
  cbn -[take Z.of_nat TimingWheel.TimingWheel_new]. rewrite Hm, lookup_singleton_eq. cbn [default id].
  destruct (Z.ltb_spec (max_batch_size c) (Z.of_nat (length (take (Z.to_nat (throughput_batch_size c)) wcs)))) as [|Hn]; [done|].
  rewrite length_take in Hn. lia.
Qed.

Lemma oversized_batch_overruns_witness :
  exists r, Create true oversized = RVal r
    /\ Poll (fun _ _ => 0) (world_of {[100 := [completion 3 0 0; completion 4 0 0]]}
         CompletionDispatcher.CompletionDispatcher_new (RegisterCQ r 100 1)) = None.
Proof.
  eexists. split; [reflexivity|].
  apply (oversized_batch_overruns oversized); [reflexivity|reflexivity|vm_compute; discriminate|reflexivity|reflexivity].
Defined.

End properties.
