(* ===== verification/FlowControl.v ===== *)
(** * Credit-based flow control

    Models [include/rdma/transport/flow_control.h] and
    [src/transport/flow_control.cpp], and [CanSend] of [connection.h]. The
    counters are atomics that a single thread uses; an operation is one step. A
    reading of [steady_clock] is an argument, in nanoseconds. [None] is undefined
    behaviour: a float converted to an integer it does not fit. *)

From S2P Require Import Prelude Float32.

Module FlowControl.

Record FlowControlConfig := {
  recv_depth : Z;                      (* uint32_t *)
  lazy_update_threshold : Float32.float;
  idle_interval : Z;                   (* milliseconds *)
  enable_adaptive_threshold : bool;
  min_threshold : Float32.float;
  max_threshold : Float32.float;
  window_size : Z;                     (* uint32_t *)
  high_rate_threshold : Z;             (* uint32_t *)
  low_rate_threshold : Z;              (* uint32_t *)
}.

Definition FlowControlConfig_default : FlowControlConfig :=
  {| recv_depth := 1024; lazy_update_threshold := Float32.literal 25 100; idle_interval := 100;
     enable_adaptive_threshold := true; min_threshold := Float32.literal 10 100;
     max_threshold := Float32.literal 50 100; window_size := 100;
     high_rate_threshold := 10000; low_rate_threshold := 1000 |}.

Record FlowControl := {
  config_ : FlowControlConfig;
  lazy_threshold_ : Z;
  current_threshold_ratio_ : Float32.float;
  send_credits_ : Z;                   (* uint32_t *)
  pending_credits_ : Z;                (* uint32_t *)
  last_activity_ : Z;
  last_sample_time_ : Z;
  window_recv_count_ : Z;              (* uint32_t *)
  window_sample_count_ : Z;            (* uint32_t *)
  estimated_rate_ : Z;                 (* uint32_t *)
}.

(** [static_cast<uint32_t>(recv_depth * ratio)]. *)
Definition threshold (depth : Z) (ratio : Float32.float) : option Z :=
  Float32.to_u32 (Float32.mul (Float32.of_Z depth) ratio).

(** The constructor reads the clock twice. *)
Definition FlowControl_new (config : FlowControlConfig) (now1 now2 : Z) : option FlowControl :=
  lazy ← threshold (recv_depth config) (lazy_update_threshold config);
  Some {| config_ := config; lazy_threshold_ := lazy;
          current_threshold_ratio_ := lazy_update_threshold config;
          send_credits_ := recv_depth config; pending_credits_ := 0;
          last_activity_ := now2; last_sample_time_ := now1;
          window_recv_count_ := 0; window_sample_count_ := 0; estimated_rate_ := 0 |}.

Definition Reset (fc : FlowControl) (config : FlowControlConfig) (now : Z) : option FlowControl :=
  lazy ← threshold (recv_depth config) (lazy_update_threshold config);
  Some {| config_ := config; lazy_threshold_ := lazy;
          current_threshold_ratio_ := lazy_update_threshold config;
          send_credits_ := recv_depth config; pending_credits_ := 0;
          last_activity_ := now; last_sample_time_ := now;
          window_recv_count_ := 0; window_sample_count_ := 0; estimated_rate_ := 0 |}.

Definition set_credits (fc : FlowControl) (send pending : Z) : FlowControl :=
  {| config_ := config_ fc; lazy_threshold_ := lazy_threshold_ fc;
     current_threshold_ratio_ := current_threshold_ratio_ fc;
     send_credits_ := send; pending_credits_ := pending;
     last_activity_ := last_activity_ fc; last_sample_time_ := last_sample_time_ fc;
     window_recv_count_ := window_recv_count_ fc; window_sample_count_ := window_sample_count_ fc;
     estimated_rate_ := estimated_rate_ fc |}.

Definition set_window (fc : FlowControl) (sample_time recv samples : Z) : FlowControl :=
  {| config_ := config_ fc; lazy_threshold_ := lazy_threshold_ fc;
     current_threshold_ratio_ := current_threshold_ratio_ fc;
     send_credits_ := send_credits_ fc; pending_credits_ := pending_credits_ fc;
     last_activity_ := last_activity_ fc; last_sample_time_ := sample_time;
     window_recv_count_ := recv; window_sample_count_ := samples;
     estimated_rate_ := estimated_rate_ fc |}.

Definition set_rate (fc : FlowControl) (rate : Z) : FlowControl :=
  {| config_ := config_ fc; lazy_threshold_ := lazy_threshold_ fc;
     current_threshold_ratio_ := current_threshold_ratio_ fc;
     send_credits_ := send_credits_ fc; pending_credits_ := pending_credits_ fc;
     last_activity_ := last_activity_ fc; last_sample_time_ := last_sample_time_ fc;
     window_recv_count_ := window_recv_count_ fc; window_sample_count_ := window_sample_count_ fc;
     estimated_rate_ := rate |}.

Definition set_threshold (fc : FlowControl) (lazy : Z) (ratio : Float32.float) : FlowControl :=
  {| config_ := config_ fc; lazy_threshold_ := lazy; current_threshold_ratio_ := ratio;
     send_credits_ := send_credits_ fc; pending_credits_ := pending_credits_ fc;
     last_activity_ := last_activity_ fc; last_sample_time_ := last_sample_time_ fc;
     window_recv_count_ := window_recv_count_ fc; window_sample_count_ := window_sample_count_ fc;
     estimated_rate_ := estimated_rate_ fc |}.

Definition TryConsume (fc : FlowControl) (count : Z) : bool * FlowControl :=
  if send_credits_ fc <? count then (false, fc)
  else (true, set_credits fc (send_credits_ fc - count) (pending_credits_ fc)).

(** The ratio the estimated rate calls for. *)
Definition target_ratio (c : FlowControlConfig) (rate : Z) : Float32.float :=
  if high_rate_threshold c <=? rate then max_threshold c
  else if rate <=? low_rate_threshold c then min_threshold c
  else
    let rate_ratio := Float32.div (Float32.of_Z (u32 (rate - low_rate_threshold c)))
                        (Float32.of_Z (u32 (high_rate_threshold c - low_rate_threshold c))) in
    Float32.add (min_threshold c) (Float32.mul rate_ratio (Float32.sub (max_threshold c) (min_threshold c))).

Definition AdjustThreshold (fc : FlowControl) : option FlowControl :=
  let new_ratio := target_ratio (config_ fc) (estimated_rate_ fc) in
  let ratio := Float32.add (Float32.mul Float32.f0_8 (current_threshold_ratio_ fc))
                 (Float32.mul Float32.f0_2 new_ratio) in
  lazy ← threshold (recv_depth (config_ fc)) ratio;
  Some (set_threshold fc lazy ratio).

(** [duration_cast<milliseconds>], which truncates. *)
Definition elapsed_ms (now last : Z) : Z := Z.quot (now - last) 1000000.

(** The product is a [uint32_t], the quotient an [int64_t]. *)
Definition UpdateRateStatistics (fc : FlowControl) (count now : Z) : option FlowControl :=
  let fc := set_window fc (last_sample_time_ fc) (u32 (window_recv_count_ fc + count))
              (u32 (window_sample_count_ fc + 1)) in
  if window_size (config_ fc) <=? window_sample_count_ fc then
    let elapsed := elapsed_ms now (last_sample_time_ fc) in
    fc ← (if 0 <? elapsed
          then AdjustThreshold (set_rate fc (u32 (u32 (window_recv_count_ fc * 1000) / elapsed)))
          else Some fc);
    Some (set_window fc now 0 0)
  else Some fc.

Definition OnRecvCompleted (fc : FlowControl) (count now : Z) : option FlowControl :=
  let fc := set_credits fc (send_credits_ fc) (u32 (pending_credits_ fc + count)) in
  if enable_adaptive_threshold (config_ fc) then UpdateRateStatistics fc count now else Some fc.

Definition ShouldUpdateCredit (fc : FlowControl) : bool := lazy_threshold_ fc <=? pending_credits_ fc.

(** The credits to piggyback, and the state without them. *)
Definition GetPiggybackCredits (fc : FlowControl) : Z * FlowControl :=
  (pending_credits_ fc, set_credits fc (send_credits_ fc) 0).

Definition AddCredits (fc : FlowControl) (count : Z) : FlowControl :=
  set_credits fc (u32 (send_credits_ fc + count)) (pending_credits_ fc).

Definition GetCurrentThresholdRatio (fc : FlowControl) : Float32.float := current_threshold_ratio_ fc.
Definition GetEstimatedRecvRate (fc : FlowControl) : Z := estimated_rate_ fc.
Definition GetSendCredits (fc : FlowControl) : Z := send_credits_ fc.
Definition GetPendingCredits (fc : FlowControl) : Z := pending_credits_ fc.

(** [Connection::CanSend]. *)
Definition CanSend (fc : FlowControl) : bool := 1 <=? GetSendCredits fc.

End FlowControl.

(** ** Specification

    Two peers of a link as the class documents their use: the sender consumes
    credits before it sends, the receiver reports receptions and returns the
    pending credits, on its own initiative or piggybacked on a response. *)

Section specification.
Import FlowControl.

(** [in_flight]: the sizes of the messages sent and not yet received; [granted]:
    the credit updates sent and not yet received; both oldest first. *)
Record Link := { sender : FlowControl; receiver : FlowControl; in_flight : list Z; granted : list Z }.

Inductive LinkAction :=
  | LSend (count : Z)                  (* TryConsume, then the message *)
  | LReceive (now : Z)                 (* OnRecvCompleted *)
  | LGrant                             (* GetPiggybackCredits, then the update *)
  | LAdd.                              (* AddCredits *)

Definition link_exec (l : Link) (a : LinkAction) : option Link :=
  match a with
  | LSend count =>
      if decide (is_u 32 count) then
        let '(ok, s) := TryConsume (sender l) count in
        Some {| sender := s; receiver := receiver l; granted := granted l;
                in_flight := if ok then in_flight l ++ [count] else in_flight l |}
      else None
  | LReceive now =>
      match in_flight l with
      | [] => None
      | count :: q =>
          r ← OnRecvCompleted (receiver l) count now;
          Some {| sender := sender l; receiver := r; in_flight := q; granted := granted l |}
      end
  | LGrant =>
      let '(n, r) := GetPiggybackCredits (receiver l) in
      Some {| sender := sender l; receiver := r; in_flight := in_flight l; granted := granted l ++ [n] |}
  | LAdd =>
      match granted l with
      | [] => None
      | n :: g => Some {| sender := AddCredits (sender l) n; receiver := receiver l;
                          in_flight := in_flight l; granted := g |}
      end
  end.

Fixpoint link_run (l : Link) (acts : list LinkAction) : option Link :=
  match acts with
  | [] => Some l
  | a :: acts => l ← link_exec l a; link_run l acts
  end.

Definition link_step (l l' : Link) : Prop := exists a, link_exec l a = Some l'.

(** A link just opened: the sender's credits are the receiver's depth. *)
Definition fresh_link (l : Link) : Prop :=
  exists cs cr t1 t2 t3 t4,
    FlowControl_new cs t1 t2 = Some (sender l) /\ FlowControl_new cr t3 t4 = Some (receiver l)
    /\ recv_depth cs = recv_depth cr /\ is_u 32 (recv_depth cr)
    /\ in_flight l = [] /\ granted l = [].

Definition depth (l : Link) : Z := recv_depth (config_ (receiver l)).

(** Every credit is at the sender, on a message, pending, or on an update. *)
Record link_inv (l : Link) : Prop := {
  li_sum : send_credits_ (sender l) + sumZ (in_flight l) + pending_credits_ (receiver l) + sumZ (granted l)
           = depth l;
  li_depth : is_u 32 (depth l);
  li_send : 0 <= send_credits_ (sender l);
  li_pending : 0 <= pending_credits_ (receiver l);
  li_flight : Forall (fun n => 0 <= n) (in_flight l);
  li_granted : Forall (fun n => 0 <= n) (granted l);
}.

(** The sender has no credit, and no message or update is under way. *)
Definition starved (l : Link) : Prop :=
  CanSend (sender l) = false /\ in_flight l = [] /\ granted l = [].

(** Depth 4 and a threshold of 1.5 times that. *)
Definition greedy_config : FlowControlConfig :=
  {| recv_depth := 4; lazy_update_threshold := Float32.literal 15 10; idle_interval := 100;
     enable_adaptive_threshold := false; min_threshold := Float32.literal 10 100;
     max_threshold := Float32.literal 50 100; window_size := 100;
     high_rate_threshold := 10000; low_rate_threshold := 1000 |}.

End specification.

(** ** Lemmas *)

Section lemmas.
Import FlowControl.

Lemma sumZ_nonneg l : Forall (fun n => 0 <= n) l -> 0 <= sumZ l.
Proof. induction 1; rewrite ?sumZ_cons; [done|lia]. Qed.

(** Sampling changes neither the credits nor the configuration. *)
Lemma UpdateRateStatistics_frame fc count now fc' :
  UpdateRateStatistics fc count now = Some fc' ->
  config_ fc' = config_ fc /\ send_credits_ fc' = send_credits_ fc /\ pending_credits_ fc' = pending_credits_ fc.
Proof.
  unfold UpdateRateStatistics, AdjustThreshold. intros H.
  destruct (_ <=? _); [|by injection H as <-]. destruct (0 <? _); [|by injection H as <-].
  destruct (threshold _ _); cbn [mbind option_bind] in H; [|done]. by injection H as <-.
Qed.

Lemma OnRecvCompleted_frame fc count now fc' :
  OnRecvCompleted fc count now = Some fc' ->
  config_ fc' = config_ fc /\ send_credits_ fc' = send_credits_ fc
  /\ pending_credits_ fc' = u32 (pending_credits_ fc + count).
Proof.
  unfold OnRecvCompleted. destruct (enable_adaptive_threshold _).
  - intros (-> & -> & ->)%UpdateRateStatistics_frame. done.
  - by intros [= <-].
Qed.

Lemma fresh_link_inv l : fresh_link l -> link_inv l.
Proof.
  intros (cs & cr & t1 & t2 & t3 & t4 & Hs & Hr & Hd & Hu & Hf & Hg). unfold FlowControl_new in Hs, Hr.
  destruct (threshold (recv_depth cs) _); cbn [mbind option_bind] in Hs; [|done].
  destruct (threshold (recv_depth cr) _); cbn [mbind option_bind] in Hr; [|done].
  injection Hs as Hs. injection Hr as Hr. pose proof Hu as [Hu0 _].
  split; unfold depth; rewrite <- ?Hs, <- ?Hr, ?Hf, ?Hg; simpl; first [lia|exact Hu|constructor].
Qed.

(** Pending and granted credits never exceed the depth, so nothing wraps. *)
Lemma link_bounds l :
  link_inv l ->
  0 <= sumZ (in_flight l) /\ 0 <= sumZ (granted l)
  /\ send_credits_ (sender l) + sumZ (in_flight l) + pending_credits_ (receiver l) + sumZ (granted l) < 2 ^ 32.
Proof.
  intros [Hs [_ Hd] _ _ Hf Hg]. split_and!; [by apply sumZ_nonneg|by apply sumZ_nonneg|]. by rewrite Hs.
Qed.

Lemma link_exec_inv l a l' :
  link_inv l -> link_exec l a = Some l' -> link_inv l' /\ depth l' = depth l.
Proof.
  intros Hinv. pose proof (link_bounds l Hinv) as (Hb1 & Hb2 & Hb3). destruct Hinv as [Hs Hd Hsd Hp Hf Hg].
  unfold depth in *. destruct a as [count|now| |]; cbn [link_exec].
  - destruct (decide _) as [Hc|]; [|done]. unfold TryConsume.
    destruct (Z.ltb_spec (send_credits_ (sender l)) count); intros [= <-]; (split; [|done]); split; try done;
      cbn [sender receiver in_flight granted send_credits_ pending_credits_ set_credits]; unfold is_u in Hc.
    + rewrite sumZ_app, sumZ_cons. unfold depth; cbn [receiver]. change (sumZ []) with 0. lia.
    + lia.
    + apply Forall_app. repeat constructor; [done|lia].
  - destruct (in_flight l) as [|count q] eqn:Eq; [done|]. rewrite sumZ_cons in Hs, Hb1, Hb3.
    apply Forall_cons in Hf as [Hc Hf]. pose proof (sumZ_nonneg q Hf).
    destruct (OnRecvCompleted _ _ _) as [r|] eqn:E; cbn [mbind option_bind]; [|done].
    intros [= <-]. apply OnRecvCompleted_frame in E as (E1 & E2 & E3).
    rewrite wrap_id in E3 by (unfold is_u; lia). cbn [receiver]. rewrite E1. split; [|done].
    split; unfold depth; cbn [sender receiver in_flight granted]; rewrite ?E1, ?E3; first [lia|done].
  - unfold GetPiggybackCredits. intros [= <-]. split; [|done].
    split; unfold depth; cbn [sender receiver in_flight granted set_credits pending_credits_ config_ send_credits_];
      try done.
    + rewrite sumZ_app, sumZ_cons. change (sumZ []) with 0. lia.
    + apply Forall_app. repeat constructor; done.
  - destruct (granted l) as [|n g] eqn:Eg; [done|]. rewrite sumZ_cons in Hs, Hb2, Hb3.
    apply Forall_cons in Hg as [Hn Hg]. pose proof (sumZ_nonneg g Hg). intros [= <-]. split; [|done].
    split; unfold depth; cbn [sender receiver in_flight granted AddCredits set_credits send_credits_]; try done;
      rewrite wrap_id by (unfold is_u; lia); lia.
Qed.

Lemma reachable_link l0 l : fresh_link l0 -> rtc link_step l0 l -> link_inv l /\ depth l = depth l0.
Proof.
  intros H0 Hr. assert (H : link_inv l0 /\ depth l0 = depth l0) by (split; [by apply fresh_link_inv|done]).
  clear H0. revert H. generalize (depth l0) at 2 3 as n. intros n.
  induction Hr as [l|l1 l2 l3 [a Ha] _ IH]; [done|]. intros [Hi Hd].
  destruct (link_exec_inv _ _ _ Hi Ha) as [Hi' Hd']. apply IH. split; [done|]. congruence.
Qed.

Lemma link_run_steps l acts l' : link_run l acts = Some l' -> rtc link_step l l'.
Proof.
  revert l. induction acts as [|a acts IH]; intros l; cbn [link_run]; [intros [= <-]; reflexivity|].
  destruct (link_exec l a) as [l1|] eqn:E; cbn [mbind option_bind]; [|done].
  intros H. eapply rtc_l; [by exists a|by apply IH].
Qed.

(** A link with the default configuration whose sender spends everything. *)
Lemma example_link :
  exists l0 l, fresh_link l0 /\ recv_depth (config_ (receiver l0)) = 1024
    /\ link_run l0 [LSend 1000; LSend 100; LReceive 5; LSend 24; LReceive 7] = Some l
    /\ starved l /\ lazy_threshold_ (receiver l) = 256.
Proof.
  destruct (FlowControl_new FlowControlConfig_default 0 0) as [fc|] eqn:E; [|done].
  exists {| sender := fc; receiver := fc; in_flight := []; granted := [] |}.
  destruct (link_run _ _) as [l|] eqn:El; [|injection E as <-; vm_compute in El; discriminate].
  exists l. split; [|split].
  - exists FlowControlConfig_default, FlowControlConfig_default, 0, 0, 0, 0. repeat split; done.
  - by injection E as <-.
  - injection E as <-. vm_compute in El. injection El as <-. repeat split; done.
Qed.

End lemmas.

(** ** Properties *)

Section properties.
Import FlowControl.

(** C23: credits are conserved: in every state two peers of a link can reach, the
    sender's credits, the messages in flight, the pending credits and the credits
    on their way back add up to the receiver's depth. So no counter wraps around,
    and messages sent but not yet credited back never outnumber the receive
    buffers. *)
Theorem credits_conserved l0 l :
  fresh_link l0 -> rtc link_step l0 l ->
  send_credits_ (sender l) + sumZ (in_flight l) + pending_credits_ (receiver l) + sumZ (granted l)
  = recv_depth (config_ (receiver l0))
  /\ 0 <= send_credits_ (sender l) /\ 0 <= pending_credits_ (receiver l)
  /\ 0 <= sumZ (in_flight l) /\ 0 <= sumZ (granted l)
  /\ sumZ (in_flight l) + pending_credits_ (receiver l) <= recv_depth (config_ (receiver l0)).
Proof.
  intros H0 Hr. destruct (reachable_link _ _ H0 Hr) as [Hi Hd]. pose proof (link_bounds l Hi) as (H1 & H2 & _).
  destruct Hi as [Hs _ H3 H4 _ _]. rewrite Hd in Hs. unfold depth in Hs. lia.
Qed.

Lemma credits_conserved_witness :
  exists l, send_credits_ (sender l) + sumZ (in_flight l) + pending_credits_ (receiver l) + sumZ (granted l) = 1024
    /\ starved l.
Proof.
  destruct example_link as (l0 & l & H0 & Hd & Hr & Hs & _). exists l. split; [|exact Hs].
  rewrite <- Hd. apply (credits_conserved l0 l H0 (link_run_steps _ _ _ Hr)).
Defined.

(** no deadlock: when the sender has run out of credits and nothing is
    under way, a receiver whose threshold is at most its depth decides to send an
    update, and that update gives the sender its whole depth back. *)
Theorem starved_sender_recovers l0 l :
  fresh_link l0 -> rtc link_step l0 l -> starved l ->
  lazy_threshold_ (receiver l) <= recv_depth (config_ (receiver l)) ->
  ShouldUpdateCredit (receiver l) = true
  /\ exists l', link_run l [LGrant; LAdd] = Some l'
       /\ send_credits_ (sender l') = recv_depth (config_ (receiver l0))
       /\ pending_credits_ (receiver l') = 0 /\ in_flight l' = [] /\ granted l' = [].
Proof.
  intros H0 Hr (Hc & Hf & Hg) Hl. destruct (reachable_link _ _ H0 Hr) as [[Hs Hd Hsd Hp _ _] Hd0].
  unfold CanSend, GetSendCredits in Hc. apply Z.leb_gt in Hc. rewrite Hf, Hg in Hs. change (sumZ []) with 0 in Hs.
  rewrite Hd0 in Hs, Hd. unfold depth in *. destruct Hd as [_ Hd]. split.
  - apply Z.leb_le. lia.
  - cbn [link_run link_exec GetPiggybackCredits]. sbind. cbn [link_exec granted]. rewrite Hg. cbn [app]. sbind.
    eexists. split; [done|]. cbn. split_and!; [|done|done|done].
    rewrite wrap_id by (unfold is_u; lia). lia.
Qed.

Lemma starved_sender_recovers_witness :
  exists l l', starved l /\ link_run l [LGrant; LAdd] = Some l' /\ send_credits_ (sender l') = 1024.
Proof.
  destruct example_link as (l0 & l & H0 & Hd & Hr & Hs & Hl).
  destruct (reachable_link _ _ H0 (link_run_steps _ _ _ Hr)) as [_ Hd']. unfold depth in Hd'.
  destruct (starved_sender_recovers l0 l H0 (link_run_steps _ _ _ Hr) Hs) as (_ & l' & E & Es & _).
  - rewrite Hl, Hd', Hd. discriminate.
  - exists l, l'. rewrite Hd in Es. split; [exact Hs|]. split; [exact E|exact Es].
Defined.

(** a threshold above the depth deadlocks the link: with depth 4 and ratio
    1.5 the sender spends its credits, the receiver takes the four messages, and
    then nothing changes any more unless a response happens to piggyback the
    credits: the receiver never decides to update, and no other action does
    anything. *)
Theorem greedy_threshold_starves :
  exists l0 l, fresh_link l0 /\ rtc link_step l0 l /\ starved l
    /\ recv_depth (config_ (receiver l)) = 4 /\ pending_credits_ (receiver l) = 4
    /\ ShouldUpdateCredit (receiver l) = false
    /\ forall a l', a <> LGrant -> 0 < match a with LSend n => n | _ => 1 end -> link_exec l a = Some l' -> l' = l.
Proof.
  destruct (FlowControl_new greedy_config 0 0) as [fc|] eqn:E; [|done].
  pose (l0 := {| sender := fc; receiver := fc; in_flight := []; granted := [] |}).
  destruct (link_run l0 [LSend 4; LReceive 0]) as [l|] eqn:El; [|by injection E as <-].
  exists l0, l. injection E as <-. subst l0. split.
  { exists greedy_config, greedy_config, 0, 0, 0, 0. repeat split; done. }
  vm_compute in El. injection El as <-. split; [|split_and!; try done].
  - eapply rtc_l; [by exists (LSend 4)|]. eapply rtc_l; [by exists (LReceive 0)|]. reflexivity.
  - intros [count|now| |] l' Ha Hn; cbn [link_exec in_flight granted]; [|done|done|done].
    destruct (decide _); [|done]. unfold TryConsume. cbn [sender send_credits_].
    destruct (Z.ltb_spec 0 count); [|lia]. by intros [= <-].
Qed.

End properties.
