(* ===== verification/DoorbellBatcher.v ===== *)
(** * The doorbell batcher

    Models [include/rdma/core/doorbell_batcher.h]: work requests are chained
    through their [next] members and handed to the device by one call. Work
    requests are addresses, not null; [None] is a list the device cannot follow.
    The readings of the cycle counter are arguments; [tsc_per_us_] is a variable
    of the class, shared by all batchers. *)

From S2P Require Import Prelude Chain Types.

(** [ibv_post_send] on a list of requests: those before the first that fails are
    accepted, all of them exactly when it returns 0. *)
Class SendQueue (HW : Type) := {
  post_list : HW -> list Z -> HW * Z;
  accepted : HW -> list Z;
  post_list_law hw l :
    exists k, accepted (post_list hw l).1 = accepted hw ++ take k l
      /\ ((post_list hw l).2 = 0 -> take k l = l);
}.

Module DoorbellBatcher.

Record Config := {
  max_batch_size : Z;                  (* size_t *)
  max_delay_us : Z;                    (* uint32_t *)
  low_load_threshold : Z;              (* size_t *)
}.

Definition Config_default : Config :=
  {| max_batch_size := 32; max_delay_us := 10; low_load_threshold := 4 |}.

Record DoorbellBatcher := {
  config_ : Config;
  send_head_ : Z;
  send_tail_ : Z;
  send_count_ : Z;                     (* size_t *)
  first_wr_tsc_ : Z;                   (* uint64_t *)
  idle_poll_count_ : Z;                (* uint32_t *)
}.

Definition DoorbellBatcher_new (config : Config) : DoorbellBatcher :=
  {| config_ := config; send_head_ := 0; send_tail_ := 0; send_count_ := 0;
     first_wr_tsc_ := 0; idle_poll_count_ := 0 |}.

Definition set_idle (b : DoorbellBatcher) (idle : Z) : DoorbellBatcher :=
  {| config_ := config_ b; send_head_ := send_head_ b; send_tail_ := send_tail_ b;
     send_count_ := send_count_ b; first_wr_tsc_ := first_wr_tsc_ b; idle_poll_count_ := idle |}.

Definition PendingSendCount (b : DoorbellBatcher) : Z := send_count_ b.

Definition ShouldFlush (tsc_per_us : Z) (b : DoorbellBatcher) (tsc : Z) : bool :=
  if send_count_ b =? 0 then false
  else if max_batch_size (config_ b) <=? send_count_ b then true
  else
    let elapsed_tsc := u64 (tsc - first_wr_tsc_ b) in
    let max_tsc := u64 (max_delay_us (config_ b) * tsc_per_us) in
    if max_tsc <=? elapsed_tsc then true
    else if (2 <=? idle_poll_count_ b) && (0 <? send_count_ b) then true
    else false.

(** [CalibrateTsc]: the new [tsc_per_us_], from the readings around the sleep and
    the microseconds it took. *)
Definition CalibrateTsc (tsc_per_us tsc_start tsc_end elapsed_us : Z) : Z :=
  if 0 <? elapsed_us then u64 (tsc_end - tsc_start) / elapsed_us else tsc_per_us.

Section device.
Context {HW : Type} `{!SendQueue HW}.

(** The device, the [next] members of the work requests, and the batcher. *)
Record World := { hw : HW; next_ : gmap Z Z; batcher : DoorbellBatcher }.

(** A call of [ibv_post_send]: the requests and the result. *)
Inductive Event := EPost (wrs : list Z) (ret : Z).

Definition FlushSend (w : World) : option (World * list Event * Status) :=
  let b := batcher w in
  if send_head_ b =? 0 then Some (w, [], Err.Status_OK)
  else
    wrs ← next_walk (size (next_ w)) (next_ w) (send_head_ b);
    let '(h, ret) := post_list (hw w) wrs in
    let b := {| config_ := config_ b; send_head_ := 0; send_tail_ := 0; send_count_ := 0;
                first_wr_tsc_ := first_wr_tsc_ b; idle_poll_count_ := 0 |} in
    Some ({| hw := h; next_ := next_ w; batcher := b |}, [EPost wrs ret],
          if negb (ret =? 0) then Err.IOError "ibv_post_send failed" ret else Err.Status_OK).

(** The status of the flush is dropped. *)
Definition AddSendWr (w : World) (wr tsc : Z) : option (World * list Event) :=
  let b := batcher w in
  let '(next, head, first) :=
    if negb (send_tail_ b =? 0) then (<[send_tail_ b := wr]> (next_ w), send_head_ b, first_wr_tsc_ b)
    else (next_ w, wr, tsc) in
  let b := {| config_ := config_ b; send_head_ := head; send_tail_ := wr;
              send_count_ := u64 (send_count_ b + 1); first_wr_tsc_ := first;
              idle_poll_count_ := idle_poll_count_ b |} in
  let w := {| hw := hw w; next_ := <[wr := 0]> next; batcher := b |} in
  if max_batch_size (config_ b) <=? send_count_ b
  then '(w, evs, _) ← FlushSend w; Some (w, evs)
  else Some (w, []).

Definition OnPollEnd (tsc_per_us : Z) (w : World) (had_events : bool) (tsc : Z)
    : option (World * list Event * Status) :=
  let b := batcher w in
  let b := if negb had_events then set_idle b (u32 (idle_poll_count_ b + 1)) else set_idle b 0 in
  let w := {| hw := hw w; next_ := next_ w; batcher := b |} in
  if ShouldFlush tsc_per_us b tsc then FlushSend w else Some (w, [], Err.Status_OK).

End device.
Arguments World : clear implicits.
End DoorbellBatcher.

(** ** Specification *)

Section specification.
Import DoorbellBatcher.
Context {HW : Type} `{!SendQueue HW}.

(** The batcher is a list of pending requests, oldest first. *)
Record pending_rep (w : World HW) (l : list Z) : Prop := {
  pr_chain : next_chain (next_ w) (send_head_ (batcher w)) l;
  pr_nodup : NoDup l;
  pr_tail : send_tail_ (batcher w) = default 0 (last l);
  pr_count : send_count_ (batcher w) = Z.of_nat (length l);
  pr_bound : Z.of_nat (length l) < 2 ^ 64 - 1;
}.

Inductive Op := OAdd (wr tsc : Z) | OFlush | OPollEnd (had_events : bool) (tsc : Z).

Definition op_step (tsc_per_us : Z) (w : World HW) (o : Op) : option (World HW * list Event) :=
  match o with
  | OAdd wr tsc => AddSendWr w wr tsc
  | OFlush => '(w, evs, _) ← FlushSend w; Some (w, evs)
  | OPollEnd e tsc => '(w, evs, _) ← OnPollEnd tsc_per_us w e tsc; Some (w, evs)
  end.

Fixpoint op_run (tsc_per_us : Z) (w : World HW) (os : list Op) : option (World HW * list Event) :=
  match os with
  | [] => Some (w, [])
  | o :: os => '(w, evs) ← op_step tsc_per_us w o; '(w, evs') ← op_run tsc_per_us w os; Some (w, evs ++ evs')
  end.

(** The requests added, and the batches posted. *)
Definition added (os : list Op) : list Z := omap (fun o => match o with OAdd wr _ => Some wr | _ => None end) os.

Definition batches (evs : list Event) : list (list Z) := (fun e => match e with EPost l _ => l end) <$> evs.

End specification.

(** A device that accepts everything, and one that accepts nothing. *)
#[export, refine] Instance accepting_queue : SendQueue (list Z) :=
  {| post_list hw l := (hw ++ l, 0); accepted hw := hw |}.
Proof. intros hw l. exists (length l). by rewrite firstn_all. Defined.

#[export, refine] Instance refusing_queue : SendQueue unit := {| post_list _ _ := (tt, 12); accepted _ := [] |}.
Proof. intros hw l. by exists 0%nat. Defined.

(** ** Lemmas *)

Section lemmas.
Import DoorbellBatcher.
Context {HW : Type} `{!SendQueue HW}.
Implicit Types w : World HW.

Lemma last_snoc_split (l : list Z) : l = [] \/ exists l' t, l = l' ++ [t].
Proof. destruct l as [|x l] using rev_ind; [by left|right; by exists l, x]. Qed.

Lemma FlushSend_spec w l :
  pending_rep w l ->
  exists w' st, FlushSend w = Some (w', if decide (l = []) then [] else [EPost l (post_list (hw w) l).2], st)
    /\ pending_rep w' [] /\ config_ (batcher w') = config_ (batcher w)
    /\ (l <> [] -> hw w' = (post_list (hw w) l).1 /\ status_ok st = ((post_list (hw w) l).2 =? 0)).
Proof.
  intros Hr. pose proof Hr as [Hc Hn Ht Hl Hb]. unfold FlushSend. pose proof (next_chain_head _ _ _ Hc) as Hh.
  destruct (Z.eqb_spec (send_head_ (batcher w)) 0) as [E|E].
  - apply Hh in E as ->. exists w, Err.Status_OK. rewrite decide_True by done. split_and!; [done|done|done|]. by intros [].
  - assert (l <> []) as Hne by tauto. rewrite decide_False by done.
    rewrite (next_walk_chain _ _ _ _ Hc (next_chain_length _ _ _ Hc Hn)). sbind.
    destruct (post_list (hw w) l) as [h ret]. eexists _, _. split; [done|]. split; [|split; [done|intros _; split; [done|]]].
    + split; simpl; try done. constructor.
    + cbn [snd]. destruct (Z.eqb_spec ret 0) as [->|]; done.
Qed.

(** Linking a request, before the size is tested. *)
Lemma link_rep w l wr first tail :
  pending_rep w l -> wr <> 0 -> wr ∉ l -> Z.of_nat (length l) < 2 ^ 64 - 2 -> tail = send_tail_ (batcher w) ->
  let b := {| config_ := config_ (batcher w); send_head_ := if negb (tail =? 0) then send_head_ (batcher w) else wr;
              send_tail_ := wr; send_count_ := u64 (send_count_ (batcher w) + 1); first_wr_tsc_ := first;
              idle_poll_count_ := idle_poll_count_ (batcher w) |} in
  pending_rep {| hw := hw w; next_ := <[wr := 0]> (if negb (tail =? 0) then <[tail := wr]> (next_ w) else next_ w);
                 batcher := b |} (l ++ [wr]).
Proof.
  intros [Hc Hn Ht Hl Hb] H0 Hi Hlt -> b. pose proof (next_chain_nodes _ _ _ Hc) as Hnz.
  split; cbn [next_ batcher b send_head_ send_tail_ send_count_ config_].
  - rewrite Ht. destruct (last_snoc_split l) as [->|(l' & t & ->)].
    + cbn. split_and!; [done|done|]. exists 0. by rewrite lookup_insert_eq.
    + rewrite last_snoc. cbn [default id]. apply Forall_app in Hnz as [_ Hz%Forall_cons]. destruct Hz as [Hz _].
      destruct (Z.eqb_spec t 0); [done|]. cbn [negb]. rewrite <- app_assoc. by apply next_chain_snoc.
  - apply NoDup_app. split_and!; [done| |apply NoDup_singleton]. intros x Hx ->%list_elem_of_singleton. done.
  - by rewrite last_snoc.
  - rewrite length_app, Hl. simpl. rewrite wrap_id by (unfold is_u; lia). lia.
  - rewrite length_app. simpl. lia.
Qed.

Lemma AddSendWr_spec w l wr tsc :
  pending_rep w l -> wr <> 0 -> wr ∉ l -> Z.of_nat (length l) < 2 ^ 64 - 2 ->
  let full := max_batch_size (config_ (batcher w)) <=? Z.of_nat (length l) + 1 in
  exists w' , AddSendWr w wr tsc
      = Some (w', if full then [EPost (l ++ [wr]) (post_list (hw w) (l ++ [wr])).2] else [])
    /\ pending_rep w' (if full then [] else l ++ [wr]) /\ config_ (batcher w') = config_ (batcher w)
    /\ hw w' = (if full then (post_list (hw w) (l ++ [wr])).1 else hw w).
Proof.
  intros Hr H0 Hi Hlt full. pose proof Hr as [_ _ _ Hl _].
  pose proof (link_rep w l wr (if negb (send_tail_ (batcher w) =? 0) then first_wr_tsc_ (batcher w) else tsc)
    _ Hr H0 Hi Hlt eq_refl) as Hr'. cbn zeta in Hr'.
  match type of Hr' with pending_rep ?w' _ => set (w1 := w') in * end.
  assert (EA : AddSendWr w wr tsc
    = if max_batch_size (config_ (batcher w)) <=? u64 (send_count_ (batcher w) + 1)
      then '(w, evs, _) ← FlushSend w1; Some (w, evs) else Some (w1, []))
    by (unfold AddSendWr, w1; destruct (negb _); reflexivity).
  rewrite EA, Hl, wrap_id by (unfold is_u; lia). fold full. destruct full; [|by exists w1].
  destruct (FlushSend_spec w1 _ Hr') as (w' & st & Ef & Hr2 & Hcfg & Hh).
  assert (Hne : l ++ [wr] <> []) by (by destruct l). rewrite decide_False in Ef by done.
  rewrite Ef. sbind. exists w'. split_and!; [done|done|done|]. by apply Hh.
Qed.

Lemma OnPollEnd_spec tpu w l had tsc :
  pending_rep w l ->
  exists w' evs st, OnPollEnd tpu w had tsc = Some (w', evs, st)
    /\ config_ (batcher w') = config_ (batcher w)
    /\ ((evs = [] /\ pending_rep w' l
         /\ idle_poll_count_ (batcher w') = (if had then 0 else u32 (idle_poll_count_ (batcher w) + 1))
         /\ (l = [] \/ ShouldFlush tpu (batcher w') tsc = false))
        \/ (evs = [EPost l (post_list (hw w) l).2] /\ l <> [] /\ pending_rep w' [])).
Proof.
  intros Hr. unfold OnPollEnd.
  set (b := if negb had then _ else _).
  assert (Hb : pending_rep {| hw := hw w; next_ := next_ w; batcher := b |} l /\ config_ b = config_ (batcher w)
               /\ idle_poll_count_ b = (if had then 0 else u32 (idle_poll_count_ (batcher w) + 1)))
    by (destruct Hr; subst b; destruct had; (split; [by split|done])).
  destruct Hb as (Hb & Hcfg & Hidle). destruct (ShouldFlush tpu b tsc) eqn:E.
  - destruct (FlushSend_spec _ _ Hb) as (w' & st & Ef & Hr' & Hc' & _).
    assert (l <> []) as Hne.
    { intros ->. unfold ShouldFlush in E. destruct Hb as [_ _ _ Hl _]. simpl in Hl. by rewrite Hl in E. }
    rewrite decide_False in Ef by done. exists w', [EPost l (post_list (hw w) l).2], st.
    rewrite Ef. split; [done|]. split; [by rewrite Hc'|]. right. done.
  - eexists _, _, _. split; [done|]. split; [done|]. left. split_and!; [done|done|done|]. by right.
Qed.

(** One operation: what it posts and what stays pending, in order. *)
Lemma op_step_spec tpu w l o :
  pending_rep w l -> 1 <= max_batch_size (config_ (batcher w)) < 2 ^ 63 ->
  Z.of_nat (length l) < max_batch_size (config_ (batcher w)) ->
  NoDup (l ++ added [o]) -> Forall (fun x => x <> 0) (added [o]) ->
  exists w' evs l', op_step tpu w o = Some (w', evs) /\ pending_rep w' l'
    /\ config_ (batcher w') = config_ (batcher w)
    /\ Z.of_nat (length l') < max_batch_size (config_ (batcher w))
    /\ concat (batches evs) ++ l' = l ++ added [o]
    /\ Forall (fun b => 0 < Z.of_nat (length b) <= max_batch_size (config_ (batcher w))) (batches evs).
Proof.
  intros Hr Hm Hl Hn Hz. destruct o as [wr tsc| |had tsc]; cbn [added omap list_omap] in *; cbn [op_step].
  - apply NoDup_app in Hn as (_ & Hn & _). apply Forall_cons in Hz as [Hz _].
    assert (wr ∉ l) as Hi by (intros Hi; apply (Hn wr Hi), list_elem_of_here).
    destruct (AddSendWr_spec w l wr tsc Hr Hz Hi ltac:(lia)) as (w' & E & Hr' & Hc & _). rewrite E.
    eexists w', _, _. split; [done|]. split; [exact Hr'|]. split; [done|].
    destruct (Z.leb_spec (max_batch_size (config_ (batcher w))) (Z.of_nat (length l) + 1)) as [Hf|Hf].
    + split; [simpl; lia|]. cbn [batches fmap list_fmap concat]. rewrite !app_nil_r. split; [done|].
      repeat constructor; rewrite length_app; simpl; lia.
    + split; [rewrite length_app; simpl; lia|]. split; [done|constructor].
  - destruct (FlushSend_spec w l Hr) as (w' & st & E & Hr' & Hc & _). rewrite E. sbind.
    eexists w', _, []. split; [done|]. split; [done|]. split; [done|]. split; [simpl; lia|].
    destruct (decide (l = [])) as [->|Hne]; [by split|]. cbn [batches fmap list_fmap concat]. rewrite !app_nil_r.
    split; [done|]. repeat constructor; destruct l; simpl; try done; simpl in Hl; lia.
  - destruct (OnPollEnd_spec tpu w l had tsc Hr) as (w' & evs & st & E & Hc & H). rewrite E. sbind.
    exists w', evs. destruct H as [(-> & Hr' & _)|(-> & Hne & Hr')].
    + exists l. split_and!; try done; by rewrite app_nil_r.
    + exists []. cbn [batches fmap list_fmap concat]. rewrite !app_nil_r.
      split_and!; try done; [simpl; lia|]. repeat constructor; destruct l; simpl; try done; simpl in Hl; lia.
Qed.

Lemma added_cons o os : added (o :: os) = added [o] ++ added os.
Proof. by destruct o. Qed.

Lemma op_run_spec tpu w l os :
  pending_rep w l -> 1 <= max_batch_size (config_ (batcher w)) < 2 ^ 63 ->
  Z.of_nat (length l) < max_batch_size (config_ (batcher w)) ->
  NoDup (l ++ added os) -> Forall (fun x => x <> 0) (added os) ->
  exists w' evs l', op_run tpu w os = Some (w', evs) /\ pending_rep w' l'
    /\ Z.of_nat (length l') < max_batch_size (config_ (batcher w))
    /\ concat (batches evs) ++ l' = l ++ added os
    /\ Forall (fun b => 0 < Z.of_nat (length b) <= max_batch_size (config_ (batcher w))) (batches evs).
Proof.
  revert w l. induction os as [|o os IH]; intros w l Hr Hm Hl Hn Hz; cbn [op_run].
  { exists w, [], l. split_and!; try done; by rewrite app_nil_r. }
  rewrite added_cons in Hn, Hz |- *. rewrite app_assoc in Hn. apply Forall_app in Hz as [Hz1 Hz2].
  destruct (op_step_spec tpu w l o Hr Hm Hl) as (w1 & evs1 & l1 & E1 & Hr1 & Hc1 & Hl1 & Hcat1 & Hb1);
    [by apply NoDup_app in Hn as (? & _)|done|].
  rewrite <- Hcat1, <- app_assoc in Hn. apply NoDup_app in Hn as (_ & _ & Hn).
  destruct (IH w1 l1 Hr1) as (w2 & evs2 & l2 & E2 & Hr2 & Hl2 & Hcat2 & Hb2); rewrite ?Hc1; try done.
  rewrite Hc1 in Hl2, Hb2. rewrite E1. sbind. rewrite E2. sbind. exists w2, (evs1 ++ evs2), l2.
  split_and!; try done.
  - unfold batches in *. rewrite fmap_app, concat_app, <- app_assoc, Hcat2, !app_assoc. by rewrite <- Hcat1.
  - unfold batches in *. rewrite fmap_app. by apply Forall_app.
Qed.

Lemma new_rep (h : HW) next config :
  pending_rep {| hw := h; next_ := next; batcher := DoorbellBatcher_new config |} [].
Proof. split; try done. constructor. Qed.

End lemmas.

(** ** Properties *)

Section properties.
Import DoorbellBatcher.

(** C24: Requests reach the device in the order they were added, each once:
    whatever mix of additions, flushes and ends of polls of distinct, non-null
    requests, with a [max_batch_size] of at least 1, the batches posted followed
    by the requests still pending are exactly the requests added. Fewer than
    [max_batch_size] stay pending and no batch is larger, and the linked list the
    device follows is always well formed. *)
Theorem batcher_fifo {HW} `{!SendQueue HW} tpu (w : World HW) l os :
  pending_rep w l -> 1 <= max_batch_size (config_ (batcher w)) < 2 ^ 63 ->
  Z.of_nat (length l) < max_batch_size (config_ (batcher w)) ->
  NoDup (l ++ added os) -> Forall (fun x => x <> 0) (added os) ->
  exists w' evs l', op_run tpu w os = Some (w', evs) /\ pending_rep w' l'
    /\ Z.of_nat (length l') < max_batch_size (config_ (batcher w))
    /\ concat (batches evs) ++ l' = l ++ added os
    /\ Forall (fun b => 0 < Z.of_nat (length b) <= max_batch_size (config_ (batcher w))) (batches evs).
Proof. apply op_run_spec. Qed.

Definition example_batcher : World (list Z) :=
  {| hw := []; next_ := ∅;
     batcher := DoorbellBatcher_new {| max_batch_size := 2; max_delay_us := 10; low_load_threshold := 4 |} |}.

Lemma batcher_fifo_witness :
  exists w' evs l', op_run 2400 example_batcher [OAdd 10 5; OAdd 20 6; OPollEnd true 7; OAdd 30 8; OPollEnd false 9]
      = Some (w', evs)
    /\ concat (batches evs) ++ l' = [10; 20; 30] /\ pending_rep w' l'.
Proof.
  destruct (batcher_fifo 2400 example_batcher []
    [OAdd 10 5; OAdd 20 6; OPollEnd true 7; OAdd 30 8; OPollEnd false 9]) as (w' & evs & l' & E & Hr & _ & Hc & _).
  - apply new_rep.
  - simpl. lia.
  - simpl. lia.
  - apply (bool_decide_unpack _). vm_compute. exact I.
  - forall_compute.
  - exists w', evs, l'. split; [exact E|]. split; [exact Hc|exact Hr].
Defined.

(** a pending request waits for at most two idle polls: the ends of two
    consecutive polls without events leave nothing pending, whatever the cycle
    counter reads, and post each pending request once. *)
Theorem idle_polls_flush {HW} `{!SendQueue HW} tpu (w : World HW) l t1 t2 :
  pending_rep w l -> 0 <= idle_poll_count_ (batcher w) < 2 ^ 32 - 2 ->
  exists w' evs, op_run tpu w [OPollEnd false t1; OPollEnd false t2] = Some (w', evs)
    /\ pending_rep w' [] /\ concat (batches evs) = l.
Proof.
  intros Hr Hi. cbn [op_run op_step].
  destruct (OnPollEnd_spec tpu w l false t1 Hr) as (w1 & evs1 & st1 & E1 & Hc1 & H1). rewrite E1. sbind.
  destruct H1 as [(-> & Hr1 & Hi1 & _)|(-> & Hne & Hr1)].
  - destruct (OnPollEnd_spec tpu w1 l false t2 Hr1) as (w2 & evs2 & st2 & E2 & Hc2 & H2). rewrite E2. sbind.
    exists w2. eexists. split; [done|]. destruct H2 as [(-> & Hr2 & Hi2 & [->|Hf])|(-> & Hne & Hr2)].
    + by split.
    + destruct (decide (l = [])) as [->|Hne]; [by split|]. exfalso.
      rewrite wrap_id in Hi1 by (unfold is_u; lia).
      rewrite Hi1, wrap_id in Hi2 by (unfold is_u; lia).
      destruct Hr2 as [_ _ _ Hl _]. unfold ShouldFlush in Hf. rewrite Hi2, Hl in Hf.
      assert (0 < Z.of_nat (length l)) by (destruct l; simpl; [done|lia]).
      destruct (Z.eqb_spec (Z.of_nat (length l)) 0); [lia|]. destruct (_ <=? Z.of_nat _); [done|].
      destruct (_ <=? u64 _); [done|]. rewrite (proj2 (Z.leb_le 2 _)), (proj2 (Z.ltb_lt 0 _)) in Hf by lia. done.
    + split; [done|]. cbn. by rewrite !app_nil_r.
  - destruct (OnPollEnd_spec tpu w1 [] false t2 Hr1) as (w2 & evs2 & st2 & E2 & Hc2 & H2). rewrite E2. sbind.
    exists w2. eexists. split; [done|]. destruct H2 as [(-> & Hr2 & _)|(_ & Hne' & _)]; [|done].
    split; [done|]. cbn. by rewrite !app_nil_r.
Qed.

Lemma idle_polls_flush_witness :
  exists w w' evs, AddSendWr example_batcher 10 5 = Some (w, [])
    /\ op_run 2400 w [OPollEnd false 6; OPollEnd false 7] = Some (w', evs) /\ concat (batches evs) = [10].
Proof.
  destruct (AddSendWr_spec example_batcher [] 10 5 (new_rep _ _ _)) as (w & E & Hr & _);
    [done|apply not_elem_of_nil|simpl; lia|].
  assert (Hw : idle_poll_count_ (batcher w) = 0) by (vm_compute in E; injection E as <-; reflexivity).
  destruct (idle_polls_flush 2400 w [10] 6 7) as (w' & evs & E' & _ & Hc).
  - exact Hr.
  - rewrite Hw. lia.
  - exists w, w', evs. split; [exact E|]. split; [exact E'|exact Hc].
Defined.

(** the addition that fills the batch drops the result of the post: on a
    device that refuses everything, the requests are taken off the batcher, none
    is accepted, and the caller is told nothing. *)
Theorem failed_batch_is_lost (w : World unit) l wr tsc :
  pending_rep w l -> wr <> 0 -> wr ∉ l ->
  max_batch_size (config_ (batcher w)) <= Z.of_nat (length l) + 1 < 2 ^ 64 - 1 ->
  exists w', AddSendWr w wr tsc = Some (w', [EPost (l ++ [wr]) 12])
    /\ pending_rep w' [] /\ accepted (hw w') = [].
Proof.
  intros Hr Hz Hi Hm. destruct (AddSendWr_spec w l wr tsc Hr Hz Hi ltac:(lia)) as (w' & E & Hr' & _ & _).
  rewrite (proj2 (Z.leb_le _ _)) in E, Hr' by lia. by exists w'.
Qed.

Lemma failed_batch_is_lost_witness :
  exists w', AddSendWr {| hw := tt; next_ := ∅;
      batcher := DoorbellBatcher_new {| max_batch_size := 1; max_delay_us := 10; low_load_threshold := 4 |} |} 10 5
    = Some (w', [EPost [10] 12]) /\ pending_rep w' [].
Proof.
  destruct (failed_batch_is_lost {| hw := tt; next_ := ∅;
      batcher := DoorbellBatcher_new {| max_batch_size := 1; max_delay_us := 10; low_load_threshold := 4 |} |} [] 10 5
      (new_rep _ _ _)) as (w' & E & Hr & _).
  - discriminate.
  - apply not_elem_of_nil.
  - simpl. lia.
  - exists w'. split; [exact E|exact Hr].
Defined.

End properties.
