(* ===== verification/KvServer.v ===== *)
(** * The key-value server

    Models [examples/kv_server.h] and [examples/kv_server.cpp] on the components
    they use: the store, the connection manager, the dispatcher, the handshake
    channel, a pool of registered buffers (any [BufferSource]) and, through the
    connections, the device. A [Connection*] is the id under which the manager
    owns the object; using one that is gone is undefined, as are accesses outside
    a buffer: [None]. Console output is left out. *)

From S2P Require Import Prelude Types WrId KvProtocol KvStore Verbs CompletionDispatcher Buffer BufferPool Memory.
From S2P Require Import QueuePair Connection Handshake Reactor.

#[local] Existing Instance kv.Status_eq_dec.

Module KVServer.

Record PostedBuffer := { buf : Buffer; conn_id : Z }.

Record ConnectionContext := {
  conn : Z;
  requests_processed : Z;              (* uint64_t *)
  gets_processed : Z;                  (* uint64_t *)
  puts_processed : Z;                  (* uint64_t *)
}.

Record KVServer (HW P : Type) := {
  hw : HW;
  mem : memory;
  store_ : KVStore.KVStore;
  buffer_pool_ : P;
  conn_manager_ : ConnectionManager.ConnectionManager;
  dispatcher_ : CompletionDispatcher.CompletionDispatcher;
  conn_contexts_ : gmap Z ConnectionContext;
  posted_recv_buffers_ : gmap Z PostedBuffer;
  posted_send_buffers_ : gmap Z Buffer;
}.
Arguments hw {HW P} _.
Arguments mem {HW P} _.
Arguments store_ {HW P} _.
Arguments buffer_pool_ {HW P} _.
Arguments conn_manager_ {HW P} _.
Arguments dispatcher_ {HW P} _.
Arguments conn_contexts_ {HW P} _.
Arguments posted_recv_buffers_ {HW P} _.
Arguments posted_send_buffers_ {HW P} _.

(** The configurations [Initialize] chooses. *)
Definition store_config : KVStore.StoreConfig :=
  {| KVStore.total_storage_size := 1 * 1024 * 1024 * 1024; KVStore.slot_size := kv.MAX_VALUE_SIZE;
     KVStore.cfg_hash_table_size := 0 |}.

Definition bp_config : LocalBufferPool.BufferPoolConfig :=
  {| LocalBufferPool.buffer_size := kv.MAX_REQUEST_SIZE; LocalBufferPool.buffer_count := 512;
     LocalBufferPool.max_buffer_count := 65536; LocalBufferPool.numa_node := -1;
     LocalBufferPool.use_hugepage := false; LocalBufferPool.policy := FIFO |}.

Definition max_connections : Z := 256.

Definition reactor_config : Reactor.ReactorConfig := Reactor.ReactorConfig_default.

Section server.
Context {HW P : Type} `{!Verbs HW, !BufferSource P}.
Implicit Types (s : KVServer HW P).

Definition set_hw s (h : HW) (m : ConnectionManager.ConnectionManager) : KVServer HW P :=
  {| hw := h; mem := mem s; store_ := store_ s; buffer_pool_ := buffer_pool_ s; conn_manager_ := m;
     dispatcher_ := dispatcher_ s; conn_contexts_ := conn_contexts_ s;
     posted_recv_buffers_ := posted_recv_buffers_ s; posted_send_buffers_ := posted_send_buffers_ s |}.

Definition set_mem s (m : memory) : KVServer HW P :=
  {| hw := hw s; mem := m; store_ := store_ s; buffer_pool_ := buffer_pool_ s; conn_manager_ := conn_manager_ s;
     dispatcher_ := dispatcher_ s; conn_contexts_ := conn_contexts_ s;
     posted_recv_buffers_ := posted_recv_buffers_ s; posted_send_buffers_ := posted_send_buffers_ s |}.

Definition set_store s (st : KVStore.KVStore) : KVServer HW P :=
  {| hw := hw s; mem := mem s; store_ := st; buffer_pool_ := buffer_pool_ s; conn_manager_ := conn_manager_ s;
     dispatcher_ := dispatcher_ s; conn_contexts_ := conn_contexts_ s;
     posted_recv_buffers_ := posted_recv_buffers_ s; posted_send_buffers_ := posted_send_buffers_ s |}.

Definition set_buffers s (p : P) (recvs : gmap Z PostedBuffer) (sends : gmap Z Buffer) : KVServer HW P :=
  {| hw := hw s; mem := mem s; store_ := store_ s; buffer_pool_ := p; conn_manager_ := conn_manager_ s;
     dispatcher_ := dispatcher_ s; conn_contexts_ := conn_contexts_ s;
     posted_recv_buffers_ := recvs; posted_send_buffers_ := sends |}.

Definition set_contexts s (cs : gmap Z ConnectionContext) : KVServer HW P :=
  {| hw := hw s; mem := mem s; store_ := store_ s; buffer_pool_ := buffer_pool_ s; conn_manager_ := conn_manager_ s;
     dispatcher_ := dispatcher_ s; conn_contexts_ := cs;
     posted_recv_buffers_ := posted_recv_buffers_ s; posted_send_buffers_ := posted_send_buffers_ s |}.

Definition set_dispatcher s (d : CompletionDispatcher.CompletionDispatcher) : KVServer HW P :=
  {| hw := hw s; mem := mem s; store_ := store_ s; buffer_pool_ := buffer_pool_ s; conn_manager_ := conn_manager_ s;
     dispatcher_ := d; conn_contexts_ := conn_contexts_ s;
     posted_recv_buffers_ := posted_recv_buffers_ s; posted_send_buffers_ := posted_send_buffers_ s |}.

(** [buffer_pool_->Allocate()] and [Free]. *)
Definition allocate s : option (KVServer HW P * Buffer) :=
  '(p, b) ← bs_allocate (buffer_pool_ s);
  Some (set_buffers s p (posted_recv_buffers_ s) (posted_send_buffers_ s), b).

Definition free s (b : Buffer) : option (KVServer HW P) :=
  p ← bs_free (buffer_pool_ s) b;
  Some (set_buffers s p (posted_recv_buffers_ s) (posted_send_buffers_ s)).

Definition track_recv s (wr_id : Z) (b : PostedBuffer) : KVServer HW P :=
  set_buffers s (buffer_pool_ s) (<[wr_id := b]> (posted_recv_buffers_ s)) (posted_send_buffers_ s).

Definition track_send s (wr_id : Z) (b : Buffer) : KVServer HW P :=
  set_buffers s (buffer_pool_ s) (posted_recv_buffers_ s) (<[wr_id := b]> (posted_send_buffers_ s)).

(** The object behind a [Connection*]. *)
Definition deref s (c : Z) : option Connection :=
  mjoin (aget (ConnectionManager.connections_ (conn_manager_ s)) c).

Definition set_connections (m : ConnectionManager.ConnectionManager) (l : list (option Connection))
    : ConnectionManager.ConnectionManager :=
  {| ConnectionManager.connections_ := l; ConnectionManager.free_conn_ids_ := ConnectionManager.free_conn_ids_ m;
     ConnectionManager.active_count_ := ConnectionManager.active_count_ m;
     ConnectionManager.max_connections := ConnectionManager.max_connections m |}.

(** [conn->Send(buf, wr_id)]; the status is dropped. *)
Definition conn_send s (c : Z) (b : Buffer) (wr_id : Z) : option (KVServer HW P) :=
  o ← deref s c;
  let '(h, o, _) := Connection.Send (hw s) o b wr_id in
  l ← aset (ConnectionManager.connections_ (conn_manager_ s)) c (Some o);
  Some (set_hw s h (set_connections (conn_manager_ s) l)).

(** The body of the loop of [PostRecvBuffers]. *)
Definition PostRecvBuffer s (c : Z) : option (KVServer HW P) :=
  '(s, b) ← allocate s;
  if Buffer.IsValid b then
    o ← deref s c;
    let buf_index := u32 (Z.land (Buffer.addr_ b) 0xFFFFFFFF) in
    let wr_id := WrId.Encode (Connection.conn_id_ o) RECV 0 buf_index in
    let s := track_recv s wr_id {| buf := b; conn_id := Connection.conn_id_ o |} in
    let '(h, _) := Connection.PostRecv (hw s) o b wr_id in
    Some (set_hw s h (conn_manager_ s))
  else Some s.

Fixpoint PostRecvBuffers s (c : Z) (count : nat) : option (KVServer HW P) :=
  match count with
  | O => Some s
  | S count => s ← PostRecvBuffer s c; PostRecvBuffers s c count
  end.

(** The request header overlaid on the start of a buffer. *)
Definition header_at s (b : Buffer) : option kv.RequestHeader :=
  l ← buf_read (mem s) b 0 kv.RequestHeader_size;
  Some (kv.RequestHeader_of_bytes l).

(** Write a response header at the start of a buffer. *)
Definition write_response s (b : Buffer) (r : kv.ResponseHeader) : option (KVServer HW P) :=
  m ← buf_write (mem s) b 0 (kv.ResponseHeader_bytes r);
  Some (set_mem s m).

(** The counters of a context; [f] is one of the increments. *)
Definition count_in s (ctx : Z) (f : ConnectionContext -> ConnectionContext) : option (KVServer HW P) :=
  c ← conn_contexts_ s !! ctx;
  Some (set_contexts s (<[ctx := f c]> (conn_contexts_ s))).

Definition count_request (c : ConnectionContext) : ConnectionContext :=
  {| conn := conn c; requests_processed := u64 (requests_processed c + 1);
     gets_processed := gets_processed c; puts_processed := puts_processed c |}.

Definition count_get (c : ConnectionContext) : ConnectionContext :=
  {| conn := conn c; requests_processed := requests_processed c;
     gets_processed := u64 (gets_processed c + 1); puts_processed := puts_processed c |}.

Definition count_put (c : ConnectionContext) : ConnectionContext :=
  {| conn := conn c; requests_processed := requests_processed c;
     gets_processed := gets_processed c; puts_processed := u64 (puts_processed c + 1) |}.

(** The end of each handler: track the buffer under the [wr_id] and send. *)
Definition respond s (c : Z) (b : Buffer) (len seq : Z) : option (KVServer HW P) :=
  o ← deref s c;
  let wr_id := WrId.Encode (Connection.conn_id_ o) REQUEST_SEND 0 (u32 (Z.land seq 0xFFFFFFFF)) in
  conn_send (track_send s wr_id b) c (Buffer.Slice b 0 len) wr_id.

Definition SendErrorResponse s (c : Z) (k : Z) (status : kv.Status) : option (KVServer HW P) :=
  '(s, b) ← allocate s;
  if negb (Buffer.IsValid b) then Some s
  else
    s ← write_response s b (kv.SetPutResponse k status);
    respond s c b kv.ResponseHeader_size 0.

(** [request] is the buffer the header pointer points into. *)
Definition ProcessGet s (c : Z) (request : Buffer) (ctx : Z) : option (KVServer HW P) :=
  '(s, b) ← allocate s;
  if negb (Buffer.IsValid b) then Some s
  else
    header ← header_at s request;
    '(status, value) ← KVStore.Get (store_ s) (kv.rq_key header) kv.MAX_VALUE_SIZE;
    m ← buf_write (mem s) b kv.ResponseHeader_size value;
    let s := set_mem s m in
    header ← header_at s request;
    let ok := bool_decide (status = kv.OK) in
    let value_size := Z.of_nat (length value) in
    s ← write_response s b (kv.SetGetResponse (kv.rq_key header) status (if ok then value_size else 0));
    let response_len := if ok then kv.ResponseHeader_size + value_size else kv.ResponseHeader_size in
    cx ← conn_contexts_ s !! ctx;
    s ← respond s c b response_len (gets_processed cx);
    count_in s ctx count_get.

(** [store_.Put(header->key, data + offset, header->value_size)]. *)
Definition store_put s (request : Buffer) (header : kv.RequestHeader) (offset : Z)
    : option (KVServer HW P * kv.Status) :=
  data ← buf_read (mem s) request offset (Buffer.length_ request - offset);
  '(status, st) ← KVStore.Put (store_ s) (kv.rq_key header) data (kv.rq_value_size header);
  Some (set_store s st, status).

Definition ProcessPut s (c : Z) (request : Buffer) (request_len ctx : Z) : option (KVServer HW P) :=
  header ← header_at s request;
  let offset := kv.RequestHeader_size in
  '(s, status) ←
    (if kv.rq_segment_count header =? 0 then
       if request_len <? offset + kv.rq_value_size header then Some (s, kv.INVALID_REQUEST)
       else store_put s request header offset
     else
       let desc_size := kv.rq_segment_count header * kv.SegmentDescriptor_size in
       if request_len <? offset + desc_size + kv.rq_value_size header then Some (s, kv.INVALID_REQUEST)
       else store_put s request header (offset + desc_size));
  '(s, b) ← allocate s;
  if negb (Buffer.IsValid b) then Some s
  else
    header ← header_at s request;
    s ← write_response s b (kv.SetPutResponse (kv.rq_key header) status);
    cx ← conn_contexts_ s !! ctx;
    s ← respond s c b kv.ResponseHeader_size (puts_processed cx);
    count_in s ctx count_put.

Definition ProcessRequest s (c : Z) (request : Buffer) (request_len ctx : Z) : option (KVServer HW P) :=
  if request_len <? kv.RequestHeader_size then SendErrorResponse s c 0 kv.INVALID_REQUEST
  else
    header ← header_at s request;
    if kv.rq_op_type header =? kv.OpType_u8 kv.GET then ProcessGet s c request ctx
    else if kv.rq_op_type header =? kv.OpType_u8 kv.PUT then ProcessPut s c request request_len ctx
    else SendErrorResponse s c (kv.rq_key header) kv.INVALID_REQUEST.

Definition HandleRequest s (id : Z) (wc : ibv_wc) : option (KVServer HW P) :=
  match conn_contexts_ s !! id with
  | None => Some s
  | Some ctx =>
      match posted_recv_buffers_ s !! wc_wr_id wc with
      | None => Some s
      | Some pb =>
          let recv_buf := buf pb in
          let s := set_buffers s (buffer_pool_ s) (delete (wc_wr_id wc) (posted_recv_buffers_ s))
                     (posted_send_buffers_ s) in
          if wc_byte_len wc <? kv.RequestHeader_size then
            s ← free s recv_buf;
            PostRecvBuffers s (conn ctx) 1
          else
            s ← ProcessRequest s (conn ctx) recv_buf (wc_byte_len wc) id;
            s ← free s recv_buf;
            s ← PostRecvBuffers s (conn ctx) 1;
            count_in s id count_request
      end
  end.

Definition HandleCompletion s (wc : ibv_wc) : option (KVServer HW P) :=
  if negb (wc_status wc =? IBV_WC_SUCCESS) then Some s
  else
    let opcode := WrId.GetOpcode (wc_wr_id wc) in
    let id := WrId.GetConnId (wc_wr_id wc) in
    if opcode =? RpcOpcode_u8 RECV then HandleRequest s id wc
    else if opcode =? RpcOpcode_u8 REQUEST_SEND then
      match posted_send_buffers_ s !! wc_wr_id wc with
      | Some b =>
          s ← free s b;
          Some (set_buffers s (buffer_pool_ s) (posted_recv_buffers_ s)
                  (delete (wc_wr_id wc) (posted_send_buffers_ s)))
      | None => Some s
      end
    else Some s.

(** The destructor of the connection runs as the manager drops it. *)
Definition remove_connection s (id : Z) : option (KVServer HW P) :=
  let h := match deref s id with Some o => (Connection.destroy (hw s) o).1 | None => hw s end in
  m ← ConnectionManager.RemoveConnection (conn_manager_ s) id;
  Some (set_hw s h m).

Definition OnError s (id status : Z) : option (KVServer HW P) :=
  remove_connection (set_contexts s (delete id (conn_contexts_ s))) id.

(** The handlers the server registered with the dispatcher. *)
Definition on_event s (e : CompletionDispatcher.Event) : option (KVServer HW P) :=
  match e with
  | CompletionDispatcher.ECall _ _ wc => HandleCompletion s wc
  | CompletionDispatcher.EError _ _ id status => OnError s id status
  end.

Section handshake.
Context {OS : Type} `{!Sockets OS}.

(** The addresses of the handler functions and of the server. *)
Variables (self handler : Z).

(** The padding bytes of a [HandshakeMessage]. *)
Variables (pad1 : list Z) (pad2 : Z) (pad3 : list Z).

Definition HandshakeMessage_zero : HandshakeMessage :=
  {| HandshakeMessage.qp_params := {| lid := 0; qp_num := 0; psn := 0; gid := replicate 16 0; port_num := 0;
                                      gid_index := 0; mtu := 0 |};
     HandshakeMessage.recv_buffer_info := {| rmi_addr := 0; rmi_rkey := 0; rmi_length := 0 |};
     HandshakeMessage.conn_id := 0; HandshakeMessage.version := 0; HandshakeMessage.flags := 0;
     HandshakeMessage.hostname := replicate 64 0 |}.

(** [AcceptConnections] after the channel is there and the connection created:
    exchange the parameters and connect. On the left the connection has been
    removed. The fuel bounds the transfers. *)
Definition exchange (fuel : nat) (os : OS) s (channel : TcpHandshakeChannel) (c : Z)
    (local_params : Result QpConnParams) : option (OS * KVServer HW P * bool) :=
  o ← deref s c;
  let id := Connection.conn_id_ o in
  let fail os s := s ← remove_connection s id; Some (os, s, false) in
  match local_params with
  | RErr _ => fail os s
  | RVal params =>
      let msg := {| HandshakeMessage.qp_params := params;
                    HandshakeMessage.recv_buffer_info := HandshakeMessage.recv_buffer_info HandshakeMessage_zero;
                    HandshakeMessage.conn_id := id; HandshakeMessage.version := 1;
                    HandshakeMessage.flags := 0;
                    HandshakeMessage.hostname := HandshakeMessage.hostname HandshakeMessage_zero |} in
      '(os, st) ← TcpHandshakeChannel.Send fuel os channel (HandshakeMessage.bytes pad1 pad2 pad3 msg);
      if negb (status_ok st) then fail os s
      else
        '(os, st, data) ← TcpHandshakeChannel.Receive fuel os channel;
        if negb (status_ok st) then fail os s
        else
          let remote := HandshakeMessage.of_bytes data in
          let '(h, o, st) := Connection.Connect (hw s) o (HandshakeMessage.qp_params remote) in
          l ← aset (ConnectionManager.connections_ (conn_manager_ s)) c (Some o);
          let s := set_hw s h (set_connections (conn_manager_ s) l) in
          if negb (status_ok st) then fail os s else Some (os, s, true)
  end.

(** [AcceptConnections]; [conn_result] is what [Connection::Create] returns and
    [local_params] what the queries of the device give. The channel is closed at
    the end of its scope. *)
Definition AcceptConnections (fuel : nat) (os : OS) s (server : TcpHandshakeServer.TcpHandshakeServer)
    (conn_result : Result Connection) (local_params : Result QpConnParams) : option (OS * KVServer HW P) :=
  let '(os, channel_result) := TcpHandshakeServer.Accept os server 0 in
  match channel_result with
  | RErr _ => Some (os, s)
  | RVal channel =>
      let close os := (TcpHandshakeChannel.Close os channel).1 in
      '(m, conn_result) ← ConnectionManager.CreateConnection (conn_manager_ s) conn_result;
      let s := set_hw s (hw s) m in
      match conn_result with
      | RErr _ => Some (close os, s)
      | RVal c =>
          '(os, s, ok) ← exchange fuel os s channel c local_params;
          if ok : bool then
            o ← deref s c;
            let id := Connection.conn_id_ o in
            let s := set_contexts s
                       (<[id := {| conn := c; requests_processed := 0; gets_processed := 0; puts_processed := 0 |}]>
                          (conn_contexts_ s)) in
            d ← CompletionDispatcher.RegisterConnection (dispatcher_ s) id self handler;
            s ← PostRecvBuffers (set_dispatcher s d) c 32;
            Some (close os, s)
          else Some (close os, s)
      end
  end.

End handshake.

(** The sums [PrintStats] prints. *)
Definition total_requests s : Z * Z * Z :=
  map_fold (fun _ c t => let '(r, g, p) := t in
      (u64 (r + requests_processed c), u64 (g + gets_processed c), u64 (p + puts_processed c)))
    (0, 0, 0) (conn_contexts_ s).

(** [Initialize], from what the factories of the device, the domain and the queues
    return, the factory of the pool - [LocalBufferPool::Create] on the domain - and
    the memory the store and the reactor are given. The
    outer [None] is undefined behaviour, the inner one the result false. The
    results are the server, its reactor and its socket. *)
Definition Initialize {OS} `{!Sockets OS} (os : OS) (port : Z) (h : HW) (m : memory) (alloc : Z -> option (list Z)) (wc_buffer : bool)
    (device pd send_cq recv_cq : Result Z) (create_pool : LocalBufferPool.BufferPoolConfig -> Result P)
    (self error_handler dispatcher : Z)
    : option (OS * option (KVServer HW P * Reactor.Reactor * TcpHandshakeServer.TcpHandshakeServer)) :=
  '(ok, st) ← KVStore.Initialize alloc (KVStore.KVStore_default store_config) store_config;
  if negb ok then Some (os, None)
  else
    Some
      match device, pd, send_cq, recv_cq, create_pool bp_config with
      | RVal _, RVal pd, RVal send_cq, RVal recv_cq, RVal pool =>
          match ConnectionManager.Create (Some pd) (Some send_cq) (Some recv_cq) max_connections,
                Reactor.Create wc_buffer reactor_config with
          | RVal manager, RVal r =>
              let r := Reactor.RegisterCQ (Reactor.RegisterCQ r send_cq dispatcher) recv_cq dispatcher in
              let d := CompletionDispatcher.SetErrorHandler CompletionDispatcher.CompletionDispatcher_new
                         self error_handler in
              match TcpHandshakeServer.Create os "" port 128 with
              | (os, RVal server) =>
                  (os, Some ({| hw := h; mem := m; store_ := st; buffer_pool_ := pool; conn_manager_ := manager;
                           dispatcher_ := d; conn_contexts_ := ∅; posted_recv_buffers_ := ∅;
                           posted_send_buffers_ := ∅ |}, r, server))
              | (os, RErr _) => (os, None)
              end
          | _, _ => (os, None)
          end
      | _, _, _, _, _ => (os, None)
      end.

End server.

End KVServer.

(** ** Specification *)

Section specification.
Import KVServer.
Context {HW P : Type} `{!Verbs HW, !BufferSource P}.

(** What a request asks for and is answered: the response message and the map of
    the store afterwards. The bytes of a PUT's value follow the header and the
    segment descriptors. *)
Definition spec_process (cap : Z) (m : gmap Z (list Z)) (msg : list Z) : list Z * gmap Z (list Z) :=
  let h := kv.RequestHeader_of_bytes msg in
  let k := kv.rq_key h in
  let put_response st := kv.ResponseHeader_bytes (kv.SetPutResponse k st) in
  if kv.rq_op_type h =? kv.OpType_u8 kv.GET then
    let '(st, v) := spec_Get m k kv.MAX_VALUE_SIZE in
    (kv.ResponseHeader_bytes (kv.SetGetResponse k st (Z.of_nat (length v))) ++ v, m)
  else if kv.rq_op_type h =? kv.OpType_u8 kv.PUT then
    let offset := kv.RequestHeader_size + kv.rq_segment_count h * kv.SegmentDescriptor_size in
    if Z.of_nat (length msg) <? offset + kv.rq_value_size h then (put_response kv.INVALID_REQUEST, m)
    else
      let '(st, m') := spec_Put cap m k (drop (Z.to_nat offset) msg) (kv.rq_value_size h) in
      (put_response st, m')
  else (put_response kv.INVALID_REQUEST, m).

Definition recv_bufs (s : KVServer HW P) : list Buffer := buf <$> (map_to_list (posted_recv_buffers_ s)).*2.
Definition send_bufs (s : KVServer HW P) : list Buffer := (map_to_list (posted_send_buffers_ s)).*2.

(** The dispatcher is in order and knows every connection with a context. *)
Definition dispatcher_ok (d : CompletionDispatcher.CompletionDispatcher) (cs : gmap Z ConnectionContext) : Prop :=
  exists sp, represents d sp /\ tidy d /\ forall id, is_Some (cs !! id) -> is_Some (sp_map sp !! id).

(** The server holds the buffers it tracks, those in hand ([extra]), and those it
    has lost track of. Every context has its connection. *)
Record server_wf (s : KVServer HW P) (extra : list Buffer) : Prop := {
  sw_store : inv (store_ s);
  sw_slot : kv.MAX_VALUE_SIZE <= KVStore.slot_size (KVStore.config_ (store_ s));
  sw_pool : exists leaked held, held ≡ₚ extra ++ recv_bufs s ++ send_bufs s ++ leaked
              /\ bs_held (buffer_pool_ s) held;
  sw_size : kv.MAX_REQUEST_SIZE <= bs_size (buffer_pool_ s) < 2 ^ 32;
  sw_ctx : forall id c, conn_contexts_ s !! id = Some c ->
    conn c = id /\ is_u 16 id /\ exists o, deref s id = Some o /\ Connection.conn_id_ o = id;
  sw_manager : manager_inv (conn_manager_ s);
  sw_dispatcher : dispatcher_ok (dispatcher_ s) (conn_contexts_ s);
}.

(** The request the server posts for a response of [len] bytes in buffer [b]. *)
Definition response_wr (o : Connection) (b : Buffer) (len wrid : Z) : ibv_send_wr :=
  {| wr_id := wrid; opcode := IBV_WR_SEND;
     send_flags := {| SIGNALED := (QueuePair.ShouldSignal (Connection.qp o)).2; INLINE := false |};
     sg_list := [QueuePair.sge_of_buffer (Buffer.Slice b 0 len)]; imm_data := 0; remote_addr := 0; rkey := 0 |}.

(** The id of a response; the last field is the number of requests of its kind
    answered before. *)
Definition response_wrid (o : Connection) (seq : Z) : Z :=
  WrId.Encode (Connection.conn_id_ o) REQUEST_SEND 0 (u32 (Z.land seq 0xFFFFFFFF)).

Definition response_seq (c : ConnectionContext) (msg : list Z) : Z :=
  let op := kv.rq_op_type (kv.RequestHeader_of_bytes msg) in
  if op =? kv.OpType_u8 kv.GET then gets_processed c
  else if op =? kv.OpType_u8 kv.PUT then puts_processed c else 0.

(** The server has handed the bytes to the connection [o] in one send request,
    from a buffer apart from those of the responses under way. Its memory holds
    the bytes; it is tracked under the id of the request. *)
Definition answered (s : KVServer HW P) (o : Connection) (bytes : list Z) (seq : Z) (s' : KVServer HW P) : Prop :=
  exists b,
    buf_read (mem s') b 0 (Z.of_nat (length bytes)) = Some bytes
    /\ posted_send_buffers_ s' = <[response_wrid o seq := b]> (posted_send_buffers_ s)
    /\ (forall b0 x, b0 ∈ send_bufs s -> covers b0 x -> ~ covers b x)
    /\ posted (hw s') = posted (hw s) ++ [response_wr o b (Z.of_nat (length bytes)) (response_wrid o seq)].

(** The responses under way are not written over. *)
Definition sends_kept (s s' : KVServer HW P) : Prop :=
  forall b x, b ∈ send_bufs s -> covers b x -> mem s' x = mem s x.

(** The pool can still give a buffer; the device takes every request. *)
Definition has_room (s : KVServer HW P) : Prop :=
  exists p b, bs_allocate (buffer_pool_ s) = Some (p, b) /\ Buffer.IsValid b = true.

Definition device_accepts : Prop := forall (h : HW) q wr, (ibv_post_send h q wr).2 = 0.

(** The device writes a message into the buffer posted under [wrid], then
    completes it. *)
Definition recv_completion (wrid : Z) (msg : list Z) : ibv_wc :=
  {| wc_wr_id := wrid; wc_status := IBV_WC_SUCCESS; wc_byte_len := Z.of_nat (length msg); wc_imm_data := 0 |}.

(** The reactor gives a completion to the dispatcher, which calls the server. *)
Fixpoint on_events (s : KVServer HW P) (evs : list CompletionDispatcher.Event) : option (KVServer HW P) :=
  match evs with
  | [] => Some s
  | e :: evs => s ← on_event s e; on_events s evs
  end.

Definition complete (s : KVServer HW P) (wc : ibv_wc) : option (KVServer HW P) :=
  '(d, evs) ← CompletionDispatcher.Dispatch (dispatcher_ s) wc;
  on_events (set_dispatcher s d) evs.

(** The device's write of an arriving message. *)
Definition receive (s : KVServer HW P) (wrid : Z) (msg : list Z) : option (KVServer HW P) :=
  match posted_recv_buffers_ s !! wrid with
  | Some pb => m ← buf_write (mem s) (buf pb) 0 msg; Some (set_mem s m)
  | None => Some s
  end.

(** What happens to a running server: a message arrives, or any other completion
    is polled. *)
Inductive ServerEvent :=
  | EvMessage (wrid : Z) (msg : list Z)
  | EvCompletion (wc : ibv_wc).

(** Completions are those of posted requests: a message fits the posted buffer,
    a connection id is not the reserved one. *)
Definition event_ok (e : ServerEvent) : Prop :=
  match e with
  | EvMessage wrid msg =>
      Forall (is_u 8) msg /\ Z.of_nat (length msg) <= kv.MAX_REQUEST_SIZE /\ WrId.GetConnId wrid <> 0xFFFF
  | EvCompletion wc =>
      wc_status wc = IBV_WC_SUCCESS ->
      WrId.GetOpcode (wc_wr_id wc) <> RpcOpcode_u8 RECV /\ WrId.GetConnId (wc_wr_id wc) <> 0xFFFF
  end.

Definition server_step (s : KVServer HW P) (e : ServerEvent) : option (KVServer HW P) :=
  match e with
  | EvMessage wrid msg => s ← receive s wrid msg; complete s (recv_completion wrid msg)
  | EvCompletion wc => complete s wc
  end.

Fixpoint server_run (s : KVServer HW P) (es : list ServerEvent) : option (KVServer HW P) :=
  match es with
  | [] => Some s
  | e :: es => s ← server_step s e; server_run s es
  end.

(** Every connection is found under its own id. *)
Definition ids_ok (s : KVServer HW P) : Prop := forall j o, deref s j = Some o -> Connection.conn_id_ o = j.

(** The pool has only been allocated from. *)
Definition allocations : P -> P -> Prop := rtc (fun p p' => exists b, bs_allocate p = Some (p', b)).

End specification.

(** ** Lemmas *)

Section lemmas.
Import KVServer.
Context {HW P : Type} `{!Verbs HW, !BufferSource P}.
Implicit Types (s : KVServer HW P).

(** *** Buffers *)

Lemma values_delete {A} (m : gmap Z A) k v :
  m !! k = Some v -> (map_to_list m).*2 ≡ₚ v :: (map_to_list (delete k m)).*2.
Proof. intros H. rewrite <- (map_to_list_delete m k v H). done. Qed.

Lemma values_insert {A} (m : gmap Z A) k v :
  exists lost, v :: (map_to_list m).*2 ≡ₚ (map_to_list (<[k := v]> m)).*2 ++ lost.
Proof.
  destruct (m !! k) as [x|] eqn:E.
  - exists [x]. rewrite (values_delete m k x E). rewrite <- insert_delete_eq.
    rewrite (map_to_list_insert (delete k m)) by apply lookup_delete_eq.
    rewrite fmap_cons. simpl. by rewrite <- Permutation_cons_append, Permutation_swap.
  - exists []. rewrite map_to_list_insert by done. by rewrite app_nil_r.
Qed.

(** Rearrangements of the lists of held buffers. *)
Lemma held_recv (b : Buffer) extra R R' S L lost :
  b :: R ≡ₚ R' ++ lost -> (b :: extra) ++ R ++ S ++ L ≡ₚ extra ++ R' ++ S ++ lost ++ L.
Proof.
  intros H. cbn [app]. rewrite Permutation_middle, (app_comm_cons R), H, <- app_assoc.
  by rewrite (Permutation_app_swap_app lost S L).
Qed.

Lemma held_send (b : Buffer) extra R S S' L lost :
  b :: S ≡ₚ S' ++ lost -> (b :: extra) ++ R ++ S ++ L ≡ₚ extra ++ R ++ S' ++ lost ++ L.
Proof.
  intros H. cbn [app]. rewrite Permutation_middle, (app_comm_cons R).
  rewrite (Permutation_middle R (S ++ L) b), (app_comm_cons S), H. by rewrite <- app_assoc.
Qed.

(** A buffer in hand is tracked; what the key tracked before is lost. *)
Lemma track_recv_wf s extra k b : server_wf s (buf b :: extra) -> server_wf (track_recv s k b) extra.
Proof.
  intros [H1 H2 (leaked & held & Hp & Hh) H4 H5 H6 H7]. split; try done.
  destruct (values_insert (posted_recv_buffers_ s) k b) as [lost Hl].
  apply (fmap_Permutation buf) in Hl. rewrite fmap_app, fmap_cons in Hl.
  exists ((buf <$> lost) ++ leaked), held. split; [|done].
  rewrite Hp. by apply held_recv.
Qed.

Lemma track_send_wf s extra k b : server_wf s (b :: extra) -> server_wf (track_send s k b) extra.
Proof.
  intros [H1 H2 (leaked & held & Hp & Hh) H4 H5 H6 H7]. split; try done.
  destruct (values_insert (posted_send_buffers_ s) k b) as [lost Hl].
  exists (lost ++ leaked), held. split; [|done]. rewrite Hp. by apply held_send.
Qed.

Lemma untrack_recv_wf s extra k pb :
  server_wf s extra -> posted_recv_buffers_ s !! k = Some pb ->
  server_wf (set_buffers s (buffer_pool_ s) (delete k (posted_recv_buffers_ s)) (posted_send_buffers_ s)) (buf pb :: extra).
Proof.
  intros [H1 H2 (leaked & held & Hp & Hh) H4 H5 H6 H7] Hk. split; try done.
  exists leaked, held. split; [|done]. rewrite Hp. symmetry.
  apply (held_recv _ _ _ _ _ _ []). rewrite app_nil_r. unfold recv_bufs.
  rewrite (values_delete _ _ _ Hk). done.
Qed.

Lemma untrack_send_wf s extra k b :
  server_wf s extra -> posted_send_buffers_ s !! k = Some b ->
  server_wf (set_buffers s (buffer_pool_ s) (posted_recv_buffers_ s) (delete k (posted_send_buffers_ s))) (b :: extra).
Proof.
  intros [H1 H2 (leaked & held & Hp & Hh) H4 H5 H6 H7] Hk. split; try done.
  exists leaked, held. split; [|done]. rewrite Hp. symmetry.
  apply (held_send _ _ _ _ _ _ []). rewrite app_nil_r. unfold send_bufs.
  rewrite (values_delete _ _ _ Hk). done.
Qed.

(** Held lists up to order. *)
Lemma free_wf s b extra :
  server_wf s (b :: extra) ->
  exists p, bs_free (buffer_pool_ s) b = Some p
    /\ server_wf (set_buffers s p (posted_recv_buffers_ s) (posted_send_buffers_ s)) extra.
Proof.
  intros [H1 H2 (leaked & held & Hp & Hh) H4 H5 H6 H7].
  assert (b ∈ held) as Hb by (rewrite Hp; left). apply list_elem_of_split in Hb as (h1 & h2 & ->).
  destruct (bs_free_spec _ _ _ _ Hh) as (p & E & Hh'). exists p. split; [done|]. split; try done.
  - exists leaked, (h1 ++ h2). split; [|done]. rewrite <- Permutation_middle in Hp. cbn [app] in Hp.
    by apply Permutation_cons_inv in Hp.
  - cbn [buffer_pool_ set_buffers]. by rewrite (bs_size_free _ _ _ E).
Qed.

Lemma allocate_wf s extra :
  server_wf s extra ->
  exists p b, bs_allocate (buffer_pool_ s) = Some (p, b)
    /\ let s' := set_buffers s p (posted_recv_buffers_ s) (posted_send_buffers_ s) in
       if Buffer.IsValid b
       then server_wf s' (b :: extra)
            /\ buffer_wf b /\ Buffer.length_ b = bs_size (buffer_pool_ s)
            /\ (forall b' x, b' ∈ extra ++ recv_bufs s ++ send_bufs s -> covers b' x -> ~ covers b x)
       else server_wf s' extra.
Proof.
  intros [H1 H2 (leaked & held & Hp & Hh) H4 H5 H6 H7].
  destruct (bs_allocate_spec _ _ Hh) as (p & b & E & Hb). exists p, b. split; [done|].
  pose proof (bs_size_allocate _ _ _ E) as Hsz. cbn zeta. destruct (Buffer.IsValid b).
  - destruct Hb as [Hb Hd]. destruct (bs_held_wf _ _ b Hb) as [Hw Hl]; [left|].
    split; [|split_and!; [done|congruence|]].
    + split; try done; [|cbn [buffer_pool_ set_buffers]; by rewrite Hsz]. exists leaked, (b :: held). split; [|done]. by rewrite Hp.
    + intros b' x Hb'. apply Hd. rewrite Hp, !elem_of_app in *. tauto.
  - subst p. split; try done. by exists leaked, held.
Qed.

(** A buffer in hand is a buffer of the pool. *)
Lemma hand_wf s b extra :
  server_wf s (b :: extra) -> buffer_wf b /\ Buffer.length_ b = bs_size (buffer_pool_ s).
Proof. intros [_ _ (leaked & held & Hp & Hh) _ _ _ _]. apply (bs_held_wf _ _ _ Hh). rewrite Hp. left. Qed.

Lemma hand_apart s b extra b' x :
  server_wf s (b :: extra) -> b' ∈ extra ++ recv_bufs s ++ send_bufs s -> covers b x -> ~ covers b' x.
Proof.
  intros [_ _ (leaked & held & Hp & Hh) _ _ _ _] Hb'.
  assert (b ∈ held) as Hb by (rewrite Hp; left). apply list_elem_of_split in Hb as (h1 & h2 & ->).
  apply (bs_held_disjoint _ _ _ _ _ _ Hh). rewrite <- Permutation_middle in Hp. cbn [app] in Hp.
  apply Permutation_cons_inv in Hp. rewrite Hp, !elem_of_app in *. tauto.
Qed.

Lemma set_mem_wf s m extra : server_wf s extra -> server_wf (set_mem s m) extra.
Proof. by intros []. Qed.

Lemma set_hw_wf s extra h : server_wf s extra -> server_wf (set_hw s h (conn_manager_ s)) extra.
Proof. by intros []; split. Qed.

(** *** Connections *)

Lemma Send_spec (h : HW) o b wrid :
  exists h' o' st, Connection.Send h o b wrid = (h', o', st) /\ Connection.conn_id_ o' = Connection.conn_id_ o
    /\ (device_accepts (HW := HW) -> Connection.state_ o = CONNECTED ->
        posted h' = posted h ++ [{| wr_id := wrid; opcode := IBV_WR_SEND;
          send_flags := {| SIGNALED := (QueuePair.ShouldSignal (Connection.qp o)).2; INLINE := false |};
          sg_list := [QueuePair.sge_of_buffer b]; imm_data := 0; remote_addr := 0; rkey := 0 |}]).
Proof.
  unfold Connection.Send. destruct (bool_decide_reflect (Connection.state_ o = CONNECTED)) as [Hc|Hc]; cbn [negb].
  - unfold Connection.on_qp, QueuePair.PostSend, QueuePair.DoPostSend, QueuePair.post.
    destruct (QueuePair.ShouldSignal (Connection.qp o)) as [q sig]. cbn [snd].
    match goal with |- context [ibv_post_send h ?q ?w] =>
      pose proof (posted_post_send h q w) as Hp; pose proof (fun H : device_accepts => H h q w) as Ha;
      destruct (ibv_post_send h q w) as [h' ret] end.
    cbn [fst snd] in *. destruct (negb (ret =? 0)); do 3 eexists; (split; [done|]; split; [done|]);
      intros Hacc _; by rewrite Ha in Hp.
  - do 3 eexists. split; [done|]. split; [done|]. intros _ ?. done.
Qed.

Lemma deref_set s h m l c o id :
  ConnectionManager.connections_ (conn_manager_ s) = l -> deref s c <> None ->
  deref (set_hw s h (set_connections m (<[Z.to_nat c := Some o]> l))) id = if decide (c = id) then Some o else deref s id.
Proof.
  intros <- Hc. unfold deref in *. cbn [conn_manager_ set_hw set_connections ConnectionManager.connections_].
  destruct (aget _ c) as [x|] eqn:E; [|done]. rewrite aget_insert by (by eapply aget_lt).
  by destruct (decide (c = id)).
Qed.

Lemma deref_Some s c o : deref s c = Some o <-> aget (ConnectionManager.connections_ (conn_manager_ s)) c = Some (Some o).
Proof. unfold deref. destruct (aget _ c) as [[x|]|]; simpl; split; congruence. Qed.

(** Replacing a connection by one with the same id. *)
Lemma set_connection_wf s extra h c o o' :
  server_wf s extra -> deref s c = Some o -> Connection.conn_id_ o' = Connection.conn_id_ o ->
  exists l, aset (ConnectionManager.connections_ (conn_manager_ s)) c (Some o') = Some l
    /\ server_wf (set_hw s h (set_connections (conn_manager_ s) l)) extra.
Proof.
  intros [H1 H2 H3 H4 H5 H6 H7] Ho Hid. exists (<[Z.to_nat c := Some o']> (ConnectionManager.connections_ (conn_manager_ s))).
  pose proof (proj1 (deref_Some s c o) Ho) as Hc. pose proof (mi_id _ H6 c o Hc) as Hco.
  split; [by apply aset_Some; eapply aget_lt|]. split; try done.
  - intros id cx Hcx. destruct (H5 id cx Hcx) as (E1 & E2 & oo & E3 & E4). split_and!; [done|done|].
    rewrite deref_set; [|done|by rewrite Ho]. destruct (decide (c = id)) as [->|]; [|by exists oo].
    exists o'. split; [done|]. congruence.
  - apply (manager_inv_replace _ c o o'); [done|done|congruence].
Qed.

Lemma conn_send_wf s extra c o b wrid :
  server_wf s extra -> deref s c = Some o ->
  exists h m, conn_send s c b wrid = Some (set_hw s h m) /\ server_wf (set_hw s h m) extra
    /\ (device_accepts (HW := HW) -> Connection.state_ o = CONNECTED ->
        posted h = posted (hw s) ++ [{| wr_id := wrid; opcode := IBV_WR_SEND;
          send_flags := {| SIGNALED := (QueuePair.ShouldSignal (Connection.qp o)).2; INLINE := false |};
          sg_list := [QueuePair.sge_of_buffer b]; imm_data := 0; remote_addr := 0; rkey := 0 |}]).
Proof.
  intros Hw Ho. unfold conn_send. rewrite Ho. sbind.
  destruct (Send_spec (hw s) o b wrid) as (h & o' & st & E & Hid & Hp). rewrite E.
  destruct (set_connection_wf s extra h c o o' Hw Ho Hid) as (l & -> & Hw'). sbind. eauto.
Qed.

(** A live context's connection. *)
Lemma context_conn s extra id cx :
  server_wf s extra -> conn_contexts_ s !! id = Some cx ->
  conn cx = id /\ is_u 16 id /\ exists o, deref s id = Some o /\ Connection.conn_id_ o = id.
Proof. intros [_ _ _ _ H _ _]. apply H. Qed.

(** Posting a receive buffer touches neither memory, store nor send queue. *)
Lemma PostRecvBuffer_wf s extra c o :
  server_wf s extra -> deref s c = Some o ->
  exists h p recvs, PostRecvBuffer s c = Some (set_buffers (set_hw s h (conn_manager_ s)) p recvs (posted_send_buffers_ s))
    /\ server_wf (set_buffers (set_hw s h (conn_manager_ s)) p recvs (posted_send_buffers_ s)) extra
    /\ posted h = posted (hw s).
Proof.
  intros Hw Ho. unfold PostRecvBuffer, allocate.
  destruct (allocate_wf s extra Hw) as (p & b & -> & Hb). sbind. cbn zeta in Hb.
  destruct (Buffer.IsValid b).
  - destruct Hb as (Hb & _). unfold deref in *. cbn [conn_manager_ set_buffers]. rewrite Ho. sbind.
    unfold Connection.PostRecv, QueuePair.PostRecv. cbn [hw track_recv set_buffers].
    match goal with |- context [ibv_post_recv ?h ?q ?w] =>
      pose proof (posted_post_recv h q w) as Hp; destruct (ibv_post_recv h q w) as [h' ret] end. cbn [fst] in Hp.
    match goal with |- context [track_recv _ ?k ?pb] => pose proof (track_recv_wf _ _ k pb Hb) as Hw' end.
    destruct (negb (ret =? 0)); do 3 eexists; (split; [reflexivity|]; split; [|exact Hp]);
      exact (set_hw_wf _ _ _ Hw').
  - exists (hw s), p, (posted_recv_buffers_ s). split; [by destruct s|]. split; [exact (set_hw_wf _ _ _ Hb)|done].
Qed.

Lemma PostRecvBuffers_wf s extra c o n :
  server_wf s extra -> deref s c = Some o ->
  exists h p recvs, PostRecvBuffers s c n = Some (set_buffers (set_hw s h (conn_manager_ s)) p recvs (posted_send_buffers_ s))
    /\ server_wf (set_buffers (set_hw s h (conn_manager_ s)) p recvs (posted_send_buffers_ s)) extra
    /\ posted h = posted (hw s).
Proof.
  revert s. induction n as [|n IH]; intros s Hw Ho; cbn [PostRecvBuffers].
  - exists (hw s), (buffer_pool_ s), (posted_recv_buffers_ s). split; [by destruct s|]. split; [exact (set_hw_wf _ _ _ Hw)|done].
  - destruct (PostRecvBuffer_wf s extra c o Hw Ho) as (h & p & recvs & -> & Hw1 & Hp1). sbind.
    destruct (IH _ Hw1 Ho) as (h2 & p2 & recvs2 & -> & Hw2 & Hp2). exists h2, p2, recvs2.
    split; [done|]. split; [done|]. by rewrite Hp2.
Qed.

(** A response in hand is tracked and sent. *)
Lemma respond_wf s extra c o b len seq :
  server_wf s (b :: extra) -> deref s c = Some o ->
  exists h m, respond s c b len seq = Some (set_hw (track_send s (response_wrid o seq) b) h m)
    /\ server_wf (set_hw (track_send s (response_wrid o seq) b) h m) extra
    /\ (device_accepts (HW := HW) -> Connection.state_ o = CONNECTED ->
        posted h = posted (hw s) ++ [response_wr o b len (response_wrid o seq)]).
Proof.
  intros Hw Ho. unfold respond. rewrite Ho. sbind.
  fold (response_wrid o seq). set (wrid := response_wrid o seq).
  destruct (conn_send_wf (track_send s wrid b) extra c o (Buffer.Slice b 0 len) wrid (track_send_wf _ _ _ _ Hw) Ho)
    as (h & m & E & Hw' & Hp). by exists h, m.
Qed.

Lemma count_in_wf s extra id cx f :
  server_wf s extra -> conn_contexts_ s !! id = Some cx -> (forall x, conn (f x) = conn x) ->
  count_in s id f = Some (set_contexts s (<[id := f cx]> (conn_contexts_ s)))
  /\ server_wf (set_contexts s (<[id := f cx]> (conn_contexts_ s))) extra.
Proof.
  intros Hw Hcx Hf. pose proof (context_conn _ _ _ _ Hw Hcx) as Hc. destruct Hw as [H1 H2 H3 H4 H5 H6 H7].
  unfold count_in. rewrite Hcx. split; [done|]. split; try done.
  - intros id' c'. cbn [conn_contexts_ set_contexts].
    intros [[<- <-]|[Hne H]]%lookup_insert_Some; [by rewrite Hf|by apply H5].
  - destruct H7 as (sp & Hr & Ht & Hsp). exists sp. split_and!; [done|done|]. intros id'.
    cbn [conn_contexts_ set_contexts]. intros Hi. apply Hsp. destruct (decide (id' = id)) as [->|]; [by exists cx|].
    by rewrite lookup_insert_ne in Hi.
Qed.

(** *** Requests *)

Lemma field_take off n k l : (off + n <= k)%nat -> field off n (take k l) = field off n l.
Proof. intros H. unfold field. rewrite !take_drop_commute, take_take. by rewrite Nat.min_l by lia. Qed.

Lemma request_header_take l : kv.RequestHeader_of_bytes (take 16 l) = kv.RequestHeader_of_bytes l.
Proof. unfold kv.RequestHeader_of_bytes. by rewrite !field_take by lia. Qed.

Lemma header_of_message s b msg :
  buf_read (mem s) b 0 (Z.of_nat (length msg)) = Some msg -> kv.RequestHeader_size <= Z.of_nat (length msg) ->
  header_at s b = Some (kv.RequestHeader_of_bytes msg).
Proof.
  intros Hm Hl. unfold header_at, buf_read in *. case_decide as Hr; [|done]. injection Hm as Hm.
  unfold kv.RequestHeader_size in *. rewrite decide_True by lia. sbind.
  rewrite <- (request_header_take msg), <- Hm, range_take by lia. done.
Qed.

(** The rest of the buffer behind a message starts with the rest of the message. *)
Lemma message_tail m b msg off n data :
  buf_read m b 0 (Z.of_nat (length msg)) = Some msg -> 0 <= off -> 0 <= n -> off + n <= Z.of_nat (length msg) ->
  buf_read m b off (Buffer.length_ b - off) = Some data ->
  n <= Z.of_nat (length data) /\ take (Z.to_nat n) data = take (Z.to_nat n) (drop (Z.to_nat off) msg).
Proof.
  intros Hm Ho Hn Hl Hd. unfold buf_read in *. do 2 (case_decide; [|done]).
  injection Hm as Hm. injection Hd as <-. rewrite range_length. split; [lia|].
  rewrite <- Hm, range_drop, !range_take by lia. f_equal. lia.
Qed.

(** [Put] on data longer than the value, any size. *)
Lemma Put_message (st : KVStore.KVStore) k data value size :
  inv st -> kv.MAX_VALUE_SIZE <= KVStore.slot_size (KVStore.config_ st) ->
  0 <= size <= Z.of_nat (length data) -> take (Z.to_nat size) data = take (Z.to_nat size) value ->
  exists r st', KVStore.Put st k data size = Some (r, st') /\ inv st' /\ KVStore.num_slots_ st' = KVStore.num_slots_ st
    /\ KVStore.config_ st' = KVStore.config_ st
    /\ spec_Put (KVStore.num_slots_ st) (view st) k value size = (r, view st').
Proof.
  intros Hi Hs Hsz Ht. unfold spec_Put. rewrite <- Ht. fold (spec_Put (KVStore.num_slots_ st) (view st) k data size).
  destruct (decide (size <= KVStore.slot_size (KVStore.config_ st))) as [Hle|Hle].
  - by apply Put_spec.
  - exists kv.INVALID_REQUEST, st. unfold KVStore.Put, spec_Put.
    assert (kv.IsValidValueSize size = false) as ->; [|done].
    apply not_true_iff_false. rewrite IsValidValueSize_spec. lia.
Qed.

(** A complete response in hand is sent from a tracked buffer. *)
Lemma respond_answers s s0 extra id o b bytes seq :
  server_wf s (b :: extra) -> deref s id = Some o -> posted (hw s) = posted (hw s0) ->
  posted_send_buffers_ s = posted_send_buffers_ s0 ->
  (forall b0 x, b0 ∈ send_bufs s0 -> covers b0 x -> ~ covers b x) ->
  buf_read (mem s) b 0 (Z.of_nat (length bytes)) = Some bytes ->
  exists s', respond s id b (Z.of_nat (length bytes)) seq = Some s' /\ server_wf s' extra
    /\ store_ s' = store_ s /\ conn_contexts_ s' = conn_contexts_ s /\ mem s' = mem s
    /\ (device_accepts (HW := HW) -> Connection.state_ o = CONNECTED -> answered s0 o bytes seq s').
Proof.
  intros Hw Ho Hp Hsb Hd Hb. destruct (respond_wf s extra id o b (Z.of_nat (length bytes)) seq Hw Ho) as (h & m & E & Hw' & Hs).
  eexists. split; [exact E|]. split; [exact Hw'|]. split_and!; [done..|]. intros Ha Hc.
  exists b. split_and!; [exact Hb| |exact Hd|].
  - cbn [posted_send_buffers_ set_hw track_send set_buffers]. by rewrite Hsb.
  - cbn [hw set_hw]. by rewrite (Hs Ha Hc), Hp.
Qed.

(** Writing a header alone. *)
Lemma write_response_wf s extra b r :
  server_wf s (b :: extra) ->
  exists m, write_response s b r = Some (set_mem s m) /\ server_wf (set_mem s m) (b :: extra)
    /\ buf_read m b 0 (Z.of_nat (length (kv.ResponseHeader_bytes r))) = Some (kv.ResponseHeader_bytes r)
    /\ m = store_bytes (mem s) (Buffer.addr_ b) (kv.ResponseHeader_bytes r).
Proof.
  intros Hw. destruct (hand_wf _ _ _ Hw) as [_ Hl]. destruct (sw_size _ _ Hw) as [Hsz _].
  unfold kv.MAX_REQUEST_SIZE, kv.RequestHeader_size, kv.MAX_SEGMENTS, kv.SegmentDescriptor_size, kv.MAX_VALUE_SIZE in Hsz.
  unfold write_response.
  assert (E : buf_write (mem s) b 0 (kv.ResponseHeader_bytes r)
              = Some (store_bytes (mem s) (Buffer.addr_ b) (kv.ResponseHeader_bytes r))).
  { rewrite buf_write_Some; [by rewrite Z.add_0_r|lia|]. rewrite ResponseHeader_bytes_length, Hl. lia. }
  rewrite E. sbind. eexists. split; [done|]. split; [by apply set_mem_wf|]. split; [|done].
  by eapply buf_read_written.
Qed.

(** A fresh buffer is apart from the responses under way. *)
Lemma fresh_apart s extra b :
  (forall b' x, b' ∈ extra ++ recv_bufs s ++ send_bufs s -> covers b' x -> ~ covers b x) ->
  forall b' x, b' ∈ send_bufs s -> covers b' x -> ~ covers b x.
Proof. intros H b' x Hb'. apply H. rewrite !elem_of_app. tauto. Qed.

(** A header written changes its buffer only. *)
Lemma header_outside s extra b r m x :
  server_wf s (b :: extra) -> ~ covers b x ->
  store_bytes m (Buffer.addr_ b) (kv.ResponseHeader_bytes r) x = m x.
Proof.
  intros Hw. destruct (hand_wf _ _ _ Hw) as [_ Hl]. destruct (sw_size _ _ Hw) as [Hsz _].
  unfold kv.MAX_REQUEST_SIZE, kv.RequestHeader_size, kv.MAX_SEGMENTS, kv.SegmentDescriptor_size, kv.MAX_VALUE_SIZE in Hsz.
  apply store_bytes_frame. rewrite ResponseHeader_bytes_length. lia.
Qed.

Lemma SendErrorResponse_spec s extra id cx o k st :
  server_wf s extra -> conn_contexts_ s !! id = Some cx -> deref s id = Some o ->
  exists s', SendErrorResponse s id k st = Some s' /\ server_wf s' extra
    /\ store_ s' = store_ s /\ conn_contexts_ s' = conn_contexts_ s /\ sends_kept s s'
    /\ (device_accepts (HW := HW) -> Connection.state_ o = CONNECTED -> has_room s ->
        answered s o (kv.ResponseHeader_bytes (kv.SetPutResponse k st)) 0 s').
Proof.
  intros Hw Hcx Ho. unfold SendErrorResponse, allocate.
  destruct (allocate_wf s extra Hw) as (p & b & E & Hb). rewrite E. sbind. cbn zeta in Hb.
  destruct (Buffer.IsValid b) eqn:Hv; cbn [negb].
  - destruct Hb as (Hb & _ & Hbl & Hd). pose proof (fresh_apart _ _ _ Hd) as Hf.
    destruct (write_response_wf _ _ b (kv.SetPutResponse k st) Hb) as (m & -> & Hw1 & Hr & Em). sbind.
    change kv.ResponseHeader_size with (Z.of_nat 16). rewrite <- (ResponseHeader_bytes_length (kv.SetPutResponse k st)).
    destruct (respond_answers _ s extra id o b _ 0 Hw1 Ho eq_refl eq_refl Hf Hr) as (s' & Es & Hw' & H1 & H2 & H3 & H4).
    exists s'. split_and!; [exact Es|exact Hw'|exact H1|exact H2| |].
    + intros b0 x Hb0 Hx. rewrite H3. cbn [mem set_mem]. rewrite Em.
      eapply header_outside; [exact Hb|by eapply Hf].
    + intros Ha Hc _. by apply H4.
  - eexists. split; [done|]. split_and!; [exact Hb|done|done|done|]. intros _ _ (p' & b' & E' & Hv').
    rewrite E in E'. injection E' as <- <-. congruence.
Qed.

Lemma spec_Get_value m k :
  let '(st, v) := spec_Get m k kv.MAX_VALUE_SIZE in
  Z.of_nat (length v) <= kv.MAX_VALUE_SIZE /\ (st <> kv.OK -> v = []).
Proof.
  unfold spec_Get. destruct (m !! k) as [v|]; [|done].
  destruct (Z.ltb_spec kv.MAX_VALUE_SIZE (Z.of_nat (length v))); [done|]. split; [done|by intros []].
Qed.

(** Value and header of a GET response, written one after the other. *)
Lemma get_response_bytes (m : memory) b r v :
  16 + Z.of_nat (length v) <= Buffer.length_ b ->
  buf_read (store_bytes (store_bytes m (Buffer.addr_ b + 16) v) (Buffer.addr_ b) (kv.ResponseHeader_bytes r))
    b 0 (Z.of_nat (length (kv.ResponseHeader_bytes r ++ v)))
  = Some (kv.ResponseHeader_bytes r ++ v).
Proof.
  intros Hl. pose proof (ResponseHeader_bytes_length r) as Hr.
  rewrite length_app, Hr. rewrite buf_read_Some by lia. rewrite Nat2Z.id, Z.add_0_r, range_app. f_equal. f_equal.
  - etransitivity; [|apply range_store]. by rewrite Hr.
  - rewrite range_store_disjoint by (rewrite Hr; lia). apply range_store.
Qed.

Lemma ProcessGet_spec s extra rb id cx o msg :
  server_wf s (rb :: extra) -> conn_contexts_ s !! id = Some cx -> deref s id = Some o ->
  buf_read (mem s) rb 0 (Z.of_nat (length msg)) = Some msg -> kv.RequestHeader_size <= Z.of_nat (length msg) ->
  let k := kv.rq_key (kv.RequestHeader_of_bytes msg) in
  let '(st, v) := spec_Get (view (store_ s)) k kv.MAX_VALUE_SIZE in
  exists s', ProcessGet s id rb id = Some s' /\ server_wf s' (rb :: extra)
    /\ store_ s' = store_ s /\ is_Some (conn_contexts_ s' !! id) /\ sends_kept s s'
    /\ (device_accepts (HW := HW) -> Connection.state_ o = CONNECTED -> has_room s ->
        answered s o (kv.ResponseHeader_bytes (kv.SetGetResponse k st (Z.of_nat (length v))) ++ v) (gets_processed cx) s').
Proof.
  intros Hw Hcx Ho Hm Hl k. pose proof (spec_Get_value (view (store_ s)) k) as Hv.
  pose proof (Get_spec (store_ s) k kv.MAX_VALUE_SIZE (sw_store _ _ Hw)) as EG.
  destruct (spec_Get (view (store_ s)) k kv.MAX_VALUE_SIZE) as [st v]. destruct Hv as [Hvl Hv].
  unfold ProcessGet, allocate. destruct (allocate_wf s _ Hw) as (p & b & E & Hb). rewrite E. sbind. cbn zeta in Hb.
  destruct (Buffer.IsValid b) eqn:Hval; cbn [negb].
  2:{ eexists. split; [done|]. split_and!; [exact Hb|done|by exists cx|done|]. intros _ _ (p' & b' & E' & Hv').
      rewrite E in E'. injection E' as <- <-. congruence. }
  destruct Hb as (Hb & _ & Hbl & Hd). pose proof (fresh_apart _ _ _ Hd) as Hf. pose proof (sw_size _ _ Hw) as [Hsz _].
  unfold kv.MAX_REQUEST_SIZE, kv.RequestHeader_size, kv.MAX_SEGMENTS, kv.SegmentDescriptor_size in Hsz.
  rewrite (header_of_message (set_buffers s p _ _) rb msg Hm Hl). sbind. fold k. cbn [store_ set_buffers]. rewrite EG. sbind.
  assert (EW : buf_write (mem s) b kv.ResponseHeader_size v = Some (store_bytes (mem s) (Buffer.addr_ b + 16) v))
    by (apply buf_write_Some; unfold kv.ResponseHeader_size; lia).
  cbn [mem set_buffers]. rewrite EW. sbind.
  match goal with |- context [set_mem ?s0 ?m0] => set (s2 := set_mem s0 m0) end.
  assert (Hm2 : buf_read (mem s2) rb 0 (Z.of_nat (length msg)) = Some msg).
  { rewrite <- Hm. eapply buf_read_frame; [exact EW|]. intros x. apply Hd. by left. }
  rewrite (header_of_message s2 rb msg Hm2 Hl). sbind. fold k.
  assert (Hw2 : server_wf s2 (b :: rb :: extra)) by (by apply set_mem_wf).
  set (r := kv.SetGetResponse k st _).
  destruct (write_response_wf s2 _ b r Hw2) as (m & -> & Hw3 & _ & Hm3). sbind.
  cbn [conn_contexts_ set_mem s2 set_buffers]. rewrite Hcx. sbind.
  assert (Hr : r = kv.SetGetResponse k st (Z.of_nat (length v))).
  { subst r. case_bool_decide as Hok; [done|]. by rewrite (Hv Hok). }
  assert (Hlen : (if bool_decide (st = kv.OK) then kv.ResponseHeader_size + Z.of_nat (length v) else kv.ResponseHeader_size)
          = Z.of_nat (length (kv.ResponseHeader_bytes r ++ v))).
  { rewrite length_app, ResponseHeader_bytes_length. unfold kv.ResponseHeader_size.
    case_bool_decide as Hok; [lia|]. rewrite (Hv Hok). done. }
  rewrite Hlen.
  destruct (respond_answers (set_mem s2 m) s (rb :: extra) id o b (kv.ResponseHeader_bytes r ++ v) (gets_processed cx)
    Hw3 Ho eq_refl eq_refl Hf) as (s' & Es & Hw' & H1 & H2 & H3 & H4).
  { cbn [mem set_mem]. rewrite Hm3. apply get_response_bytes. lia. }
  rewrite Es. sbind. assert (Hcx' : conn_contexts_ s' !! id = Some cx) by (by rewrite H2).
  destruct (count_in_wf s' (rb :: extra) id cx count_get Hw' Hcx' ltac:(done)) as [-> Hw4].
  eexists. split; [done|]. split_and!; [exact Hw4|exact H1| | |].
  - cbn [conn_contexts_ set_contexts]. rewrite lookup_insert_eq. by eexists.
  - intros b0 x Hb0 Hx. cbn [mem set_contexts]. rewrite H3. cbn [mem set_mem]. rewrite Hm3.
    rewrite (header_outside s2 (rb :: extra) b r _ x Hw2 (Hf b0 x Hb0 Hx)). cbn [s2 mem set_mem].
    exact (buf_write_outside _ _ _ _ _ x EW (Hf b0 x Hb0 Hx)).
  - intros Ha Hc _. rewrite <- Hr. exact (H4 Ha Hc).
Qed.

Lemma le_word_nonneg l : Forall (is_u 8) l -> 0 <= le_word l.
Proof. induction 1 as [|x l [Hx _] _ IH]; cbn [le_word]; lia. Qed.

Lemma field_nonneg off n l : Forall (is_u 8) l -> 0 <= field off n l.
Proof. intros H. apply le_word_nonneg. by apply Forall_take, Forall_drop. Qed.

(** The first half of [ProcessPut]: test the size, then store. *)
Lemma put_request s extra rb msg :
  server_wf s (rb :: extra) -> Forall (is_u 8) msg ->
  buf_read (mem s) rb 0 (Z.of_nat (length msg)) = Some msg ->
  let h := kv.RequestHeader_of_bytes msg in
  let offset := kv.RequestHeader_size + kv.rq_segment_count h * kv.SegmentDescriptor_size in
  let spec := if Z.of_nat (length msg) <? offset + kv.rq_value_size h then (kv.INVALID_REQUEST, view (store_ s))
              else spec_Put (KVStore.num_slots_ (store_ s)) (view (store_ s)) (kv.rq_key h)
                     (drop (Z.to_nat offset) msg) (kv.rq_value_size h) in
  exists st, (if Z.of_nat (length msg) <? offset + kv.rq_value_size h then Some (s, kv.INVALID_REQUEST)
              else store_put s rb h offset) = Some (set_store s st, spec.1)
    /\ server_wf (set_store s st) (rb :: extra) /\ view st = spec.2
    /\ KVStore.num_slots_ st = KVStore.num_slots_ (store_ s).
Proof.
  intros Hw Hu Hm h offset spec. subst spec.
  assert (H0 : 0 <= kv.rq_segment_count h /\ 0 <= kv.rq_value_size h) by (split; by apply field_nonneg).
  unfold kv.RequestHeader_size, kv.SegmentDescriptor_size in offset.
  destruct (Z.ltb_spec (Z.of_nat (length msg)) (offset + kv.rq_value_size h)) as [Hl|Hl].
  { exists (store_ s). destruct s, Hw. by split_and!. }
  assert (Hread : Z.of_nat (length msg) <= Buffer.length_ rb).
  { unfold buf_read in Hm. case_decide; [lia|done]. }
  assert (Hd : exists data, buf_read (mem s) rb offset (Buffer.length_ rb - offset) = Some data)
    by (rewrite buf_read_Some by lia; by eexists).
  destruct Hd as [data Hd]. unfold store_put. rewrite Hd. sbind.
  destruct (message_tail (mem s) rb msg offset (kv.rq_value_size h) data) as [Hdl Hdt]; [done|lia|lia|lia|done|].
  destruct (Put_message (store_ s) (kv.rq_key h) data _ (kv.rq_value_size h) (sw_store _ _ Hw) (sw_slot _ _ Hw)
    ltac:(lia) Hdt) as (r & st & -> & Hi & Hn & Hc & Hsp).
  sbind. exists st. rewrite Hsp. split; [done|]. split; [|done].
  destruct Hw as [H1 H2 H3 H4 H5 H6 H7]. split; try done. cbn [store_ set_store]. by rewrite Hc.
Qed.

(** The two branches of [ProcessPut] are one test. *)
Lemma put_branches {A} (seg len vs : Z) (f : Z -> A) (a : A) :
  (if seg =? 0 then if len <? kv.RequestHeader_size + vs then a else f kv.RequestHeader_size
   else if len <? kv.RequestHeader_size + seg * kv.SegmentDescriptor_size + vs then a
        else f (kv.RequestHeader_size + seg * kv.SegmentDescriptor_size))
  = (if len <? kv.RequestHeader_size + seg * kv.SegmentDescriptor_size + vs then a
     else f (kv.RequestHeader_size + seg * kv.SegmentDescriptor_size)).
Proof. destruct (Z.eqb_spec seg 0) as [->|]; [|done]. by rewrite Z.mul_0_l, !Z.add_0_r. Qed.

Lemma ProcessPut_spec s extra rb id cx o msg :
  server_wf s (rb :: extra) -> conn_contexts_ s !! id = Some cx -> deref s id = Some o -> Forall (is_u 8) msg ->
  buf_read (mem s) rb 0 (Z.of_nat (length msg)) = Some msg -> kv.RequestHeader_size <= Z.of_nat (length msg) ->
  let h := kv.RequestHeader_of_bytes msg in
  let offset := kv.RequestHeader_size + kv.rq_segment_count h * kv.SegmentDescriptor_size in
  let spec := if Z.of_nat (length msg) <? offset + kv.rq_value_size h then (kv.INVALID_REQUEST, view (store_ s))
              else spec_Put (KVStore.num_slots_ (store_ s)) (view (store_ s)) (kv.rq_key h)
                     (drop (Z.to_nat offset) msg) (kv.rq_value_size h) in
  exists s', ProcessPut s id rb (Z.of_nat (length msg)) id = Some s' /\ server_wf s' (rb :: extra)
    /\ view (store_ s') = spec.2 /\ KVStore.num_slots_ (store_ s') = KVStore.num_slots_ (store_ s)
    /\ is_Some (conn_contexts_ s' !! id) /\ sends_kept s s'
    /\ (device_accepts (HW := HW) -> Connection.state_ o = CONNECTED -> has_room s ->
        answered s o (kv.ResponseHeader_bytes (kv.SetPutResponse (kv.rq_key h) spec.1)) (puts_processed cx) s').
Proof.
  intros Hw Hcx Ho Hu Hm Hl h offset spec. unfold ProcessPut.
  rewrite (header_of_message s rb msg Hm Hl). sbind. fold h.
  destruct (put_request s extra rb msg Hw Hu Hm) as (st & E1 & Hw1 & Hv & Hn). fold h offset spec in E1, Hv.
  rewrite put_branches. fold offset. rewrite E1. sbind. unfold allocate.
  destruct (allocate_wf (set_store s st) _ Hw1) as (p & b & E & Hb). rewrite E. sbind. cbn zeta in Hb.
  destruct (Buffer.IsValid b) eqn:Hval; cbn [negb].
  2:{ eexists. split; [done|]. split_and!; [exact Hb|exact Hv|exact Hn|by exists cx|done|]. intros _ _ (p' & b' & E' & Hv').
      cbn [buffer_pool_ set_store] in E. rewrite E in E'. injection E' as <- <-. congruence. }
  destruct Hb as (Hb & _ & _ & Hd). pose proof (fresh_apart (set_store s st) _ _ Hd) as Hf.
  rewrite (header_of_message (set_buffers (set_store s st) p _ _) rb msg Hm Hl). sbind. fold h.
  destruct (write_response_wf _ _ b (kv.SetPutResponse (kv.rq_key h) spec.1) Hb) as (m & -> & Hw2 & Hr & Em). sbind.
  cbn [conn_contexts_ set_mem set_buffers set_store]. rewrite Hcx. sbind.
  change kv.ResponseHeader_size with (Z.of_nat 16).
  rewrite <- (ResponseHeader_bytes_length (kv.SetPutResponse (kv.rq_key h) spec.1)).
  destruct (respond_answers _ s (rb :: extra) id o b _ (puts_processed cx) Hw2 Ho eq_refl eq_refl Hf Hr)
    as (s' & Es & Hw' & H1 & H2 & H3 & H4).
  rewrite Es. sbind. assert (Hcx' : conn_contexts_ s' !! id = Some cx) by (by rewrite H2).
  destruct (count_in_wf s' (rb :: extra) id cx count_put Hw' Hcx' ltac:(done)) as [-> Hw4].
  eexists. split; [done|]. cbn [store_ set_contexts conn_contexts_]. rewrite H1.
  split_and!; [exact Hw4|exact Hv|exact Hn| | |].
  - rewrite lookup_insert_eq. by eexists.
  - intros b0 x Hb0 Hx. cbn [mem set_contexts]. rewrite H3. cbn [mem set_mem]. rewrite Em.
    exact (header_outside _ _ _ _ _ x Hb (Hf b0 x Hb0 Hx)).
  - intros Ha Hc _. exact (H4 Ha Hc).
Qed.

Lemma ProcessRequest_spec s extra rb id cx o msg :
  server_wf s (rb :: extra) -> conn_contexts_ s !! id = Some cx -> deref s id = Some o -> Forall (is_u 8) msg ->
  buf_read (mem s) rb 0 (Z.of_nat (length msg)) = Some msg -> kv.RequestHeader_size <= Z.of_nat (length msg) ->
  let spec := spec_process (KVStore.num_slots_ (store_ s)) (view (store_ s)) msg in
  exists s', ProcessRequest s id rb (Z.of_nat (length msg)) id = Some s' /\ server_wf s' (rb :: extra)
    /\ view (store_ s') = spec.2 /\ KVStore.num_slots_ (store_ s') = KVStore.num_slots_ (store_ s)
    /\ is_Some (conn_contexts_ s' !! id) /\ sends_kept s s'
    /\ (device_accepts (HW := HW) -> Connection.state_ o = CONNECTED -> has_room s ->
        answered s o spec.1 (response_seq cx msg) s').
Proof.
  intros Hw Hcx Ho Hu Hm Hl spec. subst spec. unfold ProcessRequest, spec_process, response_seq.
  destruct (Z.ltb_spec (Z.of_nat (length msg)) kv.RequestHeader_size); [lia|].
  rewrite (header_of_message s rb msg Hm Hl). sbind.
  destruct (kv.rq_op_type (kv.RequestHeader_of_bytes msg) =? kv.OpType_u8 kv.GET).
  - pose proof (ProcessGet_spec s extra rb id cx o msg Hw Hcx Ho Hm Hl) as HG. cbn zeta in HG.
    destruct (spec_Get _ _ _) as [st v]. destruct HG as (s' & E & Hw' & Hst & Hx & Hk & Ha).
    exists s'. rewrite Hst. by split_and!.
  - destruct (kv.rq_op_type (kv.RequestHeader_of_bytes msg) =? kv.OpType_u8 kv.PUT).
    + destruct (ProcessPut_spec s extra rb id cx o msg Hw Hcx Ho Hu Hm Hl) as (s' & E & Hw' & Hv & Hn & Hx & Hk & Ha).
      exists s'. split; [done|]. split; [done|].
      destruct (_ <? _); [by split_and!|]. destruct (spec_Put _ _ _ _ _) as [st m]. by split_and!.
    + destruct (SendErrorResponse_spec s (rb :: extra) id cx o (kv.rq_key (kv.RequestHeader_of_bytes msg))
        kv.INVALID_REQUEST Hw Hcx Ho) as (s' & E & Hw' & Hst & Hx & Hk & Ha).
      exists s'. rewrite Hst. split_and!; try done. rewrite Hx. by eexists.
Qed.

(** A tracked buffer freed and a fresh one posted, as after every request. *)
Lemma recycle s extra rb c o :
  server_wf s (rb :: extra) -> deref s c = Some o ->
  exists s1 s', free s rb = Some s1 /\ PostRecvBuffers s1 c 1 = Some s' /\ server_wf s' extra
    /\ mem s' = mem s /\ store_ s' = store_ s /\ conn_contexts_ s' = conn_contexts_ s
    /\ posted_send_buffers_ s' = posted_send_buffers_ s /\ posted (hw s') = posted (hw s).
Proof.
  intros Hw Ho. unfold free. destruct (free_wf s rb extra Hw) as (p & -> & Hw1). sbind.
  eexists. destruct (PostRecvBuffers_wf _ extra c o 1 Hw1 Ho) as (h & p2 & recvs & E & Hw2 & Hp).
  eexists. split; [done|]. split; [exact E|]. by split_and!.
Qed.

Lemma answered_frame s o bytes seq s1 s2 :
  answered s o bytes seq s1 -> mem s2 = mem s1 -> posted_send_buffers_ s2 = posted_send_buffers_ s1 ->
  posted (hw s2) = posted (hw s1) -> answered s o bytes seq s2.
Proof. intros (b & H1 & H2 & H3 & H4) E1 E2 E3. exists b. rewrite E1, E2, E3. done. Qed.

(** Without a buffer for the response none is sent. *)
Lemma allocate_no_room s s1 b :
  ~ has_room s -> allocate s = Some (s1, b) ->
  Buffer.IsValid b = false /\ posted (hw s1) = posted (hw s) /\ posted_send_buffers_ s1 = posted_send_buffers_ s.
Proof.
  unfold allocate. intros Hn ([p b'] & E & [= <- <-])%bind_Some. split; [|done].
  apply not_true_iff_false. intros Hv. apply Hn. by exists p, b'.
Qed.

Lemma ProcessRequest_no_room s c rb len i s' :
  ~ has_room s -> ProcessRequest s c rb len i = Some s' ->
  posted (hw s') = posted (hw s) /\ posted_send_buffers_ s' = posted_send_buffers_ s.
Proof.
  intros Hn E. unfold ProcessRequest, SendErrorResponse, ProcessGet, ProcessPut in E.
  assert (Hput : forall rq h off s1 st, store_put s rq h off = Some (s1, st) ->
    ~ has_room s1 /\ posted (hw s1) = posted (hw s) /\ posted_send_buffers_ s1 = posted_send_buffers_ s).
  { unfold store_put. intros rq h off s1 st (d & _ & ([st' k] & _ & [= <- <-])%bind_Some)%bind_Some. by split. }
  run_steps;
    repeat match goal with
      | H : store_put _ _ _ _ = Some _ |- _ => apply Hput in H as (? & ? & ?)
      | Hn : ~ has_room ?s, H : allocate ?s = Some _ |- _ =>
          apply (allocate_no_room _ _ _ Hn) in H as (Hv & ? & ?); try rewrite Hv in *
      end; try discriminate; split; congruence.
Qed.

(** A message that is in the buffer posted for it. *)
Lemma HandleRequest_spec s id cx o wrid pb msg :
  server_wf s [] -> conn_contexts_ s !! id = Some cx -> deref s id = Some o -> posted_recv_buffers_ s !! wrid = Some pb ->
  Forall (is_u 8) msg -> buf_read (mem s) (buf pb) 0 (Z.of_nat (length msg)) = Some msg ->
  kv.RequestHeader_size <= Z.of_nat (length msg) ->
  let spec := spec_process (KVStore.num_slots_ (store_ s)) (view (store_ s)) msg in
  exists s', HandleRequest s id (recv_completion wrid msg) = Some s' /\ server_wf s' []
    /\ view (store_ s') = spec.2 /\ KVStore.num_slots_ (store_ s') = KVStore.num_slots_ (store_ s)
    /\ sends_kept s s'
    /\ (~ has_room s -> posted (hw s') = posted (hw s) /\ posted_send_buffers_ s' = posted_send_buffers_ s)
    /\ (device_accepts (HW := HW) -> Connection.state_ o = CONNECTED -> has_room s ->
        answered s o spec.1 (response_seq cx msg) s').
Proof.
  intros Hw Hcx Ho Hpb Hu Hm Hl spec. pose proof (untrack_recv_wf s [] wrid pb Hw Hpb) as Hw1.
  unfold HandleRequest. cbn [wc_wr_id wc_byte_len recv_completion]. rewrite Hcx, Hpb.
  destruct (context_conn _ _ _ _ Hw Hcx) as (-> & _ & _).
  destruct (Z.ltb_spec (Z.of_nat (length msg)) kv.RequestHeader_size); [lia|].
  match goal with |- context [ProcessRequest ?s1] => set (s1' := s1) end.
  destruct (ProcessRequest_spec s1' [] (buf pb) id cx o msg Hw1 Hcx Ho Hu Hm ltac:(lia))
    as (s2 & E2 & Hw2 & Hv & Hn & [cx2 Hcx2] & Hk & Ha).
  pose proof (fun H => ProcessRequest_no_room s1' _ _ _ _ s2 H E2) as Hno. rewrite E2. sbind.
  destruct (context_conn _ _ _ _ Hw2 Hcx2) as (_ & _ & o2 & Ho2 & _).
  destruct (recycle s2 [] (buf pb) id o2 Hw2 Ho2) as (s3 & s4 & -> & E4 & Hw4 & F1 & F2 & F3 & F4 & F5).
  sbind. rewrite E4. sbind. rewrite <- F3 in Hcx2.
  destruct (count_in_wf s4 [] id cx2 count_request Hw4 Hcx2 ltac:(done)) as [-> Hw5].
  eexists. split; [done|]. split; [exact Hw5|]. cbn [store_ set_contexts]. rewrite F2.
  split; [exact Hv|]. split; [exact Hn|]. split.
  { intros b0 x Hb0 Hx. cbn [mem set_contexts]. rewrite F1. exact (Hk b0 x Hb0 Hx). }
  split.
  { intros Hroom. cbn [hw posted_send_buffers_ set_contexts]. rewrite F4, F5. exact (Hno Hroom). }
  intros Hacc Hc Hroom.
  eapply (answered_frame _ _ _ _ s2); [exact (Ha Hacc Hc Hroom)|exact F1|exact F4|exact F5].
Qed.

(** The device's write is inside the buffer posted for it. *)
Lemma receive_wf s wrid msg :
  server_wf s [] -> Z.of_nat (length msg) <= kv.MAX_REQUEST_SIZE ->
  exists m, receive s wrid msg = Some (set_mem s m) /\ server_wf (set_mem s m) [] /\ sends_kept s (set_mem s m)
    /\ forall pb, posted_recv_buffers_ s !! wrid = Some pb ->
        buf_read m (buf pb) 0 (Z.of_nat (length msg)) = Some msg.
Proof.
  intros Hw Hl. unfold receive. destruct (posted_recv_buffers_ s !! wrid) as [pb|] eqn:Hpb.
  - pose proof (untrack_recv_wf s [] wrid pb Hw Hpb) as Hw1.
    destruct (hand_wf _ _ _ Hw1) as [_ Hbl]. cbn [buffer_pool_ set_buffers] in Hbl. pose proof (sw_size _ _ Hw) as [Hsz _].
    destruct (buf_write (mem s) (buf pb) 0 msg) as [m|] eqn:E; [|by rewrite buf_write_Some in E by lia].
    exists m. sbind. split_and!; [done|by apply set_mem_wf| |].
    + intros b0 x Hb0 Hx. refine (buf_write_outside _ _ _ _ _ x E _). intros Hx'.
      refine (hand_apart _ _ _ b0 x Hw1 _ Hx' Hx). cbn [app]. rewrite elem_of_app. by right.
    + intros pb' [= <-]. by eapply buf_read_written.
  - exists (mem s). split_and!; [by destruct s|by apply set_mem_wf|done|done].
Qed.

(** The end of a send, or of anything that is not a receive. *)
Lemma HandleCompletion_other s wc :
  server_wf s [] -> WrId.GetOpcode (wc_wr_id wc) <> RpcOpcode_u8 RECV ->
  exists s', HandleCompletion s wc = Some s' /\ server_wf s' []
    /\ posted_recv_buffers_ s' = posted_recv_buffers_ s /\ conn_contexts_ s' = conn_contexts_ s.
Proof.
  intros Hw Hop. unfold HandleCompletion. destruct (negb _); [by exists s|].
  destruct (Z.eqb_spec (WrId.GetOpcode (wc_wr_id wc)) (RpcOpcode_u8 RECV)); [done|].
  destruct (_ =? _); [|by exists s]. destruct (posted_send_buffers_ s !! wc_wr_id wc) as [b|] eqn:Hb; [|by exists s].
  destruct (free_wf _ _ _ (untrack_send_wf s [] _ b Hw Hb)) as (p & E & Hw').
  cbn [buffer_pool_ set_buffers] in E. unfold free. rewrite E. sbind. by eexists.
Qed.

(** A completion for a connection that is gone, or for an unknown buffer. *)
Lemma HandleRequest_stale s id wc :
  conn_contexts_ s !! id = None \/ posted_recv_buffers_ s !! wc_wr_id wc = None -> HandleRequest s id wc = Some s.
Proof.
  unfold HandleRequest. intros [->| ->]; [done|]. by destruct (conn_contexts_ s !! id).
Qed.

(** A message too short for a header is dropped and its buffer posted again. *)
Lemma HandleRequest_short s id cx o wc pb :
  server_wf s [] -> conn_contexts_ s !! id = Some cx -> deref s id = Some o ->
  posted_recv_buffers_ s !! wc_wr_id wc = Some pb -> wc_byte_len wc < kv.RequestHeader_size ->
  exists s', HandleRequest s id wc = Some s' /\ server_wf s' [].
Proof.
  intros Hw Hcx Ho Hpb Hl. unfold HandleRequest. rewrite Hcx, Hpb.
  destruct (Z.ltb_spec (wc_byte_len wc) kv.RequestHeader_size); [|lia].
  destruct (context_conn _ _ _ _ Hw Hcx) as (-> & _ & _).
  destruct (recycle _ [] (buf pb) id o (untrack_recv_wf s [] _ pb Hw Hpb) Ho) as (s1 & s' & -> & E & Hw' & _).
  sbind. by exists s'.
Qed.

(** A receive completion goes to [HandleRequest]. *)
Lemma HandleCompletion_recv s wrid msg :
  WrId.GetOpcode wrid = RpcOpcode_u8 RECV ->
  HandleCompletion s (recv_completion wrid msg) = HandleRequest s (WrId.GetConnId wrid) (recv_completion wrid msg).
Proof. intros Hop. unfold HandleCompletion. cbn [wc_status wc_wr_id recv_completion]. by rewrite Hop, Z.eqb_refl. Qed.

(** A message of any length, for any connection. *)
Lemma HandleCompletion_message s wrid msg :
  server_wf s [] -> Forall (is_u 8) msg ->
  (forall pb, posted_recv_buffers_ s !! wrid = Some pb -> buf_read (mem s) (buf pb) 0 (Z.of_nat (length msg)) = Some msg) ->
  exists s', HandleCompletion s (recv_completion wrid msg) = Some s' /\ server_wf s' [].
Proof.
  intros Hw Hu Hm. destruct (decide (WrId.GetOpcode wrid = RpcOpcode_u8 RECV)) as [Hop|Hop].
  2:{ destruct (HandleCompletion_other s (recv_completion wrid msg) Hw Hop) as (s' & E & Hw' & _). by exists s'. }
  rewrite HandleCompletion_recv by done.
  destruct (posted_recv_buffers_ s !! wrid) as [pb|] eqn:Hpb;
    [|rewrite HandleRequest_stale by (by right); by exists s].
  destruct (conn_contexts_ s !! WrId.GetConnId wrid) as [cx|] eqn:Hcx;
    [|rewrite HandleRequest_stale by (by left); by exists s].
  destruct (context_conn _ _ _ _ Hw Hcx) as (_ & _ & o & Ho & _).
  destruct (decide (kv.RequestHeader_size <= Z.of_nat (length msg))) as [Hh|Hh].
  - destruct (HandleRequest_spec s _ cx o wrid pb msg Hw Hcx Ho Hpb Hu (Hm pb eq_refl) Hh) as (s' & E & Hw' & _).
    by exists s'.
  - apply (HandleRequest_short _ _ cx o (recv_completion wrid msg) pb Hw Hcx Ho Hpb). cbn. lia.
Qed.

(** Dropping a connection that has no context. *)
Lemma remove_connection_wf s extra id :
  server_wf s extra -> 0 <= id -> conn_contexts_ s !! id = None ->
  exists h m, remove_connection s id = Some (set_hw s h m) /\ server_wf (set_hw s h m) extra
    /\ forall j, deref (set_hw s h m) j = if decide (j = id) then None else deref s j.
Proof.
  intros [H1 H2 H3 H4 H5 H6 H7] Hid Hn. unfold remove_connection.
  destruct (RemoveConnection_spec (conn_manager_ s) id H6 Hid) as (m & -> & Hm & _ & Hc & _). sbind.
  do 2 eexists. split; [reflexivity|].
  assert (Hd : forall h j, deref (set_hw s h m) j = if decide (j = id) then None else deref s j).
  { intros h j. unfold deref. cbn [conn_manager_ set_hw]. rewrite Hc.
    destruct (decide (id < Z.of_nat (length (ConnectionManager.connections_ (conn_manager_ s))))) as [Hlt|Hge].
    - rewrite aget_insert by lia. by destruct (decide (id = j)), (decide (j = id)); try congruence.
    - rewrite list_insert_ge by lia. destruct (decide (j = id)) as [->|]; [|done].
      destruct (aget _ id) eqn:E; [apply aget_lt in E; lia|done]. }
  split; [|done]. split; try done. intros j c Hj. destruct (H5 j c Hj) as (E1 & E2 & o & E3 & E4).
  split_and!; [done|done|]. exists o. split; [|done]. rewrite Hd. destruct (decide (j = id)) as [->|]; [|done].
  cbn in Hj. congruence.
Qed.

Lemma delete_context_wf s extra id : server_wf s extra -> server_wf (set_contexts s (delete id (conn_contexts_ s))) extra.
Proof.
  intros [H1 H2 H3 H4 H5 H6 H7]. split; try done.
  - intros j c. cbn [conn_contexts_ set_contexts]. intros [_ Hj]%lookup_delete_Some. by apply H5.
  - destruct H7 as (sp & Hr & Ht & Hsp). exists sp. split_and!; [done|done|]. intros j [c Hj]. cbn [conn_contexts_ set_contexts] in Hj.
    apply lookup_delete_Some in Hj as [_ Hj]. apply Hsp. by exists c.
Qed.

Lemma OnError_wf s id status :
  server_wf s [] -> 0 <= id ->
  exists h m, OnError s id status = Some (set_hw (set_contexts s (delete id (conn_contexts_ s))) h m)
    /\ server_wf (set_hw (set_contexts s (delete id (conn_contexts_ s))) h m) []
    /\ forall j, deref (set_hw (set_contexts s (delete id (conn_contexts_ s))) h m) j
                 = if decide (j = id) then None else deref s j.
Proof.
  intros Hw Hid. unfold OnError.
  apply (remove_connection_wf (set_contexts s (delete id (conn_contexts_ s)))); [by apply delete_context_wf|done|].
  apply lookup_delete_eq.
Qed.

Lemma set_dispatcher_wf s extra d :
  server_wf s extra -> dispatcher_ok d (conn_contexts_ s) -> server_wf (set_dispatcher s d) extra.
Proof. by intros [] ?. Qed.

(** What the dispatcher calls for a completion. *)
Lemma complete_dispatch s extra wc :
  server_wf s extra -> (wc_status wc = IBV_WC_SUCCESS -> WrId.GetConnId (wc_wr_id wc) <> 0xFFFF) ->
  exists d evs, CompletionDispatcher.Dispatch (dispatcher_ s) wc = Some (d, evs) /\ server_wf (set_dispatcher s d) extra
    /\ if decide (wc_status wc = IBV_WC_SUCCESS)
       then (exists h x, evs = [CompletionDispatcher.ECall h x wc])
            \/ (evs = [] /\ conn_contexts_ s !! WrId.GetConnId (wc_wr_id wc) = None)
       else evs = [] \/ (exists h x, evs = [CompletionDispatcher.EError h x (WrId.GetConnId (wc_wr_id wc)) (wc_status wc)]).
Proof.
  intros Hw Hne. destruct (sw_dispatcher _ _ Hw) as (sp & Hr & Ht & Hsp).
  destruct (decide (wc_status wc = IBV_WC_SUCCESS)) as [Hs|Hs].
  - destruct Hr as [Hco He]. destruct (Dispatch_success (dispatcher_ s) (sp_map sp) wc Hco Hs (Hne Hs)) as (d' & E' & Hc' & Ht' & Eh).
    do 2 eexists. split; [exact E'|]. split.
    { apply set_dispatcher_wf; [done|]. exists sp. split_and!; [split; [done|congruence]|by apply Ht'|done]. }
    destruct (sp_map sp !! WrId.GetConnId (wc_wr_id wc)) as [[x h]|] eqn:Em; [left; by eauto|].
    right. split; [done|]. apply eq_None_not_Some. intros Hx%Hsp. rewrite Em in Hx. by destruct Hx.
  - unfold CompletionDispatcher.Dispatch. case (Z.eqb_spec (wc_status wc) IBV_WC_SUCCESS); [done|]. intros _. cbn [negb].
    do 2 eexists. split; [reflexivity|]. split; [by apply set_dispatcher_wf; [|apply Hw]|].
    case_match; [by left|right; by eauto].
Qed.

(** A request of a client, from its arrival on. *)
Lemma message_spec s wrid cx o pb msg :
  server_wf s [] -> WrId.GetOpcode wrid = RpcOpcode_u8 RECV ->
  conn_contexts_ s !! WrId.GetConnId wrid = Some cx -> deref s (WrId.GetConnId wrid) = Some o ->
  posted_recv_buffers_ s !! wrid = Some pb ->
  Forall (is_u 8) msg -> kv.RequestHeader_size <= Z.of_nat (length msg) <= kv.MAX_REQUEST_SIZE ->
  let spec := spec_process (KVStore.num_slots_ (store_ s)) (view (store_ s)) msg in
  exists s', server_step s (EvMessage wrid msg) = Some s' /\ server_wf s' []
    /\ view (store_ s') = spec.2 /\ KVStore.num_slots_ (store_ s') = KVStore.num_slots_ (store_ s)
    /\ sends_kept s s'
    /\ (~ has_room s -> posted (hw s') = posted (hw s) /\ posted_send_buffers_ s' = posted_send_buffers_ s)
    /\ (device_accepts (HW := HW) -> Connection.state_ o = CONNECTED -> has_room s ->
        answered s o spec.1 (response_seq cx msg) s').
Proof.
  intros Hw Hop Hcx Ho Hpb Hu Hl spec. cbn [server_step]. unfold complete.
  destruct (receive_wf s wrid msg Hw) as (m & -> & Hwm & Hk & Hm); [lia|]. sbind.
  assert (Hne : WrId.GetConnId wrid <> 0xFFFF).
  { pose proof (proj1 (deref_Some _ _ _) Ho) as Hlt%aget_lt. pose proof (sw_manager _ _ Hw) as Hmg.
    pose proof (mi_len _ Hmg). pose proof (mi_max _ Hmg) as Hu16. unfold is_u in Hu16. lia. }
  destruct (complete_dispatch (set_mem s m) [] (recv_completion wrid msg) Hwm (fun _ => Hne)) as (d & evs & -> & Hwd & Hev).
  sbind. rewrite decide_True in Hev by done.
  destruct Hev as [(h & x & ->)|[_ Hev]]; [|cbn in Hev; congruence]. cbn [on_events on_event].
  rewrite HandleCompletion_recv by done.
  destruct (HandleRequest_spec (set_dispatcher (set_mem s m) d) _ cx o wrid pb msg Hwd Hcx Ho Hpb Hu (Hm pb Hpb) (proj1 Hl))
    as (s' & -> & Hw' & Hv & Hn & Hk' & Hno & Ha).
  sbind. exists s'. split_and!; [done|done|exact Hv|exact Hn| |exact Hno|exact Ha].
  intros b x' Hb Hx. rewrite (Hk' b x' Hb Hx). exact (Hk b x' Hb Hx).
Qed.

Lemma server_step_wf s e : server_wf s [] -> event_ok e -> exists s', server_step s e = Some s' /\ server_wf s' [].
Proof.
  intros Hw He. destruct e as [wrid msg|wc]; cbn [server_step event_ok] in *; unfold complete.
  - destruct He as (Hu & Hl & Hne). destruct (receive_wf s wrid msg Hw Hl) as (m & -> & Hwm & _ & Hm). sbind.
    destruct (complete_dispatch (set_mem s m) [] (recv_completion wrid msg) Hwm (fun _ => Hne)) as (d & evs & -> & Hwd & He).
    sbind. rewrite decide_True in He by done. destruct He as [(h & x & ->)|[-> _]]; cbn [on_events on_event].
    + destruct (HandleCompletion_message _ wrid msg Hwd Hu Hm) as (s' & -> & Hw'). by exists s'.
    + by eexists.
  - destruct (complete_dispatch s [] wc Hw ltac:(by intros []%He)) as (d & evs & -> & Hwd & Hev). sbind.
    destruct (decide _) as [Hs|Hs].
    + destruct Hev as [(h & x & ->)|[-> _]]; cbn [on_events on_event]; [|by eexists].
      destruct (HandleCompletion_other _ wc Hwd (proj1 (He Hs))) as (s' & -> & Hw' & _). by exists s'.
    + destruct Hev as [->|(h & x & ->)]; cbn [on_events on_event]; [by eexists|].
      destruct (OnError_wf _ (WrId.GetConnId (wc_wr_id wc)) (wc_status wc) Hwd) as (h' & m & -> & Hw' & _).
      { apply (wrap_range 16). lia. }
      by eexists.
Qed.

Lemma server_run_wf s es : server_wf s [] -> Forall event_ok es -> exists s', server_run s es = Some s' /\ server_wf s' [].
Proof.
  intros Hw Hes. revert s Hw. induction Hes as [|e es He _ IH]; intros s Hw; cbn [server_run]; [by exists s|].
  destruct (server_step_wf s e Hw He) as (s1 & -> & Hw1). sbind. by apply IH.
Qed.

Lemma server_ids_ok s extra : server_wf s extra -> ids_ok s.
Proof. intros Hw j o Ho. apply (mi_id _ (sw_manager _ _ Hw)). by apply deref_Some. Qed.

End lemmas.

(** *** Pools that only give *)

Section pools.
Import KVServer.
Context {HW P : Type} `{!Verbs HW, !BufferSource P}.
Implicit Types (s : KVServer HW P).

Ltac pool_steps :=
  intros; run_steps;
  repeat match goal with
    | H : (match ?x with _ => _ end) = Some _ |- _ => destruct x
    | _ => progress run_steps
    end.

Lemma allocate_pool s s' b : allocate s = Some (s', b) -> allocations (buffer_pool_ s) (buffer_pool_ s').
Proof.
  unfold allocate. intros ([p b'] & E & [= <- <-])%bind_Some. apply rtc_once. by exists b'.
Qed.

Lemma respond_pool s c b len seq s' : respond s c b len seq = Some s' -> buffer_pool_ s' = buffer_pool_ s.
Proof. unfold respond, conn_send. pool_steps; done. Qed.

Lemma write_response_pool s b r s' : write_response s b r = Some s' -> buffer_pool_ s' = buffer_pool_ s.
Proof. unfold write_response. by pool_steps. Qed.

Lemma count_in_pool s i f s' : count_in s i f = Some s' -> buffer_pool_ s' = buffer_pool_ s.
Proof. unfold count_in. by pool_steps. Qed.

Lemma store_put_pool s b h off s' st : store_put s b h off = Some (s', st) -> buffer_pool_ s' = buffer_pool_ s.
Proof. unfold store_put. by pool_steps. Qed.

Ltac pools :=
  intros; run_steps;
  repeat match goal with
    | H : count_in _ _ _ = Some _ |- _ => apply count_in_pool in H
    | H : respond _ _ _ _ _ = Some _ |- _ => apply respond_pool in H
    | H : write_response _ _ _ = Some _ |- _ => apply write_response_pool in H
    | H : allocate _ = Some _ |- _ => apply allocate_pool in H
    | H : store_put _ _ _ _ = Some _ |- _ => apply store_put_pool in H
    end;
  cbn [buffer_pool_ set_mem] in *; congruence.

Lemma ProcessRequest_pool s c rb len i s' :
  ProcessRequest s c rb len i = Some s' -> allocations (buffer_pool_ s) (buffer_pool_ s').
Proof.
  assert (Herr : forall k st s1, SendErrorResponse s c k st = Some s1 -> allocations (buffer_pool_ s) (buffer_pool_ s1))
    by (unfold SendErrorResponse; pools).
  unfold ProcessRequest. intros E. run_steps; eauto.
  - revert E. unfold ProcessGet. pools.
  - revert E. unfold ProcessPut. pools.
Qed.

(** A pool whose tail is past its ring stays so while it only gives. *)
Definition past_ring (p : LocalBufferPool.LocalBufferPool) : Prop :=
  LocalBufferPool.policy_ p = FIFO /\ LocalBufferPool.tail_ p = Z.of_nat (length (LocalBufferPool.offset_ring_ p)).

Lemma past_ring_allocations p p' : past_ring p -> allocations p p' -> past_ring p'.
Proof.
  intros H Hs. induction Hs as [p|p p1 p2 [b E] _ IH]; [done|]. apply IH. clear IH. destruct H as [Hp Ht].
  cbn [bs_allocate LocalBufferPool_source] in E. unfold LocalBufferPool.Allocate in E.
  destruct (_ =? 0); [by injection E as <- _|]. rewrite Hp in E. cbn [bool_decide decide decide_rel] in E.
  rewrite bool_decide_true in E by done. apply bind_Some in E as ([p' o] & E & [= <- <-]).
  by apply bind_Some in E as (o' & _ & [= <- <-]).
Qed.

Lemma past_ring_free p b : past_ring p -> LocalBufferPool.Free p b = None.
Proof. intros [_ Ht]. unfold LocalBufferPool.Free. by rewrite aset_None by lia. Qed.

End pools.

(** *** An example server

    One client, connected, has posted receive buffers; the response to its first
    GET is under way. *)

Section example.
Import KVServer.

Definition one_slot : KVStore.StoreConfig :=
  {| KVStore.total_storage_size := 65536; KVStore.slot_size := 65536; KVStore.cfg_hash_table_size := 0 |}.

Definition example_store : KVStore.KVStore :=
  match KVStore.Initialize zero_alloc (KVStore.KVStore_default one_slot) one_slot with
  | Some (_, st) => st
  | None => KVStore.KVStore_default one_slot
  end.

(** Four buffers of [MAX_REQUEST_SIZE] bytes, two of them taken. *)
Definition example_pool : LocalBufferPool.LocalBufferPool :=
  {| LocalBufferPool.base_addr_ := 65536; LocalBufferPool.total_size_ := 262720;
     LocalBufferPool.offset_ring_ := [0; 65680; 131360; 197040]; LocalBufferPool.head_ := 2;
     LocalBufferPool.tail_ := 0; LocalBufferPool.count_ := 2; LocalBufferPool.buffer_size_ := 65680;
     LocalBufferPool.buffer_count_ := 4; LocalBufferPool.policy_ := FIFO; LocalBufferPool.lkey_ := 7;
     LocalBufferPool.rkey_ := 8 |}.

Definition recv_buffer : Buffer := {| Buffer.addr_ := 65536; Buffer.length_ := 65680; Buffer.lkey_ := 7 |}.
Definition send_buffer : Buffer := {| Buffer.addr_ := 131216; Buffer.length_ := 65680; Buffer.lkey_ := 7 |}.

Definition client_connection : Connection :=
  Connection.SetConnId (Connection.set_state example_connection CONNECTED) 0.

Definition recv_wrid : Z := WrId.Encode 0 RECV 0 65536.

Definition example_server {P} (pool : P) : KVServer (ibv_qp_state * list ibv_send_wr) P :=
  {| hw := (IBV_QPS_RTS, []); mem := fun _ => 0; store_ := example_store; buffer_pool_ := pool;
     conn_manager_ := {| ConnectionManager.connections_ := [Some client_connection];
                         ConnectionManager.free_conn_ids_ := []; ConnectionManager.active_count_ := 1;
                         ConnectionManager.max_connections := 1 |};
     dispatcher_ := default CompletionDispatcher.CompletionDispatcher_new
                      (CompletionDispatcher.RegisterConnection CompletionDispatcher.CompletionDispatcher_new 0 1 1);
     conn_contexts_ := {[ 0 := {| conn := 0; requests_processed := 1; gets_processed := 1; puts_processed := 0 |} ]};
     posted_recv_buffers_ := {[ recv_wrid := {| buf := recv_buffer; conn_id := 0 |} ]};
     posted_send_buffers_ := {[ response_wrid client_connection 0 := send_buffer ]} |}.

Definition put_message : list Z := kv.RequestHeader_bytes (kv.SetPut 7 4096 0) ++ replicate 4096 9.

Lemma one_slot_ok : KvStore.config_ok one_slot.
Proof. split; [done|]. split; [split; done|]. split; [split; vm_compute; discriminate|by left]. Qed.

Lemma example_store_inv : inv example_store /\ KVStore.config_ example_store = one_slot.
Proof.
  unfold example_store. by destruct (Initialize_spec zero_alloc one_slot one_slot_ok (zero_alloc_ok 65536 ltac:(lia)))
    as (s & -> & Hi & _ & _ & Hc).
Qed.

Lemma example_store_view : view example_store = ∅ /\ KVStore.num_slots_ example_store = 1.
Proof.
  unfold example_store. destruct (Initialize_spec zero_alloc one_slot one_slot_ok (zero_alloc_ok 65536 ltac:(lia)))
    as (s & -> & _ & Hv & Hn & _). split; [exact Hv|]. by rewrite Hn.
Qed.

Lemma example_pool_held : pool_held example_pool [recv_buffer; send_buffer].
Proof.
  constructor; try (simpl; lia).
  - vm_compute. split; [split; [discriminate|reflexivity]|reflexivity].
  - exists [0; 65680]. split; [done|]. exact (Permutation_app_comm [131360; 197040] [0; 65680]).
Qed.

Lemma example_server_wf : server_wf (example_server example_pool) [].
Proof.
  destruct example_store_inv as [Hi Hc]. split; cbn [store_ buffer_pool_ conn_contexts_ conn_manager_ dispatcher_ example_server].
  - exact Hi.
  - by rewrite Hc.
  - exists [], [recv_buffer; send_buffer]. split; [|exact example_pool_held]. by vm_compute.
  - split; vm_compute; congruence.
  - intros id c [<- <-]%lookup_singleton_Some. split_and!; [done|split; vm_compute; congruence|].
    by exists client_connection.
  - constructor; try (vm_compute; split; congruence || done); try done.
    intros i c Hic. pose proof (aget_lt _ _ _ Hic) as Hlt. cbn in Hlt. assert (i = 0) as -> by lia. by injection Hic as <-.
  - destruct represents_new as [[Hco He] Ht].
    destruct (RegisterConnection_spec CompletionDispatcher.CompletionDispatcher_new (sp_map spec_new) 0 1 1 Hco Ht)
      as (d & E & Hco' & Ht' & He'); [lia|lia|]. rewrite E. cbn [default].
    exists {| sp_map := <[0 := (1, 1)]> (sp_map spec_new); sp_err := (0, 0) |}. split_and!; [split; [exact Hco'|]|exact Ht'|].
    + exact (eq_sym He').
    + intros id [c [<- _]%lookup_singleton_Some]. cbn [sp_map]. rewrite lookup_insert_eq. by eexists.
Qed.

Lemma put_message_ok : Forall (is_u 8) put_message /\ Z.of_nat (length put_message) = 4112.
Proof.
  unfold put_message. split.
  - apply Forall_app. split; [|by apply Forall_replicate; unfold is_u; lia]. vm_compute. forall_compute.
  - by rewrite length_app, length_replicate.
Qed.

End example.

(** ** Properties *)

Section properties.
Import KVServer.

(** C2: On a working pool - one that keeps the contract of [BufferSource], as the
    LIFO policy does and the FIFO policy that [Initialize] configures does not
    ([configured_pool_serves_nothing]) - a request that arrives in a posted buffer
    is served as the specification says. From every state of the server's
    invariant [server_wf], for a message of 16 to 65680 bytes received from a
    client with a context, the code runs without undefined behaviour and keeps the
    invariant; the store afterwards is the specified map; the responses still
    under way are not written over. When the pool has a buffer left, the
    connection is connected and the device accepts requests, exactly one request
    is posted, whose buffer holds the specified response (status, size, key and
    the bytes of the value) and is tracked under its id. When the pool has none,
    nothing is sent - also for a PUT that has been stored. *)
Theorem server_answers {HW P} `{!Verbs HW, !BufferSource P} (s : KVServer HW P) wrid cx o pb msg :
  server_wf s [] -> WrId.GetOpcode wrid = RpcOpcode_u8 RECV ->
  conn_contexts_ s !! WrId.GetConnId wrid = Some cx -> deref s (WrId.GetConnId wrid) = Some o ->
  posted_recv_buffers_ s !! wrid = Some pb ->
  Forall (is_u 8) msg -> kv.RequestHeader_size <= Z.of_nat (length msg) <= kv.MAX_REQUEST_SIZE ->
  let spec := spec_process (KVStore.num_slots_ (store_ s)) (view (store_ s)) msg in
  exists s', server_step s (EvMessage wrid msg) = Some s' /\ server_wf s' []
    /\ view (store_ s') = spec.2 /\ KVStore.num_slots_ (store_ s') = KVStore.num_slots_ (store_ s)
    /\ sends_kept s s'
    /\ (~ has_room s -> posted (hw s') = posted (hw s) /\ posted_send_buffers_ s' = posted_send_buffers_ s)
    /\ (device_accepts (HW := HW) -> Connection.state_ o = CONNECTED -> has_room s ->
        answered s o spec.1 (response_seq cx msg) s').
Proof. apply message_spec. Qed.

Lemma example_has_room : has_room (example_server example_pool).
Proof. do 2 eexists. split; [reflexivity|]. vm_compute. reflexivity. Qed.

Lemma server_answers_witness :
  exists s', server_step (example_server example_pool) (EvMessage recv_wrid put_message) = Some s'
    /\ view (store_ s') = {[ 7 := replicate 4096 9 ]}
    /\ answered (example_server example_pool) client_connection
         (kv.ResponseHeader_bytes (kv.SetPutResponse 7 kv.OK)) 0 s'.
Proof.
  destruct put_message_ok as [Hu Hl].
  destruct (server_answers (example_server example_pool) recv_wrid
    {| conn := 0; requests_processed := 1; gets_processed := 1; puts_processed := 0 |} client_connection
    {| buf := recv_buffer; conn_id := 0 |} put_message example_server_wf) as (s' & E & _ & Hv & _ & _ & _ & Ha);
    [reflexivity|reflexivity|reflexivity|reflexivity|exact Hu|rewrite Hl; split; vm_compute; discriminate|].
  exists s'. split; [exact E|].
  destruct example_store_view as [Hv0 Hn0]. cbn [store_ example_server] in Hv, Ha. rewrite Hv0, Hn0 in Hv, Ha.
  assert (Es : spec_process 1 ∅ put_message
               = (kv.ResponseHeader_bytes (kv.SetPutResponse 7 kv.OK), {[ 7 := replicate 4096 9 ]}))
    by (vm_compute; reflexivity).
  rewrite Es in Hv, Ha. split; [exact Hv|].
  apply Ha; [intros h q wr; reflexivity|reflexivity|exact example_has_room].
Defined.

(** C29: With the pool configuration that [Initialize] chooses, no request is ever
    served: as long as the server has only allocated from that pool, completing
    any receive for a connected client - whatever the message - is undefined
    behaviour, since returning its buffer writes past the ring. *)
Theorem configured_pool_serves_nothing {HW} `{!Verbs HW} allocate reg pd memory mr :
  allocate false (-1) (kv.MAX_REQUEST_SIZE * 512) = memory -> reg memory (kv.MAX_REQUEST_SIZE * 512) = RVal mr ->
  0 < memory -> memory + kv.MAX_REQUEST_SIZE * 512 <= 2 ^ 64 ->
  exists p0, LocalBufferPool.Create allocate reg true (Some pd) bp_config = (RVal p0, [])
    /\ forall (s : KVServer HW LocalBufferPool.LocalBufferPool) wc cx pb,
         allocations p0 (buffer_pool_ s) -> wc_status wc = IBV_WC_SUCCESS ->
         WrId.GetOpcode (wc_wr_id wc) = RpcOpcode_u8 RECV ->
         conn_contexts_ s !! WrId.GetConnId (wc_wr_id wc) = Some cx ->
         posted_recv_buffers_ s !! wc_wr_id wc = Some pb ->
         HandleCompletion s wc = None.
Proof.
  intros Ha Hr Hm Hsp. change 512 with (LocalBufferPool.buffer_count bp_config) in *.
  change kv.MAX_REQUEST_SIZE with (LocalBufferPool.buffer_size bp_config) in *.
  destruct (Create_fifo allocate reg pd bp_config memory mr Ha Hr) as (p0 & E & Hring & Ht & _ & _ & _ & Hp);
    [|done|]. { split_and!; [done|done|done|vm_compute; congruence|done|]. by rewrite Z.mul_comm. }
  exists p0. split; [exact E|]. intros s wc cx pb Hal Hs Hop Hcx Hpb.
  assert (Hpast : past_ring p0) by (split; [done|by rewrite Ht]).
  unfold HandleCompletion. rewrite Hs, Hop. cbn [negb]. rewrite Z.eqb_refl. cbn [negb]. rewrite Z.eqb_refl.
  unfold HandleRequest. rewrite Hcx, Hpb. destruct (_ <? _).
  - unfold free. cbn [buffer_pool_ set_buffers bs_free LocalBufferPool_source].
    by rewrite (past_ring_free _ _ (past_ring_allocations _ _ Hpast Hal)).
  - match goal with |- context [ProcessRequest ?s1 _ _ _ _] => destruct (ProcessRequest s1 (conn cx) (buf pb) (wc_byte_len wc)
      (WrId.GetConnId (wc_wr_id wc))) as [s2|] eqn:E2; [|done] end. sbind.
    apply ProcessRequest_pool in E2. unfold free. cbn [bs_free LocalBufferPool_source].
    by rewrite (past_ring_free _ _ (past_ring_allocations _ _ (past_ring_allocations _ _ Hpast Hal) E2)).
Qed.

Lemma configured_pool_serves_nothing_witness :
  exists p0, LocalBufferPool.Create (fun _ _ _ => 65536) example_register true (Some tt) bp_config = (RVal p0, [])
    /\ HandleCompletion (example_server p0) (recv_completion recv_wrid put_message) = None.
Proof.
  destruct (configured_pool_serves_nothing (HW := ibv_qp_state * list ibv_send_wr) (fun _ _ _ => 65536) example_register tt 65536
    {| MemoryRegion.mr_ := Some (7, 8); MemoryRegion.addr_ := 65536; MemoryRegion.size_ := 33628160 |}) as (p0 & E & H);
    [reflexivity|reflexivity|lia|vm_compute; discriminate|].
  exists p0. split; [exact E|]. apply (H _ _ {| conn := 0; requests_processed := 1; gets_processed := 1; puts_processed := 0 |}
    {| buf := recv_buffer; conn_id := 0 |}); [apply rtc_refl|reflexivity..].
Defined.

(** C30: The ids of responses collide, on a working pool as in [server_wf]. A GET and a PUT number their responses by
    different counters, so a request whose response gets the id of one still
    under way takes its entry over: the earlier buffer is no longer tracked and
    never freed, and the completion of the earlier response frees the buffer of
    the later one, which the device may still be reading. *)
Theorem response_ids_collide {HW P} `{!Verbs HW, !BufferSource P} (s : KVServer HW P) wrid cx o pb msg b :
  server_wf s [] -> WrId.GetOpcode wrid = RpcOpcode_u8 RECV ->
  conn_contexts_ s !! WrId.GetConnId wrid = Some cx -> deref s (WrId.GetConnId wrid) = Some o ->
  posted_recv_buffers_ s !! wrid = Some pb ->
  Forall (is_u 8) msg -> kv.RequestHeader_size <= Z.of_nat (length msg) <= kv.MAX_REQUEST_SIZE ->
  device_accepts (HW := HW) -> Connection.state_ o = CONNECTED -> has_room s ->
  posted_send_buffers_ s !! response_wrid o (response_seq cx msg) = Some b ->
  exists s' b' len, server_step s (EvMessage wrid msg) = Some s'
    /\ posted (hw s') = posted (hw s) ++ [response_wr o b' len (response_wrid o (response_seq cx msg))]
    /\ posted_send_buffers_ s' = <[response_wrid o (response_seq cx msg) := b']> (posted_send_buffers_ s)
    /\ (forall x, covers b x -> ~ covers b' x)
    /\ forall byte_len imm, exists s'',
         HandleCompletion s' {| wc_wr_id := response_wrid o (response_seq cx msg); wc_status := IBV_WC_SUCCESS;
                                wc_byte_len := byte_len; wc_imm_data := imm |} = Some s''
         /\ bs_free (buffer_pool_ s') b' = Some (buffer_pool_ s'')
         /\ posted_send_buffers_ s'' = delete (response_wrid o (response_seq cx msg)) (posted_send_buffers_ s).
Proof.
  intros Hw Hop Hcx Ho Hpb Hu Hl Hacc Hc Hroom Hb.
  destruct (message_spec s wrid cx o pb msg Hw Hop Hcx Ho Hpb Hu Hl) as (s' & E & Hw' & _ & _ & _ & _ & Ha).
  destruct (Ha Hacc Hc Hroom) as (b' & _ & Hsend & Hd & Hp).
  exists s', b'. eexists. split_and!; [exact E|exact Hp|exact Hsend| |].
  { intros x. apply Hd. unfold send_bufs. apply list_elem_of_fmap. exists (response_wrid o (response_seq cx msg), b).
    split; [done|]. by apply elem_of_map_to_list. }
  intros byte_len imm. unfold HandleCompletion. cbn [wc_status wc_wr_id]. rewrite Z.eqb_refl. cbn [negb].
  destruct (context_conn _ _ _ _ Hw Hcx) as (_ & Hid & _). rewrite <- (server_ids_ok _ _ Hw _ _ Ho) in Hid.
  assert (Hopc : WrId.GetOpcode (response_wrid o (response_seq cx msg)) = RpcOpcode_u8 REQUEST_SEND)
    by (unfold response_wrid; apply WrId_GetOpcode_Encode; [exact Hid|split; done|apply (wrap_range 32); lia]).
  rewrite Hopc. cbn [RpcOpcode_u8 Z.eqb Pos.eqb].
  assert (Hb' : posted_send_buffers_ s' !! response_wrid o (response_seq cx msg) = Some b')
    by (rewrite Hsend; apply lookup_insert_eq).
  rewrite Hb'. destruct (free_wf _ _ _ (untrack_send_wf s' [] _ b' Hw' Hb')) as (p & Ef & _).
  cbn [buffer_pool_ set_buffers] in Ef. unfold free. rewrite Ef. sbind.
  eexists. split; [reflexivity|]. split; [done|]. cbn [posted_send_buffers_ set_buffers]. rewrite Hsend.
  apply delete_insert_eq.
Qed.

Lemma response_ids_collide_witness :
  exists s' b' len, server_step (example_server example_pool) (EvMessage recv_wrid put_message) = Some s'
    /\ posted (hw s') = [response_wr client_connection b' len (response_wrid client_connection 0)]
    /\ posted_send_buffers_ s' = {[ response_wrid client_connection 0 := b' ]} /\ b' <> send_buffer.
Proof.
  destruct put_message_ok as [Hu Hl].
  destruct (response_ids_collide (example_server example_pool) recv_wrid
    {| conn := 0; requests_processed := 1; gets_processed := 1; puts_processed := 0 |} client_connection
    {| buf := recv_buffer; conn_id := 0 |} put_message send_buffer example_server_wf)
    as (s' & b' & len & E & Hp & Hs & Hd & _);
    [reflexivity|reflexivity|reflexivity|reflexivity|exact Hu|rewrite Hl; split; vm_compute; discriminate
    |intros h q wr; reflexivity|reflexivity|exact example_has_room|reflexivity|].
  exists s', b', len. split; [exact E|]. split; [exact Hp|]. split.
  - rewrite Hs. apply insert_singleton_eq.
  - intros ->. apply (Hd 131216); split; vm_compute; congruence.
Defined.

End properties.
