(* ===== verification/KvServerLife.v ===== *)
(** * The life of the key-value server

    From [Initialize] through clients that come, talk and fail: the server's
    invariant in every reachable state, and what becomes of the buffers of a
    connection that is gone. *)

From S2P Require Import Prelude Types WrId KvProtocol KvStore Verbs CompletionDispatcher Buffer BufferPool Memory.
From S2P Require Import TimingWheel QueuePair Connection Handshake Reactor KvServer.

(** ** Specification *)

Section specification.
Import KVServer.
Context {HW P : Type} `{!Verbs HW, !BufferSource P}.

(** The life of a server: it accepts clients and handles completions. *)
Inductive server_life (self handler : Z) {OS : Type} `{!Sockets OS} : KVServer HW P -> KVServer HW P -> Prop :=
  | life_event s e s' : event_ok e -> server_step s e = Some s' -> server_life self handler s s'
  | life_accept pad1 pad2 pad3 n (os : OS) s srv r lp os' s' :
      (forall fuel, (n <= fuel)%nat ->
        AcceptConnections self handler pad1 pad2 pad3 fuel os s srv r lp = Some (os', s')) ->
      server_life self handler s s'.

(** What a step that only answers leaves alone. *)
Definition tracks_same (s s' : KVServer HW P) : Prop :=
  posted_recv_buffers_ s' = posted_recv_buffers_ s
  /\ (forall i, conn_contexts_ s !! i = None -> conn_contexts_ s' !! i = None)
  /\ (ids_ok s -> ids_ok s').

End specification.

(** The pool factory of the examples: [LocalBufferPool::Create] with the policy LIFO. *)
Definition example_factory : LocalBufferPool.BufferPoolConfig -> Result LocalBufferPool.LocalBufferPool :=
  lifo_pool (fun _ _ _ => 65536) example_register.

(** ** Lemmas *)

Section lemmas.
Import KVServer.
Context {HW P : Type} `{!Verbs HW, !BufferSource P}.
Implicit Types (s : KVServer HW P).

(** *** Accepting a client *)

Lemma create_connection_wf s r :
  server_wf s [] ->
  exists m res, ConnectionManager.CreateConnection (conn_manager_ s) r = Some (m, res)
    /\ server_wf (set_hw s (hw s) m) []
    /\ forall c, res = RVal c -> 0 <= c < 0xFFFF /\ conn_contexts_ s !! c = None
         /\ exists o, deref (set_hw s (hw s) m) c = Some o.
Proof.
  intros [H1 H2 H3 H4 H5 H6 H7].
  destruct (CreateConnection_spec (conn_manager_ s) r H6) as (m & res & -> & Hm & Hmax & Hres).
  exists m, res. split; [done|]. destruct res as [c|st].
  - destruct Hres as (o & -> & Hfree & _ & Hc). pose proof (aget_lt _ _ _ Hfree) as Hlt.
    pose proof (mi_len _ H6) as Hlen. pose proof (mi_max _ H6) as Hu. unfold is_u in Hu.
    assert (Hd : forall j, deref (set_hw s (hw s) m) j
                  = if decide (c = j) then Some (Connection.SetConnId o c) else deref s j).
    { intros j. unfold deref. cbn [conn_manager_ set_hw]. rewrite Hc, aget_insert by done. by destruct (decide (c = j)). }
    assert (Hn : conn_contexts_ s !! c = None).
    { apply eq_None_not_Some. intros [cx Hx]. destruct (H5 c cx Hx) as (_ & _ & o' & Ho' & _).
      apply deref_Some in Ho'. congruence. }
    split.
    + split; try done. intros j cx Hj. destruct (H5 j cx Hj) as (E1 & E2 & o' & E3 & E4). split_and!; [done|done|].
      exists o'. rewrite Hd, decide_False; [done|]. intros <-. cbn in Hj. congruence.
    + intros c' [= <-]. split; [lia|]. split; [done|]. eexists. by rewrite Hd, decide_True.
  - destruct Hres as [Hc _]. split; [|done]. split; try done. intros j cx Hj.
    destruct (H5 j cx Hj) as (E1 & E2 & o' & E3 & E4). split_and!; [done|done|]. exists o'. split; [|done].
    unfold deref in *. cbn [conn_manager_ set_hw]. by rewrite Hc.
Qed.

(** The new context of an accepted client, known to the dispatcher. *)
Lemma register_context_wf s id o cx x h :
  server_wf s [] -> 0 <= id < 0xFFFF -> deref s id = Some o -> conn cx = id -> h <> 0 ->
  exists d, CompletionDispatcher.RegisterConnection (dispatcher_ s) id x h = Some d
    /\ server_wf (set_dispatcher (set_contexts s (<[id := cx]> (conn_contexts_ s))) d) [].
Proof.
  intros [H1 H2 H3 H4 H5 H6 H7] Hid Ho Hcx Hh. destruct H7 as (sp & [Hco He] & Ht & Hsp).
  destruct (RegisterConnection_spec (dispatcher_ s) (sp_map sp) id x h Hco Ht Hid Hh) as (d & E & Hco' & Ht' & He').
  exists d. split; [done|]. split; try done.
  - intros j c. cbn [conn_contexts_ set_dispatcher set_contexts].
    intros [[<- <-]|[Hne Hj]]%lookup_insert_Some; [|by apply H5]. split_and!; [done|unfold is_u; lia|].
    exists o. split; [done|]. apply (mi_id _ H6). by apply deref_Some.
  - exists {| sp_map := <[id := (x, h)]> (sp_map sp); sp_err := sp_err sp |}. split_and!; [|done|].
    + split; [exact Hco'|]. cbn [sp_err dispatcher_ set_dispatcher]. congruence.
    + intros j. cbn [conn_contexts_ set_dispatcher set_contexts sp_map]. destruct (decide (j = id)) as [->|].
      * rewrite !lookup_insert_eq. intros _. by eexists.
      * rewrite !lookup_insert_ne by done. apply Hsp.
Qed.

Section accepting.
Context {OS : Type} `{!Sockets OS}.
Variables (self handler : Z) (pad1 : list Z) (pad2 : Z) (pad3 : list Z).

(** The exchange ends, with the connection in place or removed. *)
Lemma exchange_wf (os : OS) s ch c lp :
  server_wf s [] -> 0 <= c -> conn_contexts_ s !! c = None -> (exists o, deref s c = Some o) ->
  exists n os' h m ok, (forall fuel, (n <= fuel)%nat -> exchange pad1 pad2 pad3 fuel os s ch c lp = Some (os', set_hw s h m, ok))
    /\ server_wf (set_hw s h m) [] /\ (ok = true -> exists o, deref (set_hw s h m) c = Some o).
Proof.
  intros Hw Hc Hn [o Ho]. pose proof (server_ids_ok _ _ Hw c o Ho) as Hid.
  destruct (remove_connection_wf s [] c Hw Hc Hn) as (h0 & m0 & E0 & Hw0 & _).
  unfold exchange. rewrite Ho. sbind. rewrite Hid. destruct lp as [params|st].
  2:{ exists O. do 4 eexists. split; [intros fuel _; rewrite E0; reflexivity|]. split; [done|discriminate]. }
  set (msg := HandshakeMessage.bytes _ _ _ _).
  destruct (Send_total os ch msg) as (os1 & st1 & E1).
  destruct (Receive_total os1 ch) as (os2 & st2 & data & E2).
  exists (Nat.max (length msg + stalls os) (128 + stalls os1)).
  destruct (status_ok st1) eqn:Hs1.
  2:{ exists os1, h0, m0, false. split; [|split; [done|discriminate]]. intros fuel Hf.
      rewrite E1 by lia. sbind. rewrite Hs1. cbn [negb]. by rewrite E0. }
  destruct (status_ok st2) eqn:Hs2.
  2:{ exists os2, h0, m0, false. split; [|split; [done|discriminate]]. intros fuel Hf.
      rewrite E1 by lia. sbind. rewrite Hs1. cbn [negb]. rewrite E2 by lia. sbind. rewrite Hs2. cbn [negb]. by rewrite E0. }
  pose proof (Connect_conn_id (hw s) o (HandshakeMessage.qp_params (HandshakeMessage.of_bytes data))) as Hid'.
  destruct (Connection.Connect (hw s) o (HandshakeMessage.qp_params (HandshakeMessage.of_bytes data))) as [[h o'] st3] eqn:E3.
  cbn [fst snd] in Hid'. destruct (set_connection_wf s [] h c o o' Hw Ho Hid') as (l & El & Hw1).
  destruct (remove_connection_wf _ [] c Hw1 Hc Hn) as (h4 & m4 & E4 & Hw4 & _).
  destruct (status_ok st3) eqn:Hs3.
  - exists os2, h, (set_connections (conn_manager_ s) l), true. split_and!; [|done|].
    + intros fuel Hf. rewrite E1 by lia. sbind. rewrite Hs1. cbn [negb]. rewrite E2 by lia. sbind. rewrite Hs2. cbn [negb].
      rewrite E3, El. sbind. by rewrite Hs3.
    + intros _. exists o'. apply aset_inv in El as [_ ->]. rewrite deref_set by (done || by rewrite Ho).
      by rewrite decide_True.
  - exists os2, h4, m4, false. split; [|split; [exact Hw4|discriminate]].
    intros fuel Hf. rewrite E1 by lia. sbind. rewrite Hs1. cbn [negb]. rewrite E2 by lia. sbind. rewrite Hs2. cbn [negb].
    rewrite E3, El. sbind. rewrite Hs3. cbn [negb]. by rewrite E4.
Qed.

Lemma AcceptConnections_wf (os : OS) s srv r lp :
  server_wf s [] -> handler <> 0 ->
  exists n os' s', (forall fuel, (n <= fuel)%nat ->
      AcceptConnections self handler pad1 pad2 pad3 fuel os s srv r lp = Some (os', s')) /\ server_wf s' [].
Proof.
  intros Hw Hh. unfold AcceptConnections.
  destruct (TcpHandshakeServer.Accept os srv 0) as [os1 [ch|st]]; [|by exists O, os1, s].
  destruct (create_connection_wf s r Hw) as (m & res & -> & Hw1 & Hres). sbind.
  destruct res as [c|st]; [|by exists O; do 2 eexists].
  destruct (Hres c eq_refl) as (Hc & Hn & Hd).
  destruct (exchange_wf os1 (set_hw s (hw s) m) ch c lp Hw1 ltac:(lia) Hn Hd) as (n & os2 & h & m2 & ok & E & Hw2 & Hok).
  exists n. destruct ok.
  2:{ do 2 eexists. split; [|exact Hw2]. intros fuel Hf. by rewrite E. }
  destruct (Hok eq_refl) as [o Ho]. pose proof (server_ids_ok _ _ Hw2 c o Ho) as Hid.
  destruct (register_context_wf _ c o {| conn := c; requests_processed := 0; gets_processed := 0; puts_processed := 0 |}
    self handler Hw2 Hc Ho eq_refl Hh) as (d & Ed & Hw3).
  destruct (PostRecvBuffers_wf _ [] c o 32 Hw3 Ho) as (h3 & p3 & recvs & E3 & Hw4 & _).
  do 2 eexists. split; [|exact Hw4]. intros fuel Hf. rewrite E by done. sbind. rewrite Ho. sbind. rewrite Hid.
  cbn [dispatcher_ conn_contexts_ set_contexts set_hw] in Ed |- *. rewrite Ed. sbind.
  cbn [dispatcher_ conn_contexts_ set_contexts set_hw] in E3. by rewrite E3.
Qed.

(** Accepting leaves no descriptor behind. *)
Lemma exchange_fds fuel (os : OS) s ch c lp os' s' ok :
  exchange pad1 pad2 pad3 fuel os s ch c lp = Some (os', s', ok) -> open_fds os' = open_fds os.
Proof.
  unfold exchange. intros (o & _ & E)%bind_Some.
  assert (Hfail : forall os1 s1, (s ← remove_connection s1 (Connection.conn_id_ o); Some (os1, s, false)) = Some (os', s', ok) ->
    os' = os1) by (intros os1 s1 (s2 & _ & [= <- _ _])%bind_Some; done).
  destruct lp as [params|st]; [|by apply Hfail in E as ->].
  apply bind_Some in E as ([os1 st1] & E1 & E). apply Send_fds in E1.
  destruct (negb _); [by apply Hfail in E as ->|].
  apply bind_Some in E as ([[os2 st2] data] & E2 & E). apply Receive_fds in E2.
  destruct (negb _); [apply Hfail in E as ->; congruence|].
  destruct (Connection.Connect _ _ _) as [[h o'] st3]. apply bind_Some in E as (l & _ & E).
  destruct (negb _); [apply Hfail in E as ->; congruence|]. injection E as <- _ _. congruence.
Qed.

Lemma AcceptConnections_fds fuel (os : OS) s srv r lp os' s' :
  AcceptConnections self handler pad1 pad2 pad3 fuel os s srv r lp = Some (os', s') -> open_fds os' = open_fds os.
Proof.
  unfold AcceptConnections. pose proof (Accept_opens os (TcpHandshakeServer.listen_fd_ srv) 0) as Ha.
  unfold TcpHandshakeServer.Accept. destruct (TcpHandshakeChannel.Accept _ _ _) as [os1 [ch|st]]; [|by intros [= <- _]].
  destruct Ha as (Hfd & Hnew & Hopen).
  assert (Hclose : forall os2, open_fds os2 = open_fds os1 -> open_fds (TcpHandshakeChannel.Close os2 ch).1 = open_fds os)
    by (intros os2 E; rewrite Close_fds, E, Hopen by done; set_solver).
  intros ([m res] & _ & E)%bind_Some. destruct res as [c|st]; [|injection E as <- _; by apply Hclose].
  apply bind_Some in E as ([[os2 s2] ok] & E2 & E). apply exchange_fds in E2.
  destruct ok; [|injection E as <- _; by apply Hclose].
  apply bind_Some in E as (o & _ & E). apply bind_Some in E as (d & _ & E). apply bind_Some in E as (s3 & _ & E).
  injection E as <- _. by apply Hclose.
Qed.

End accepting.

(** *** Buffers of a connection that is gone *)

Lemma count_in_same s i f s' : count_in s i f = Some s' -> tracks_same s s'.
Proof.
  unfold count_in. intros E. run_steps. split_and!; [done| |done]. intros j Hj. cbn [conn_contexts_ set_contexts].
  rewrite lookup_insert_ne by congruence. done.
Qed.

Lemma conn_send_same s c b wrid s' : conn_send s c b wrid = Some s' -> tracks_same s s'.
Proof.
  unfold conn_send. intros (o & Ho & E)%bind_Some.
  destruct (Send_spec (hw s) o b wrid) as (h & o' & st & ES & Hid & _). rewrite ES in E.
  apply bind_Some in E as (l & [_ ->]%aset_inv & [= <-]).
  split_and!; [done|done|]. intros Hids j oj. rewrite deref_set; [|done|by rewrite Ho].
  destruct (decide (c = j)) as [<-|]; [|by apply Hids]. intros [= <-]. rewrite Hid. by apply Hids.
Qed.

Lemma respond_same s c b len seq s' : respond s c b len seq = Some s' -> tracks_same s s'.
Proof. unfold respond. intros (o & _ & E)%bind_Some. exact (conn_send_same _ _ _ _ _ E). Qed.

Lemma write_response_same s b r s' : write_response s b r = Some s' -> tracks_same s s'.
Proof. unfold write_response. intros E. by run_steps. Qed.

Lemma allocate_same s s' b : allocate s = Some (s', b) -> tracks_same s s'.
Proof. unfold allocate. intros E. by run_steps. Qed.

Lemma store_put_same s b h off s' st : store_put s b h off = Some (s', st) -> tracks_same s s'.
Proof. unfold store_put. intros E. by run_steps. Qed.

(** Run the code in the hypotheses and chain what each step keeps. *)
Ltac tracks :=
  intros; run_steps;
  repeat match goal with
    | H : count_in _ _ _ = Some _ |- _ => apply count_in_same in H
    | H : respond _ _ _ _ _ = Some _ |- _ => apply respond_same in H
    | H : write_response _ _ _ = Some _ |- _ => apply write_response_same in H
    | H : allocate _ = Some _ |- _ => apply allocate_same in H
    | H : store_put _ _ _ _ = Some _ |- _ => apply store_put_same in H
    end;
  unfold tracks_same in *; cbn [posted_recv_buffers_ conn_contexts_ set_mem] in *; destruct_and?; (split_and!; [congruence|solve [auto 8]..]).

Lemma SendErrorResponse_same s c k st s' : SendErrorResponse s c k st = Some s' -> tracks_same s s'.
Proof. unfold SendErrorResponse. tracks. Qed.

Lemma ProcessGet_same s c rb i s' : ProcessGet s c rb i = Some s' -> tracks_same s s'.
Proof. unfold ProcessGet. tracks. Qed.

Lemma ProcessPut_same s c rb len i s' : ProcessPut s c rb len i = Some s' -> tracks_same s s'.
Proof. unfold ProcessPut. tracks. Qed.

Lemma ProcessRequest_same s c rb len i s' : ProcessRequest s c rb len i = Some s' -> tracks_same s s'.
Proof.
  unfold ProcessRequest. intros E.
  run_steps; eauto using SendErrorResponse_same, ProcessGet_same, ProcessPut_same.
Qed.

(** Posting for [c] adds entries under ids of [c] only. *)
Lemma PostRecvBuffers_same s c n s' :
  ids_ok s -> is_u 16 c -> PostRecvBuffers s c n = Some s' ->
  conn_contexts_ s' = conn_contexts_ s
  /\ forall k, WrId.GetConnId k <> c -> posted_recv_buffers_ s' !! k = posted_recv_buffers_ s !! k.
Proof.
  intros Hids Hc. revert s Hids. induction n as [|n IH]; intros s Hids; cbn [PostRecvBuffers]; [by intros [= <-]|].
  intros (s1 & E1 & E2)%bind_Some.
  assert (H : ids_ok s1 /\ conn_contexts_ s1 = conn_contexts_ s
    /\ forall k, WrId.GetConnId k <> c -> posted_recv_buffers_ s1 !! k = posted_recv_buffers_ s !! k).
  { unfold PostRecvBuffer, allocate in E1. apply bind_Some in E1 as ([s0 b] & E0 & E1).
    apply bind_Some in E0 as ([p b'] & _ & [= <- <-]). rename b' into b.
    destruct (Buffer.IsValid b); [|by injection E1 as <-].
    apply bind_Some in E1 as (o & Ho & E1). destruct (Connection.PostRecv _ _ _ _) as [h st]. injection E1 as <-.
    split_and!; [done|done|]. intros k Hk. cbn [posted_recv_buffers_ set_hw track_recv set_buffers].
    apply lookup_insert_ne. intros <-. apply Hk.
    rewrite (Hids c o Ho). apply WrId_GetConnId_Encode; [done|done|]. apply wrap_range. lia. }
  destruct H as (Hids1 & H1 & H2). destruct (IH s1 Hids1 E2) as [H3 H4].
  split; [congruence|]. intros k Hk. by rewrite H4, H2.
Qed.

(** A request of another connection leaves the entries of [id] alone. *)
Lemma HandleRequest_same s id0 id wc s' :
  server_wf s [] -> conn_contexts_ s !! id = None -> WrId.GetConnId (wc_wr_id wc) = id0 ->
  HandleRequest s id0 wc = Some s' ->
  conn_contexts_ s' !! id = None
  /\ forall k, WrId.GetConnId k = id -> posted_recv_buffers_ s' !! k = posted_recv_buffers_ s !! k.
Proof.
  intros Hw Hn Hid E. unfold HandleRequest in E.
  destruct (conn_contexts_ s !! id0) as [cx|] eqn:Hcx; [|by injection E as <-].
  destruct (posted_recv_buffers_ s !! wc_wr_id wc) as [pb|]; [|by injection E as <-].
  destruct (context_conn _ _ _ _ Hw Hcx) as (Ec & Hu & _). rewrite Ec in E.
  assert (Hne : id <> id0) by congruence. pose proof (server_ids_ok _ _ Hw) as Hids.
  match type of E with context [set_buffers s ?p ?r ?q] => set (s1 := set_buffers s p r q) in E end.
  assert (Hdel : forall k, WrId.GetConnId k = id -> posted_recv_buffers_ s1 !! k = posted_recv_buffers_ s !! k).
  { intros k Hk. cbn [s1 posted_recv_buffers_ set_buffers]. apply lookup_delete_ne. congruence. }
  assert (Hpost : forall s2 s3, tracks_same s1 s2 -> PostRecvBuffers s2 id0 1 = Some s3 ->
    conn_contexts_ s3 !! id = None
    /\ forall k, WrId.GetConnId k = id -> posted_recv_buffers_ s3 !! k = posted_recv_buffers_ s !! k).
  { intros s2 s3 (T1 & T2 & T3) E3. destruct (PostRecvBuffers_same s2 id0 1 s3 (T3 Hids) Hu E3) as [Ecx Hr].
    rewrite Ecx. split; [by apply T2|]. intros k Hk. by rewrite Hr, T1, Hdel by congruence. }
  destruct (_ <? _).
  - apply bind_Some in E as (s2 & Ef & E). unfold free in Ef. apply bind_Some in Ef as (p & _ & [= <-]).
    by eapply Hpost; [|exact E].
  - apply bind_Some in E as (s2 & EP & E). apply ProcessRequest_same in EP.
    apply bind_Some in E as (s3 & Ef & E). unfold free in Ef. apply bind_Some in Ef as (p & _ & [= <-]).
    apply bind_Some in E as (s4 & E4 & E). eapply Hpost in E4 as [H1 H2]; [|exact EP].
    apply count_in_same in E as (T1 & T2 & _). split; [by apply T2|]. intros k Hk. by rewrite T1, H2.
Qed.

(** The handlers leave the entries of a connection without context alone. *)
Lemma HandleCompletion_same s wc id s' :
  server_wf s [] -> conn_contexts_ s !! id = None -> HandleCompletion s wc = Some s' ->
  conn_contexts_ s' !! id = None
  /\ forall k, WrId.GetConnId k = id -> posted_recv_buffers_ s' !! k = posted_recv_buffers_ s !! k.
Proof.
  intros Hw Hn E. destruct (decide (WrId.GetOpcode (wc_wr_id wc) = RpcOpcode_u8 RECV)) as [Hop|Hop].
  - unfold HandleCompletion in E. destruct (negb _); [by injection E as <-|]. rewrite Hop, Z.eqb_refl in E.
    exact (HandleRequest_same s (WrId.GetConnId (wc_wr_id wc)) id wc s' Hw Hn eq_refl E).
  - destruct (HandleCompletion_other s wc Hw Hop) as (s2 & E2 & _ & T1 & T2).
    rewrite E2 in E. injection E as ->. by rewrite T1, T2.
Qed.

(** No event brings back a receive buffer posted for a connection without context. *)
Lemma server_step_same s e id s' :
  server_wf s [] -> event_ok e -> conn_contexts_ s !! id = None -> server_step s e = Some s' ->
  conn_contexts_ s' !! id = None
  /\ forall k, WrId.GetConnId k = id -> posted_recv_buffers_ s' !! k = posted_recv_buffers_ s !! k.
Proof.
  intros Hw He Hn E.
  assert (exists s1 wc, server_wf s1 [] /\ complete s1 wc = Some s' /\ conn_contexts_ s1 = conn_contexts_ s
    /\ posted_recv_buffers_ s1 = posted_recv_buffers_ s
    /\ (wc_status wc = IBV_WC_SUCCESS -> WrId.GetConnId (wc_wr_id wc) <> 0xFFFF)) as (s1 & wc & Hw1 & E1 & Hc1 & Hp1 & Hne).
  { destruct e as [wrid msg|wc]; cbn [server_step event_ok] in *.
    - destruct He as (_ & Hl & Hne). destruct (receive_wf s wrid msg Hw Hl) as (m & Em & Hwm & _). rewrite Em in E.
      exists (set_mem s m), (recv_completion wrid msg). by split_and!.
    - exists s, wc. split_and!; [done..|]. by intros []%He. }
  rewrite <- Hc1 in Hn. rewrite <- Hp1. clear E Hc1 Hp1 Hw He. unfold complete in E1.
  destruct (complete_dispatch s1 [] wc Hw1 Hne) as (d & evs & Ed & Hwd & Hev). rewrite Ed in E1.
  cbn [mbind option_bind] in E1.
  assert (forall h x, on_events (set_dispatcher s1 d) [CompletionDispatcher.ECall h x wc] = Some s' ->
    conn_contexts_ s' !! id = None
    /\ forall k, WrId.GetConnId k = id -> posted_recv_buffers_ s' !! k = posted_recv_buffers_ s1 !! k) as Hcall.
  { intros h x (s2 & E2 & [= <-])%bind_Some. exact (HandleCompletion_same _ wc id s2 Hwd Hn E2). }
  destruct (decide _) as [Hs|Hs].
  - destruct Hev as [(h & x & ->)|[-> _]]; [by eapply Hcall|]. cbn [on_events] in E1. by injection E1 as <-.
  - destruct Hev as [->|(h & x & ->)]; [cbn [on_events] in E1; by injection E1 as <-|]. cbn [on_events on_event] in E1.
    destruct (OnError_wf _ (WrId.GetConnId (wc_wr_id wc)) (wc_status wc) Hwd) as (h' & m & E2 & _).
    { apply (wrap_range 16). lia. }
    rewrite E2 in E1. cbn [mbind option_bind] in E1. apply (inj Some) in E1. subst s'. cbn [conn_contexts_ posted_recv_buffers_ set_hw set_contexts set_dispatcher].
    split; [|done]. apply lookup_delete_None. by right.
Qed.

Lemma server_run_same s es id s' :
  server_wf s [] -> Forall event_ok es -> conn_contexts_ s !! id = None -> server_run s es = Some s' ->
  forall k, WrId.GetConnId k = id -> posted_recv_buffers_ s' !! k = posted_recv_buffers_ s !! k.
Proof.
  intros Hw Hes. revert s Hw. induction Hes as [|e es He _ IH]; intros s Hw Hn; cbn [server_run]; [by intros [= <-]|].
  intros (s1 & E1 & E2)%bind_Some k Hk.
  destruct (server_step_same s e id s1 Hw He Hn E1) as [Hn1 H1].
  destruct (server_step_wf s e Hw He) as (s2 & E2' & Hw2). rewrite E2' in E1; injection E1 as ->.
  rewrite (IH s1 Hw2 Hn1 E2 k Hk). by apply H1.
Qed.

(** *** From the start on *)

Lemma store_config_ok : KvStore.config_ok store_config.
Proof. split; [done|]. split; [split; done|]. split; [split; vm_compute; discriminate|by left]. Qed.

(** A factory has made what it was asked for. *)
Definition made {A} (r : Result A) : bool := match r with RVal _ => true | RErr _ => false end.

(** What [Initialize] makes of its socket. *)
Definition listening {OS} `{!Sockets OS} (os : OS) (port : Z) (srv : KVServer HW P * Reactor.Reactor)
    : OS * option (KVServer HW P * Reactor.Reactor * TcpHandshakeServer.TcpHandshakeServer) :=
  match TcpHandshakeServer.Create os "" port 128 with
  | (os, RVal server) => (os, Some (srv, server))
  | (os, RErr _) => (os, None)
  end.

Lemma Initialize_wf {OS} `{!Sockets OS} (os : OS) port (h : HW) m alloc device pd send_cq recv_cq
    (create_pool : LocalBufferPool.BufferPoolConfig -> Result P) pool self eh disp :
  alloc_ok alloc (KVStore.total_storage_size store_config) -> working_pool create_pool bp_config ->
  create_pool bp_config = RVal pool ->
  exists s r, Initialize os port h m alloc true (RVal device) (RVal pd) (RVal send_cq) (RVal recv_cq) create_pool self eh disp
      = Some (listening os port (s, r))
    /\ server_wf s [] /\ core_ok r [] (sw_new TimingWheel.kMaxEntries)
    /\ view (store_ s) = ∅ /\ buffer_pool_ s = pool /\ conn_contexts_ s = ∅.
Proof.
  intros Ha Hw Epool. destruct (Hw pool Epool) as [Hp Hs]. clear Hw. unfold Initialize, listening.
  destruct (Initialize_spec alloc store_config store_config_ok Ha) as (st & -> & Hi & Hv & _ & Hc).
  sbind. cbn [negb]. rewrite Epool. destruct (Create_inv pd send_cq recv_cq max_connections) as (mg & Em & Hm & _); [split; vm_compute; congruence|]. rewrite Em.
  destruct (Reactor.Create true reactor_config) as [r|] eqn:Er; [|done].
  do 2 eexists. split; [reflexivity|]. split; [split; cbn [store_ buffer_pool_ conn_contexts_ conn_manager_ dispatcher_]|].
  - exact Hi.
  - by rewrite Hc.
  - exists [], []. by split.
  - exact Hs.
  - intros id c. by rewrite lookup_empty.
  - exact Hm.
  - destruct represents_new as [[Hco He] Ht]. exists {| sp_map := ∅; sp_err := (self, eh) |}. split_and!; [|exact Ht|].
    + split; [|done]. by destruct Hco.
    + intros id. rewrite lookup_empty. by intros [].
  - split; [|done]. apply RegisterCQ_core, RegisterCQ_core, (Create_core reactor_config); [|done].
    repeat split; vm_compute; congruence.
Qed.

Definition initialized {OS} `{!Sockets OS} (os os' : OS)
    (x : option (KVServer HW P * Reactor.Reactor * TcpHandshakeServer.TcpHandshakeServer)) : Prop :=
  match x with
  | None => open_fds os' = open_fds os
  | Some (s, r, server) =>
      server_wf s [] /\ core_ok r [] (sw_new TimingWheel.kMaxEntries)
      /\ opens_one os TcpHandshakeServer.listen_fd_ (os', RVal server)
  end.

(** The memory allocator gives, if anything, a block of the size asked for. *)
Definition alloc_sized (alloc : Z -> option (list Z)) (n : Z) : Prop :=
  forall block, alloc n = Some block -> Z.of_nat (length block) = n.

Lemma alloc_ok_sized alloc n : alloc_ok alloc n -> alloc_sized alloc n.
Proof. by intros (block & E & Hl) block' E'; simplify_eq. Qed.

Lemma Initialize_no_memory alloc :
  alloc (KVStore.total_storage_size store_config) = None ->
  exists st, KVStore.Initialize alloc (KVStore.KVStore_default store_config) store_config = Some (false, st).
Proof.
  intros Ha. unfold KVStore.Initialize.
  replace (KVStore.slot_size store_config =? 0) with false by reflexivity. cbv zeta.
  replace (KVStore.total_storage_size store_config / KVStore.slot_size store_config =? 0) with false by reflexivity.
  rewrite Ha. by eexists.
Qed.

(** Everything [Initialize] asks for is there. *)
Definition all_made {OS} `{!Sockets OS} (os : OS) port (alloc : Z -> option (list Z)) (wc_buffer : bool)
    (device pd send_cq recv_cq : Result Z) (create_pool : LocalBufferPool.BufferPoolConfig -> Result P) : bool :=
  bool_decide (is_Some (alloc (KVStore.total_storage_size store_config))) && wc_buffer
  && made device && made pd && made send_cq && made recv_cq && made (create_pool bp_config)
  && made (TcpHandshakeServer.Create os "" port 128).2.

(** Whatever its factories give, [Initialize] returns; when it fails it leaves no
    descriptor open, otherwise the one it listens on. *)
Lemma Initialize_total {OS} `{!Sockets OS} (os : OS) port (h : HW) m alloc wc_buffer device pd send_cq recv_cq
    (create_pool : LocalBufferPool.BufferPoolConfig -> Result P) self eh disp :
  alloc_sized alloc (KVStore.total_storage_size store_config) -> working_pool create_pool bp_config ->
  exists os' x, Initialize os port h m alloc wc_buffer device pd send_cq recv_cq create_pool self eh disp = Some (os', x)
    /\ initialized os os' x
    /\ (is_Some x <-> all_made os port alloc wc_buffer device pd send_cq recv_cq create_pool = true).
Proof.
  intros Ha Hp. assert (Hno : exists os' x, Some (os, None) = Some (os', x) /\ initialized os os' x /\ (is_Some x <-> false = true)).
  { exists os, None. split; [done|]. split; [done|]. split; [by intros []|done]. }
  unfold all_made. destruct (alloc (KVStore.total_storage_size store_config)) as [block|] eqn:Eb.
  2:{ unfold Initialize. destruct (Initialize_no_memory alloc Eb) as (st & ->). exact Hno. }
  assert (Hok : alloc_ok alloc (KVStore.total_storage_size store_config)) by (exists block; split; [done|by apply Ha]).
  rewrite bool_decide_true by done. destruct wc_buffer; cbn [andb].
  - destruct device as [device|], pd as [pd|], send_cq as [sq|], recv_cq as [rq|], (create_pool bp_config) as [pool|] eqn:Epool.
    2-32: unfold Initialize; destruct (Initialize_spec alloc store_config store_config_ok Hok) as (st & -> & _); sbind;
      rewrite ?Epool; exact Hno.
    clear Hno.
    destruct (Initialize_wf os port h m alloc device pd sq rq create_pool pool self eh disp Hok Hp Epool)
      as (s & r & -> & Hw & Hr & _).
    pose proof (server_opens os "" port 128) as Ho. unfold listening.
    destruct (TcpHandshakeServer.Create os "" port 128) as [os1 [srv|st]]; cbn.
    + by exists os1, (Some (s, r, srv)).
    + exists os1, None. split; [done|]. split; [done|]. split; [by intros []|done].
  - unfold Initialize. destruct (Initialize_spec alloc store_config store_config_ok Hok) as (st & -> & _). sbind.
    destruct device, pd, send_cq, recv_cq, (create_pool bp_config); exact Hno.
Qed.

Lemma server_life_wf self handler {OS : Type} `{!Sockets OS} s s' :
  handler <> 0 -> server_wf s [] -> rtc (server_life self handler (OS := OS)) s s' -> server_wf s' [].
Proof.
  intros Hh Hw Hs. induction Hs as [s|s s1 s' H1 _ IH]; [done|]. apply IH. destruct H1 as [s e s1 He E|??? n os s srv r lp os1 s1 E].
  - destruct (server_step_wf s e Hw He) as (s2 & E2 & Hw2). rewrite E in E2. apply (inj Some) in E2. by subst s2.
  - destruct (AcceptConnections_wf self handler pad1 pad2 pad3 os s srv r lp Hw Hh) as (n' & os2 & s2 & E2 & Hw2).
    specialize (E (Nat.max n n') ltac:(lia)). rewrite E2 in E by lia. apply (inj Some) in E. by simplify_eq.
Qed.

End lemmas.

Lemma example_factory_works config :
  BufferPool.config_ok config 65536 -> LocalBufferPool.buffer_size config < 2 ^ 32 ->
  working_pool example_factory config /\ exists p, example_factory config = RVal p.
Proof.
  intros Hok Hs.
  assert (Hr : exists mr, example_register 65536 (LocalBufferPool.buffer_size config * LocalBufferPool.buffer_count config) = RVal mr).
  { destruct Hok as (? & ? & _). unfold example_register, MemoryRegion.Register. cbn [Z.eqb orb].
    rewrite (proj2 (Z.eqb_neq _ 0)) by nia. by eexists. }
  destruct Hr as [mr Hr]. split; [by eapply lifo_pool_works|].
  destruct (lifo_pool_made (fun _ _ _ => 65536) example_register config 65536 mr eq_refl Hr Hok) as (p & E & _). by exists p.
Qed.

Lemma server_factory_works :
  working_pool example_factory KVServer.bp_config /\ exists p, example_factory KVServer.bp_config = RVal p.
Proof. apply example_factory_works; [repeat split; vm_compute; congruence|reflexivity]. Qed.

(** ** Properties *)

Section properties.
Import KVServer.

(** C9: The server never gets stuck. From what [Initialize] builds on a working
    pool, in every state reached by accepting clients and by completions - any
    messages, also malformed ones, for connections that are gone or through
    buffers that are not tracked, failed and stale completions - the invariant
    holds, every further completion is handled without undefined behaviour, and
    accepting a client ends, whatever the sockets and the device answer. *)
Theorem server_never_stuck {HW P OS} `{!Verbs HW, !BufferSource P, !Sockets OS} (os0 : OS) port (h : HW) m alloc
    device pd send_cq recv_cq (create_pool : LocalBufferPool.BufferPoolConfig -> Result P) pool srv self eh disp handler :
  alloc_ok alloc (KVStore.total_storage_size store_config) -> working_pool create_pool bp_config ->
  create_pool bp_config = RVal pool -> handler <> 0 ->
  exists s0 r, Initialize os0 port h m alloc true (RVal device) (RVal pd) (RVal send_cq) (RVal recv_cq) create_pool
                 self eh disp = Some (listening os0 port (s0, r))
    /\ forall s, rtc (server_life self handler (OS := OS)) s0 s ->
         server_wf s []
         /\ (forall e, event_ok e -> is_Some (server_step s e))
         /\ (forall pad1 pad2 pad3 (os : OS) conn_result local_params, exists n os' s', forall fuel, (n <= fuel)%nat ->
              AcceptConnections self handler pad1 pad2 pad3 fuel os s srv conn_result local_params = Some (os', s')).
Proof.
  intros Ha Hp Hs Hh.
  destruct (Initialize_wf os0 port h m alloc device pd send_cq recv_cq create_pool pool self eh disp Ha Hp Hs) as (s0 & r & E & Hw & _).
  exists s0, r. split; [exact E|]. intros s Hl. pose proof (server_life_wf self handler s0 s Hh Hw Hl) as Hws.
  split; [done|]. split.
  - intros e He. destruct (server_step_wf s e Hws He) as (s' & E' & _). by exists s'.
  - intros pad1 pad2 pad3 os conn_result lp.
    destruct (AcceptConnections_wf self handler pad1 pad2 pad3 os s srv conn_result lp Hws Hh) as (n & os' & s' & E' & _).
    by exists n, os', s'.
Qed.

Lemma server_never_stuck_witness :
  exists (s0 : KVServer (ibv_qp_state * list ibv_send_wr) LocalBufferPool.LocalBufferPool) s1,
    rtc (server_life 1 1 (OS := Script)) s0 s1
    /\ is_Some (server_step s1 (EvMessage 77 [1; 2; 3])).
Proof.
  destruct server_factory_works as [Hf [p Hp]].
  destruct (server_never_stuck example_receiver 12345 (IBV_QPS_RESET, []) (fun _ => 0) zero_alloc 1 2 3 4 example_factory p
    {| TcpHandshakeServer.listen_fd_ := 3; TcpHandshakeServer.port_ := 12345 |} 1 1 1 1) as (s0 & r & _ & H).
  - apply zero_alloc_ok. vm_compute. discriminate.
  - exact Hf.
  - exact Hp.
  - discriminate.
  - exists s0, s0. split; [apply rtc_refl|]. destruct (H s0 (rtc_refl _ _)) as (_ & Hstep & _). apply Hstep.
    split; [forall_compute|]. split; vm_compute; discriminate.
Defined.

(** C31: The receive buffers of a connection that failed never come back, on a
    working pool as in [server_wf]. Its first failed completion removes the context
    and the connection; from then on no completion whatever touches an entry
    posted for that connection, so its buffers stay taken from the pool. *)
Theorem failed_connection_keeps_buffers {HW P} `{!Verbs HW, !BufferSource P} (s : KVServer HW P) id status es :
  server_wf s [] -> is_u 16 id -> Forall event_ok es ->
  exists s1 s', OnError s id status = Some s1 /\ server_run s1 es = Some s'
    /\ deref s1 id = None
    /\ (forall k, WrId.GetConnId k = id -> posted_recv_buffers_ s' !! k = posted_recv_buffers_ s !! k)
    /\ exists held, bs_held (buffer_pool_ s') held
         /\ forall k pb, WrId.GetConnId k = id -> posted_recv_buffers_ s !! k = Some pb -> buf pb ∈ held.
Proof.
  intros Hw Hid Hes. destruct (OnError_wf s id status Hw (proj1 Hid)) as (h & m & E1 & Hw1 & Hd).
  destruct (server_run_wf _ es Hw1 Hes) as (s' & E2 & Hw2).
  assert (Hk : forall k, WrId.GetConnId k = id -> posted_recv_buffers_ s' !! k = posted_recv_buffers_ s !! k).
  { intros k Hk. rewrite (server_run_same _ es id s' Hw1 Hes (lookup_delete_eq _ _) E2 k Hk). done. }
  do 2 eexists. split; [exact E1|]. split; [exact E2|]. split; [by rewrite Hd, decide_True|]. split; [exact Hk|].
  destruct (sw_pool _ _ Hw2) as (leaked & held & Hp & Hh). exists held. split; [exact Hh|].
  intros k pb Hkid Hpb. rewrite <- (Hk k Hkid) in Hpb. rewrite Hp. cbn [app]. apply elem_of_app. left.
  unfold recv_bufs. apply list_elem_of_fmap. exists pb. split; [done|]. apply list_elem_of_fmap. exists (k, pb).
  split; [done|]. by apply elem_of_map_to_list.
Qed.

Lemma failed_connection_keeps_buffers_witness :
  exists s1 s', OnError (example_server example_pool) 0 5 = Some s1
    /\ server_run s1 [EvMessage recv_wrid put_message; EvCompletion (recv_completion 12 [])] = Some s'
    /\ posted_recv_buffers_ s' !! recv_wrid = Some {| buf := recv_buffer; conn_id := 0 |}.
Proof.
  destruct put_message_ok as [Hu Hl].
  destruct (failed_connection_keeps_buffers (example_server example_pool) 0 5
    [EvMessage recv_wrid put_message; EvCompletion (recv_completion 12 [])] example_server_wf)
    as (s1 & s' & E1 & E2 & _ & Hk & _).
  - split; vm_compute; congruence.
  - constructor; [|constructor; [|constructor]].
    + split; [exact Hu|]. rewrite Hl. split; vm_compute; discriminate.
    + intros _. split; vm_compute; discriminate.
  - exists s1, s'. split; [exact E1|]. split; [exact E2|]. rewrite Hk by reflexivity. reflexivity.
Defined.

End properties.
