(* ===== verification/KvClient.v ===== *)
(** * The key-value client

    Models [examples/kv_client.h] and [examples/kv_client.cpp]. As in the server
    an access outside a buffer is [None]. The random draws and, per round of the
    benchmark, what the device does - the messages it writes and the completions
    the two queues give - are arguments. The time and the console output are left
    out. *)

From S2P Require Import Prelude Types WrId KvProtocol KvStore Verbs Buffer BufferPool Memory.
From S2P Require Import QueuePair Connection Handshake KvServer KvServerLife.

Module KVClient.

Record KVClient (HW P : Type) := {
  hw : HW;
  mem : memory;
  buffer_pool_ : P;
  conn_ : Connection;
  posted_recv_buffers_ : gmap Z Buffer;
  posted_send_buffers_ : gmap Z Buffer;
}.
Arguments hw {HW P} _.
Arguments mem {HW P} _.
Arguments buffer_pool_ {HW P} _.
Arguments conn_ {HW P} _.
Arguments posted_recv_buffers_ {HW P} _.
Arguments posted_send_buffers_ {HW P} _.

(** The pool [Connect] asks for. *)
Definition bp_config : LocalBufferPool.BufferPoolConfig :=
  {| LocalBufferPool.buffer_size := kv.MAX_RESPONSE_SIZE; LocalBufferPool.buffer_count := 256;
     LocalBufferPool.max_buffer_count := 65536; LocalBufferPool.numa_node := -1;
     LocalBufferPool.use_hugepage := false; LocalBufferPool.policy := FIFO |}.

Definition MAX_OUTSTANDING : Z := 64.

(** The local counters of [RunBenchmark], all [int]. *)
Record Counters := {
  sent : Z;
  completed : Z;
  gets_sent : Z;
  puts_sent : Z;
  gets_success : Z;
  puts_success : Z;
  gets_not_found : Z;
}.

Definition Counters_zero : Counters :=
  {| sent := 0; completed := 0; gets_sent := 0; puts_sent := 0; gets_success := 0; puts_success := 0;
     gets_not_found := 0 |}.

Definition count_sent (k : Counters) (put : bool) : Counters :=
  {| sent := sent k + 1; completed := completed k;
     gets_sent := if put then gets_sent k else gets_sent k + 1;
     puts_sent := if put then puts_sent k + 1 else puts_sent k;
     gets_success := gets_success k; puts_success := puts_success k; gets_not_found := gets_not_found k |}.

Definition count_completed (k : Counters) : Counters :=
  {| sent := sent k; completed := completed k + 1; gets_sent := gets_sent k; puts_sent := puts_sent k;
     gets_success := gets_success k; puts_success := puts_success k; gets_not_found := gets_not_found k |}.

(** The bookkeeping of a response. *)
Definition count_response (k : Counters) (r : kv.ResponseHeader) : Counters :=
  let op := kv.rs_op_type r in
  let ok := kv.rs_status r =? kv.Status_u8 kv.OK in
  let not_found := kv.rs_status r =? kv.Status_u8 kv.NOT_FOUND in
  let get := op =? kv.OpType_u8 kv.GET_RESPONSE in
  let put := negb get && (op =? kv.OpType_u8 kv.PUT_RESPONSE) in
  {| sent := sent k; completed := completed k; gets_sent := gets_sent k; puts_sent := puts_sent k;
     gets_success := if get && ok then gets_success k + 1 else gets_success k;
     puts_success := if put && ok then puts_success k + 1 else puts_success k;
     gets_not_found := if get && negb ok && not_found then gets_not_found k + 1 else gets_not_found k |}.

(** The arguments of [RunBenchmark]; the ratio only enters the draws. *)
Record Benchmark := {
  num_operations : Z;
  value_size : Z;
  use_sgl : bool;
  num_segments : Z;
}.

(** What happens outside in one round of the loop: the flag, the messages the
    device writes into posted buffers, the completions of the two queues. *)
Record Round := {
  running : bool;
  send_wcs : list ibv_wc;
  arrivals : list (Z * list Z);
  recv_wcs : list ibv_wc;
}.

Section client.
Context {HW P : Type} `{!Verbs HW, !BufferSource P}.
Implicit Types (c : KVClient HW P).

Definition set_hw c (h : HW) (o : Connection) : KVClient HW P :=
  {| hw := h; mem := mem c; buffer_pool_ := buffer_pool_ c; conn_ := o;
     posted_recv_buffers_ := posted_recv_buffers_ c; posted_send_buffers_ := posted_send_buffers_ c |}.

Definition set_mem c (m : memory) : KVClient HW P :=
  {| hw := hw c; mem := m; buffer_pool_ := buffer_pool_ c; conn_ := conn_ c;
     posted_recv_buffers_ := posted_recv_buffers_ c; posted_send_buffers_ := posted_send_buffers_ c |}.

Definition set_buffers c (p : P) (recvs sends : gmap Z Buffer) : KVClient HW P :=
  {| hw := hw c; mem := mem c; buffer_pool_ := p; conn_ := conn_ c;
     posted_recv_buffers_ := recvs; posted_send_buffers_ := sends |}.

(** [buffer_pool_->Allocate()]. *)
Definition allocate c : option (KVClient HW P * Buffer) :=
  '(p, b) ← bs_allocate (buffer_pool_ c);
  Some (set_buffers c p (posted_recv_buffers_ c) (posted_send_buffers_ c), b).

Definition track_recv c (wr_id : Z) (b : Buffer) : KVClient HW P :=
  set_buffers c (buffer_pool_ c) (<[wr_id := b]> (posted_recv_buffers_ c)) (posted_send_buffers_ c).

Definition track_send c (wr_id : Z) (b : Buffer) : KVClient HW P :=
  set_buffers c (buffer_pool_ c) (posted_recv_buffers_ c) (<[wr_id := b]> (posted_send_buffers_ c)).

(** [conn_->Send(buf, wr_id)]; the status is dropped. *)
Definition conn_send c (b : Buffer) (wr_id : Z) : KVClient HW P :=
  let '(h, o, _) := Connection.Send (hw c) (conn_ c) b wr_id in set_hw c h o.

Definition PostRecvBuffer c : option (KVClient HW P) :=
  '(c, b) ← allocate c;
  if Buffer.IsValid b then
    let buf_index := u32 (Z.land (Buffer.addr_ b) 0xFFFFFFFF) in
    let wr_id := WrId.Encode (Connection.conn_id_ (conn_ c)) RECV 0 buf_index in
    let c := track_recv c wr_id b in
    let '(h, _) := Connection.PostRecv (hw c) (conn_ c) b wr_id in
    Some (set_hw c h (conn_ c))
  else Some c.

Fixpoint PostRecvBuffers c (count : nat) : option (KVClient HW P) :=
  match count with
  | O => Some c
  | S count => c ← PostRecvBuffer c; PostRecvBuffers c count
  end.

(** The end of each sending function: track the buffer and send its start. *)
Definition send_tracked c (b : Buffer) (len seq : Z) : KVClient HW P :=
  let wr_id := WrId.Encode (Connection.conn_id_ (conn_ c)) REQUEST_SEND 0 seq in
  conn_send (track_send c wr_id b) (Buffer.Slice b 0 len) wr_id.

Definition SendGet c (key seq : Z) : option (KVClient HW P) :=
  '(c, b) ← allocate c;
  if negb (Buffer.IsValid b) then Some c
  else
    m ← buf_write (mem c) b 0 (kv.RequestHeader_bytes (kv.SetGet key));
    Some (send_tracked (set_mem c m) b kv.RequestHeader_size seq).

(** The byte [memset] fills a value with. *)
Definition pattern (key size : Z) : list Z := replicate (Z.to_nat size) (u8 (Z.land key 0xFF)).

Definition SendPut c (key size seq : Z) : option (KVClient HW P) :=
  '(c, b) ← allocate c;
  if negb (Buffer.IsValid b) then Some c
  else
    m ← buf_write (mem c) b 0 (kv.RequestHeader_bytes (kv.SetPut key size 0));
    m ← buf_write m b kv.RequestHeader_size (pattern key size);
    let total_size := kv.RequestHeader_size + size in
    Some (send_tracked (set_mem c m) b total_size seq).

(** The loop over the segment descriptors from the [i]-th on; [n] are left. *)
Fixpoint write_descriptors (m : memory) (b : Buffer) (n : nat) (i offset base_segment_size remainder : Z)
    : option memory :=
  match n with
  | O => Some m
  | S n =>
      let seg_size := u32 (base_segment_size + if i <? remainder then 1 else 0) in
      m ← buf_write m b (kv.RequestHeader_size + i * kv.SegmentDescriptor_size)
            (kv.SegmentDescriptor_bytes {| kv.sd_offset := offset; kv.sd_length := seg_size |});
      write_descriptors m b n (i + 1) (u32 (offset + seg_size)) base_segment_size remainder
  end.

(** [num_segments] is a positive [int]; the vectors of buffers and of [iovec]s
    the function fills are not used. *)
Definition SendPutSGL c (key size segments seq : Z) : option (KVClient HW P) :=
  '(c, b) ← allocate c;
  if negb (Buffer.IsValid b) then Some c
  else if segments =? 0 then None
  else
    let base_segment_size := size / segments in
    let remainder := size mod segments in
    m ← buf_write (mem c) b 0 (kv.RequestHeader_bytes (kv.SetPut key size (u8 segments)));
    let header_total := kv.RequestHeader_size + segments * kv.SegmentDescriptor_size in
    m ← write_descriptors m b (Z.to_nat segments) 0 0 base_segment_size remainder;
    m ← buf_write m b header_total (pattern key size);
    let total_size := header_total + size in
    Some (send_tracked (set_mem c m) b total_size seq).

(** One request of the benchmark. *)
Definition send_request (bm : Benchmark) c (do_put : bool) (key seq : Z) : option (KVClient HW P) :=
  if do_put then
    if use_sgl bm && (1 <? num_segments bm)
    then SendPutSGL c key (value_size bm) (num_segments bm) seq
    else SendPut c key (value_size bm) seq
  else SendGet c key seq.

(** The inner loop: at most [n] requests; [draw] gives the choices. *)
Fixpoint send_requests (bm : Benchmark) (draw : Z -> bool * Z) (n : nat) c (k : Counters)
    : option (KVClient HW P * Counters) :=
  match n with
  | O => Some (c, k)
  | S n =>
      if (sent k <? num_operations bm) && (sent k - completed k <? MAX_OUTSTANDING) then
        let '(do_put, key) := draw (sent k) in
        c ← send_request bm c do_put key (u32 (sent k));
        send_requests bm draw n c (count_sent k do_put)
      else Some (c, k)
  end.

Definition on_send_completion c (wc : ibv_wc) : option (KVClient HW P) :=
  match posted_send_buffers_ c !! wc_wr_id wc with
  | Some b =>
      p ← bs_free (buffer_pool_ c) b;
      Some (set_buffers c p (posted_recv_buffers_ c) (delete (wc_wr_id wc) (posted_send_buffers_ c)))
  | None => Some c
  end.

Fixpoint on_send_completions c (wcs : list ibv_wc) : option (KVClient HW P) :=
  match wcs with
  | [] => Some c
  | wc :: wcs => c ← on_send_completion c wc; on_send_completions c wcs
  end.

Definition on_recv_completion c (k : Counters) (wc : ibv_wc) : option (KVClient HW P * Counters) :=
  if wc_status wc =? IBV_WC_SUCCESS then
    match posted_recv_buffers_ c !! wc_wr_id wc with
    | Some b =>
        l ← buf_read (mem c) b 0 kv.ResponseHeader_size;
        p ← bs_free (buffer_pool_ c) b;
        Some (set_buffers c p (delete (wc_wr_id wc) (posted_recv_buffers_ c)) (posted_send_buffers_ c),
              count_completed (count_response k (kv.ResponseHeader_of_bytes l)))
    | None => Some (c, count_completed k)
    end
  else Some (c, k).

Fixpoint on_recv_completions c (k : Counters) (wcs : list ibv_wc) : option (KVClient HW P * Counters) :=
  match wcs with
  | [] => Some (c, k)
  | wc :: wcs => '(c, k) ← on_recv_completion c k wc; on_recv_completions c k wcs
  end.

(** The device's write of an arriving message. *)
Definition arrive c (wrid : Z) (msg : list Z) : option (KVClient HW P) :=
  match posted_recv_buffers_ c !! wrid with
  | Some b => m ← buf_write (mem c) b 0 msg; Some (set_mem c m)
  | None => Some c
  end.

Fixpoint arrive_all c (ms : list (Z * list Z)) : option (KVClient HW P) :=
  match ms with
  | [] => Some c
  | (wrid, msg) :: ms => c ← arrive c wrid msg; arrive_all c ms
  end.

(** The body of the outer loop. *)
Definition round (bm : Benchmark) (draw : Z -> bool * Z) c (k : Counters) (r : Round)
    : option (KVClient HW P * Counters) :=
  '(c, k) ← send_requests bm draw (Z.to_nat (num_operations bm - sent k)) c k;
  c ← on_send_completions c (send_wcs r);
  c ← arrive_all c (arrivals r);
  '(c, k) ← on_recv_completions c k (recv_wcs r);
  let posted := Z.of_nat (size (posted_recv_buffers_ c)) in
  if posted <? 32 then c ← PostRecvBuffers c (Z.to_nat (32 - posted)); Some (c, k) else Some (c, k).

(** The outer loop; the last component says whether it has ended. *)
Fixpoint rounds (bm : Benchmark) (draw : Z -> bool * Z) c (k : Counters) (rs : list Round)
    : option (KVClient HW P * Counters * bool) :=
  match rs with
  | [] => Some (c, k, num_operations bm <=? completed k)
  | r :: rs =>
      if running r && (completed k <? num_operations bm)
      then '(c, k) ← round bm draw c k r; rounds bm draw c k rs
      else Some (c, k, true)
  end.

Definition RunBenchmark (bm : Benchmark) (draw : Z -> bool * Z) c (rs : list Round)
    : option (KVClient HW P * Counters * bool) :=
  if negb (kv.IsValidValueSize (value_size bm)) then Some (c, Counters_zero, true)
  else rounds bm draw c Counters_zero rs.

Section handshake.
Context {OS : Type} `{!Sockets OS}.

(** The padding bytes of a [HandshakeMessage]. *)
Variables (pad1 : list Z) (pad2 : Z) (pad3 : list Z).

(** [Connect], from what the factories of the device, the domain, the queues and
    the connection return and from the factory of the pool -
    [LocalBufferPool::Create] on the domain; the inner [None] is the result false. *)
Definition Connect (fuel : nat) (h : HW) (m : memory) (os : OS) (host : string) (port : Z)
    (device pd send_cq recv_cq : Result Z) (create_pool : LocalBufferPool.BufferPoolConfig -> Result P)
    (conn_result : Result Connection) (local_params : Result QpConnParams) : option (OS * option (KVClient HW P)) :=
  match device, pd, send_cq, recv_cq, create_pool bp_config with
  | RVal _, RVal _, RVal _, RVal _, RVal pool =>
      match TcpHandshakeChannel.Connect os host port 5000 with
      | (os, RErr _) => Some (os, None)
      | (os, RVal channel) =>
          let close os := (TcpHandshakeChannel.Close os channel).1 in
          match conn_result, local_params with
          | RVal o, RVal params =>
              '(os, st, data) ← TcpHandshakeChannel.Receive fuel os channel;
              if negb (status_ok st) then Some (close os, None)
              else
                let remote := HandshakeMessage.of_bytes data in
                let msg := {| HandshakeMessage.qp_params := params;
                              HandshakeMessage.recv_buffer_info :=
                                HandshakeMessage.recv_buffer_info KVServer.HandshakeMessage_zero;
                              HandshakeMessage.conn_id := 0; HandshakeMessage.version := 1;
                              HandshakeMessage.flags := 0;
                              HandshakeMessage.hostname := HandshakeMessage.hostname KVServer.HandshakeMessage_zero |} in
                '(os, st) ← TcpHandshakeChannel.Send fuel os channel (HandshakeMessage.bytes pad1 pad2 pad3 msg);
                if negb (status_ok st) then Some (close os, None)
                else
                  let '(h, o, st) := Connection.Connect h o (HandshakeMessage.qp_params remote) in
                  if negb (status_ok st) then Some (close os, None)
                  else
                    c ← PostRecvBuffers {| hw := h; mem := m; buffer_pool_ := pool; conn_ := o;
                                           posted_recv_buffers_ := ∅; posted_send_buffers_ := ∅ |} 64;
                    Some (close os, Some c)
          | _, _ => Some (close os, None)
          end
      end
  | _, _, _, _, _ => Some (os, None)
  end.

End handshake.
End client.

End KVClient.

(** ** Specification *)

Section specification.
Import KVClient.
Context {HW P : Type} `{!Verbs HW, !BufferSource P}.

(** The messages of the three requests. *)
Definition get_message (key : Z) : list Z := kv.RequestHeader_bytes (kv.SetGet key).

Definition put_message_of (key size : Z) : list Z := kv.RequestHeader_bytes (kv.SetPut key size 0) ++ pattern key size.

Fixpoint segments_of (n : nat) (i offset base remainder : Z) : list kv.SegmentDescriptor :=
  match n with
  | O => []
  | S n =>
      let len := base + if i <? remainder then 1 else 0 in
      {| kv.sd_offset := offset; kv.sd_length := len |} :: segments_of n (i + 1) (offset + len) base remainder
  end.

Definition segments (size n : Z) : list kv.SegmentDescriptor :=
  segments_of (Z.to_nat n) 0 0 (size / n) (size mod n).

Definition sgl_message (key size n : Z) : list Z :=
  kv.RequestHeader_bytes (kv.SetPut key size n)
  ++ concat (kv.SegmentDescriptor_bytes <$> segments size n) ++ pattern key size.

(** A request, its message and what it means to the map: the response and the map
    afterwards. *)
Inductive Request := QGet (key : Z) | QPut (key size : Z) | QPutSGL (key size n : Z).

Definition message (q : Request) : list Z :=
  match q with
  | QGet key => get_message key
  | QPut key size => put_message_of key size
  | QPutSGL key size n => sgl_message key size n
  end.

Definition run_request (c : KVClient HW P) (q : Request) (seq : Z) : option (KVClient HW P) :=
  match q with
  | QGet key => SendGet c key seq
  | QPut key size => SendPut c key size seq
  | QPutSGL key size n => SendPutSGL c key size n seq
  end.

(** The arguments the client passes: keys of 64 bits, sizes up to the maximum,
    messages that fit a buffer of [room] bytes. *)
Definition request_fits (room : Z) (q : Request) : Prop :=
  match q with
  | QGet key => is_u 64 key
  | QPut key size => is_u 64 key /\ 0 <= size <= kv.MAX_VALUE_SIZE
  | QPutSGL key size n =>
      is_u 64 key /\ 0 <= size <= kv.MAX_VALUE_SIZE /\ 0 < n <= kv.MAX_SEGMENTS
      /\ kv.RequestHeader_size + n * kv.SegmentDescriptor_size + size <= room
  end.

Definition spec_request (cap : Z) (m : gmap Z (list Z)) (q : Request) : (kv.ResponseHeader * list Z) * gmap Z (list Z) :=
  match q with
  | QGet key => let '(st, v) := spec_Get m key kv.MAX_VALUE_SIZE in
      ((kv.SetGetResponse key st (Z.of_nat (length v)), v), m)
  | QPut key size | QPutSGL key size _ =>
      let '(st, m') := spec_Put cap m key (pattern key size) size in ((kv.SetPutResponse key st, []), m')
  end.

Definition response_bytes (r : kv.ResponseHeader * list Z) : list Z := kv.ResponseHeader_bytes r.1 ++ r.2.

(** Pieces that follow one another from [off] to [stop]. *)
Fixpoint contiguous (off : Z) (l : list kv.SegmentDescriptor) (stop : Z) : Prop :=
  match l with
  | [] => off = stop
  | d :: l => kv.sd_offset d = off /\ 0 <= kv.sd_length d /\ contiguous (off + kv.sd_length d) l stop
  end.

Definition recv_list (c : KVClient HW P) : list Buffer := (map_to_list (posted_recv_buffers_ c)).*2.
Definition send_list (c : KVClient HW P) : list Buffer := (map_to_list (posted_send_buffers_ c)).*2.

(** The client holds the buffers it tracks, those in hand, and lost ones. *)
Record client_wf (c : KVClient HW P) (extra : list Buffer) : Prop := {
  cw_pool : exists leaked held, held ≡ₚ extra ++ recv_list c ++ send_list c ++ leaked
              /\ bs_held (buffer_pool_ c) held;
  cw_size : kv.MAX_RESPONSE_SIZE <= bs_size (buffer_pool_ c) < 2 ^ 32;
}.

Definition client_room (c : KVClient HW P) : Prop :=
  exists p b, bs_allocate (buffer_pool_ c) = Some (p, b) /\ Buffer.IsValid b = true.

Definition request_wrid (o : Connection) (seq : Z) : Z := WrId.Encode (Connection.conn_id_ o) REQUEST_SEND 0 seq.

(** The client has posted the bytes in one send request from a buffer that it
    tracks under the request's id and whose memory holds them. *)
Definition requested (c : KVClient HW P) (bytes : list Z) (seq : Z) (c' : KVClient HW P) : Prop :=
  exists b,
    buf_read (mem c') b 0 (Z.of_nat (length bytes)) = Some bytes
    /\ posted_send_buffers_ c' = <[request_wrid (conn_ c) seq := b]> (posted_send_buffers_ c)
    /\ conn_ c' = Connection.set_qp (conn_ c) (QueuePair.ShouldSignal (Connection.qp (conn_ c))).1
    /\ (posted (hw c') = posted (hw c)
        \/ posted (hw c') = posted (hw c)
             ++ [response_wr (conn_ c) b (Z.of_nat (length bytes)) (request_wrid (conn_ c) seq)])
    /\ (device_accepts (HW := HW) ->
        posted (hw c') = posted (hw c)
          ++ [response_wr (conn_ c) b (Z.of_nat (length bytes)) (request_wrid (conn_ c) seq)]).

(** Nothing sent. *)
Definition nothing_sent (c c' : KVClient HW P) : Prop :=
  posted_send_buffers_ c' = posted_send_buffers_ c /\ conn_ c' = conn_ c /\ hw c' = hw c.

(** A sending function that asks for [bytes]. *)
Definition sends (c : KVClient HW P) (bytes : list Z) (seq : Z) (r : option (KVClient HW P)) : Prop :=
  exists c', r = Some c' /\ client_wf c' [] /\ posted_recv_buffers_ c' = posted_recv_buffers_ c
    /\ bs_capacity (buffer_pool_ c') = bs_capacity (buffer_pool_ c)
    /\ (client_room c -> requested c bytes seq c') /\ (~ client_room c -> nothing_sent c c').

(** *** The benchmark *)

(** What the device may do while no request fails: complete requests that were
    posted and signaled, and deliver responses, each to a request that was
    posted, that fit the posted buffer. *)
Definition sends_ok (c : KVClient HW P) (wcs : list ibv_wc) : Prop :=
  forall wc, wc ∈ wcs -> exists wr, wr ∈ posted (hw c) /\ wr_id wr = wc_wr_id wc /\ SIGNALED (send_flags wr) = true.

Definition arrivals_ok (ms : list (Z * list Z)) : Prop :=
  Forall (fun a => Z.of_nat (length a.2) <= kv.MAX_RESPONSE_SIZE) ms.

Fixpoint device_ok (bm : Benchmark) (draw : Z -> bool * Z) (c : KVClient HW P) (k : Counters) (rs : list Round) : Prop :=
  match rs with
  | [] => True
  | r :: rs =>
      match send_requests bm draw (Z.to_nat (num_operations bm - sent k)) c k with
      | Some (c1, k1) =>
          sends_ok c1 (send_wcs r) /\ arrivals_ok (arrivals r)
          /\ completed k1 + Z.of_nat (length (recv_wcs r)) <= Z.of_nat (length (posted (hw c1)))
      | None => True
      end
      /\ match round bm draw c k r with
         | Some (c2, k2) => device_ok bm draw c2 k2 rs
         | None => True
         end
  end.

(** The arguments of a benchmark: any draw is a request that fits. *)
Definition benchmark_ok (room : Z) (bm : Benchmark) (draw : Z -> bool * Z) : Prop :=
  0 <= num_operations bm < 2 ^ 31 /\ kv.IsValidValueSize (value_size bm) = true
  /\ (forall i, is_u 64 (draw i).2)
  /\ (use_sgl bm && (1 <? num_segments bm) = true -> num_segments bm <= kv.MAX_SEGMENTS
        /\ kv.RequestHeader_size + num_segments bm * kv.SegmentDescriptor_size + value_size bm <= room).

(** The request a draw stands for. *)
Definition drawn (bm : Benchmark) (do_put : bool) (key : Z) : Request :=
  if do_put then
    if use_sgl bm && (1 <? num_segments bm) then QPutSGL key (value_size bm) (num_segments bm)
    else QPut key (value_size bm)
  else QGet key.

(** A running benchmark on a pool of [cap] buffers: [T] are the requests that got a buffer, [G] those of
    them that were signaled. The buffers of the others stay tracked. *)
Record bench_inv (interval cap : Z) (c : KVClient HW P) (k : Counters) (T G : gset Z) : Prop := {
  bi_wf : client_wf c [];
  bi_cap : bs_capacity (buffer_pool_ c) = cap;
  bi_interval : QueuePair.signal_interval (QueuePair.config_ (Connection.qp (conn_ c))) = interval;
  bi_conn : Connection.state_ (conn_ c) = CONNECTED /\ is_u 16 (Connection.conn_id_ (conn_ c));
  bi_sent : 0 <= sent k /\ forall t, t ∈ T -> 0 <= t < sent k;
  bi_sub : G ⊆ T;
  bi_tracked : forall t, t ∈ T ∖ G -> is_Some (posted_send_buffers_ c !! request_wrid (conn_ c) t);
  bi_signal : interval * Z.of_nat (size G) + QueuePair.unsignaled_count_ (Connection.qp (conn_ c))
                <= Z.of_nat (size T);
  bi_unsignaled : 0 <= QueuePair.unsignaled_count_ (Connection.qp (conn_ c));
  bi_posted : forall wr, wr ∈ posted (hw c) -> SIGNALED (send_flags wr) = true ->
                exists t, t ∈ G /\ wr_id wr = request_wrid (conn_ c) t;
  bi_count : Z.of_nat (length (posted (hw c))) <= Z.of_nat (size T);
}.

End specification.

(** ** Lemmas *)

Section lemmas.
Import KVClient.
Context {HW P : Type} `{!Verbs HW, !BufferSource P}.
Implicit Types (c : KVClient HW P).

(** *** Messages *)

Lemma pattern_length key size : 0 <= size -> Z.of_nat (length (pattern key size)) = size.
Proof. intros. unfold pattern. rewrite length_replicate. lia. Qed.

Lemma put_message_length key size : 0 <= size -> Z.of_nat (length (put_message_of key size)) = 16 + size.
Proof. intros. unfold put_message_of. rewrite length_app, RequestHeader_bytes_length. pose proof (pattern_length key size). lia. Qed.

Lemma segments_of_length n i off base r : length (segments_of n i off base r) = n.
Proof. revert i off. induction n as [|n IH]; intros i off; [done|]. cbn. by rewrite IH. Qed.

Lemma descriptors_length (l : list kv.SegmentDescriptor) :
  length (concat (kv.SegmentDescriptor_bytes <$> l)) = (8 * length l)%nat.
Proof.
  induction l as [|d l IH]; [done|]. cbn [fmap list_fmap concat length]. rewrite length_app, IH.
  unfold kv.SegmentDescriptor_bytes. autorewrite with rdma. lia.
Qed.

(** The pieces follow one another; of the [n] left, those below the remainder
    have one byte more. *)
Lemma segments_of_contiguous n i off base r :
  0 <= base -> 0 <= i ->
  contiguous off (segments_of n i off base r)
    (off + Z.of_nat n * base + Z.max 0 (Z.min (r - i) (Z.of_nat n))).
Proof.
  intros Hb. revert i off. induction n as [|n IH]; intros i off Hi; cbn [segments_of contiguous].
  - lia.
  - destruct (Z.ltb_spec i r); cbn [kv.sd_offset kv.sd_length]; (split; [done|]; split; [lia|]).
    + match goal with |- contiguous _ _ ?e => replace e with (off + (base + 1) + Z.of_nat n * base
        + Z.max 0 (Z.min (r - (i + 1)) (Z.of_nat n))) by lia end. apply IH. lia.
    + match goal with |- contiguous _ _ ?e => replace e with (off + (base + 0) + Z.of_nat n * base
        + Z.max 0 (Z.min (r - (i + 1)) (Z.of_nat n))) by lia end. apply IH. lia.
Qed.

(** *** Buffers *)

Lemma client_track_recv_wf c extra k b : client_wf c (b :: extra) -> client_wf (track_recv c k b) extra.
Proof.
  intros [(leaked & held & Hp & Hh) Hs]. split; [|done].
  destruct (values_insert (posted_recv_buffers_ c) k b) as [lost Hl].
  exists (lost ++ leaked), held. split; [|done]. rewrite Hp. by apply held_recv.
Qed.

Lemma client_track_send_wf c extra k b : client_wf c (b :: extra) -> client_wf (track_send c k b) extra.
Proof.
  intros [(leaked & held & Hp & Hh) Hs]. split; [|done].
  destruct (values_insert (posted_send_buffers_ c) k b) as [lost Hl].
  exists (lost ++ leaked), held. split; [|done]. rewrite Hp. by apply held_send.
Qed.

Lemma client_allocate_wf c extra :
  client_wf c extra ->
  exists p b, bs_allocate (buffer_pool_ c) = Some (p, b)
    /\ let c' := set_buffers c p (posted_recv_buffers_ c) (posted_send_buffers_ c) in
       if Buffer.IsValid b
       then client_wf c' (b :: extra) /\ Buffer.length_ b = bs_size (buffer_pool_ c)
       else client_wf c' extra.
Proof.
  intros [(leaked & held & Hp & Hh) Hs].
  destruct (bs_allocate_spec _ _ Hh) as (p & b & E & Hb). exists p, b. split; [done|].
  pose proof (bs_size_allocate _ _ _ E) as Hsz. cbn zeta. destruct (Buffer.IsValid b).
  - destruct Hb as [Hb _]. destruct (bs_held_wf _ _ b Hb) as [_ Hl]; [left|]. split; [|congruence].
    split; [|cbn [buffer_pool_ set_buffers]; by rewrite Hsz]. exists leaked, (b :: held). split; [by rewrite Hp|done].
  - subst p. split; [by exists leaked, held|done].
Qed.

(** A buffer the client has let go of is freed. *)
Lemma client_free_wf c recvs sends b extra leaked held :
  held ≡ₚ b :: extra ++ (map_to_list recvs).*2 ++ (map_to_list sends).*2 ++ leaked -> bs_held (buffer_pool_ c) held ->
  kv.MAX_RESPONSE_SIZE <= bs_size (buffer_pool_ c) < 2 ^ 32 ->
  exists p, bs_free (buffer_pool_ c) b = Some p /\ client_wf (set_buffers c p recvs sends) extra.
Proof.
  intros Hp Hh Hs. assert (b ∈ held) as Hb by (rewrite Hp; left). apply list_elem_of_split in Hb as (h1 & h2 & ->).
  destruct (bs_free_spec _ _ _ _ Hh) as (p & E & Hh'). exists p. split; [done|].
  split; [|cbn [buffer_pool_ set_buffers]; by rewrite (bs_size_free _ _ _ E)].
  exists leaked, (h1 ++ h2). split; [|done]. rewrite <- Permutation_middle in Hp. by apply Permutation_cons_inv in Hp.
Qed.

(** *** Sending *)

Lemma Send_connected (h : HW) o b wrid :
  Connection.state_ o = CONNECTED ->
  let wr := {| wr_id := wrid; opcode := IBV_WR_SEND;
               send_flags := {| SIGNALED := (QueuePair.ShouldSignal (Connection.qp o)).2; INLINE := false |};
               sg_list := [QueuePair.sge_of_buffer b]; imm_data := 0; remote_addr := 0; rkey := 0 |} in
  exists h' st, Connection.Send h o b wrid = (h', Connection.set_qp o (QueuePair.ShouldSignal (Connection.qp o)).1, st)
    /\ (posted h' = posted h \/ posted h' = posted h ++ [wr])
    /\ (device_accepts (HW := HW) -> posted h' = posted h ++ [wr]).
Proof.
  intros Hc wr. unfold Connection.Send. rewrite bool_decide_true by done. cbn [negb].
  unfold Connection.on_qp, QueuePair.PostSend, QueuePair.DoPostSend, QueuePair.post.
  subst wr. destruct (QueuePair.ShouldSignal (Connection.qp o)) as [q sig]. cbn [fst snd].
  match goal with |- context [ibv_post_send h ?q ?w] =>
    pose proof (posted_post_send h q w) as Hp; pose proof (fun H : device_accepts => H h q w) as Ha;
    destruct (ibv_post_send h q w) as [h' ret] end.
  cbn [fst snd] in *. destruct (ret =? 0) eqn:Hr; cbn [negb]; do 2 eexists; (split; [done|]).
  - split; [by right|done].
  - split; [by left|]. intros Hacc. apply Ha in Hacc. apply Z.eqb_neq in Hr. done.
Qed.

Lemma send_tracked_spec c0 c b bytes seq :
  client_wf c [b] -> Connection.state_ (conn_ c0) = CONNECTED ->
  conn_ c = conn_ c0 -> hw c = hw c0 -> posted_send_buffers_ c = posted_send_buffers_ c0 ->
  buf_read (mem c) b 0 (Z.of_nat (length bytes)) = Some bytes ->
  let c' := send_tracked c b (Z.of_nat (length bytes)) seq in
  client_wf c' [] /\ posted_recv_buffers_ c' = posted_recv_buffers_ c /\ buffer_pool_ c' = buffer_pool_ c
  /\ requested c0 bytes seq c'.
Proof.
  intros Hw Hc Ec Eh Es Hb. unfold send_tracked, conn_send. rewrite Ec. fold (request_wrid (conn_ c0) seq).
  pose proof (client_track_send_wf c [] (request_wrid (conn_ c0) seq) b Hw) as Hw'.
  cbn [hw conn_ track_send set_buffers]. rewrite Eh, Ec.
  destruct (Send_connected (hw c0) (conn_ c0) (Buffer.Slice b 0 (Z.of_nat (length bytes))) (request_wrid (conn_ c0) seq) Hc)
    as (h' & st & E & Hp & Ha). rewrite E. split; [by destruct Hw'|]. split; [done|]. split; [done|].
  exists b. cbn [mem posted_send_buffers_ conn_ hw set_hw track_send set_buffers]. split_and!; [exact Hb|by rewrite Es|done|exact Hp|exact Ha].
Qed.

(** The shape of the sending functions: take a buffer, write the message, send. *)
Lemma sending c bytes seq (prog : KVClient HW P -> Buffer -> option (KVClient HW P)) :
  client_wf c [] -> Connection.state_ (conn_ c) = CONNECTED ->
  (forall c1 b, Buffer.length_ b = bs_size (buffer_pool_ c) ->
     exists m, prog c1 b = Some (send_tracked (set_mem c1 m) b (Z.of_nat (length bytes)) seq)
       /\ buf_read m b 0 (Z.of_nat (length bytes)) = Some bytes) ->
  sends c bytes seq ('(c, b) ← allocate c; if negb (Buffer.IsValid b) then Some c else prog c b).
Proof.
  intros Hw Hc Hwr. unfold allocate. destruct (client_allocate_wf c [] Hw) as (p & b & E & Hb). rewrite E. sbind. cbn zeta in Hb.
  destruct (Buffer.IsValid b) eqn:Hv; cbn [negb].
  - destruct Hb as [Hb Hl]. destruct (Hwr (set_buffers c p (posted_recv_buffers_ c) (posted_send_buffers_ c)) b Hl)
      as (m & -> & Hm).
    destruct (send_tracked_spec c (set_mem (set_buffers c p (posted_recv_buffers_ c) (posted_send_buffers_ c)) m) b bytes seq)
      as (Hw' & Hr & Hpool & Hq); [by destruct Hb|done..|].
    eexists. split; [done|]. split; [exact Hw'|]. split; [exact Hr|].
    split; [rewrite Hpool; exact (bs_capacity_allocate _ _ _ E)|]. split; [done|].
    intros Hn. exfalso. apply Hn. by exists p, b.
  - eexists. split; [done|]. split; [exact Hb|]. split; [done|]. split; [exact (bs_capacity_allocate _ _ _ E)|]. split; [|done].
    intros (p' & b' & E' & Hv'). rewrite E in E'. injection E' as <- <-. congruence.
Qed.

Lemma write_header (m : memory) b h :
  16 <= Buffer.length_ b ->
  exists m', buf_write m b 0 (kv.RequestHeader_bytes h) = Some m'
    /\ buf_read m' b 0 (Z.of_nat (length (kv.RequestHeader_bytes h))) = Some (kv.RequestHeader_bytes h).
Proof.
  intros Hl. rewrite buf_write_Some by (rewrite ?RequestHeader_bytes_length; lia). eexists. split; [done|].
  apply (buf_read_written m). by rewrite buf_write_Some by (rewrite ?RequestHeader_bytes_length; lia).
Qed.

Lemma SendGet_spec c key seq :
  client_wf c [] -> Connection.state_ (conn_ c) = CONNECTED -> sends c (get_message key) seq (SendGet c key seq).
Proof.
  intros Hw Hc. pose proof (cw_size _ _ Hw) as [Hs _]. unfold kv.MAX_RESPONSE_SIZE, kv.ResponseHeader_size, kv.MAX_VALUE_SIZE in Hs.
  apply sending; [done..|]. intros c1 b Hl.
  destruct (write_header (mem c1) b (kv.SetGet key)) as (m & -> & Hm); [lia|]. sbind. exists m. split; [|exact Hm].
  change kv.RequestHeader_size with (Z.of_nat 16). unfold get_message. by rewrite RequestHeader_bytes_length.
Qed.

Lemma SendPut_spec c key size seq :
  client_wf c [] -> Connection.state_ (conn_ c) = CONNECTED -> 0 <= size <= kv.MAX_VALUE_SIZE ->
  sends c (put_message_of key size) seq (SendPut c key size seq).
Proof.
  intros Hw Hc Hz. pose proof (cw_size _ _ Hw) as [Hs _]. unfold kv.MAX_RESPONSE_SIZE, kv.ResponseHeader_size in Hs.
  apply sending; [done..|]. intros c1 b Hl.
  destruct (write_header (mem c1) b (kv.SetPut key size 0)) as (m & -> & Hm); [lia|]. sbind.
  pose proof (put_message_length key size ltac:(lia)) as Hlen.
  destruct (buf_write_behind m b _ (pattern key size) Hm) as (m' & E & Hm' & _); [unfold put_message_of in Hlen; lia|].
  rewrite RequestHeader_bytes_length in E. change kv.RequestHeader_size with (Z.of_nat 16). rewrite E. sbind.
  exists m'. split; [|exact Hm']. by rewrite Hlen.
Qed.

(** The loop over the descriptors writes them behind what is there. *)
Lemma write_descriptors_spec n (m : memory) b i off base r pre :
  0 <= i -> 0 <= off -> 0 <= base -> off + Z.of_nat n * (base + 1) < 2 ^ 32 ->
  Z.of_nat (length pre) = 16 + i * 8 -> buf_read m b 0 (Z.of_nat (length pre)) = Some pre ->
  16 + (i + Z.of_nat n) * 8 <= Buffer.length_ b ->
  exists m', write_descriptors m b n i off base r = Some m'
    /\ let l := pre ++ concat (kv.SegmentDescriptor_bytes <$> segments_of n i off base r) in
       buf_read m' b 0 (Z.of_nat (length l)) = Some l.
Proof.
  revert m i off pre. induction n as [|n IH]; intros m i off pre Hi Ho Hb Hoff Hpre Hm Hl;
    cbn [write_descriptors segments_of fmap list_fmap concat].
  - exists m. split; [done|]. cbn zeta. by rewrite app_nil_r.
  - set (len := base + (if i <? r then 1 else 0)). assert (Hlen : 0 <= len <= base + 1) by (unfold len; destruct (i <? r); lia).
    rewrite (wrap_id 32 len) by (unfold is_u; lia). rewrite (wrap_id 32 (off + len)) by (unfold is_u; lia).
    set (d := kv.SegmentDescriptor_bytes _).
    assert (Hd : length d = 8%nat) by (unfold d, kv.SegmentDescriptor_bytes; autorewrite with rdma; done).
    destruct (buf_write_behind m b pre d Hm) as (m1 & E & Hm1 & _); [rewrite length_app, Hd; lia|].
    rewrite Hpre in E. unfold kv.RequestHeader_size, kv.SegmentDescriptor_size. rewrite E. sbind.
    destruct (IH m1 (i + 1) (off + len) (pre ++ d)) as (m' & E' & Hm'); [lia|lia|done|lia| |exact Hm1|lia|].
    { rewrite length_app, Hd. lia. }
    exists m'. split; [exact E'|]. cbn zeta in *. by rewrite app_assoc.
Qed.

Lemma sgl_message_length key size n :
  0 <= n -> 0 <= size -> Z.of_nat (length (sgl_message key size n)) = 16 + n * 8 + size.
Proof.
  intros Hn Hs. unfold sgl_message, segments. rewrite !length_app, descriptors_length, segments_of_length, RequestHeader_bytes_length.
  pose proof (pattern_length key size Hs). lia.
Qed.

Lemma SendPutSGL_spec c key size n seq :
  client_wf c [] -> Connection.state_ (conn_ c) = CONNECTED -> 0 < n < 256 -> 0 <= size <= kv.MAX_VALUE_SIZE ->
  kv.RequestHeader_size + n * kv.SegmentDescriptor_size + size <= bs_size (buffer_pool_ c) ->
  sends c (sgl_message key size n) seq (SendPutSGL c key size n seq).
Proof.
  intros Hw Hc Hn Hz Hs. unfold kv.RequestHeader_size, kv.SegmentDescriptor_size, kv.MAX_VALUE_SIZE in *.
  unfold SendPutSGL. destruct (Z.eqb_spec n 0); [lia|]. apply sending; [done..|]. intros c1 b Hl.
  rewrite (wrap_id 8 n) by (unfold is_u; lia).
  destruct (write_header (mem c1) b (kv.SetPut key size n)) as (m & -> & Hm); [lia|]. sbind.
  pose proof (Z.div_mod size n ltac:(lia)) as Hdm. pose proof (Z.mod_pos_bound size n ltac:(lia)).
  assert (0 <= size / n) by (apply Z.div_pos; lia).
  destruct (write_descriptors_spec (Z.to_nat n) m b 0 0 (size / n) (size mod n) _ ltac:(lia) ltac:(lia) ltac:(lia)
    ltac:(nia) ltac:(by rewrite RequestHeader_bytes_length) Hm ltac:(lia)) as (m1 & -> & Hm1). sbind. cbn zeta in Hm1.
  fold (segments size n) in Hm1. pose proof (sgl_message_length key size n ltac:(lia) ltac:(lia)) as Hlen.
  destruct (buf_write_behind m1 b _ (pattern key size) Hm1) as (m2 & E & Hm2 & _).
  { rewrite <- app_assoc. change (Z.of_nat (length (sgl_message key size n)) <= Buffer.length_ b). lia. }
  rewrite length_app, RequestHeader_bytes_length, descriptors_length in E. unfold segments in E. rewrite segments_of_length in E.
  replace (Z.of_nat (16 + 8 * Z.to_nat n)) with (kv.RequestHeader_size + n * kv.SegmentDescriptor_size) in E
    by (unfold kv.RequestHeader_size, kv.SegmentDescriptor_size; lia). rewrite E. sbind.
  exists m2. unfold sgl_message in *. rewrite <- app_assoc in Hm2. split; [|exact Hm2]. rewrite Hlen. done.
Qed.

(** *** Messages at the server *)

Lemma u8_range x : is_u 8 (u8 x).
Proof. apply (wrap_range 8). lia. Qed.

Lemma put_header_wf key size n :
  is_u 64 key -> 0 <= size <= kv.MAX_VALUE_SIZE -> 0 <= n < 256 -> request_wf (kv.SetPut key size n).
Proof. unfold request_wf, is_u, kv.MAX_VALUE_SIZE. cbn. lia. Qed.

Lemma pattern_u8 key size : Forall (is_u 8) (pattern key size).
Proof. apply Forall_replicate, u8_range. Qed.

Lemma request_header_u8 h : Forall (is_u 8) (kv.RequestHeader_bytes h).
Proof. unfold kv.RequestHeader_bytes. rewrite !Forall_app. split_and!; apply le_bytes_u8. Qed.

Lemma descriptors_u8 l : Forall (is_u 8) (concat (kv.SegmentDescriptor_bytes <$> l)).
Proof.
  apply Forall_concat, Forall_fmap, Forall_true. intros d. unfold compose, kv.SegmentDescriptor_bytes.
  apply Forall_app. split; apply le_bytes_u8.
Qed.

Lemma message_ok room q :
  request_fits room q -> room <= kv.MAX_REQUEST_SIZE -> 
  Forall (is_u 8) (message q) /\ kv.RequestHeader_size <= Z.of_nat (length (message q)) <= kv.MAX_REQUEST_SIZE.
Proof.
  unfold kv.MAX_REQUEST_SIZE, kv.RequestHeader_size, kv.MAX_SEGMENTS, kv.SegmentDescriptor_size, kv.MAX_VALUE_SIZE.
  intros Hf Hr. destruct q as [key|key size|key size n]; cbn [message request_fits] in *;
    unfold kv.RequestHeader_size, kv.MAX_SEGMENTS, kv.SegmentDescriptor_size, kv.MAX_VALUE_SIZE in *.
  - split; [apply request_header_u8|]. unfold get_message. rewrite RequestHeader_bytes_length. lia.
  - split; [apply Forall_app; split; [apply request_header_u8|apply pattern_u8]|]. rewrite put_message_length by lia. lia.
  - split; [unfold sgl_message; rewrite !Forall_app; split_and!; [apply request_header_u8|apply descriptors_u8|apply pattern_u8]|].
    rewrite sgl_message_length by lia. lia.
Qed.

(** The server reads from a message the request that the client wrote into it. *)
Lemma spec_process_message room cap m q :
  request_fits room q -> spec_process cap m (message q) = (response_bytes (spec_request cap m q).1, (spec_request cap m q).2).
Proof.
  intros Hf. unfold spec_process. destruct q as [key|key size|key size n]; cbn [message request_fits spec_request] in *.
  - unfold get_message. rewrite <- (app_nil_r (kv.RequestHeader_bytes (kv.SetGet key))), RequestHeader_of_bytes_app
      by (unfold request_wf, is_u in *; cbn; lia). cbn [kv.rq_op_type kv.rq_key kv.SetGet]. rewrite Z.eqb_refl.
    by destruct (spec_Get _ _ _) as [st v].
  - destruct Hf as [Hk Hs]. unfold put_message_of. rewrite RequestHeader_of_bytes_app by (by apply put_header_wf; [| |lia]).
    cbn [kv.rq_op_type kv.rq_key kv.rq_segment_count kv.rq_value_size kv.SetPut kv.OpType_u8 Z.eqb Pos.eqb].
    fold (put_message_of key size). rewrite put_message_length by lia. unfold kv.RequestHeader_size.
    destruct (Z.ltb_spec (16 + size) (16 + 0 * kv.SegmentDescriptor_size + size)); [lia|].
    rewrite Z.mul_0_l, Z.add_0_r. unfold put_message_of. rewrite drop_app_length' by (by rewrite RequestHeader_bytes_length).
    destruct (spec_Put _ _ _ _ _) as [st m']. unfold response_bytes. cbn [fst snd]. by rewrite app_nil_r.
  - destruct Hf as (Hk & Hs & Hn & _). unfold kv.MAX_SEGMENTS in Hn. unfold sgl_message.
    rewrite RequestHeader_of_bytes_app by (apply put_header_wf; [done|done|lia]).
    cbn [kv.rq_op_type kv.rq_key kv.rq_segment_count kv.rq_value_size kv.SetPut kv.OpType_u8 Z.eqb Pos.eqb].
    fold (sgl_message key size n). rewrite sgl_message_length by lia.
    unfold kv.RequestHeader_size, kv.SegmentDescriptor_size.
    destruct (Z.ltb_spec (16 + n * 8 + size) (16 + n * 8 + size)); [lia|].
    unfold sgl_message. rewrite app_assoc, drop_app_length'.
    2:{ rewrite length_app, RequestHeader_bytes_length, descriptors_length. unfold segments. rewrite segments_of_length. lia. }
    destruct (spec_Put _ _ _ _ _) as [st m']. unfold response_bytes. cbn [fst snd]. by rewrite app_nil_r.
Qed.

Lemma run_request_spec c q seq :
  client_wf c [] -> Connection.state_ (conn_ c) = CONNECTED -> request_fits (bs_size (buffer_pool_ c)) q ->
  sends c (message q) seq (run_request c q seq).
Proof.
  intros Hw Hc Hf. destruct q as [key|key size|key size n]; cbn [message request_fits run_request] in *.
  - by apply SendGet_spec.
  - apply SendPut_spec; [done|done|apply Hf].
  - destruct Hf as (_ & Hs & Hn & Hr). unfold kv.MAX_SEGMENTS in Hn. apply SendPutSGL_spec; [done|done|lia|exact Hs|exact Hr].
Qed.

(** A response fits the buffers of the client. *)
Lemma spec_response_wf cap m q :
  request_fits kv.MAX_RESPONSE_SIZE q ->
  let r := (spec_request cap m q).1 in
  response_wf r.1 /\ Z.of_nat (length (response_bytes r)) <= kv.MAX_RESPONSE_SIZE.
Proof.
  assert (Hput : forall key st, is_u 64 key -> response_wf (kv.SetPutResponse key st)
    /\ Z.of_nat (length (response_bytes (kv.SetPutResponse key st, []))) <= kv.MAX_RESPONSE_SIZE).
  { intros key st Hk. split; [unfold response_wf, is_u in *; destruct st; cbn; lia|]. unfold response_bytes. cbn [fst snd].
    rewrite app_nil_r, ResponseHeader_bytes_length. vm_compute. discriminate. }
  destruct q as [key|key size|key size n]; cbn [spec_request request_fits].
  - intros Hk. pose proof (spec_Get_value m key) as Hv. destruct (spec_Get m key kv.MAX_VALUE_SIZE) as [st v].
    destruct Hv as [Hv _]. unfold response_bytes. cbn [fst snd]. rewrite length_app, ResponseHeader_bytes_length.
    unfold kv.MAX_RESPONSE_SIZE, kv.ResponseHeader_size, kv.MAX_VALUE_SIZE in *.
    split; [unfold response_wf, is_u in *; destruct st; cbn; lia|lia].
  - intros [Hk _]. destruct (spec_Put _ _ _ _ _) as [st m']. by apply Hput.
  - intros [Hk _]. destruct (spec_Put _ _ _ _ _) as [st m']. by apply Hput.
Qed.

(** The memset runs past the buffer when header, descriptors and value do not fit. *)
Lemma SendPutSGL_overflow c key size n seq p b :
  bs_allocate (buffer_pool_ c) = Some (p, b) -> Buffer.IsValid b = true -> 0 <= size ->
  Buffer.length_ b < kv.RequestHeader_size + n * kv.SegmentDescriptor_size + size ->
  SendPutSGL c key size n seq = None.
Proof.
  intros E Hv Hs Hl. unfold SendPutSGL, allocate. rewrite E. sbind. rewrite Hv. cbn [negb]. destruct (n =? 0); [done|].
  destruct (buf_write _ b 0 _) as [m|]; [|done]. sbind. destruct (write_descriptors _ _ _ _ _ _ _) as [m1|]; [|done]. sbind.
  unfold buf_write. rewrite decide_False; [done|]. rewrite pattern_length by done. lia.
Qed.

(** *** Clients that only take buffers *)

Lemma send_tracked_pool c b len seq : buffer_pool_ (send_tracked c b len seq) = buffer_pool_ c.
Proof. unfold send_tracked, conn_send. by destruct (Connection.Send _ _ _ _) as [[h o] st]. Qed.

Lemma PostRecvBuffers_left size k n c :
  has_buffers size (k + n) (buffer_pool_ c) ->
  exists c', PostRecvBuffers c k = Some c' /\ has_buffers size n (buffer_pool_ c').
Proof.
  revert c. induction k as [|k IH]; intros c H; cbn [PostRecvBuffers]; [by exists c|].
  destruct H as (p & b & E & Hv & _ & H). unfold PostRecvBuffer, allocate. rewrite E. sbind. rewrite Hv.
  destruct (Connection.PostRecv _ _ _ _) as [h st]. sbind. by apply IH.
Qed.

Lemma SendGet_left size n c key seq :
  kv.RequestHeader_size <= size -> has_buffers size (S n) (buffer_pool_ c) ->
  exists c', SendGet c key seq = Some c' /\ has_buffers size n (buffer_pool_ c').
Proof.
  intros Hs (p & b & E & Hv & Hl & H). unfold SendGet, allocate. rewrite E. sbind. rewrite Hv. cbn [negb].
  rewrite buf_write_Some by (rewrite ?RequestHeader_bytes_length; unfold kv.RequestHeader_size in *; lia). sbind.
  eexists. split; [done|]. by rewrite send_tracked_pool.
Qed.

(** A PUT of segments that does not fit, among the requests of the first round. *)
Lemma send_requests_overflow size bm draw j n c k :
  has_buffers size (S (Z.to_nat (j - sent k))) (buffer_pool_ c) -> kv.RequestHeader_size <= size ->
  use_sgl bm && (1 <? num_segments bm) = true -> 0 <= value_size bm ->
  size < kv.RequestHeader_size + num_segments bm * kv.SegmentDescriptor_size + value_size bm ->
  sent k <= j < num_operations bm -> j - completed k < MAX_OUTSTANDING -> (draw j).1 = true ->
  (Z.to_nat (j - sent k) < n)%nat -> send_requests bm draw n c k = None.
Proof.
  intros Hb Hs Hsgl Hv Ho Hj Hc Hd. remember (Z.to_nat (j - sent k)) as d eqn:Ed. revert n c k Ed Hb Hj Hc.
  induction d as [|d IH]; intros n c k Ed Hb Hj Hc Hn; (destruct n as [|n]; [lia|]); cbn [send_requests];
    rewrite (proj2 (Z.ltb_lt _ _)) by lia; rewrite (proj2 (Z.ltb_lt _ _)) by lia; cbn [andb];
    destruct (draw (sent k)) as [put key] eqn:Edraw.
  - assert (sent k = j) as Ej by lia. rewrite Ej in Edraw. rewrite Edraw in Hd. cbn [fst] in Hd. subst put.
    unfold send_request. rewrite Hsgl. destruct Hb as (p & b & E & Hv' & Hl & _).
    by rewrite (SendPutSGL_overflow _ _ _ _ _ p b E Hv') by lia.
  - unfold send_request. destruct put.
    + rewrite Hsgl. destruct Hb as (p & b & E & Hv' & Hl & _). by rewrite (SendPutSGL_overflow _ _ _ _ _ p b E Hv') by lia.
    + destruct (SendGet_left size (S d) c key (u32 (sent k)) Hs Hb) as (c1 & -> & Hb1). sbind.
      apply (IH n c1 (count_sent k false)); [cbn; lia|done|cbn; lia|done|lia].
Qed.

(** *** The benchmark *)

Lemma request_wrid_inj o t t' : is_u 16 (Connection.conn_id_ o) -> is_u 32 t -> is_u 32 t' ->
  request_wrid o t = request_wrid o t' -> t = t'.
Proof.
  intros Ho Ht Ht' E. apply (f_equal WrId.GetSlotIndex) in E. unfold request_wrid in E.
  by rewrite !WrId_GetSlotIndex_Encode in E by (done || split; done).
Qed.

(** One signaling decision. *)
Lemma ShouldSignal_count q T G :
  QueuePair.signal_interval (QueuePair.config_ q) * G + QueuePair.unsignaled_count_ q <= T ->
  0 <= QueuePair.unsignaled_count_ q -> 0 <= T < 2 ^ 32 - 1 ->
  0 <= QueuePair.signal_interval (QueuePair.config_ q) * G ->
  let '(q', sig) := QueuePair.ShouldSignal q in
  QueuePair.config_ q' = QueuePair.config_ q /\ 0 <= QueuePair.unsignaled_count_ q'
  /\ QueuePair.signal_interval (QueuePair.config_ q) * (if sig then G + 1 else G) + QueuePair.unsignaled_count_ q' <= T + 1.
Proof.
  intros H Hu HT HG. unfold QueuePair.ShouldSignal. cbn [QueuePair.set_counts QueuePair.unsignaled_count_ QueuePair.config_].
  rewrite (wrap_id 32) by (unfold is_u; lia).
  destruct (Z.leb_spec (QueuePair.signal_interval (QueuePair.config_ q)) (QueuePair.unsignaled_count_ q + 1)).
  - destruct (QueuePair.CanPostSignaled _); cbn [negb]; cbn; split_and!; done || lia.
  - cbn. split_and!; done || lia.
Qed.

Lemma bench_size I cap c k T G : bench_inv I cap c k T G -> Z.of_nat (size T) <= sent k.
Proof.
  intros H. destruct (bi_sent _ _ _ _ _ _ H) as [Hs HT].
  assert (T ⊆ list_to_set (seqZ 0 (sent k))) as Hsub.
  { intros t Ht. apply elem_of_list_to_set, elem_of_seqZ. apply HT in Ht. lia. }
  apply subseteq_size in Hsub. rewrite size_list_to_set, length_seqZ in Hsub by apply NoDup_seqZ. lia.
Qed.

(** A request of the benchmark keeps the invariant. *)
Lemma bench_request I cap c k T G q put :
  bench_inv I cap c k T G -> sent k < 2 ^ 31 -> request_fits (bs_size (buffer_pool_ c)) q -> 0 <= I ->
  exists c' T' G', run_request c q (sent k) = Some c' /\ bench_inv I cap c' (count_sent k put) T' G'.
Proof.
  intros H Hk Hq HI. destruct (bi_conn _ _ _ _ _ _ H) as [Hc Hid].
  destruct (run_request_spec c q (sent k) (bi_wf _ _ _ _ _ _ H) Hc Hq) as (c' & E & Hw' & _ & Hcap & Hroom & Hno).
  exists c'. destruct (bi_sent _ _ _ _ _ _ H) as [Hs HT]. pose proof (bench_size _ _ _ _ _ _ H) as Hsz.
  assert (HT' : sent k ∉ T) by (intros ?%HT; lia).
  destruct (bs_allocate (buffer_pool_ c)) as [[p b]|] eqn:EA.
  2:{ destruct (client_allocate_wf c [] (bi_wf _ _ _ _ _ _ H)) as (? & ? & ? & _). congruence. }
  destruct (Buffer.IsValid b) eqn:Hv.
  2:{ destruct Hno as (N1 & N2 & N3); [intros (p' & b' & E' & Hv'); congruence|].
      exists T, G. split; [done|]. destruct H.
      split; rewrite ?N1, ?N2, ?N3, ?Hcap; try done. cbn [sent count_sent]. split; [lia|]. intros t Ht%HT. lia. }
  destruct Hroom as (b' & _ & R1 & R2 & R3 & _); [by exists p, b|].
  pose proof (ShouldSignal_count (Connection.qp (conn_ c)) (Z.of_nat (size T)) (Z.of_nat (size G))
    ltac:(rewrite (bi_interval _ _ _ _ _ _ H); apply H) (bi_unsignaled _ _ _ _ _ _ H) ltac:(lia)
    ltac:(rewrite (bi_interval _ _ _ _ _ _ H); lia)) as Hsig.
  rewrite (bi_interval _ _ _ _ _ _ H) in Hsig.
  destruct (QueuePair.ShouldSignal (Connection.qp (conn_ c))) as [q' sig] eqn:ES. destruct Hsig as (S1 & S2 & S3).
  exists ({[sent k]} ∪ T), (if sig then {[sent k]} ∪ G else G). split; [done|].
  cbn [fst] in R2. pose proof (bi_sub _ _ _ _ _ _ H) as Hsub.
  assert (HG' : sent k ∉ G) by set_solver.
  assert (Hwr : forall t, request_wrid (conn_ c') t = request_wrid (conn_ c) t) by (by intros t; rewrite R2).
  split.
  - exact Hw'.
  - by rewrite Hcap, (bi_cap _ _ _ _ _ _ H).
  - rewrite R2. cbn [Connection.qp Connection.set_qp]. rewrite S1. by apply H.
  - by rewrite R2.
  - cbn [sent count_sent]. split; [lia|]. intros t [->%elem_of_singleton|Ht%HT]%elem_of_union; lia.
  - destruct sig; set_solver.
  - intros t Ht. rewrite Hwr, R1. destruct (decide (t = sent k)) as [->|Hne]; [by rewrite lookup_insert_eq|].
    assert (Htt : t ∈ T ∖ G) by (destruct sig; set_solver). pose proof (HT t ltac:(set_solver)) as Htr.
    rewrite lookup_insert_ne; [by apply (bi_tracked _ _ _ _ _ _ H)|]. intros Heq.
    apply request_wrid_inj in Heq; unfold is_u; lia || done.
  - rewrite R2. cbn [Connection.qp Connection.set_qp]. rewrite (size_union {[sent k]} T) by set_solver.
    rewrite size_singleton. destruct sig; [rewrite size_union, size_singleton by set_solver|]; lia.
  - by rewrite R2.
  - intros wr Hin Hs'. destruct R3 as [R3|R3]; rewrite R3 in Hin.
    + destruct (bi_posted _ _ _ _ _ _ H wr Hin Hs') as (t & Ht & Et). exists t. rewrite Hwr. split; [destruct sig; set_solver|done].
    + apply elem_of_app in Hin as [Hin| ->%list_elem_of_singleton].
      * destruct (bi_posted _ _ _ _ _ _ H wr Hin Hs') as (t & Ht & Et). exists t. rewrite Hwr. split; [destruct sig; set_solver|done].
      * cbn [send_flags SIGNALED response_wr] in Hs'. rewrite ES in Hs'. cbn [snd] in Hs'. subst sig.
        exists (sent k). rewrite Hwr. split; [set_solver|done].
  - pose proof (bi_count _ _ _ _ _ _ H). rewrite size_union, size_singleton by set_solver.
    destruct R3 as [->| ->]; [|rewrite length_app; simpl]; lia.
Qed.

Lemma drawn_spec bm c do_put key seq : send_request bm c do_put key seq = run_request c (drawn bm do_put key) seq.
Proof. unfold send_request, drawn. destruct do_put; [|done]. by destruct (_ && _). Qed.

Lemma drawn_fits room bm draw do_put i :
  benchmark_ok kv.MAX_RESPONSE_SIZE bm draw -> kv.MAX_RESPONSE_SIZE <= room -> request_fits room (drawn bm do_put (draw i).2).
Proof.
  intros (_ & Hv & Hk & Hs) Hr. apply IsValidValueSize_spec in Hv as [Hv _]. unfold kv.MIN_VALUE_SIZE in Hv.
  unfold drawn. destruct do_put; [|by apply Hk]. destruct (use_sgl bm && (1 <? num_segments bm)) eqn:Eu.
  - apply andb_true_iff in Eu as [_ Eu%Z.ltb_lt]. cbn [request_fits]. split; [apply Hk|]. destruct (Hs eq_refl) as [H1 H2]. lia.
  - cbn [request_fits]. split; [apply Hk|lia].
Qed.

Lemma send_requests_inv I cap bm draw n c k T G :
  bench_inv I cap c k T G -> benchmark_ok kv.MAX_RESPONSE_SIZE bm draw -> 0 <= I ->
  exists c' k' T' G', send_requests bm draw n c k = Some (c', k') /\ bench_inv I cap c' k' T' G' /\ completed k' = completed k.
Proof.
  intros H Hbm HI. revert c k T G H. induction n as [|n IH]; intros c k T G H; cbn [send_requests]; [by exists c, k, T, G|].
  destruct (Z.ltb_spec (sent k) (num_operations bm)) as [Hlt|]; cbn [andb]; [|by exists c, k, T, G].
  destruct (_ <? MAX_OUTSTANDING); [|by exists c, k, T, G].
  destruct (draw (sent k)) as [put key] eqn:Ed. rewrite drawn_spec.
  pose proof (proj1 Hbm) as Hn. destruct (bi_sent _ _ _ _ _ _ H) as [Hs _]. rewrite (wrap_id 32) by (unfold is_u; lia).
  pose proof (drawn_fits (bs_size (buffer_pool_ c)) bm draw put (sent k) Hbm
    (proj1 (cw_size _ _ (bi_wf _ _ _ _ _ _ H)))) as Hf. rewrite Ed in Hf. cbn [snd] in Hf.
  destruct (bench_request I cap c k T G _ put H ltac:(lia) Hf HI) as (c1 & T1 & G1 & -> & H1). sbind.
  destruct (IH c1 (count_sent k put) T1 G1 H1) as (c' & k' & T' & G' & E & H' & Hc). exists c', k', T', G'.
  split; [exact E|]. split; [exact H'|]. by rewrite Hc.
Qed.

Lemma send_requests_sent bm draw n c k c' k' :
  send_requests bm draw n c k = Some (c', k') -> sent k <= num_operations bm -> sent k' <= num_operations bm.
Proof.
  revert c k. induction n as [|n IH]; intros c k; cbn [send_requests]; [by intros [= <- <-]|].
  destruct (Z.ltb_spec (sent k) (num_operations bm)); cbn [andb]; [|by intros [= <- <-]].
  destruct (_ <? MAX_OUTSTANDING); [|by intros [= <- <-]]. destruct (draw (sent k)) as [put key].
  intros (c1 & _ & E)%bind_Some _. eapply IH; [exact E|]. cbn. lia.
Qed.

Lemma on_recv_sent c k wcs c' k' : on_recv_completions c k wcs = Some (c', k') -> sent k' = sent k.
Proof.
  revert c k. induction wcs as [|wc wcs IH]; intros c k; cbn [on_recv_completions]; [by intros [= <- <-]|].
  intros ([c1 k1] & E1 & E)%bind_Some. rewrite (IH _ _ E). unfold on_recv_completion in E1.
  destruct (_ =? _); [|by injection E1 as <- <-]. destruct (posted_recv_buffers_ c !! _); [|by injection E1 as <- <-].
  apply bind_Some in E1 as (l & _ & (p & _ & [= <- <-])%bind_Some). done.
Qed.

(** The invariant only looks at the wr_ids, the connection and the pool. *)
Lemma bench_frame I cap c k T G c' k' :
  bench_inv I cap c k T G -> client_wf c' [] -> bs_capacity (buffer_pool_ c') = bs_capacity (buffer_pool_ c) ->
  conn_ c' = conn_ c -> posted (hw c') = posted (hw c) -> sent k' = sent k ->
  (forall t, t ∈ T ∖ G -> is_Some (posted_send_buffers_ c' !! request_wrid (conn_ c) t)) ->
  bench_inv I cap c' k' T G.
Proof.
  intros H Hw Hcap Hc Hp Hk Ht. destruct H. split; rewrite ?Hc, ?Hp, ?Hk, ?Hcap; try done.
Qed.

Lemma on_send_completions_inv I cap c k T G wcs :
  bench_inv I cap c k T G -> sent k < 2 ^ 31 -> sends_ok c wcs ->
  exists c', on_send_completions c wcs = Some c' /\ bench_inv I cap c' k T G /\ hw c' = hw c.
Proof.
  intros H Hk. revert c H. induction wcs as [|wc wcs IH]; intros c H Hok; cbn [on_send_completions]; [by exists c|].
  assert (exists c1, on_send_completion c wc = Some c1 /\ bench_inv I cap c1 k T G /\ hw c1 = hw c) as (c1 & -> & H1 & E1).
  { unfold on_send_completion. destruct (posted_send_buffers_ c !! wc_wr_id wc) as [b|] eqn:Hb; [|by exists c].
    destruct (bi_wf _ _ _ _ _ _ H) as [(leaked & held & Hp & Hh) Hsz].
    destruct (client_free_wf c (posted_recv_buffers_ c) (delete (wc_wr_id wc) (posted_send_buffers_ c)) b [] leaked held)
      as (p & E & Hw); [|done|done|].
    { cbn [app] in *. rewrite Hp. unfold send_list. rewrite (values_delete _ _ _ Hb). unfold recv_list.
      cbn [app]. by rewrite <- Permutation_middle. }
    rewrite E. sbind. eexists. split; [done|]. split; [|done].
    apply (bench_frame I cap c k T G); [done|exact Hw|exact (bs_capacity_free _ _ _ E)|done..|].
    intros t Ht. cbn [posted_send_buffers_ set_buffers]. rewrite lookup_delete_ne; [by apply (bi_tracked _ _ _ _ _ _ H)|].
    destruct (Hok wc) as (wr & Hin & Ew & Hs); [left|].
    destruct (bi_posted _ _ _ _ _ _ H wr Hin Hs) as (g & Hg & Eg). rewrite <- Ew, Eg. intros Heq.
    destruct (bi_sent _ _ _ _ _ _ H) as [_ HT]. pose proof (bi_sub _ _ _ _ _ _ H) as Hsub.
    pose proof (HT g ltac:(set_solver)). pose proof (HT t ltac:(set_solver)).
    apply request_wrid_inj in Heq; [|apply H|unfold is_u; lia|unfold is_u; lia]. set_solver. }
  sbind. destruct (IH c1 H1) as (c' & E & H' & E'); [intros w Hw; rewrite E1; apply Hok; by right|].
  exists c'. split; [done|]. split; [done|congruence].
Qed.

Lemma arrive_all_inv I cap c k T G ms :
  bench_inv I cap c k T G -> arrivals_ok ms ->
  exists c', arrive_all c ms = Some c' /\ bench_inv I cap c' k T G /\ hw c' = hw c.
Proof.
  intros H Hok. revert c H. induction Hok as [|[w msg] ms Hm _ IH]; intros c H; cbn [arrive_all]; [by exists c|].
  assert (exists c1, arrive c w msg = Some c1 /\ bench_inv I cap c1 k T G /\ hw c1 = hw c) as (c1 & -> & H1 & E1).
  { unfold arrive. destruct (posted_recv_buffers_ c !! w) as [b|] eqn:Hb; [|by exists c].
    destruct (bi_wf _ _ _ _ _ _ H) as [(leaked & held & Hp & Hh) Hsz].
    destruct (bs_held_wf _ _ b Hh) as [_ Hl].
    { rewrite Hp. cbn [app]. unfold recv_list. rewrite (values_delete _ _ _ Hb). left. }
    cbn [snd] in Hm. rewrite buf_write_Some by lia. sbind. eexists. split; [done|]. split; [|done].
    apply (bench_frame I cap c k T G); [done| |done..|].
    - split; [by exists leaked, held|done].
    - intros t Ht. by apply (bi_tracked _ _ _ _ _ _ H). }
  sbind. destruct (IH c1 H1) as (c' & E & H' & E'). exists c'. split; [done|]. split; [done|congruence].
Qed.

Lemma on_recv_completions_inv I cap c k T G wcs :
  bench_inv I cap c k T G ->
  exists c' k', on_recv_completions c k wcs = Some (c', k') /\ bench_inv I cap c' k' T G /\ hw c' = hw c
    /\ completed k <= completed k' <= completed k + Z.of_nat (length wcs).
Proof.
  revert c k. induction wcs as [|wc wcs IH]; intros c k H; cbn [on_recv_completions].
  { exists c, k. split_and!; [done|done|done|lia|simpl; lia]. }
  assert (exists c1 k1, on_recv_completion c k wc = Some (c1, k1) /\ bench_inv I cap c1 k1 T G /\ hw c1 = hw c
    /\ completed k <= completed k1 <= completed k + 1) as (c1 & k1 & -> & H1 & E1 & L1).
  { unfold on_recv_completion. destruct (_ =? _); [|by exists c, k; split_and!; [..|lia|lia]].
    destruct (posted_recv_buffers_ c !! wc_wr_id wc) as [b|] eqn:Hb.
    2:{ exists c, (count_completed k). split_and!; [done| |done|cbn; lia..].
        apply (bench_frame I cap c k T G); [done|apply H|done..|apply H]. }
    destruct (bi_wf _ _ _ _ _ _ H) as [(leaked & held & Hp & Hh) Hsz].
    destruct (bs_held_wf _ _ b Hh) as [_ Hl].
    { rewrite Hp. cbn [app]. unfold recv_list. rewrite (values_delete _ _ _ Hb). left. }
    unfold kv.MAX_RESPONSE_SIZE, kv.ResponseHeader_size, kv.MAX_VALUE_SIZE in Hsz. unfold kv.ResponseHeader_size.
    rewrite buf_read_Some by lia. sbind.
    destruct (client_free_wf c (delete (wc_wr_id wc) (posted_recv_buffers_ c)) (posted_send_buffers_ c) b [] leaked held)
      as (p & E & Hw); [|done|unfold kv.MAX_RESPONSE_SIZE, kv.ResponseHeader_size, kv.MAX_VALUE_SIZE; lia|].
    { cbn [app] in *. rewrite Hp. unfold recv_list. by rewrite (values_delete _ _ _ Hb). }
    rewrite E. sbind. do 2 eexists. split; [done|]. split; [|cbn; split; [done|lia]].
    apply (bench_frame I cap c k T G); [done|exact Hw|exact (bs_capacity_free _ _ _ E)|done..|apply H]. }
  sbind. destruct (IH c1 k1 H1) as (c' & k' & E & H' & E' & L'). exists c', k'. cbn [length]. split_and!; [done|done|congruence|lia..].
Qed.

Lemma client_post_recv c n :
  client_wf c [] ->
  exists c', PostRecvBuffers c n = Some c' /\ client_wf c' [] /\ conn_ c' = conn_ c
    /\ posted_send_buffers_ c' = posted_send_buffers_ c /\ bs_capacity (buffer_pool_ c') = bs_capacity (buffer_pool_ c)
    /\ posted (hw c') = posted (hw c) /\ bs_size (buffer_pool_ c') = bs_size (buffer_pool_ c).
Proof.
  revert c. induction n as [|n IH]; intros c Hw; cbn [PostRecvBuffers]; [by exists c|].
  assert (exists c1, PostRecvBuffer c = Some c1 /\ client_wf c1 [] /\ conn_ c1 = conn_ c
    /\ posted_send_buffers_ c1 = posted_send_buffers_ c /\ bs_capacity (buffer_pool_ c1) = bs_capacity (buffer_pool_ c)
    /\ posted (hw c1) = posted (hw c) /\ bs_size (buffer_pool_ c1) = bs_size (buffer_pool_ c))
    as (c1 & -> & Hw1 & A1 & A2 & A3 & A4 & A5).
  { unfold PostRecvBuffer, allocate. destruct (client_allocate_wf c [] Hw) as (p & b & E & Hb).
    pose proof (bs_capacity_allocate _ _ _ E) as Hcap.
    pose proof (bs_size_allocate _ _ _ E) as Hsz. rewrite E. sbind. cbn zeta in Hb. destruct (Buffer.IsValid b).
    - destruct Hb as [Hb _]. unfold Connection.PostRecv, QueuePair.PostRecv.
      match goal with |- context [ibv_post_recv ?h ?q ?w] =>
        pose proof (posted_post_recv h q w) as Hp; destruct (ibv_post_recv h q w) as [h' ret] end. cbn [fst] in Hp.
      match goal with |- context [track_recv ?c0 ?w b] => pose proof (client_track_recv_wf c0 [] w b Hb) as Hw' end.
      destruct (negb (ret =? 0)); eexists; (split; [done|]); (split; [by destruct Hw'|]); by split_and!.
    - eexists. split; [done|]. split; [exact Hb|]. by split_and!. }
  sbind. destruct (IH c1 Hw1) as (c' & E & Hw' & B1 & B2 & B3 & B4 & B5). exists c'. split; [done|].
  split; [done|]. split_and!; congruence.
Qed.

Lemma client_post_recv_inv I cap c k T G n :
  bench_inv I cap c k T G ->
  exists c', PostRecvBuffers c n = Some c' /\ bench_inv I cap c' k T G /\ posted (hw c') = posted (hw c).
Proof.
  intros H. destruct (client_post_recv c n (bi_wf _ _ _ _ _ _ H)) as (c' & E & Hw & A1 & A2 & A3 & A4 & _).
  exists c'. split; [done|]. split; [|done]. apply (bench_frame I cap c k T G); try done. rewrite A2. apply H.
Qed.

(** Requests that were not signaled fill the pool. *)
Lemma bench_bound I cap c k T G :
  bench_inv I cap c k T G -> sent k < 2 ^ 32 -> 0 <= I -> (I - 1) * Z.of_nat (size T) <= I * cap.
Proof.
  intros H Hk HI. destruct (bi_sent _ _ _ _ _ _ H) as [_ HT]. pose proof (bi_sub _ _ _ _ _ _ H) as Hsub.
  assert (Hle : (size (T ∖ G) <= size (posted_send_buffers_ c))%nat).
  { rewrite <- size_dom.
    assert (Hnd : NoDup (request_wrid (conn_ c) <$> elements (T ∖ G))).
    { apply NoDup_fmap_2_strong; [|apply NoDup_elements]. intros x y Hx%elem_of_elements Hy%elem_of_elements.
      pose proof (HT x ltac:(set_solver)). pose proof (HT y ltac:(set_solver)).
      apply request_wrid_inj; [apply H|unfold is_u; lia|unfold is_u; lia]. }
    assert (list_to_set (request_wrid (conn_ c) <$> elements (T ∖ G)) ⊆ dom (posted_send_buffers_ c)) as Hs%subseteq_size.
    { intros w (t & -> & Ht%elem_of_elements)%elem_of_list_to_set%list_elem_of_fmap. apply elem_of_dom.
      by apply (bi_tracked _ _ _ _ _ _ H). }
    rewrite size_list_to_set, length_fmap in Hs by done. exact Hs. }
  rewrite size_difference in Hle by done.
  assert (Hcap : Z.of_nat (size (posted_send_buffers_ c)) <= cap).
  { destruct (bi_wf _ _ _ _ _ _ H) as [(leaked & held & Hp & Hh) _].
    pose proof (bs_held_length _ _ Hh) as Hl. rewrite (bi_cap _ _ _ _ _ _ H), Hp in Hl. cbn [app] in Hl.
    rewrite !length_app in Hl. unfold send_list in Hl. rewrite length_fmap, length_map_to_list in Hl. lia. }
  pose proof (bi_signal _ _ _ _ _ _ H). pose proof (bi_unsignaled _ _ _ _ _ _ H). nia.
Qed.

Lemma round_inv I cap bm draw c k T G r rs :
  bench_inv I cap c k T G -> benchmark_ok kv.MAX_RESPONSE_SIZE bm draw -> 0 <= I -> sent k <= num_operations bm ->
  device_ok bm draw c k (r :: rs) ->
  exists c' k' T' G', round bm draw c k r = Some (c', k') /\ bench_inv I cap c' k' T' G'
    /\ sent k' <= num_operations bm /\ completed k' <= Z.of_nat (length (posted (hw c'))) /\ device_ok bm draw c' k' rs.
Proof.
  intros H Hbm HI Hle [Hdev Hrest]. unfold round in *. pose proof (proj1 Hbm) as Hn.
  destruct (send_requests_inv I cap bm draw (Z.to_nat (num_operations bm - sent k)) c k T G H Hbm HI)
    as (c1 & k1 & T1 & G1 & E1 & H1 & Hk1).
  assert (Hle1 : sent k1 <= num_operations bm) by (eapply send_requests_sent; [exact E1|exact Hle]).
  rewrite E1 in *. destruct Hdev as (D1 & D2 & D3). cbn [mbind option_bind] in Hrest |- *.
  destruct (on_send_completions_inv I cap c1 k1 T1 G1 (send_wcs r) H1 ltac:(lia) D1) as (c2 & E2 & H2 & P2).
  rewrite E2 in *. cbn [mbind option_bind] in Hrest |- *.
  destruct (arrive_all_inv I cap c2 k1 T1 G1 (arrivals r) H2 D2) as (c3 & E3 & H3 & P3).
  rewrite E3 in *. cbn [mbind option_bind] in Hrest |- *.
  destruct (on_recv_completions_inv I cap c3 k1 T1 G1 (recv_wcs r) H3) as (c4 & k4 & E4 & H4 & P4 & L4).
  assert (Hs4 : sent k4 = sent k1) by (eapply on_recv_sent; exact E4).
  rewrite E4 in *. cbn [mbind option_bind] in Hrest |- *.
  destruct (_ <? 32).
  - destruct (client_post_recv_inv I cap c4 k4 T1 G1 (Z.to_nat (32 - Z.of_nat (base.size (posted_recv_buffers_ c4)))) H4)
      as (c5 & E5 & H5 & P5). rewrite E5 in *. cbn [mbind option_bind] in Hrest |- *.
    exists c5, k4, T1, G1. split_and!; [done|done|lia| |done]. rewrite P5, P4, P3, P2. lia.
  - exists c4, k4, T1, G1. split_and!; [done|done|lia| |done]. rewrite P4, P3, P2. lia.
Qed.

Lemma rounds_inv I cap bm draw rs c k T G :
  bench_inv I cap c k T G -> benchmark_ok kv.MAX_RESPONSE_SIZE bm draw -> 1 <= I -> sent k <= num_operations bm ->
  completed k <= Z.of_nat (length (posted (hw c))) -> device_ok bm draw c k rs ->
  exists c' k' ended, rounds bm draw c k rs = Some (c', k', ended) /\ (I - 1) * completed k' <= I * cap
    /\ (Forall (fun r => running r = true) rs -> ended = (num_operations bm <=? completed k')).
Proof.
  intros H Hbm HI. revert c k T G H. induction rs as [|r rs IH]; intros c k T G H Hle Hc Hdev; cbn [rounds].
  - do 3 eexists. split; [done|]. split; [|done]. pose proof (proj1 Hbm).
    pose proof (bench_bound I cap c k T G H ltac:(lia) ltac:(lia)). pose proof (bi_count _ _ _ _ _ _ H).
    etrans; [|done]. apply Z.mul_le_mono_nonneg_l; lia.
  - destruct (running r && (completed k <? num_operations bm)) eqn:Er.
    + destruct (round_inv I cap bm draw c k T G r rs H Hbm ltac:(lia) Hle Hdev) as (c1 & k1 & T1 & G1 & -> & H1 & Hle1 & Hc1 & Hd1). sbind.
      destruct (IH c1 k1 T1 G1 H1 Hle1 Hc1 Hd1) as (c' & k' & e & E & B & F). exists c', k', e. split; [done|]. split; [done|].
      intros Hr. apply F. by inversion Hr.
    + do 3 eexists. split; [done|]. pose proof (proj1 Hbm). split.
      { pose proof (bench_bound I cap c k T G H ltac:(lia) ltac:(lia)). pose proof (bi_count _ _ _ _ _ _ H).
        etrans; [|done]. apply Z.mul_le_mono_nonneg_l; lia. }
      intros Hr. inversion Hr as [|? ? Hr1 _]; subst. rewrite Hr1 in Er. cbn [andb] in Er. apply Z.ltb_ge in Er.
      symmetry. by apply Z.leb_le.
Qed.

(** A client that has sent nothing runs any benchmark whose requests fit. *)
Lemma RunBenchmark_ok bm draw rs c :
  client_wf c [] -> Connection.state_ (conn_ c) = CONNECTED -> is_u 16 (Connection.conn_id_ (conn_ c)) ->
  posted (hw c) = [] -> QueuePair.unsignaled_count_ (Connection.qp (conn_ c)) = 0 ->
  let interval := QueuePair.signal_interval (QueuePair.config_ (Connection.qp (conn_ c))) in
  1 <= interval -> benchmark_ok kv.MAX_RESPONSE_SIZE bm draw -> device_ok bm draw c Counters_zero rs ->
  exists c' k' ended, RunBenchmark bm draw c rs = Some (c', k', ended)
    /\ (interval - 1) * completed k' <= interval * bs_capacity (buffer_pool_ c)
    /\ (Forall (fun r => running r = true) rs -> ended = (num_operations bm <=? completed k')).
Proof.
  intros Hw Hc Hid Hp Hu interval HI Hbm Hdev. unfold RunBenchmark. destruct Hbm as (Hnum & Hv & Hbm). rewrite Hv. cbn [negb].
  assert (H : bench_inv interval (bs_capacity (buffer_pool_ c)) c Counters_zero ∅ ∅).
  { constructor; [done|done|done|done| |done| | | | |].
    - split; [done|]. intros t Ht. set_solver.
    - intros t Ht. set_solver.
    - rewrite size_empty. lia.
    - rewrite Hu. lia.
    - intros wr. rewrite Hp. intros Hin. by apply elem_of_nil in Hin.
    - by rewrite Hp. }
  exact (rounds_inv interval _ bm draw rs c Counters_zero ∅ ∅ H (conj Hnum (conj Hv Hbm)) HI ltac:(cbn; lia) ltac:(cbn; lia) Hdev).
Qed.

(** The answer to a request, from its arrival on. *)
Lemma book_response c k cap m q wrid b byte_len imm :
  client_wf c [] -> request_fits kv.MAX_RESPONSE_SIZE q -> posted_recv_buffers_ c !! wrid = Some b ->
  let response := (spec_request cap m q).1 in
  let st := kv.rs_status response.1 in
  exists c1 c' k', arrive c wrid (response_bytes response) = Some c1
    /\ on_recv_completion c1 k {| wc_wr_id := wrid; wc_status := IBV_WC_SUCCESS; wc_byte_len := byte_len; wc_imm_data := imm |}
       = Some (c', k')
    /\ client_wf c' [] /\ posted_recv_buffers_ c' = delete wrid (posted_recv_buffers_ c)
    /\ conn_ c' = conn_ c /\ sent k' = sent k /\ completed k' = completed k + 1
    /\ match q with
       | QGet key =>
           gets_success k' = gets_success k + (if decide (st = 0) then 1 else 0)
           /\ gets_not_found k' = gets_not_found k + (if decide (st = 1) then 1 else 0)
           /\ puts_success k' = puts_success k
       | _ => puts_success k' = puts_success k + (if decide (st = 0) then 1 else 0)
              /\ gets_success k' = gets_success k /\ gets_not_found k' = gets_not_found k
       end.
Proof.
  intros Hw Hf Hb response st. destruct Hw as [(leaked & held & Hp & Hh) Hsz].
  destruct (bs_held_wf _ _ b Hh) as [_ Hl].
  { rewrite Hp. cbn [app]. unfold recv_list. rewrite (values_delete _ _ _ Hb). left. }
  destruct (spec_response_wf cap m q Hf) as [Hrw Hrl]. fold response in Hrw, Hrl.
  unfold kv.MAX_RESPONSE_SIZE, kv.ResponseHeader_size, kv.MAX_VALUE_SIZE in Hsz, Hrl.
  unfold arrive. rewrite Hb, buf_write_Some by lia. sbind. rewrite Z.add_0_r.
  exists (set_mem c (store_bytes (mem c) (Buffer.addr_ b) (response_bytes response))).
  unfold on_recv_completion. cbn [wc_status wc_wr_id posted_recv_buffers_ set_mem]. rewrite Z.eqb_refl, Hb.
  unfold kv.ResponseHeader_size. rewrite buf_read_Some by lia. sbind.
  destruct (client_free_wf c (delete wrid (posted_recv_buffers_ c)) (posted_send_buffers_ c) b [] leaked held)
    as (p & E & Hw); [|done|unfold kv.MAX_RESPONSE_SIZE, kv.ResponseHeader_size, kv.MAX_VALUE_SIZE; lia|].
  { cbn [app] in *. rewrite Hp. unfold recv_list. by rewrite (values_delete _ _ _ Hb). }
  cbn [buffer_pool_ set_mem]. rewrite E. sbind. do 2 eexists. split; [reflexivity|]. split; [reflexivity|].
  split; [by destruct Hw|]. split; [done|]. split; [done|].
  assert (Eh : kv.ResponseHeader_of_bytes (range (store_bytes (mem c) (Buffer.addr_ b) (response_bytes response))
                 (Buffer.addr_ b + 0) (Z.to_nat 16)) = response.1).
  { rewrite Z.add_0_r, <- (range_take _ _ (length (response_bytes response))).
    - rewrite range_store. unfold response_bytes. rewrite take_app_length' by (by rewrite ResponseHeader_bytes_length).
      rewrite <- (app_nil_r (kv.ResponseHeader_bytes _)). by apply ResponseHeader_of_bytes_app.
    - unfold response_bytes. rewrite length_app, ResponseHeader_bytes_length. lia. }
  cbn [mem set_mem]. rewrite Eh. subst st response.
  destruct q as [key|key size|key size n]; cbn [spec_request] in *.
  - destruct (spec_Get m key kv.MAX_VALUE_SIZE) as [st v]. destruct st; repeat case_decide; cbn in *; lia.
  - destruct (spec_Put cap m key (pattern key size) size) as [st m']. destruct st; repeat case_decide; cbn in *; lia.
  - destruct (spec_Put cap m key (pattern key size) size) as [st m']. destruct st; repeat case_decide; cbn in *; lia.
Qed.

(** *** Connecting *)

Section connecting.
Context {OS : Type} `{!Sockets OS}.
Variables (pad1 : list Z) (pad2 : Z) (pad3 : list Z).

(** What a connected client is. *)
Definition connected (h : HW) (create_pool : LocalBufferPool.BufferPoolConfig -> Result P) (conn_result : Result Connection) (c : KVClient HW P) : Prop :=
  client_wf c [] /\ Connection.state_ (conn_ c) = CONNECTED /\ posted_send_buffers_ c = ∅ /\ posted (hw c) = posted h
  /\ exists o, conn_result = RVal o /\ Connection.qp (conn_ c) = Connection.qp o
       /\ Connection.conn_id_ (conn_ c) = Connection.conn_id_ o
       /\ exists p, create_pool bp_config = RVal p /\ bs_size (buffer_pool_ c) = bs_size p.

Lemma Connect_total (h : HW) m (os : OS) host port device pd send_cq recv_cq (create_pool : LocalBufferPool.BufferPoolConfig -> Result P)
    conn_result local_params :
  working_pool create_pool bp_config ->
  exists n os' r, (forall fuel, (n <= fuel)%nat ->
      Connect pad1 pad2 pad3 fuel h m os host port device pd send_cq recv_cq create_pool conn_result local_params = Some (os', r))
    /\ open_fds os' = open_fds os
    /\ match r with None => True | Some c => connected h create_pool conn_result c end.
Proof.
  intros Hp. unfold Connect.
  assert (Hno : exists n os' r, (forall fuel, (n <= fuel)%nat -> Some (os, None) = Some (os', r)) /\ open_fds os' = open_fds os
    /\ match r with None => True | Some c => connected h create_pool conn_result c end) by (by exists O, os, None).
  destruct device as [device|], pd as [pd|], send_cq as [sq|], recv_cq as [rq|], (create_pool bp_config) as [pool|] eqn:Epool;
    try exact Hno. clear Hno.
  destruct (Hp pool Epool) as [Hheld Hsize].
  pose proof (Connect_opens os host port 5000) as Ho. destruct (TcpHandshakeChannel.Connect os host port 5000) as [os1 [ch|st]].
  2:{ by exists O, os1, None. }
  destruct Ho as (Hfd & Hnew & Ho).
  assert (Hclose : forall os2, open_fds os2 = open_fds os1 -> open_fds (TcpHandshakeChannel.Close os2 ch).1 = open_fds os).
  { intros os2 E. rewrite Close_fds by done. set_solver. }
  destruct conn_result as [o|st]; [|by exists O, (TcpHandshakeChannel.Close os1 ch).1, None; auto].
  destruct local_params as [params|st]; [|by exists O, (TcpHandshakeChannel.Close os1 ch).1, None; auto].
  destruct (Receive_total os1 ch) as (os2 & st2 & data & E2). pose proof (Receive_fds _ _ _ _ _ _ (E2 _ (le_n _))) as F2.
  set (msg := HandshakeMessage.bytes _ _ _ _).
  destruct (Send_total os2 ch msg) as (os3 & st3 & E3). pose proof (Send_fds _ _ _ _ _ _ (E3 _ (le_n _))) as F3.
  exists (Nat.max (128 + stalls os1) (length msg + stalls os2)).
  destruct (status_ok st2) eqn:H2.
  2:{ exists (TcpHandshakeChannel.Close os2 ch).1, None. split; [|auto].
      intros fuel Hf. rewrite E2 by lia. sbind. rewrite H2. reflexivity. }
  destruct (status_ok st3) eqn:H3.
  2:{ exists (TcpHandshakeChannel.Close os3 ch).1, None. split; [|split; [apply Hclose; congruence|done]].
      intros fuel Hf. rewrite E2 by lia. sbind. rewrite H2. cbn [negb]. rewrite E3 by lia. sbind. rewrite H3. reflexivity. }
  set (remote := HandshakeMessage.qp_params (HandshakeMessage.of_bytes data)).
  pose proof (Connect_result h o remote) as Hres. pose proof (Connect_conn_id h o remote) as Hid.
  pose proof (proj1 (connection_frame posted h o remote posted_modify)) as Hpost.
  destruct (Connection.Connect h o remote) as [[h' o'] st4] eqn:E4. cbn [fst snd] in Hid, Hpost. destruct Hres as [Hst Hqp].
  exists (TcpHandshakeChannel.Close os3 ch).1. destruct (status_ok st4) eqn:H4.
  2:{ exists None. split; [|split; [apply Hclose; congruence|done]]. intros fuel Hf. rewrite E2 by lia. sbind. rewrite H2.
      cbn [negb]. rewrite E3 by lia. sbind. rewrite H3. cbn [negb]. fold remote. rewrite E4, H4. reflexivity. }
  destruct (client_post_recv {| hw := h'; mem := m; buffer_pool_ := pool; conn_ := o'; posted_recv_buffers_ := ∅;
    posted_send_buffers_ := ∅ |} 64) as (c & E5 & Hw & Hc & Hsend & _ & Hpc & Hs).
  { split; [by exists [], []|done]. }
  exists (Some c). split; [|split; [apply Hclose; congruence|]].
  - intros fuel Hf. rewrite E2 by lia. sbind. rewrite H2. cbn [negb].
    rewrite E3 by lia. sbind. rewrite H3. cbn [negb]. fold remote. rewrite E4, H4. cbn [negb]. rewrite E5. reflexivity.
  - cbn [conn_ hw buffer_pool_ posted_send_buffers_] in Hc, Hpc, Hs, Hsend. unfold connected. rewrite Hc, Hpc, Hs.
    split_and!; [done|by apply Hst|done|done|]. exists o. split_and!; try done. by exists pool.
Qed.

Lemma Connect_mono f f' (h : HW) m (os : OS) host port device pd send_cq recv_cq
    (create_pool : LocalBufferPool.BufferPoolConfig -> Result P) conn_result local_params r :
  (f <= f')%nat ->
  Connect pad1 pad2 pad3 f h m os host port device pd send_cq recv_cq create_pool conn_result local_params = Some r ->
  Connect pad1 pad2 pad3 f' h m os host port device pd send_cq recv_cq create_pool conn_result local_params = Some r.
Proof.
  intros Hf. unfold Connect. destruct device, pd, send_cq, recv_cq, (create_pool bp_config); try done.
  destruct (TcpHandshakeChannel.Connect os host port 5000) as [os1 [ch|]]; [|done].
  destruct conn_result; [|done]. destruct local_params; [|done].
  intros ([[os2 st2] data] & E2 & E)%bind_Some. rewrite (Receive_mono _ _ _ _ _ Hf E2). sbind. revert E.
  destruct (negb (status_ok st2)); [done|]. intros ([os3 st3] & E3 & E)%bind_Some.
  rewrite (Send_mono _ _ _ _ _ _ Hf E3). by sbind.
Qed.

(** A client that has just connected has only taken its receive buffers. *)
Lemma Connect_left f (h : HW) m (os : OS) host port device pd send_cq recv_cq
    (create_pool : LocalBufferPool.BufferPoolConfig -> Result P) conn_result local_params os' c size n p :
  Connect pad1 pad2 pad3 f h m os host port device pd send_cq recv_cq create_pool conn_result local_params = Some (os', Some c) ->
  create_pool bp_config = RVal p -> has_buffers size (64 + n) p -> has_buffers size n (buffer_pool_ c).
Proof.
  intros E Ep Hb. revert E. unfold Connect. rewrite Ep. destruct device, pd, send_cq, recv_cq; try done.
  destruct (TcpHandshakeChannel.Connect os host port 5000) as [os1 [ch|]]; [|done].
  destruct conn_result; [|done]. destruct local_params; [|done].
  intros ([[os2 st2] data] & _ & E)%bind_Some. revert E.
  destruct (negb (status_ok st2)); [done|]. intros ([os3 st3] & _ & E)%bind_Some. revert E.
  destruct (negb (status_ok st3)); [done|]. destruct (Connection.Connect _ _ _) as [[h' o'] st4].
  destruct (negb (status_ok st4)); [done|].
  intros (c' & E & [= _ <-])%bind_Some.
  match type of E with PostRecvBuffers ?c0 _ = _ => destruct (PostRecvBuffers_left size 64 n c0 Hb) as (c2 & E2 & H2) end.
  rewrite E in E2. by injection E2 as <-.
Qed.

End connecting.

End lemmas.

(** *** An example client

    Two receive buffers posted, two left for requests. *)

Section example.
Import KVClient.

(** Four buffers of [MAX_RESPONSE_SIZE] bytes. *)
Definition client_pool : LocalBufferPool.LocalBufferPool :=
  {| LocalBufferPool.base_addr_ := 65536; LocalBufferPool.total_size_ := 262208;
     LocalBufferPool.offset_ring_ := [0; 65552; 131104; 196656]; LocalBufferPool.head_ := 2;
     LocalBufferPool.tail_ := 0; LocalBufferPool.count_ := 2; LocalBufferPool.buffer_size_ := 65552;
     LocalBufferPool.buffer_count_ := 4; LocalBufferPool.policy_ := FIFO; LocalBufferPool.lkey_ := 7;
     LocalBufferPool.rkey_ := 8 |}.

Definition client_buffer1 : Buffer := {| Buffer.addr_ := 65536; Buffer.length_ := 65552; Buffer.lkey_ := 7 |}.
Definition client_buffer2 : Buffer := {| Buffer.addr_ := 131088; Buffer.length_ := 65552; Buffer.lkey_ := 7 |}.

Definition example_client : KVClient (ibv_qp_state * list ibv_send_wr) LocalBufferPool.LocalBufferPool :=
  {| hw := (IBV_QPS_RTS, []); mem := fun _ => 0; buffer_pool_ := client_pool; conn_ := client_connection;
     posted_recv_buffers_ := {[ recv_wrid := client_buffer1; WrId.Encode 0 RECV 0 131088 := client_buffer2 ]};
     posted_send_buffers_ := ∅ |}.

(** Ten GETs; in the first round one response arrives. *)
Definition ten_gets : Benchmark := {| num_operations := 10; value_size := 4096; use_sgl := false; num_segments := 1 |}.

Definition get_draw (i : Z) : bool * Z := (false, u64 i).

Definition one_response : Round :=
  {| running := true; send_wcs := [];
     arrivals := [(recv_wrid, kv.ResponseHeader_bytes (kv.SetGetResponse 0 kv.NOT_FOUND 0))];
     recv_wcs := [recv_completion recv_wrid []] |}.

Lemma client_factory_works :
  working_pool example_factory bp_config /\ exists p, example_factory bp_config = RVal p.
Proof. apply example_factory_works; [repeat split; vm_compute; congruence|reflexivity]. Qed.

Lemma client_pool_held : pool_held client_pool [client_buffer1; client_buffer2].
Proof.
  constructor; try (simpl; lia).
  - vm_compute. split; [split; [discriminate|reflexivity]|reflexivity].
  - exists [0; 65552]. split; [done|]. exact (Permutation_app_comm [131104; 196656] [0; 65552]).
Qed.

Lemma example_client_wf : client_wf example_client [].
Proof.
  split; [|split; vm_compute; congruence]. exists [], [client_buffer1; client_buffer2]. split; [|exact client_pool_held].
  vm_compute. first [apply Permutation_refl|apply perm_swap].
Qed.

Lemma example_client_room : client_room example_client.
Proof. do 2 eexists. split; [reflexivity|]. vm_compute. reflexivity. Qed.

End example.

(** ** Properties *)

Section properties.
Import KVClient.

(** C3: Client and server agree on what a request means. Both are on working
    pools - the contract of [BufferSource], which the LIFO policy keeps and the
    FIFO policy that both programs configure does not
    ([configured_pool_serves_nothing]) - and in states of their invariants
    [client_wf] and [server_wf]. Then for every GET, PUT and scatter-gather PUT
    that fits a buffer, a connected client with a buffer left posts at most one
    send, of one message, and exactly that when the device accepts it; when that
    message arrives in a receive the server has posted for a client it knows, it
    is served without undefined behaviour as the operation on the map of keys to
    values - a PUT stores exactly the requested size of the key's pattern, with
    or without segments - and, if the server has a buffer left too and its
    connection and device take the request, the answer posted carries the
    operation's status and, for a GET, the value. *)
Theorem request_served {HW P HW' P'} `{!Verbs HW, !BufferSource P, !Verbs HW', !BufferSource P'}
    (c : KVClient HW P) q seq (s : KVServer.KVServer HW' P') wrid cx o pb :
  client_wf c [] -> Connection.state_ (conn_ c) = CONNECTED -> client_room c ->
  request_fits kv.MAX_RESPONSE_SIZE q ->
  server_wf s [] -> WrId.GetOpcode wrid = RpcOpcode_u8 RECV ->
  KVServer.conn_contexts_ s !! WrId.GetConnId wrid = Some cx -> KVServer.deref s (WrId.GetConnId wrid) = Some o ->
  KVServer.posted_recv_buffers_ s !! wrid = Some pb ->
  let '(response, m) := spec_request (KVStore.num_slots_ (KVServer.store_ s)) (view (KVServer.store_ s)) q in
  exists c' s', run_request c q seq = Some c' /\ client_wf c' [] /\ requested c (message q) seq c'
    /\ server_step s (EvMessage wrid (message q)) = Some s' /\ server_wf s' []
    /\ view (KVServer.store_ s') = m
    /\ (device_accepts (HW := HW') -> Connection.state_ o = CONNECTED -> has_room s ->
        answered s o (response_bytes response) (response_seq cx (message q)) s').
Proof.
  intros Hc Hcc Hroom Hf Hs Hop Hcx Ho Hpb.
  assert (Hf' : request_fits (bs_size (buffer_pool_ c)) q).
  { pose proof (cw_size _ _ Hc) as [Hz _]. destruct q; cbn [request_fits] in *; [done|done|]. intuition lia. }
  destruct (run_request_spec c q seq Hc Hcc Hf') as (c' & E & Hw' & _ & _ & Hreq & _).
  destruct (message_ok kv.MAX_RESPONSE_SIZE q Hf) as [Hu Hl]; [vm_compute; discriminate|].
  destruct (message_spec s wrid cx o pb (message q) Hs Hop Hcx Ho Hpb Hu Hl) as (s' & E' & Hs' & Hv & _ & _ & _ & Ha).
  rewrite (spec_process_message _ _ _ q Hf) in Hv, Ha. destruct (spec_request _ _ q) as [response m].
  exists c', s'. split_and!; [done|done|by apply Hreq|done|done|done|exact Ha].
Qed.

Lemma request_served_witness :
  exists c' s', run_request example_client (QPutSGL 7 8192 3) 5 = Some c'
    /\ requested example_client (sgl_message 7 8192 3) 5 c'
    /\ server_step (example_server example_pool) (EvMessage recv_wrid (sgl_message 7 8192 3)) = Some s'
    /\ view (KVServer.store_ s') = {[ 7 := pattern 7 8192 ]}.
Proof.
  pose proof (request_served example_client (QPutSGL 7 8192 3) 5 (example_server example_pool) recv_wrid
    {| KVServer.conn := 0; KVServer.requests_processed := 1; KVServer.gets_processed := 1; KVServer.puts_processed := 0 |}
    client_connection {| KVServer.buf := recv_buffer; KVServer.conn_id := 0 |}
    example_client_wf eq_refl example_client_room) as H.
  assert (Hf : request_fits kv.MAX_RESPONSE_SIZE (QPutSGL 7 8192 3)).
  { split; [split; vm_compute; congruence|]. split; [split; vm_compute; congruence|]. split; [split; vm_compute; congruence|].
    vm_compute. discriminate. }
  specialize (H Hf example_server_wf eq_refl eq_refl eq_refl eq_refl). cbv beta zeta in H.
  cbn [KVServer.store_ example_server] in H. destruct example_store_view as [Hv Hn]. rewrite Hv, Hn in H.
  assert (Es : spec_request 1 ∅ (QPutSGL 7 8192 3) = ((kv.SetPutResponse 7 kv.OK, []), {[ 7 := pattern 7 8192 ]}))
    by (vm_compute; reflexivity).
  rewrite Es in H. destruct H as (c' & s' & E & _ & Hq & E' & _ & Hm & _).
  exists c', s'. split; [exact E|]. split; [exact Hq|]. split; [exact E'|exact Hm].
Defined.

(** C11: A benchmark of more requests than the pool can hold unsignaled never
    ends. Only every [interval]-th send is signaled and so completes, and only a
    completion frees a buffer; the others stay tracked for ever. Once they fill
    the pool, requests are counted as sent without being sent. This is stated for
    a working pool - the contract of [BufferSource], which the LIFO policy keeps;
    with the FIFO policy the client configures, the first buffer given back is
    already undefined behaviour ([fifo_first_free_undefined]) - and for a client
    that has just connected and posted nothing, with a signal interval of at least
    2 and requests that fit the buffers. The device plays any rounds of a network where no request fails
    ([device_ok]): it completes only sends that were posted and signaled, its
    messages fit the posted buffers, and no more responses complete than requests
    were posted. Then nothing is undefined, the loop is still running, and at most
    [interval * capacity / (interval - 1)] requests have completed - 273 with the
    256 buffers and the interval 16 of the client. *)
Theorem benchmark_never_ends {HW P} `{!Verbs HW, !BufferSource P} (c : KVClient HW P) bm draw rs interval :
  client_wf c [] -> Connection.state_ (conn_ c) = CONNECTED -> is_u 16 (Connection.conn_id_ (conn_ c)) ->
  posted (hw c) = [] -> QueuePair.unsignaled_count_ (Connection.qp (conn_ c)) = 0 ->
  QueuePair.signal_interval (QueuePair.config_ (Connection.qp (conn_ c))) = interval -> 1 < interval ->
  benchmark_ok kv.MAX_RESPONSE_SIZE bm draw ->
  interval * bs_capacity (buffer_pool_ c) < (interval - 1) * num_operations bm ->
  Forall (fun r => running r = true) rs -> device_ok bm draw c Counters_zero rs ->
  exists c' k', RunBenchmark bm draw c rs = Some (c', k', false)
    /\ (interval - 1) * completed k' <= interval * bs_capacity (buffer_pool_ c).
Proof.
  intros Hw Hc Hid Hp Hu <- H1 Hbm Hn Hr Hdev.
  destruct (RunBenchmark_ok bm draw rs c Hw Hc Hid Hp Hu ltac:(lia) Hbm Hdev) as (c' & k' & e & E & B & F).
  rewrite (F Hr) in E. rewrite (proj2 (Z.leb_gt _ _)) in E by nia. by exists c', k'.
Qed.

Lemma benchmark_never_ends_witness :
  exists c' k', RunBenchmark ten_gets get_draw example_client [one_response] = Some (c', k', false)
    /\ 15 * completed k' <= 64.
Proof.
  apply (benchmark_never_ends example_client ten_gets get_draw [one_response] 16 example_client_wf);
    [reflexivity|split; vm_compute; congruence|reflexivity|reflexivity|reflexivity|reflexivity| |vm_compute; reflexivity
    |repeat constructor|].
  - split; [split; vm_compute; congruence|]. split; [reflexivity|]. split; [|discriminate].
    intros i. apply (wrap_range 64). lia.
  - assert (E : match send_requests ten_gets get_draw 10 example_client Counters_zero with
                | Some (c1, k1) => completed k1 = 0 /\ length (posted (hw c1)) = 2%nat | None => False end)
      by (vm_compute; split; reflexivity).
    cbn [device_ok]. split; [|destruct (KVClient.round _ _ _ _ _) as [[c2 k2]|]; exact I].
    change (Z.to_nat (num_operations ten_gets - sent Counters_zero)) with 10%nat.
    destruct (send_requests _ _ _ _ _) as [[c1 k1]|]; [|done]. destruct E as [-> ->]. split; [|split; [|done]].
    + intros wc Hin. by apply elem_of_nil in Hin.
    + constructor; [|constructor]. vm_compute. discriminate.
Defined.

(** A scatter-gather PUT of the largest value overruns its buffer: with the
    buffers of [MAX_RESPONSE_SIZE] bytes the client asks for, header, segment
    descriptors and 65536 bytes do not fit, and the [memset] of the value writes
    8 bytes per segment past the end. *)
Theorem full_sgl_put_overruns {HW P} `{!Verbs HW, !BufferSource P} (c : KVClient HW P) key n seq :
  client_wf c [] -> client_room c -> bs_size (buffer_pool_ c) = kv.MAX_RESPONSE_SIZE -> 1 <= n ->
  SendPutSGL c key kv.MAX_VALUE_SIZE n seq = None.
Proof.
  intros Hw (p & b & E & Hv) Hs Hn. destruct (client_allocate_wf c [] Hw) as (p' & b' & E' & Hb). rewrite E in E'.
  injection E' as <- <-. cbn zeta in Hb. rewrite Hv in Hb. destruct Hb as [_ Hl].
  apply (SendPutSGL_overflow c key _ n seq p b E Hv); [done|]. rewrite Hl, Hs.
  unfold kv.MAX_RESPONSE_SIZE, kv.ResponseHeader_size, kv.RequestHeader_size, kv.SegmentDescriptor_size. lia.
Qed.

Lemma full_sgl_put_overruns_witness : SendPutSGL example_client 7 kv.MAX_VALUE_SIZE 4 0 = None.
Proof. apply (full_sgl_put_overruns example_client 7 4 0 example_client_wf example_client_room); [reflexivity|lia]. Defined.

(** The segment descriptors of a scatter-gather PUT cut the value into
    [n] pieces that follow one another from offset 0 to the value's size. *)
Theorem segments_cover size n :
  0 <= size -> 0 < n -> length (segments size n) = Z.to_nat n /\ contiguous 0 (segments size n) size.
Proof.
  intros Hs Hn. unfold segments. split; [apply segments_of_length|].
  pose proof (Z.div_mod size n ltac:(lia)) as Hdm. pose proof (Z.mod_pos_bound size n Hn).
  assert (0 <= size / n) by (apply Z.div_pos; lia).
  pose proof (segments_of_contiguous (Z.to_nat n) 0 0 (size / n) (size mod n) ltac:(lia) ltac:(lia)) as H'.
  replace (0 + Z.of_nat (Z.to_nat n) * (size / n) + Z.max 0 (Z.min (size mod n - 0) (Z.of_nat (Z.to_nat n)))) with size in H'
    by lia. exact H'.
Qed.

Lemma segments_cover_witness :
  kv.sd_length <$> segments 4097 3 = [1366; 1366; 1365] /\ contiguous 0 (segments 4097 3) 4097.
Proof. split; [reflexivity|]. apply (segments_cover 4097 3); lia. Defined.

(** The client books the server's answer for what it says: when the answer to
    a request arrives in a posted buffer and completes, the buffer goes back to
    the pool, the operation counts as completed, and as a success or a miss
    exactly when the store reported so. *)
Theorem response_booked {HW P} `{!Verbs HW, !BufferSource P} (c : KVClient HW P) k cap m q wrid b byte_len imm :
  client_wf c [] -> request_fits kv.MAX_RESPONSE_SIZE q -> posted_recv_buffers_ c !! wrid = Some b ->
  let response := (spec_request cap m q).1 in
  let st := kv.rs_status response.1 in
  exists c1 c' k', arrive c wrid (response_bytes response) = Some c1
    /\ on_recv_completion c1 k {| wc_wr_id := wrid; wc_status := IBV_WC_SUCCESS; wc_byte_len := byte_len; wc_imm_data := imm |}
       = Some (c', k')
    /\ client_wf c' [] /\ posted_recv_buffers_ c' = delete wrid (posted_recv_buffers_ c)
    /\ completed k' = completed k + 1
    /\ match q with
       | QGet key =>
           gets_success k' = gets_success k + (if decide (st = 0) then 1 else 0)
           /\ gets_not_found k' = gets_not_found k + (if decide (st = 1) then 1 else 0)
           /\ puts_success k' = puts_success k
       | _ => puts_success k' = puts_success k + (if decide (st = 0) then 1 else 0)
              /\ gets_success k' = gets_success k /\ gets_not_found k' = gets_not_found k
       end.
Proof.
  intros Hw Hf Hb response st.
  destruct (book_response c k cap m q wrid b byte_len imm Hw Hf Hb) as (c1 & c' & k' & H1 & H2 & H3 & H4 & _ & _ & H5).
  by exists c1, c', k'.
Qed.

Lemma response_booked_witness :
  exists c1 c' k', arrive example_client recv_wrid (response_bytes (spec_request 1 {[ 7 := pattern 7 4096 ]} (QGet 7)).1) = Some c1
    /\ on_recv_completion c1 Counters_zero (recv_completion recv_wrid []) = Some (c', k')
    /\ completed k' = 1 /\ gets_success k' = 1 /\ gets_not_found k' = 0.
Proof.
  destruct (response_booked example_client Counters_zero 1 {[ 7 := pattern 7 4096 ]} (QGet 7) recv_wrid client_buffer1 0 0
    example_client_wf) as (c1 & c' & k' & E & E' & _ & _ & Hc & Hg & Hn & _);
    [split; vm_compute; congruence|reflexivity|].
  exists c1, c', k'. split; [exact E|]. split; [exact E'|]. split; [exact Hc|].
  assert (Est : kv.rs_status (spec_request 1 {[ 7 := pattern 7 4096 ]} (QGet 7)).1.1 = 0) by (vm_compute; reflexivity).
  rewrite Est in Hg, Hn. split; [exact Hg|exact Hn].
Defined.

(** Connecting ends. Whatever the factories, the peer and the device answer,
    [Connect] returns, and when it reports success the client is connected with
    the queue pair it created and holds exactly the receive buffers it tracks, so
    that its requests are sent as specified. *)
Theorem client_connects {HW P OS} `{!Verbs HW, !BufferSource P, !Sockets OS} pad1 pad2 pad3 (h : HW) m (os : OS) host port
    device pd send_cq recv_cq (create_pool : LocalBufferPool.BufferPoolConfig -> Result P) conn_result local_params :
  working_pool create_pool bp_config ->
  exists n os' r, (forall fuel, (n <= fuel)%nat ->
      Connect pad1 pad2 pad3 fuel h m os host port device pd send_cq recv_cq create_pool conn_result local_params
      = Some (os', r))
    /\ match r with
       | None => True
       | Some c => client_wf c [] /\ Connection.state_ (conn_ c) = CONNECTED /\ posted_send_buffers_ c = ∅
                  /\ exists o, conn_result = RVal o /\ Connection.qp (conn_ c) = Connection.qp o
       end.
Proof.
  intros Hp.
  destruct (Connect_total pad1 pad2 pad3 h m os host port device pd send_cq recv_cq create_pool conn_result local_params)
    as (n & os' & r & H1 & _ & H2).
  { done. }
  exists n, os', r. split; [exact H1|]. destruct r as [c|]; [|done]. destruct H2 as (A1 & A2 & A3 & _ & o & A4 & A5 & _).
  split_and!; try done. by exists o.
Qed.

Lemma client_connects_witness :
  exists n os' r, forall fuel, (n <= fuel)%nat ->
    Connect (OS := Script) [0; 0] 0 [0; 0; 0; 0] fuel (HW := ibv_qp_state * list ibv_send_wr) (IBV_QPS_RESET, []) (fun _ => 0)
      example_receiver "host" 12345 (RVal 1) (RVal 2) (RVal 3) (RVal 4)
      example_factory (RVal example_connection) (RVal example_params) = Some (os', r).
Proof.
  destruct (client_connects (OS := Script) (HW := ibv_qp_state * list ibv_send_wr) [0; 0] 0 [0; 0; 0; 0] (IBV_QPS_RESET, [])
    (fun _ => 0) example_receiver "host" 12345 (RVal 1) (RVal 2) (RVal 3) (RVal 4) example_factory (RVal example_connection)
    (RVal example_params)) as (n & os' & r & H & _).
  - exact (proj1 client_factory_works).
  - exists n, os', r. exact H.
Defined.

End properties.
