(* ===== verification/Session.v ===== *)
(** * Client and server together

    A client of [KvClient] and a server of [KvServer] over a network that delivers
    what is posted: whole sessions of requests against the map they stand for. *)

From S2P Require Import Prelude Types WrId KvProtocol KvStore Verbs CompletionDispatcher Buffer BufferPool Memory.
From S2P Require Import QueuePair Connection Handshake Reactor KvServer KvServerLife KvClient.

(** ** The system *)

Section system.
Import KVClient.
Context {HW P HW' P' : Type} `{!Verbs HW, !BufferSource P, !Verbs HW', !BufferSource P'}.

(** The bytes the device reads for a request posted. *)
Definition sent_bytes (m : memory) (wr : ibv_send_wr) : list Z :=
  concat ((fun e => range m (sge_addr e) (Z.to_nat (sge_length e))) <$> sg_list wr).

Definition Session : Type := KVClient HW P * Counters * KVServer.KVServer HW' P'.

Definition is_put (q : Request) : bool := match q with QGet _ => false | _ => true end.

(** One request and its answer: the client sends, as in [send_requests]; the
    message that was posted arrives in a receive buffer of the server; the answer
    that the server posted arrives in a receive buffer of the client. [pick]
    chooses the two receives the network completes. *)
Definition exchange (pick : Session -> Z * Z) (st : Session) (q : Request) : option Session :=
  let '(at_server, at_client) := pick st in
  let '(c, k, s) := st in
  c ← run_request c q (u32 (sent k));
  let k := count_sent k (is_put q) in
  wr ← last (posted (hw c));
  s ← server_step s (EvMessage at_server (sent_bytes (mem c) wr));
  wr ← last (posted (KVServer.hw s));
  let answer := sent_bytes (KVServer.mem s) wr in
  c ← arrive c at_client answer;
  '(c, k) ← on_recv_completion c k (recv_completion at_client answer);
  Some (c, k, s).

Fixpoint session (pick : Session -> Z * Z) (st : Session) (qs : list Request) : option Session :=
  match qs with
  | [] => Some st
  | q :: qs => st ← exchange pick st q; session pick st qs
  end.

(** ** Specification *)

(** The network completes receives that are posted, at the server for connection
    [id]; both pools have a buffer; the request fits. *)
Definition exchange_ok (id : Z) (pick : Session -> Z * Z) (st : Session) (q : Request) : Prop :=
  let '(at_server, at_client) := pick st in
  let '(c, k, s) := st in
  request_fits kv.MAX_RESPONSE_SIZE q /\ client_room c /\ has_room s
  /\ WrId.GetOpcode at_server = RpcOpcode_u8 RECV /\ WrId.GetConnId at_server = id
  /\ is_Some (KVServer.posted_recv_buffers_ s !! at_server) /\ is_Some (posted_recv_buffers_ c !! at_client).

Fixpoint session_ok (id : Z) (pick : Session -> Z * Z) (st : Session) (qs : list Request) : Prop :=
  match qs with
  | [] => True
  | q :: qs => exchange_ok id pick st q
               /\ match exchange pick st q with Some st => session_ok id pick st qs | None => True end
  end.

(** What a request adds to the counters. *)
Definition tally (cap : Z) (m : gmap Z (list Z)) (q : Request) : Z * Z * Z :=
  let st := kv.rs_status (spec_request cap m q).1.1 in
  let ok := if decide (st = kv.Status_u8 kv.OK) then 1 else 0 in
  let none := if decide (st = kv.Status_u8 kv.NOT_FOUND) then 1 else 0 in
  if is_put q then (0, 0, ok) else (ok, none, 0).

(** The map after the requests, and how many GETs found a value, how many found
    none, and how many PUTs were stored. *)
Fixpoint spec_session (cap : Z) (m : gmap Z (list Z)) (qs : list Request) : gmap Z (list Z) * (Z * Z * Z) :=
  match qs with
  | [] => (m, (0, 0, 0))
  | q :: qs =>
      let '(found, missing, stored) := tally cap m q in
      let '(m, (found', missing', stored')) := spec_session cap (spec_request cap m q).2 qs in
      (m, (found + found', missing + missing', stored + stored'))
  end.

End system.

Section kept.
Import KVServer.
Context {HW P : Type} `{!Verbs HW, !BufferSource P}.
Implicit Types (s : KVServer HW P).

(** What answering keeps: contexts, and connections with their state. *)
Definition conn_state s (c : Z) : option ConnectionState := Connection.state_ <$> deref s c.

Definition conns_kept s s' : Prop :=
  (forall i, is_Some (conn_contexts_ s !! i) -> is_Some (conn_contexts_ s' !! i))
  /\ forall c st, conn_state s c = Some st -> conn_state s' c = Some st.

#[export] Instance conns_kept_preorder : PreOrder conns_kept.
Proof. split; [by split|]. intros s1 s2 s3 [A1 A2] [B1 B2]. split; auto. Qed.

Lemma kept_eq s s' : conn_contexts_ s' = conn_contexts_ s -> conn_manager_ s' = conn_manager_ s -> conns_kept s s'.
Proof. intros E1 E2. split; [by rewrite E1|]. intros c o. unfold conn_state, deref. by rewrite E2. Qed.

Lemma count_in_kept s i f s' : count_in s i f = Some s' -> conns_kept s s'.
Proof.
  unfold count_in. intros (c & Hc & [= <-])%bind_Some. split; [|done]. intros j Hj. cbn [conn_contexts_ set_contexts].
  apply lookup_insert_is_Some'. by right.
Qed.

Lemma conn_send_kept s c b wrid s' : conn_send s c b wrid = Some s' -> conns_kept s s'.
Proof.
  unfold conn_send. intros (o & Ho & E)%bind_Some.
  assert (Hst : Connection.state_ (Connection.Send (hw s) o b wrid).1.2 = Connection.state_ o).
  { unfold Connection.Send. destruct (negb _); [done|]. unfold Connection.on_qp. by destruct (QueuePair.PostSend _ _ _ _) as [[??]?]. }
  destruct (Connection.Send (hw s) o b wrid) as [[h o'] st]. cbn [fst snd] in Hst.
  apply bind_Some in E as (l & [_ ->]%aset_inv & [= <-]).
  split; [done|]. intros j x. unfold conn_state. rewrite deref_set; [|done|by rewrite Ho].
  destruct (decide (c = j)) as [<-|]; [|done]. rewrite Ho. cbn. by rewrite Hst.
Qed.

Lemma respond_kept s c b len seq s' : respond s c b len seq = Some s' -> conns_kept s s'.
Proof. unfold respond. intros (o & _ & E)%bind_Some. exact (conn_send_kept _ _ _ _ _ E). Qed.

Lemma write_response_kept s b r s' : write_response s b r = Some s' -> conns_kept s s'.
Proof. unfold write_response. intros (m & _ & [= <-])%bind_Some. by apply kept_eq. Qed.

Lemma allocate_kept s s' b : allocate s = Some (s', b) -> conns_kept s s'.
Proof. unfold allocate. intros ([p b'] & _ & [= <- <-])%bind_Some. by apply kept_eq. Qed.

Lemma free_kept s b s' : free s b = Some s' -> conns_kept s s'.
Proof. unfold free. intros (p & _ & [= <-])%bind_Some. by apply kept_eq. Qed.

Lemma store_put_kept s b h off s' st : store_put s b h off = Some (s', st) -> conns_kept s s'.
Proof. unfold store_put. intros E. run_steps. by apply kept_eq. Qed.

(** Run the code in the hypotheses and chain what each step keeps. *)
Ltac kept :=
  intros; run_steps;
  repeat match goal with
    | H : count_in _ _ _ = Some _ |- _ => apply count_in_kept in H as [??]
    | H : respond _ _ _ _ _ = Some _ |- _ => apply respond_kept in H as [??]
    | H : write_response _ _ _ = Some _ |- _ => apply write_response_kept in H as [??]
    | H : allocate _ = Some _ |- _ => apply allocate_kept in H as [??]
    | H : store_put _ _ _ _ = Some _ |- _ => apply store_put_kept in H as [??]
    end; split; unfold conn_state, deref in *; cbn [conn_contexts_ conn_manager_ set_mem] in *; auto 10.

Lemma SendErrorResponse_kept s c k st s' : SendErrorResponse s c k st = Some s' -> conns_kept s s'.
Proof. unfold SendErrorResponse. kept. Qed.

Lemma ProcessGet_kept s c rb i s' : ProcessGet s c rb i = Some s' -> conns_kept s s'.
Proof. unfold ProcessGet. kept. Qed.

Lemma ProcessPut_kept s c rb len i s' : ProcessPut s c rb len i = Some s' -> conns_kept s s'.
Proof. unfold ProcessPut. kept. Qed.

Lemma ProcessRequest_kept s c rb len i s' : ProcessRequest s c rb len i = Some s' -> conns_kept s s'.
Proof.
  unfold ProcessRequest. intros E.
  run_steps; eauto using SendErrorResponse_kept, ProcessGet_kept, ProcessPut_kept.
Qed.

Lemma PostRecvBuffers_kept s c n s' : PostRecvBuffers s c n = Some s' -> conns_kept s s'.
Proof.
  revert s. induction n as [|n IH]; intros s; cbn [PostRecvBuffers]; [by intros [= <-]|].
  intros (s1 & E1 & E2)%bind_Some. transitivity s1; [|by apply IH]. unfold PostRecvBuffer in E1.
  apply bind_Some in E1 as ([s0 b] & E0 & E1). apply allocate_kept in E0. transitivity s0; [done|].
  destruct (Buffer.IsValid b); [|by injection E1 as <-]. apply bind_Some in E1 as (o & _ & E1).
  destruct (Connection.PostRecv _ _ _ _) as [h st]. injection E1 as <-. by apply kept_eq.
Qed.

Lemma HandleRequest_kept s id wc s' : HandleRequest s id wc = Some s' -> conns_kept s s'.
Proof.
  unfold HandleRequest. intros E. destruct (conn_contexts_ s !! id) as [cx|]; [|by injection E as <-].
  destruct (posted_recv_buffers_ s !! wc_wr_id wc) as [pb|]; [|by injection E as <-].
  match type of E with context [set_buffers s ?p ?r ?q] => transitivity (set_buffers s p r q); [by apply kept_eq|] end.
  destruct (_ <? _).
  - apply bind_Some in E as (s1 & E1%free_kept & E). transitivity s1; [done|]. by apply PostRecvBuffers_kept in E.
  - apply bind_Some in E as (s1 & E1%ProcessRequest_kept & E). apply bind_Some in E as (s2 & E2%free_kept & E).
    apply bind_Some in E as (s3 & E3%PostRecvBuffers_kept & E). apply count_in_kept in E.
    by transitivity s1; [|transitivity s2; [|transitivity s3]].
Qed.

End kept.

(** ** Lemmas *)

Section lemmas.
Import KVClient.
Context {HW P HW' P' : Type} `{!Verbs HW, !BufferSource P, !Verbs HW', !BufferSource P'}.
Implicit Types (c : KVClient HW P) (s : KVServer.KVServer HW' P').

(** The two ends of a session: client and server in order, connected. *)
Record session_inv (id : Z) (st : Session (HW := HW) (P := P) (HW' := HW') (P' := P')) : Prop := {
  si_client : client_wf st.1.1 [];
  si_connected : Connection.state_ (conn_ st.1.1) = CONNECTED;
  si_server : server_wf st.2 [];
  si_context : is_Some (KVServer.conn_contexts_ st.2 !! id);
  si_connection : conn_state st.2 id = Some CONNECTED;
}.

Lemma message_kept s wrid msg s' :
  server_wf s [] -> WrId.GetOpcode wrid = RpcOpcode_u8 RECV -> Z.of_nat (length msg) <= kv.MAX_REQUEST_SIZE ->
  is_Some (KVServer.deref s (WrId.GetConnId wrid)) ->
  server_step s (EvMessage wrid msg) = Some s' -> conns_kept s s'.
Proof.
  intros Hw Hop Hl [o Ho] E. cbn [server_step] in E. unfold complete in E.
  destruct (receive_wf s wrid msg Hw Hl) as (m & Em & Hwm & _). rewrite Em in E.
  cbn [mbind option_bind] in E.
  assert (Hne : WrId.GetConnId wrid <> 0xFFFF).
  { pose proof (proj1 (deref_Some _ _ _) Ho) as Hlt%aget_lt. pose proof (sw_manager _ _ Hw) as Hmg.
    pose proof (mi_len _ Hmg). pose proof (mi_max _ Hmg) as Hu16. unfold is_u in Hu16. lia. }
  destruct (complete_dispatch (KVServer.set_mem s m) [] (recv_completion wrid msg) Hwm (fun _ => Hne)) as (d & evs & Ed & Hwd & Hev).
  rewrite Ed in E. cbn [mbind option_bind] in E. rewrite decide_True in Hev by done.
  transitivity (KVServer.set_dispatcher (KVServer.set_mem s m) d); [by apply kept_eq|].
  destruct Hev as [(h & x & ->)|[-> _]]; cbn [on_events] in E; [|by injection E as <-].
  cbn [KVServer.on_event] in E. rewrite HandleCompletion_recv in E by done.
  apply bind_Some in E as (s1 & E1 & E2). injection E2 as <-. by apply HandleRequest_kept in E1.
Qed.

(** The device reads from a posted buffer what the program wrote. *)
Lemma sent_bytes_response (m : memory) (o : Connection) b bytes wrid :
  buffer_wf b -> 0 < Z.of_nat (length bytes) < 2 ^ 32 -> buf_read m b 0 (Z.of_nat (length bytes)) = Some bytes ->
  sent_bytes m (response_wr o b (Z.of_nat (length bytes)) wrid) = bytes.
Proof.
  intros (Ha & Hl & Hend) Hn. unfold buf_read. case_decide as Hr; [|done]. intros E. injection E as E.
  unfold sent_bytes, response_wr. cbn [sg_list fmap list_fmap concat QueuePair.sge_of_buffer sge_addr sge_length].
  rewrite app_nil_r. unfold Buffer.Slice.
  assert (E0 : u64 (0 + Z.of_nat (length bytes)) = Z.of_nat (length bytes)) by (apply wrap_id; unfold is_u; lia).
  rewrite E0, (proj2 (Z.leb_gt _ _)), (proj2 (Z.ltb_ge _ _)) by lia. cbn [orb Buffer.addr_ Buffer.length_].
  rewrite (wrap_id 64), (wrap_id 32) by (unfold is_u; lia). rewrite Z.add_0_r in *. exact E.
Qed.

Lemma client_send_wf c k b : client_wf c [] -> posted_send_buffers_ c !! k = Some b -> buffer_wf b.
Proof.
  intros [(leaked & held & Hp & Hh) _] Hb. refine (proj1 (bs_held_wf _ _ b Hh _)).
  rewrite Hp. cbn [app]. unfold send_list. rewrite (values_delete _ _ _ Hb). set_solver.
Qed.

Lemma server_send_wf s k b : server_wf s [] -> KVServer.posted_send_buffers_ s !! k = Some b -> buffer_wf b.
Proof.
  intros Hw Hb. destruct (sw_pool _ _ Hw) as (leaked & held & Hp & Hh). refine (proj1 (bs_held_wf _ _ b Hh _)).
  rewrite Hp. cbn [app]. unfold send_bufs. rewrite (values_delete _ _ _ Hb). set_solver.
Qed.

(** The client's half: one message is posted, and the device reads it. *)
Lemma client_half c q seq :
  client_wf c [] -> Connection.state_ (conn_ c) = CONNECTED -> client_room c -> device_accepts (HW := HW) ->
  request_fits kv.MAX_RESPONSE_SIZE q ->
  exists c' wr, run_request c q seq = Some c' /\ client_wf c' [] /\ Connection.state_ (conn_ c') = CONNECTED
    /\ posted_recv_buffers_ c' = posted_recv_buffers_ c
    /\ last (posted (hw c')) = Some wr /\ sent_bytes (mem c') wr = message q.
Proof.
  intros Hw Hc Hroom Hacc Hf. assert (Hf' : request_fits (bs_size (buffer_pool_ c)) q).
  { pose proof (cw_size _ _ Hw) as [Hz _]. destruct q; cbn [request_fits] in *; [done|done|]. intuition lia. }
  destruct (run_request_spec c q seq Hw Hc Hf') as (c' & E & Hw' & Hr & _ & Hreq & _).
  destruct (message_ok kv.MAX_RESPONSE_SIZE q Hf) as [_ Hl]; [vm_compute; discriminate|].
  destruct (Hreq Hroom) as (b & Hb & Hs & Hconn & _ & Hp). specialize (Hp Hacc).
  exists c'. eexists. split; [exact E|]. split; [exact Hw'|]. split; [by rewrite Hconn|]. split; [exact Hr|].
  split; [rewrite Hp; apply last_snoc|]. apply sent_bytes_response; [|split|exact Hb].
  - eapply (client_send_wf c'); [exact Hw'|]. rewrite Hs. apply lookup_insert_eq.
  - unfold kv.RequestHeader_size in Hl. lia.
  - eapply Z.le_lt_trans; [apply Hl|]. done.
Qed.

(** The server's half: the request is served, and the device reads the answer. *)
Lemma server_half s id q wrid :
  server_wf s [] -> is_Some (KVServer.conn_contexts_ s !! id) -> conn_state s id = Some CONNECTED -> has_room s ->
  device_accepts (HW := HW') -> request_fits kv.MAX_RESPONSE_SIZE q ->
  WrId.GetOpcode wrid = RpcOpcode_u8 RECV -> WrId.GetConnId wrid = id ->
  is_Some (KVServer.posted_recv_buffers_ s !! wrid) ->
  let '(response, m) := spec_request (KVStore.num_slots_ (KVServer.store_ s)) (view (KVServer.store_ s)) q in
  exists s' wr, server_step s (EvMessage wrid (message q)) = Some s' /\ server_wf s' [] /\ conns_kept s s'
    /\ view (KVServer.store_ s') = m
    /\ KVStore.num_slots_ (KVServer.store_ s') = KVStore.num_slots_ (KVServer.store_ s)
    /\ last (posted (KVServer.hw s')) = Some wr /\ sent_bytes (KVServer.mem s') wr = response_bytes response.
Proof.
  intros Hs [cx Hcx] Hst Hroom Hacc Hf Hop <- [pb Hpb]. unfold conn_state in Hst. apply fmap_Some in Hst as (o & Ho & Hst).
  destruct (message_ok kv.MAX_RESPONSE_SIZE q Hf) as [Hu Hl]; [vm_compute; discriminate|].
  destruct (message_spec s wrid cx o pb (message q) Hs Hop Hcx Ho Hpb Hu Hl) as (s' & E & Hs' & Hv & Hn & _ & _ & Ha).
  rewrite (spec_process_message _ _ _ q Hf) in Hv, Ha.
  pose proof (spec_response_wf (KVStore.num_slots_ (KVServer.store_ s)) (view (KVServer.store_ s)) q Hf) as [_ Hrl].
  destruct (spec_request _ _ q) as [response m]. cbn [fst snd] in *.
  destruct (Ha Hacc (eq_sym Hst) Hroom) as (b & Hb & Hsend & _ & Hp).
  exists s'. eexists. split; [exact E|]. split; [exact Hs'|]. split; [|split; [exact Hv|split; [exact Hn|]]].
  - eapply message_kept; [exact Hs|exact Hop|apply Hl| |exact E]. by eexists.
  - split; [rewrite Hp; apply last_snoc|]. apply sent_bytes_response; [|split|exact Hb].
    + eapply (server_send_wf s'); [exact Hs'|]. rewrite Hsend. apply lookup_insert_eq.
    + unfold response_bytes. rewrite length_app, ResponseHeader_bytes_length. lia.
    + eapply Z.le_lt_trans; [apply Hrl|]. done.
Qed.

Lemma exchange_spec id pick c k s q :
  session_inv id (c, k, s) -> device_accepts (HW := HW) -> device_accepts (HW := HW') -> exchange_ok id pick (c, k, s) q ->
  let cap := KVStore.num_slots_ (KVServer.store_ s) in
  let '(found, missing, stored) := tally cap (view (KVServer.store_ s)) q in
  exists c' k' s', exchange pick (c, k, s) q = Some (c', k', s') /\ session_inv id (c', k', s')
    /\ view (KVServer.store_ s') = (spec_request cap (view (KVServer.store_ s)) q).2
    /\ KVStore.num_slots_ (KVServer.store_ s') = cap
    /\ sent k' = sent k + 1 /\ completed k' = completed k + 1
    /\ gets_success k' = gets_success k + found /\ gets_not_found k' = gets_not_found k + missing
    /\ puts_success k' = puts_success k + stored.
Proof.
  intros [Hc Hcc Hs Hcx Hst] Hacc Hacc' Hok cap. unfold exchange_ok in Hok. cbn [fst snd] in *. unfold exchange.
  destruct (pick (c, k, s)) as [at_server at_client]. destruct Hok as (Hf & Hroom & Hroom' & Hop & Hid & Hpb & [b Hb]).
  destruct (client_half c q (u32 (sent k)) Hc Hcc Hroom Hacc Hf) as (c1 & wr & -> & Hc1 & Hcc1 & Hr1 & El & Em).
  cbn [mbind option_bind]. rewrite El. cbn [mbind option_bind]. rewrite Em.
  pose proof (server_half s id q at_server Hs Hcx Hst Hroom' Hacc' Hf Hop Hid Hpb) as Hsrv. fold cap in Hsrv.
  assert (Eq : spec_request cap (view (KVServer.store_ s)) q
               = ((spec_request cap (view (KVServer.store_ s)) q).1, (spec_request cap (view (KVServer.store_ s)) q).2))
    by apply surjective_pairing.
  rewrite Eq in Hsrv. destruct Hsrv as (s1 & wr' & -> & Hs1 & Hk & Hv & Hn & El' & Em').
  cbn [mbind option_bind]. rewrite El'. cbn [mbind option_bind]. rewrite Em'.
  rewrite <- Hr1 in Hb.
  destruct (book_response c1 (count_sent k (is_put q)) cap (view (KVServer.store_ s)) q at_client b
    (Z.of_nat (length (response_bytes (spec_request cap (view (KVServer.store_ s)) q).1))) 0 Hc1 Hf Hb)
    as (c2 & c3 & k3 & E2 & E3 & Hc3 & _ & Hconn & Hsent & Hcomp & Hcnt).
  rewrite E2. cbn [mbind option_bind]. unfold recv_completion. rewrite E3. cbn [mbind option_bind].
  destruct (tally cap (view (KVServer.store_ s)) q) as [[found missing] stored] eqn:Et.
  exists c3, k3, s1. split; [done|]. split.
  { constructor; cbn [fst snd]; [exact Hc3|by rewrite Hconn|exact Hs1|by apply Hk|by apply Hk]. }
  split; [exact Hv|]. split; [exact Hn|]. split; [by rewrite Hsent|]. split; [by rewrite Hcomp|].
  unfold tally in Et. change (kv.Status_u8 kv.OK) with 0 in Et. change (kv.Status_u8 kv.NOT_FOUND) with 1 in Et.
  destruct q; cbn [is_put] in Et; apply pair_equal_spec in Et as [[<- <-]%pair_equal_spec <-];
    destruct Hcnt as (H1 & H2 & H3); cbn [count_sent gets_success gets_not_found puts_success is_put] in *; split_and!; lia.
Qed.

Lemma session_spec id pick c k s qs :
  session_inv id (c, k, s) -> device_accepts (HW := HW) -> device_accepts (HW := HW') -> session_ok id pick (c, k, s) qs ->
  let '(m, (found, missing, stored)) :=
    spec_session (KVStore.num_slots_ (KVServer.store_ s)) (view (KVServer.store_ s)) qs in
  exists c' k' s', session pick (c, k, s) qs = Some (c', k', s') /\ session_inv id (c', k', s')
    /\ view (KVServer.store_ s') = m
    /\ sent k' = sent k + Z.of_nat (length qs) /\ completed k' = completed k + Z.of_nat (length qs)
    /\ gets_success k' = gets_success k + found /\ gets_not_found k' = gets_not_found k + missing
    /\ puts_success k' = puts_success k + stored.
Proof.
  intros Hi Hacc Hacc'. revert c k s Hi. induction qs as [|q qs IH]; intros c k s Hi Hok; cbn [spec_session session length].
  { exists c, k, s. split; [done|]. split; [done|]. split; [done|]. split_and!; lia. }
  cbn [session_ok] in Hok. destruct Hok as [Hok Hrest].
  pose proof (exchange_spec id pick c k s q Hi Hacc Hacc' Hok) as H. cbn zeta in H.
  destruct (tally _ _ q) as [[f n] p]. destruct H as (c1 & k1 & s1 & E & Hi1 & Hv & Hn & K1 & K2 & K3 & K4 & K5).
  rewrite E in Hrest |- *. cbn [mbind option_bind]. specialize (IH c1 k1 s1 Hi1 Hrest). rewrite Hn, Hv in IH.
  destruct (spec_session _ _ qs) as [m [[f' n'] p']]. destruct IH as (c' & k' & s' & E' & Hi' & Hv' & L1 & L2 & L3 & L4 & L5).
  exists c', k', s'. split; [exact E'|]. split; [exact Hi'|]. split; [exact Hv'|]. split_and!; lia.
Qed.

End lemmas.

(** ** Example *)

Section example.
Import KVClient.

(** The network takes the first receives posted. *)
Definition first_recvs {HW P HW' P'} (st : Session (HW := HW) (P := P) (HW' := HW') (P' := P')) : Z * Z :=
  (default 0 (head (map_to_list (KVServer.posted_recv_buffers_ st.2)).*1),
   default 0 (head (map_to_list (posted_recv_buffers_ st.1.1)).*1)).

(** A GET that finds nothing, then a PUT of the key. *)
Definition two_requests : list Request := [QGet 7; QPut 7 4096].

Definition example_start := (example_client, Counters_zero, example_server example_pool).

Lemma example_session_inv : session_inv 0 example_start.
Proof.
  constructor; [exact example_client_wf|reflexivity|exact example_server_wf|by eexists|reflexivity].
Qed.

(** What [exchange_ok] asks of a state, as far as it is computed. *)
Definition ready {HW P HW' P'} `{!BufferSource P, !BufferSource P'}
    (st : Session (HW := HW) (P := P) (HW' := HW') (P' := P')) : bool :=
  let room {Q} `{!BufferSource Q} (p : Q) := match bs_allocate p with Some (_, b) => Buffer.IsValid b | None => false end in
  room (buffer_pool_ st.1.1) && room (KVServer.buffer_pool_ st.2)
  && (WrId.GetOpcode (first_recvs st).1 =? RpcOpcode_u8 RECV) && (WrId.GetConnId (first_recvs st).1 =? 0)
  && bool_decide (is_Some (KVServer.posted_recv_buffers_ st.2 !! (first_recvs st).1))
  && bool_decide (is_Some (posted_recv_buffers_ st.1.1 !! (first_recvs st).2)).

Lemma ready_ok {HW P HW' P'} `{!BufferSource P, !BufferSource P'}
    (st : Session (HW := HW) (P := P) (HW' := HW') (P' := P')) q :
  ready st = true -> request_fits kv.MAX_RESPONSE_SIZE q -> exchange_ok 0 first_recvs st q.
Proof.
  unfold ready, exchange_ok. destruct (first_recvs st) as [a b]. destruct st as [[c k] s]. cbn [fst snd].
  intros (((((H1 & H2)%andb_prop & H3)%andb_prop & H4)%andb_prop & H5)%andb_prop & H6)%andb_prop Hf.
  split_and!; [exact Hf| | |by apply Z.eqb_eq|by apply Z.eqb_eq|by apply bool_decide_eq_true in H5|by apply bool_decide_eq_true in H6].
  - unfold client_room. destruct (bs_allocate _) as [[p x]|]; [by exists p, x|done].
  - unfold has_room. destruct (bs_allocate (KVServer.buffer_pool_ s)) as [[p x]|]; [by exists p, x|done].
Qed.

Lemma example_session_ok : session_ok 0 first_recvs example_start two_requests.
Proof.
  unfold two_requests. cbn [session_ok].
  split; [apply ready_ok; [vm_compute; reflexivity|split; vm_compute; congruence]|].
  destruct (exchange first_recvs example_start (QGet 7)) as [st|] eqn:E; [|done]. split.
  - apply ready_ok; [|split; split; vm_compute; congruence].
    assert (H : ready <$> exchange first_recvs example_start (QGet 7) = Some true) by (vm_compute; reflexivity).
    rewrite E in H. by injection H.
  - by destruct (exchange _ st _).
Qed.

End example.

(** ** Properties *)

Section properties.
Import KVClient.

(** C4: A session behaves as the map, on working pools: those of client and server
    keep the contract of [BufferSource], as the LIFO policy does and the FIFO
    policy that both programs configure does not ([configured_pool_serves_nothing]).
    From states of both invariants, connected, with devices that accept requests,
    over a network that delivers what was posted, into any receives that are
    posted, every request of a session - GET, PUT and scatter-gather PUT in any
    order, each of a size that fits the client's buffers - is served without
    undefined behaviour at either end, as long as both pools have a buffer when it
    is made: at the end the store is the map after those operations, every request
    has been counted as sent and as completed, and the client has counted exactly
    the GETs that found a value, those that found none and the PUTs that were
    stored. *)
Theorem session_behaves_as_map {HW P HW' P'} `{!Verbs HW, !BufferSource P, !Verbs HW', !BufferSource P'}
    id pick (c : KVClient HW P) k (s : KVServer.KVServer HW' P') qs :
  session_inv id (c, k, s) -> device_accepts (HW := HW) -> device_accepts (HW := HW') -> session_ok id pick (c, k, s) qs ->
  let '(m, (found, missing, stored)) :=
    spec_session (KVStore.num_slots_ (KVServer.store_ s)) (view (KVServer.store_ s)) qs in
  exists c' k' s', session pick (c, k, s) qs = Some (c', k', s') /\ session_inv id (c', k', s')
    /\ view (KVServer.store_ s') = m
    /\ sent k' = sent k + Z.of_nat (length qs) /\ completed k' = completed k + Z.of_nat (length qs)
    /\ gets_success k' = gets_success k + found /\ gets_not_found k' = gets_not_found k + missing
    /\ puts_success k' = puts_success k + stored.
Proof. apply session_spec. Qed.

Lemma session_behaves_as_map_witness :
  exists c k s, session first_recvs example_start two_requests = Some (c, k, s)
    /\ view (KVServer.store_ s) = {[ 7 := pattern 7 4096 ]}
    /\ completed k = 2 /\ gets_success k = 0 /\ gets_not_found k = 1 /\ puts_success k = 1.
Proof.
  pose proof (session_behaves_as_map 0 first_recvs example_client Counters_zero (example_server example_pool) two_requests
    example_session_inv (fun _ _ _ => eq_refl) (fun _ _ _ => eq_refl) example_session_ok) as H.
  cbn [KVServer.store_ example_server] in H. destruct example_store_view as [Hv Hn]. rewrite Hv, Hn in H.
  assert (Es : spec_session 1 ∅ two_requests = ({[ 7 := pattern 7 4096 ]}, (0, 1, 1))) by (vm_compute; reflexivity).
  rewrite Es in H. destruct H as (c & k & s & E & _ & Hm & _ & H1 & H2 & H3 & H4). exists c, k, s.
  split; [exact E|]. split; [exact Hm|]. split; [exact H1|]. split; [exact H2|]. split; [exact H3|exact H4].
Defined.

End properties.
