(* ===== verification/KvRun.v ===== *)
(** * The running key-value server

    Models [KVServer::Run] of [examples/kv_server.cpp]: the loop that accepts
    clients and polls the reactor until a signal clears [g_running]. Here the
    handlers are called as the dispatcher finds them, between one completion and
    the next, so that the reactor, the dispatcher and the server are one program. *)

From S2P Require Import Prelude Types WrId KvProtocol KvStore Verbs CompletionDispatcher TimingWheel Buffer BufferPool Memory.
From S2P Require Import QueuePair Connection Handshake Reactor KvServer KvServerLife.

(** ** The device *)

(** What a device delivers: the completion of a receive comes with the message
    that it has written into the buffer posted for it, no longer than the buffer;
    the id is one that the program made. *)
Definition delivered (message : list Z) (wc : ibv_wc) : Prop :=
  wc_status wc = IBV_WC_SUCCESS ->
  WrId.GetConnId (wc_wr_id wc) <> 0xFFFF
  /\ (WrId.GetOpcode (wc_wr_id wc) = RpcOpcode_u8 RECV ->
      wc = recv_completion (wc_wr_id wc) message
      /\ Forall (is_u 8) message /\ Z.of_nat (length message) <= kv.MAX_REQUEST_SIZE).

Class Deliveries (HW : Type) `{!CompletionSource HW} := {
  message_of : HW -> Z -> list Z;
  delivered_law hw cq max :
    match (ibv_poll_cq hw cq max).2 with
    | inl _ => True
    | inr l => Forall (fun wc => delivered (message_of hw (wc_wr_id wc)) wc) l
    end;
}.

Module KVServerRun.
Import KVServer.

Section run.
Context {HW P OS : Type} `{!Verbs HW, !CompletionSource HW, !Deliveries HW, !BufferSource P, !Sockets OS}.

(** The addresses of the server and of its handler, and the padding bytes of a
    [HandshakeMessage]. *)
Variables (self handler : Z) (pad1 : list Z) (pad2 : Z) (pad3 : list Z).

(** What [Connection::Create] and the queries of the device give in the round
    that [n] more follow. *)
Variables (conn_result : nat -> Result Connection) (local_params : nat -> Result QpConnParams).

Definition event_of (h : HW) (wc : ibv_wc) : ServerEvent :=
  if (wc_status wc =? IBV_WC_SUCCESS) && (WrId.GetOpcode (wc_wr_id wc) =? RpcOpcode_u8 RECV)
  then EvMessage (wc_wr_id wc) (message_of h (wc_wr_id wc))
  else EvCompletion wc.

(** Step 1 of [Reactor::Poll]; both queues have the server's dispatcher. The last
    components count the completions. *)
Fixpoint poll_queues (s : KVServer HW P) (r : Reactor.Reactor) (entries : list (Z * Z)) (total_events : Z)
    : option (KVServer HW P * Reactor.Reactor * Z) :=
  match entries with
  | [] => Some (s, r, total_events)
  | (cq, _) :: entries =>
      match ibv_poll_cq (hw s) cq (Reactor.current_batch_size_ r) with
      | (h, inl _) => poll_queues (set_hw s h (conn_manager_ s)) r entries total_events
      | (h, inr wcs) =>
          let n := Z.of_nat (length wcs) in
          if Reactor.wc_buffer_size_ r <? n then None
          else if 0 <? n then
            s ← server_run (set_hw s h (conn_manager_ s)) (event_of (hw s) <$> wcs);
            let r := Reactor.set_stats r (Reactor.current_batch_size_ r) (Reactor.poll_count_ r)
                       (u64 (Reactor.total_wc_count_ r + n)) (Reactor.idle_spin_count_ r) in
            poll_queues s r entries (total_events + n)
          else poll_queues (set_hw s h (conn_manager_ s)) r entries total_events
      end
  end.

(** [reactor_->Poll()]; the server registers no poller and queues no task. *)
Definition Poll (s : KVServer HW P) (r : Reactor.Reactor) : option (KVServer HW P * Reactor.Reactor) :=
  '(s, r, total_events) ← poll_queues s r (Reactor.cq_entries_ r) 0;
  '(r, _, _) ← Reactor.poll_rest (fun _ _ => 0) r total_events;
  Some (s, r).

(** [Run], while the flag is read as true [n] times; [fuel] bounds the transfers
    of a handshake. *)
Fixpoint Run (fuel n : nat) (os : OS) (s : KVServer HW P) (r : Reactor.Reactor) (server : TcpHandshakeServer.TcpHandshakeServer)
    : option (OS * KVServer HW P * Reactor.Reactor) :=
  match n with
  | O => Some (os, s, r)
  | S n =>
      '(os, s) ← AcceptConnections self handler pad1 pad2 pad3 fuel os s server (conn_result n) (local_params n);
      '(s, r) ← Poll s r;
      Run fuel n os s r server
  end.

End run.
End KVServerRun.

(** ** Lemmas *)

Section lemmas.
Import KVServer KVServerRun.
Context {HW P : Type} `{!Verbs HW, !CompletionSource HW, !Deliveries HW, !BufferSource P}.
Implicit Types (s : KVServer HW P).

Lemma event_of_ok (h : HW) wc : delivered (message_of h (wc_wr_id wc)) wc -> event_ok (event_of h wc).
Proof.
  unfold delivered, event_of. intros H. destruct (Z.eqb_spec (wc_status wc) IBV_WC_SUCCESS) as [Hs|Hs]; cbn [andb event_ok].
  - destruct (H Hs) as [Hid Hr]. destruct (Z.eqb_spec (WrId.GetOpcode (wc_wr_id wc)) (RpcOpcode_u8 RECV)) as [Hop|Hop]; [|done].
    destruct (Hr Hop) as (_ & Hu & Hl). by split_and!.
  - by intros ?.
Qed.

(** The event stands for the completion itself. *)
Lemma event_of_completion (h : HW) wc s :
  delivered (message_of h (wc_wr_id wc)) wc ->
  server_step s (event_of h wc)
  = if (wc_status wc =? IBV_WC_SUCCESS) && (WrId.GetOpcode (wc_wr_id wc) =? RpcOpcode_u8 RECV)
    then s ← receive s (wc_wr_id wc) (message_of h (wc_wr_id wc)); complete s wc
    else complete s wc.
Proof.
  unfold delivered, event_of. intros H. destruct (Z.eqb_spec (wc_status wc) IBV_WC_SUCCESS) as [Hs|Hs]; cbn [andb]; [|done].
  destruct (H Hs) as [_ Hr]. destruct (Z.eqb_spec (WrId.GetOpcode (wc_wr_id wc)) (RpcOpcode_u8 RECV)) as [Hop|Hop]; [|done].
  destruct (Hr Hop) as [E _]. cbn [server_step]. by rewrite <- E.
Qed.

Lemma set_device_wf s h : server_wf s [] -> server_wf (set_hw s h (conn_manager_ s)) [].
Proof. by intros []; split. Qed.

(** Polling calls the handlers without getting stuck; the state it reaches is one
    of the life of a server whose device may do anything. *)
Inductive polled (s s' : KVServer HW P) : Prop :=
  | polled_device h : s' = set_hw s h (conn_manager_ s) -> polled s s'
  | polled_event e : event_ok e -> server_step s e = Some s' -> polled s s'.

Lemma server_run_polled s es s' :
  Forall event_ok es -> server_run s es = Some s' -> rtc polled s s'.
Proof.
  intros Hes. revert s. induction Hes as [|e es He _ IH]; intros s; cbn [server_run]; [by intros [= <-]|].
  intros (s1 & E1 & E2)%bind_Some. eapply rtc_l; [by eapply polled_event|by apply IH].
Qed.

Lemma poll_queues_ok s r entries te q t :
  server_wf s [] -> core_ok r q t ->
  exists s' total te', poll_queues s r entries te
    = Some (s', Reactor.set_stats r (Reactor.current_batch_size_ r) (Reactor.poll_count_ r) total (Reactor.idle_spin_count_ r), te')
    /\ server_wf s' [] /\ rtc polled s s'.
Proof.
  revert s r te. induction entries as [|[cq d] entries IH]; intros s r te Hw Hr; cbn [poll_queues].
  { exists s, (Reactor.total_wc_count_ r), te. rewrite set_stats_id. done. }
  pose proof (poll_law (hw s) cq (Reactor.current_batch_size_ r)) as Hlaw.
  pose proof (delivered_law (hw s) cq (Reactor.current_batch_size_ r)) as Hdel.
  destruct (ibv_poll_cq (hw s) cq (Reactor.current_batch_size_ r)) as [h [e|wcs]]; cbn [snd] in Hdel.
  - destruct (IH (set_hw s h (conn_manager_ s)) r te (set_device_wf s h Hw) Hr) as (s' & total & te' & E & Hw' & Hp).
    exists s', total, te'. split_and!; [done|done|]. eapply rtc_l; [by eapply polled_device|done].
  - destruct Hlaw as (Hlen & _). pose proof (ro_batch _ _ _ Hr). pose proof (ro_buffer _ _ _ Hr).
    destruct (Z.ltb_spec (Reactor.wc_buffer_size_ r) (Z.of_nat (length wcs))); [lia|].
    destruct (Z.ltb_spec 0 (Z.of_nat (length wcs))).
    + assert (Hes : Forall event_ok (event_of (hw s) <$> wcs)) by (rewrite Forall_fmap; eapply Forall_impl; [exact Hdel|intros wc; apply event_of_ok]).
      destruct (server_run_wf _ _ (set_device_wf s h Hw) Hes) as (s1 & E1 & Hw1). rewrite E1. sbind.
      pose proof (server_run_polled _ _ _ Hes E1) as Hp1.
      match goal with |- context [poll_queues s1 ?r1 entries ?te1] => destruct (IH s1 r1 te1 Hw1) as (s' & total & te' & E & Hw' & Hp) end.
      { destruct Hr. by split. }
      rewrite E. exists s', total, te'. split; [done|]. split; [done|].
      eapply rtc_l; [by eapply polled_device|]. by etrans.
    + destruct (IH (set_hw s h (conn_manager_ s)) r te (set_device_wf s h Hw) Hr) as (s' & total & te' & E & Hw' & Hp).
      exists s', total, te'. split_and!; [done|done|]. eapply rtc_l; [by eapply polled_device|done].
Qed.

Lemma Poll_ok s r q t :
  server_wf s [] -> core_ok r q t ->
  exists s' r' t', Poll s r = Some (s', r') /\ server_wf s' [] /\ core_ok r' [] t' /\ rtc polled s s'.
Proof.
  intros Hw Hr. unfold Poll.
  destruct (poll_queues_ok s r (Reactor.cq_entries_ r) 0 q t Hw Hr) as (s1 & total & te & -> & Hw1 & Hp). sbind.
  match goal with |- context [Reactor.poll_rest ?f ?r1 te] =>
    destruct (poll_rest_spec f r1 q t te) as (r2 & -> & _ & _ & Hr2) end; [by destruct Hr; split|]. sbind.
  by do 3 eexists.
Qed.

Section run.
Context {OS : Type} `{!Sockets OS}.
Variables (self handler : Z) (pad1 : list Z) (pad2 : Z) (pad3 : list Z).
Variables (conn_result : nat -> Result Connection) (local_params : nat -> Result QpConnParams).

(** Everything a running server goes through. *)
Inductive run_step : KVServer HW P -> KVServer HW P -> Prop :=
  | step_polled s s' : polled s s' -> run_step s s'
  | step_accept n (os : OS) s srv r lp os' s' :
      (forall fuel, (n <= fuel)%nat ->
        AcceptConnections self handler pad1 pad2 pad3 fuel os s srv r lp = Some (os', s')) -> run_step s s'.

Lemma Run_ok n (os : OS) s r q t srv :
  handler <> 0 -> server_wf s [] -> core_ok r q t ->
  exists k os' s' r' q' t',
    (forall fuel, (k <= fuel)%nat -> Run self handler pad1 pad2 pad3 conn_result local_params fuel n os s r srv = Some (os', s', r'))
    /\ open_fds os' = open_fds os /\ server_wf s' [] /\ core_ok r' q' t' /\ rtc run_step s s'.
Proof.
  intros Hh. revert os s r q t. induction n as [|n IH]; intros os s r q t Hw Hr; cbn [Run].
  { exists O, os, s, r, q, t. by split_and!. }
  destruct (AcceptConnections_wf self handler pad1 pad2 pad3 os s srv (conn_result n) (local_params n) Hw Hh)
    as (k1 & os1 & s1 & E1 & Hw1).
  destruct (Poll_ok s1 r q t Hw1 Hr) as (s2 & r2 & t2 & E2 & Hw2 & Hr2 & Hp).
  destruct (IH os1 s2 r2 [] t2 Hw2 Hr2) as (k & os' & s' & r' & q' & t' & E & Ho & Hw' & Hr' & Hs).
  exists (Nat.max k1 k), os', s', r', q', t'. split_and!; [| |done|done|].
  - intros fuel Hf. rewrite E1 by lia. sbind. rewrite E2. sbind. apply E. lia.
  - rewrite Ho. exact (AcceptConnections_fds _ _ _ _ _ _ _ _ _ _ _ _ _ (E1 _ (le_n _))).
  - eapply rtc_l; [by eapply step_accept|]. etrans; [|exact Hs]. clear -Hp. induction Hp; [done|].
    eapply rtc_l; [by apply step_polled|done].
Qed.

End run.

End lemmas.

(** ** Examples *)

Section example.
Import KVServer KVServerRun.

(** A device that delivers the same PUT a number of times, at queue 4. *)
Definition Feed : Type := (ibv_qp_state * list ibv_send_wr) * nat.

#[export, refine] Instance feed_verbs : Verbs Feed := {|
  ibv_post_send h q wr := let '(h1, ret) := ibv_post_send h.1 q wr in ((h1, h.2), ret);
  ibv_post_recv h q wr := let '(h1, ret) := ibv_post_recv h.1 q wr in ((h1, h.2), ret);
  ibv_modify_qp h q attr mask := let '(h1, ret) := ibv_modify_qp h.1 q attr mask in ((h1, h.2), ret);
  QueuePair.errno h := QueuePair.errno h.1;
  posted h := posted h.1;
|}.
Proof.
  - intros [h n] q wr. cbn [fst]. pose proof (posted_post_send h q wr) as H. by destruct (ibv_post_send h q wr).
  - intros [h n] q wr. cbn [fst]. pose proof (posted_post_recv h q wr) as H. by destruct (ibv_post_recv h q wr).
  - intros [h n] q attr mask. cbn [fst]. pose proof (posted_modify h q attr mask) as H. by destruct (ibv_modify_qp h q attr mask).
Defined.

#[export, refine] Instance feed_queues : CompletionSource Feed := {|
  ibv_poll_cq h cq max :=
    if cq =? 4 then ((h.1, h.2 - Z.to_nat max)%nat, inr (replicate (Nat.min (Z.to_nat max) h.2) (recv_completion recv_wrid put_message)))
    else (h, inr []);
  pending h cq := if cq =? 4 then replicate h.2 (recv_completion recv_wrid put_message) else [];
|}.
Proof.
  - intros [h n] cq max. destruct (cq =? 4); [|split; [simpl; lia|done]]. cbn [fst snd]. rewrite length_replicate.
    split; [lia|]. split; [rewrite <- replicate_add; f_equal; lia|].
    intros Hm E. destruct n as [|n]; [done|]. destruct (Z.to_nat max) eqn:En; [lia|done].
  - intros [h n] cq max cq' Hne. destruct (Z.eqb_spec cq 4) as [->|]; [|done]. cbn [fst].
    by rewrite (proj2 (Z.eqb_neq cq' 4)).
Defined.

#[export, refine] Instance feed_delivers : Deliveries Feed := {|
  message_of _ _ := put_message;
|}.
Proof.
  intros [h n] cq max. unfold ibv_poll_cq, feed_queues. destruct (cq =? 4); [|constructor]. cbn [snd].
  apply Forall_replicate. intros _. split; [vm_compute; discriminate|]. intros _. split; [done|].
  destruct put_message_ok as [Hu Hl]. split; [exact Hu|]. rewrite Hl. vm_compute. discriminate.
Defined.

End example.

(** ** Properties *)

Section properties.
Import KVServer KVServerRun.

(** C10: The server runs until the signal. From what [Initialize] builds on a working
    pool, with its reactor, dispatcher, store, connections and sockets together,
    [Run] returns when the flag has been read as true [n] times, for every [n],
    every behaviour of the clients and every completion that a device may
    deliver: no handler and no accept gets stuck, the batches fit the reactor's
    buffer, every state on the way satisfies the server's invariant, and the
    descriptors are those there were before. *)
Theorem server_runs {HW P OS} `{!Verbs HW, !CompletionSource HW, !Deliveries HW, !BufferSource P, !Sockets OS}
    (os0 : OS) port (h : HW) m alloc device pd send_cq recv_cq
    (create_pool : LocalBufferPool.BufferPoolConfig -> Result P) pool srv self eh disp handler pad1 pad2 pad3 conn_result local_params :
  alloc_ok alloc (KVStore.total_storage_size store_config) -> working_pool create_pool bp_config ->
  create_pool bp_config = RVal pool -> handler <> 0 ->
  exists s r, Initialize os0 port h m alloc true (RVal device) (RVal pd) (RVal send_cq) (RVal recv_cq) create_pool
                self eh disp = Some (listening os0 port (s, r))
    /\ forall n (os : OS), exists k os' s' r',
         (forall fuel, (k <= fuel)%nat -> Run self handler pad1 pad2 pad3 conn_result local_params fuel n os s r srv = Some (os', s', r'))
         /\ open_fds os' = open_fds os /\ server_wf s' [] /\ (exists q t, core_ok r' q t)
         /\ rtc (run_step self handler pad1 pad2 pad3 (OS := OS)) s s'.
Proof.
  intros Ha Hp Hs Hh.
  destruct (Initialize_wf os0 port h m alloc device pd send_cq recv_cq create_pool pool self eh disp Ha Hp Hs) as (s & r & E & Hw & Hr & _).
  exists s, r. split; [exact E|]. intros n os.
  destruct (Run_ok self handler pad1 pad2 pad3 conn_result local_params n os s r _ _ srv Hh Hw Hr)
    as (k & os' & s' & r' & q & t & H1 & H2 & H3 & H4 & H5).
  exists k, os', s', r'. split_and!; [exact H1|exact H2|exact H3|by exists q, t|exact H5].
Qed.

Lemma server_runs_witness :
  exists (s : KVServer Feed LocalBufferPool.LocalBufferPool) r k os' s' r', forall fuel, (k <= fuel)%nat ->
    Run 1 1 [0; 0] 0 [0; 0; 0; 0] (fun _ => RVal example_connection) (fun _ => RVal example_params) fuel 1000 example_receiver s r
      {| TcpHandshakeServer.listen_fd_ := 3; TcpHandshakeServer.port_ := 12345 |} = Some (os', s', r').
Proof.
  destruct server_factory_works as [Hf [p Hp]].
  destruct (server_runs (HW := Feed) example_receiver 12345 ((IBV_QPS_RESET, []), 7%nat) (fun _ => 0) zero_alloc 1 2 3 4
    example_factory p
    {| TcpHandshakeServer.listen_fd_ := 3; TcpHandshakeServer.port_ := 12345 |} 1 1 1 1 [0; 0] 0 [0; 0; 0; 0]
    (fun _ => RVal example_connection) (fun _ => RVal example_params)) as (s & r & _ & H).
  - apply zero_alloc_ok. vm_compute. discriminate.
  - exact Hf.
  - exact Hp.
  - discriminate.
  - destruct (H 1000%nat example_receiver) as (k & os' & s' & r' & E & _). exists s, r, k, os', s', r'. exact E.
Defined.

End properties.
