(* ===== verification/KvMain.v ===== *)
(** * The [main] functions of the key-value programs

    Models [examples/kv_server_main.cpp] and [examples/kv_client_main.cpp]: the
    flags, their checks, and the calls of [KVServer] and [KVClient] between the
    first and the return. The flag library is not in the repository: the values it
    has parsed are the argument. *)

From S2P Require Import Prelude Float32 Types WrId KvProtocol KvStore Verbs CompletionDispatcher TimingWheel Buffer BufferPool Memory.
From S2P Require Import QueuePair Connection Handshake Reactor KvServer KvServerLife KvClient KvRun.

(** ** The server *)

Module KVServerMain.
Import KVServer KVServerRun.

Section server.
Context {HW P OS : Type} `{!Verbs HW, !CompletionSource HW, !Deliveries HW, !BufferSource P, !Sockets OS}.
Variables (self handler : Z) (pad1 : list Z) (pad2 : Z) (pad3 : list Z).
Variables (conn_result : nat -> Result Connection) (local_params : nat -> Result QpConnParams).

(** The result is the exit code; the destructor of the server closes its socket. *)
Definition main (fuel n : nat) (FLAGS_port : Z) (os : OS) (h : HW) (m : memory) (alloc : Z -> option (list Z))
    (wc_buffer : bool) (device pd send_cq recv_cq : Result Z)
    (create_pool : LocalBufferPool.BufferPoolConfig -> Result P) (error_handler dispatcher : Z)
    : option (OS * Z) :=
  '(os, made) ← Initialize os (u16 FLAGS_port) h m alloc wc_buffer device pd send_cq recv_cq create_pool self error_handler dispatcher;
  match made with
  | None => Some (os, 1)
  | Some (s, r, server) =>
      '(os, _, _) ← Run self handler pad1 pad2 pad3 conn_result local_params fuel n os s r server;
      Some ((TcpHandshakeServer.Close os server).1, 0)
  end.

End server.
End KVServerMain.

(** ** The client *)

Module KVClientMain.
Import KVClient.

(** A [double] flag is a binary64 number. *)
Record Flags := {
  FLAGS_host : string;
  FLAGS_port : Z;
  FLAGS_num_operations : Z;
  FLAGS_put_ratio : spec_float;
  FLAGS_value_size : Z;
  FLAGS_sgl : bool;
  FLAGS_segments : Z;
}.

Definition double (n : Z) : spec_float := binary_normalize 53 1024 n 0 false.

(** The operations, keys and ratio of the benchmark; [op_dist] and [key_dist] give
    the [i]-th values of the two distributions. *)
Definition draws (put_ratio : Float32.float) (op_dist : Z -> Float32.float) (key_dist : Z -> Z) (i : Z) : bool * Z :=
  (Float32.ltb (op_dist i) put_ratio, key_dist i).

Definition benchmark (f : Flags) : Benchmark :=
  {| num_operations := FLAGS_num_operations f; value_size := u32 (FLAGS_value_size f);
     use_sgl := FLAGS_sgl f; num_segments := FLAGS_segments f |}.

Section client.
Context {HW P OS : Type} `{!Verbs HW, !BufferSource P, !Sockets OS}.
Variables (pad1 : list Z) (pad2 : Z) (pad3 : list Z).

(** The exit code; the inner [None]: the benchmark is still in its loop after
    the rounds [rs]. *)
Definition main (fuel : nat) (f : Flags) (os : OS) (h : HW) (m : memory) (device pd send_cq recv_cq : Result Z)
    (create_pool : LocalBufferPool.BufferPoolConfig -> Result P) (conn_result : Result Connection) (local_params : Result QpConnParams)
    (op_dist : Z -> Float32.float) (key_dist : Z -> Z) (rs : list Round) : option (OS * option Z) :=
  if (FLAGS_host f =? "")%string then Some (os, Some 1)
  else if SFltb (FLAGS_put_ratio f) (double 0) || SFltb (double 1) (FLAGS_put_ratio f) then Some (os, Some 1)
  else if negb (kv.IsValidValueSize (u32 (FLAGS_value_size f))) then Some (os, Some 1)
  else if (FLAGS_segments f <? 1) || (kv.MAX_SEGMENTS <? FLAGS_segments f) then Some (os, Some 1)
  else
    '(os, c) ← Connect pad1 pad2 pad3 fuel h m os (FLAGS_host f) (u16 (FLAGS_port f)) device pd send_cq recv_cq create_pool
                 conn_result local_params;
    match c with
    | None => Some (os, Some 1)
    | Some c =>
        '(_, _, ended) ← RunBenchmark (benchmark f)
                           (draws (Float32.of_double (FLAGS_put_ratio f)) op_dist key_dist) c rs;
        Some (os, if ended : bool then Some 0 else None)
    end.

End client.
End KVClientMain.

(** ** Specification *)

Section specification.
Import KVClient KVClientMain.

(** What the parser of an [int32] flag lets through. *)
Definition flags_typed (f : Flags) : Prop :=
  - 2 ^ 31 <= FLAGS_num_operations f < 2 ^ 31 /\ - 2 ^ 31 <= FLAGS_value_size f < 2 ^ 31.

(** The flags the client takes. *)
Definition flags_ok (f : Flags) : Prop :=
  FLAGS_host f <> "" /\ SFltb (FLAGS_put_ratio f) (double 0) = false /\ SFltb (double 1) (FLAGS_put_ratio f) = false
  /\ kv.MIN_VALUE_SIZE <= FLAGS_value_size f <= kv.MAX_VALUE_SIZE /\ FLAGS_value_size f mod kv.VALUE_ALIGN = 0
  /\ 1 <= FLAGS_segments f <= kv.MAX_SEGMENTS.

#[export] Instance flags_ok_dec f : Decision (flags_ok f).
Proof. unfold flags_ok. apply _. Defined.

(** A scatter-gather benchmark of the largest values. *)
Definition full_sgl (f : Flags) : Prop :=
  FLAGS_sgl f = true /\ 1 < FLAGS_segments f /\ FLAGS_value_size f = kv.MAX_VALUE_SIZE.


End specification.

(** ** Lemmas *)

Section lemmas.
Import KVClient KVClientMain.

Lemma value_size_u32 f : flags_typed f ->
  kv.IsValidValueSize (u32 (FLAGS_value_size f)) = true <->
  kv.MIN_VALUE_SIZE <= FLAGS_value_size f <= kv.MAX_VALUE_SIZE /\ FLAGS_value_size f mod kv.VALUE_ALIGN = 0.
Proof.
  intros [_ Hv]. rewrite IsValidValueSize_spec. unfold kv.MIN_VALUE_SIZE, kv.MAX_VALUE_SIZE.
  destruct (Z.le_gt_cases 0 (FLAGS_value_size f)) as [H0|H0].
  - by rewrite wrap_id by (unfold is_u; lia).
  - assert (u32 (FLAGS_value_size f) = FLAGS_value_size f + 2 ^ 32) as ->; [|lia].
    unfold wrap. symmetry. apply Z.mod_unique with (-1); lia.
Qed.

(** What the checks let through is what [flags_ok] says. *)
Lemma main_checks {HW P OS} `{!Verbs HW, !BufferSource P, !Sockets OS} pad1 pad2 pad3 fuel f (os : OS) (h : HW) m device pd
    send_cq recv_cq (create_pool : LocalBufferPool.BufferPoolConfig -> Result P) conn_result local_params op_dist key_dist rs :
  flags_typed f ->
  let r := main pad1 pad2 pad3 fuel f os h m device pd send_cq recv_cq create_pool conn_result local_params op_dist key_dist rs in
  flags_ok f /\ r = ('(os, c) ← Connect pad1 pad2 pad3 fuel h m os (FLAGS_host f) (u16 (FLAGS_port f)) device pd send_cq
        recv_cq create_pool conn_result local_params;
      match c with
      | None => Some (os, Some 1)
      | Some c =>
          '(_, _, ended) ← RunBenchmark (benchmark f) (draws (Float32.of_double (FLAGS_put_ratio f)) op_dist key_dist) c rs;
          Some (os, if ended : bool then Some 0 else None)
      end)
  \/ ~ flags_ok f /\ r = Some (os, Some 1).
Proof.
  intros Ht. pose proof (value_size_u32 f Ht) as Hv. unfold main, flags_ok.
  destruct (String.eqb_spec (FLAGS_host f) "") as [Hh|Hh]; [right; split; [naive_solver|done]|].
  destruct (SFltb (FLAGS_put_ratio f) (double 0)) eqn:H0; [right; split; [naive_solver|done]|].
  destruct (SFltb (double 1) (FLAGS_put_ratio f)) eqn:H1; [right; split; [naive_solver|done]|]. cbn [orb].
  destruct (kv.IsValidValueSize (u32 (FLAGS_value_size f))) eqn:Es.
  2:{ right. split; [|done]. intros (_ & _ & _ & H2 & H3 & _). discriminate (proj2 Hv (conj H2 H3)). }
  cbn [negb]. destruct (proj1 Hv eq_refl) as [[H2 H2'] H3].
  destruct (Z.ltb_spec (FLAGS_segments f) 1); [right; split; [intros (_ & _ & _ & _ & _ & ?); lia|done]|].
  destruct (Z.ltb_spec kv.MAX_SEGMENTS (FLAGS_segments f)); [right; split; [intros (_ & _ & _ & _ & _ & ?); lia|done]|].
  left. split; [|done]. by split_and!; try lia.
Qed.


Section benchmark.
Context {HW P : Type} `{!Verbs HW, !BufferSource P}.
Implicit Types (c : KVClient HW P).




(** A scatter-gather benchmark of full values with a PUT in the first round. *)
Lemma RunBenchmark_overflow bm draw c r rs j :
  has_buffers kv.MAX_RESPONSE_SIZE 64 (buffer_pool_ c) ->
  use_sgl bm = true -> 1 < num_segments bm -> value_size bm = kv.MAX_VALUE_SIZE ->
  0 <= j < num_operations bm -> j < MAX_OUTSTANDING -> (draw j).1 = true -> running r = true ->
  RunBenchmark bm draw c (r :: rs) = None.
Proof.
  intros Hb Hu Hg Hv Hj Ho Hd Hrun. unfold RunBenchmark. rewrite Hv. cbn [rounds]. rewrite Hrun. cbn [completed Counters_zero andb].
  replace (negb (kv.IsValidValueSize kv.MAX_VALUE_SIZE)) with false by reflexivity. rewrite (proj2 (Z.ltb_lt _ _)) by lia.
  unfold round. change (sent Counters_zero) with 0. unfold MAX_OUTSTANDING in Ho.
  rewrite (send_requests_overflow kv.MAX_RESPONSE_SIZE bm draw j); [done|..]; cbn [sent completed Counters_zero].
  - apply (has_buffers_le _ 64); [lia|done].
  - vm_compute. discriminate.
  - rewrite Hu. by apply Z.ltb_lt.
  - rewrite Hv. vm_compute. discriminate.
  - rewrite Hv. unfold kv.MAX_RESPONSE_SIZE, kv.ResponseHeader_size, kv.RequestHeader_size, kv.SegmentDescriptor_size. lia.
  - lia.
  - unfold MAX_OUTSTANDING. lia.
  - done.
  - lia.
Qed.


End benchmark.
End lemmas.

(** ** Example *)

Section example.
Import KVClient KVClientMain.

(** The benchmark of full scatter-gather values, half of them PUTs, that the usage
    text allows; its fourth operation is a PUT. *)
Definition full_flags : Flags :=
  {| FLAGS_host := "host"; FLAGS_port := 12345; FLAGS_num_operations := 10000; FLAGS_put_ratio := binary_normalize 53 1024 1 (-1) false;
     FLAGS_value_size := 65536; FLAGS_sgl := true; FLAGS_segments := 4 |}.


Definition fourth_put (i : Z) : Float32.float := if i =? 3 then Float32.literal 1 4 else Float32.literal 3 4.


Definition first_round : Round := {| running := true; send_wcs := []; arrivals := []; recv_wcs := [] |}.


Lemma full_flags_ok : flags_typed full_flags /\ flags_ok full_flags.
Proof. repeat split; vm_compute; congruence. Qed.

(** Every comparison with NaN is false, so the check of the ratio lets it through;
    all operations are then GETs. *)
Lemma nan_ratio_ok key_dist i :
  let f := {| FLAGS_host := "host"; FLAGS_port := 12345; FLAGS_num_operations := 10000; FLAGS_put_ratio := S754_nan;
              FLAGS_value_size := 4096; FLAGS_sgl := false; FLAGS_segments := 4 |} in
  flags_ok f /\ forall op_dist, draws (Float32.of_double (FLAGS_put_ratio f)) op_dist key_dist i = (false, key_dist i).
Proof.
  split; [repeat split; vm_compute; congruence|]. intros op_dist. unfold draws. cbn. by destruct (op_dist i).
Qed.


End example.

(** ** Properties *)

Section server_properties.
Import KVServer KVServerMain.

(** C28: The server program ends and leaves no descriptor. Whatever its factories
    and its allocators give or refuse - only the pool, if one is made, must be a
    working one, that is one that keeps the contract of [BufferSource], as the LIFO
    policy gives and the FIFO policy of the program's own configuration does not
    ([configured_pool_serves_nothing]) - whatever clients connect and whatever a
    device may deliver, [main] returns once the flag has been read as true [n]
    times: 0 when everything was made and the port, the low 16 bits of the flag,
    was bound, otherwise 1. The descriptors are then those there were at the
    start. *)
Theorem server_main_ends {HW P OS} `{!Verbs HW, !CompletionSource HW, !Deliveries HW, !BufferSource P, !Sockets OS}
    self handler pad1 pad2 pad3 conn_result local_params n FLAGS_port (os : OS) (h : HW) m alloc wc_buffer device pd
    send_cq recv_cq (create_pool : LocalBufferPool.BufferPoolConfig -> Result P) eh disp :
  alloc_sized alloc (KVStore.total_storage_size store_config) -> handler <> 0 -> working_pool create_pool bp_config ->
  exists k os' code,
    (forall fuel, (k <= fuel)%nat ->
      main self handler pad1 pad2 pad3 conn_result local_params fuel n FLAGS_port os h m alloc wc_buffer device pd send_cq
        recv_cq create_pool eh disp = Some (os', code))
    /\ code = (if all_made os (FLAGS_port mod 2 ^ 16) alloc wc_buffer device pd send_cq recv_cq create_pool then 0 else 1)
    /\ open_fds os' = open_fds os.
Proof.
  intros Ha Hh Hp. destruct (Initialize_total os (u16 FLAGS_port) h m alloc wc_buffer device pd send_cq recv_cq create_pool self eh disp Ha Hp)
    as (os1 & x & E & Hx & Hok).
  assert (Hcode : forall b : bool, (is_Some x <-> b = true) -> (if b then 0 else 1) = match x with Some _ => 0 | None => 1 end).
  { intros [] Hb; destruct x; [done| |exfalso|done]; [by destruct (proj2 Hb eq_refl)|by discriminate (proj1 Hb (ex_intro _ _ eq_refl))]. }
  change (FLAGS_port mod 2 ^ 16) with (u16 FLAGS_port). rewrite (Hcode _ Hok). unfold main. destruct x as [[[s r] srv]|].
  - destruct Hx as (Hw & Hr & Hfd & Hnew & Ho).
    destruct (Run_ok self handler pad1 pad2 pad3 conn_result local_params n os1 s r _ _ srv Hh Hw Hr)
      as (k & os2 & s2 & r2 & q & t & H1 & H2 & _).
    exists k, (TcpHandshakeServer.Close os2 srv).1, 0. split; [|split; [done|]].
    + intros fuel Hf. rewrite E. sbind. rewrite H1 by done. reflexivity.
    + rewrite server_Close_fds by done. rewrite H2, Ho. set_solver.
  - exists O, os1, 1. split; [|done]. intros fuel _. rewrite E. reflexivity.
Qed.

Lemma server_main_ends_witness :
  exists k os' code, forall fuel, (k <= fuel)%nat ->
    main 1 1 [0; 0] 0 [0; 0; 0; 0] (fun _ => RVal example_connection) (fun _ => RVal example_params) fuel 1000 77881
      example_receiver ((IBV_QPS_RESET, []), 7%nat) (fun _ => 0) zero_alloc true (RVal 1) (RVal 2) (RVal 3) (RVal 4)
      example_factory 1 1 = Some (os', code).
Proof.
  destruct (server_main_ends (HW := Feed) 1 1 [0; 0] 0 [0; 0; 0; 0] (fun _ => RVal example_connection)
    (fun _ => RVal example_params) 1000 77881 example_receiver ((IBV_QPS_RESET, []), 7%nat) (fun _ => 0) zero_alloc true
    (RVal 1) (RVal 2) (RVal 3) (RVal 4) example_factory 1 1) as (k & os' & code & H & _).
  - apply alloc_ok_sized, zero_alloc_ok. vm_compute. discriminate.
  - discriminate.
  - exact (proj1 server_factory_works).
  - exists k, os', code. exact H.
Defined.

End server_properties.

Section client_properties.
Import KVClient KVClientMain.



(** C39: The check of the flags does not protect the buffers. The buffers the
    client asks for have room for a header and the largest value, but not for the
    segment descriptors. So with the pool that the program configures - the FIFO
    pool of [LocalBufferPool::Create], its memory and registration given - a
    benchmark that the flags allow, of scatter-gather PUTs of 65536 bytes in 2 to
    16 segments, writes past the end of a buffer once it has connected, whenever
    one of the operations of its first round - the first 64, all of them sent
    before a completion is looked at - is a PUT. *)
Theorem full_sgl_main_overruns {HW OS} `{!Verbs HW, !Sockets OS} pad1 pad2 pad3 f (os os' : OS) (h : HW) m
    device pd send_cq recv_cq allocate reg memory mr conn_result local_params op_dist key_dist j r rs n c :
  flags_typed f -> flags_ok f -> full_sgl f ->
  allocate false (-1) (kv.MAX_RESPONSE_SIZE * 256) = memory -> reg memory (kv.MAX_RESPONSE_SIZE * 256) = RVal mr ->
  0 < memory -> memory + kv.MAX_RESPONSE_SIZE * 256 <= 2 ^ 64 ->
  0 <= j < FLAGS_num_operations f -> j < 64 ->
  Float32.ltb (op_dist j) (Float32.of_double (FLAGS_put_ratio f)) = true -> running r = true ->
  Connect pad1 pad2 pad3 n h m os (FLAGS_host f) (u16 (FLAGS_port f)) device pd send_cq recv_cq (ring_pool allocate reg)
    conn_result local_params = Some (os', Some c) ->
  forall fuel, (n <= fuel)%nat ->
    main pad1 pad2 pad3 fuel f os h m device pd send_cq recv_cq (ring_pool allocate reg) conn_result local_params op_dist
      key_dist (r :: rs) = None.
Proof.
  intros Ht Hok (Hsgl & Hseg & Hval) Ha Hr Hm Hsp Hj Ho Hput Hrun E fuel Hf.
  destruct (Create_fresh allocate reg bp_config memory mr Ha Hr) as (p & Ep & Hfresh & Hsz & Hn); [|done|].
  { split_and!; [done|done|done|vm_compute; congruence|done|]. by rewrite Z.mul_comm. }
  assert (Hb : has_buffers kv.MAX_RESPONSE_SIZE 64 (buffer_pool_ c)).
  { eapply (Connect_left pad1 pad2 pad3 _ _ _ _ _ _ _ _ _ _ _ _ _ _ _ _ _ p); [exact E|unfold ring_pool; by rewrite Ep|].
    change kv.MAX_RESPONSE_SIZE with (LocalBufferPool.buffer_size bp_config). rewrite <- Hsz.
    apply fresh_has_buffers; [done|]. rewrite Hn. vm_compute. discriminate. }
  destruct (main_checks pad1 pad2 pad3 fuel f os h m device pd send_cq recv_cq (ring_pool allocate reg) conn_result local_params
    op_dist key_dist (r :: rs) Ht) as [[_ ->]|[? _]]; [|done].
  rewrite (Connect_mono _ _ _ _ _ _ _ _ _ _ _ _ _ _ _ _ _ _ Hf E). sbind.
  rewrite (RunBenchmark_overflow _ _ c r rs j); try done. cbn [value_size benchmark]. by rewrite Hval.
Qed.

Lemma full_sgl_main_overruns_witness :
  main (OS := Script) [0; 0] 0 [0; 0; 0; 0] 1000 full_flags example_receiver (HW := ibv_qp_state * list ibv_send_wr)
    (IBV_QPS_RESET, []) (fun _ => 0) (RVal 1) (RVal 2) (RVal 3) (RVal 4) (ring_pool (fun _ _ _ => 65536) example_register)
    (RVal example_connection) (RVal example_params) fourth_put u64 [first_round] = None.
Proof.
  destruct (Connect (OS := Script) [0; 0] 0 [0; 0; 0; 0] 1000 (HW := ibv_qp_state * list ibv_send_wr) (IBV_QPS_RESET, [])
    (fun _ => 0) example_receiver "host" 12345 (RVal 1) (RVal 2) (RVal 3) (RVal 4)
    (ring_pool (fun _ _ _ => 65536) example_register)
    (RVal example_connection) (RVal example_params)) as [[os' [c|]]|] eqn:E; [|vm_compute in E; discriminate..].
  eapply (full_sgl_main_overruns (OS := Script) _ _ _ full_flags) with (j := 3); try exact E.
  - exact (proj1 full_flags_ok).
  - exact (proj2 full_flags_ok).
  - repeat split.
  - reflexivity.
  - reflexivity.
  - lia.
  - vm_compute. discriminate.
  - split; vm_compute; congruence.
  - reflexivity.
  - vm_compute. reflexivity.
  - reflexivity.
  - apply le_n.
Defined.

End client_properties.
