(* ===== verification/DemoPrograms.v ===== *)
(** * The demo programs

    Models [examples/server.cpp] and [examples/client.cpp], two [main] functions
    that put the parts together without the reactor: they open the device, make
    the queues, the pool and the dispatcher, shake hands over TCP, post receives
    and poll. What they print while running is their behaviour: a list of lines.
    The start-up messages and the wording of a status are left out.

    [g_running] starts true and is set to false, for good, by a signal. The model
    takes the number of times it is read as true; in the client, the time read in
    each of those rounds. [None] is undefined behaviour. *)

From S2P Require Import Prelude Types WrId Verbs CompletionDispatcher Buffer BufferPool Memory.
From S2P Require Import Resources QueuePair Connection Handshake Reactor.
From Stdlib Require Import Ascii.

(** ** The device *)

(** What the verbs library documents about requests and completions: [unfinished]
    are the ids of the requests accepted that may still complete. A request
    completes at most once, under its own id, and polling posts nothing. *)
Class WorkQueues (HW : Type) `{!Verbs HW, !CompletionSource HW} := {
  unfinished : HW -> list Z;
  unfinished_post_send hw qp wr :
    unfinished (ibv_post_send hw qp wr).1
    ≡ₚ if (ibv_post_send hw qp wr).2 =? 0 then wr_id wr :: unfinished hw else unfinished hw;
  unfinished_post_recv hw qp wr :
    unfinished (ibv_post_recv hw qp wr).1
    ≡ₚ if (ibv_post_recv hw qp wr).2 =? 0 then rwr_id wr :: unfinished hw else unfinished hw;
  unfinished_modify hw qp attr mask : unfinished (ibv_modify_qp hw qp attr mask).1 = unfinished hw;
  unfinished_poll hw cq max :
    match (ibv_poll_cq hw cq max).2 with
    | inl _ => unfinished (ibv_poll_cq hw cq max).1 = unfinished hw
    | inr l => (wc_wr_id <$> l) ++ unfinished (ibv_poll_cq hw cq max).1 ⊆+ unfinished hw
    end;
  posted_poll hw cq max : posted (ibv_poll_cq hw cq max).1 = posted hw;
}.

(** ** What the two programs share *)

Module Demo.

Inductive Line :=
  | LFail (message : string)
  | LConnected (qp_num : Z)
  | LReceived (byte_len : Z)
  | LSendCompleted
  | LWcError (status : Z)
  | LError (conn_id status : Z)
  | LSent (number : Z).

Definition OnCompletion (wc : ibv_wc) : list Line :=
  if negb (wc_status wc =? IBV_WC_SUCCESS) then [LWcError (wc_status wc)]
  else
    let opcode := WrId.GetOpcode (wc_wr_id wc) in
    if opcode =? RpcOpcode_u8 RECV then [LReceived (wc_byte_len wc)]
    else if (opcode =? RpcOpcode_u8 REQUEST_SEND) || (opcode =? RpcOpcode_u8 RESPONSE_SEND) then [LSendCompleted]
    else [].

Definition OnError (conn_id status : Z) : list Line := [LError conn_id status].

(** The two handlers are the only ones registered. *)
Definition on_event (e : CompletionDispatcher.Event) : list Line :=
  match e with
  | CompletionDispatcher.ECall _ _ wc => OnCompletion wc
  | CompletionDispatcher.EError _ _ conn_id status => OnError conn_id status
  end.

(** [std::isspace] in the C locale. *)
Definition isspace (c : ascii) : bool :=
  let n := Z.of_nat (nat_of_ascii c) in (n =? 32) || (9 <=? n) && (n <=? 13).

Fixpoint skip_space (s : string) : string :=
  match s with
  | String c r => if isspace c then skip_space r else s
  | EmptyString => s
  end.

Fixpoint digits (s : string) (n : Z) : Z :=
  match s with
  | String c r =>
      let d := Z.of_nat (nat_of_ascii c) - 48 in
      if (0 <=? d) && (d <=? 9) then digits r (n * 10 + d) else n
  | EmptyString => n
  end.

(** [std::atoi]; a value out of the range of [int] is undefined. *)
Definition atoi (s : string) : option Z :=
  let s := skip_space s in
  let n := match s with
           | String "-"%char r => - digits r 0
           | String "+"%char r => digits r 0
           | _ => digits s 0
           end in
  if decide (-2 ^ 31 <= n < 2 ^ 31) then Some n else None.

(** [static_cast<uint16_t>(std::atoi(argv[i]))], or the default. *)
Definition port_of (argv : list string) (i : nat) : option Z :=
  match argv !! i with
  | Some a => n ← atoi a; Some (u16 n)
  | None => Some 12345
  end.

Definition bp_config : LocalBufferPool.BufferPoolConfig :=
  {| LocalBufferPool.buffer_size := 4096; LocalBufferPool.buffer_count := 256;
     LocalBufferPool.max_buffer_count := 65536; LocalBufferPool.numa_node := -1;
     LocalBufferPool.use_hugepage := false; LocalBufferPool.policy := FIFO |}.

(** The message each side sends: [HandshakeMessage msg = {}], then the parameters
    and the version. *)
Definition greeting (params : QpConnParams) : HandshakeMessage :=
  {| HandshakeMessage.qp_params := params;
     HandshakeMessage.recv_buffer_info := {| rmi_addr := 0; rmi_rkey := 0; rmi_length := 0 |};
     HandshakeMessage.conn_id := 0; HandshakeMessage.version := 1; HandshakeMessage.flags := 0;
     HandshakeMessage.hostname := replicate 64 0 |}.

(** The objects of [main] once it is set up. *)
Record Program (HW : Type) := {
  hw : HW;
  mem : memory;
  buffer_pool : LocalBufferPool.LocalBufferPool;
  dispatcher : CompletionDispatcher.CompletionDispatcher;
}.
Arguments hw {HW} _.
Arguments mem {HW} _.
Arguments buffer_pool {HW} _.
Arguments dispatcher {HW} _.

(** How [main] ends: its result, the lines, the pool's memory given back, and the
    systems it leaves behind. *)
Record Exit (OS OB HW : Type) := {
  code : Z;
  lines : list Line;
  freed : list LocalBufferPool.Event;
  ex_os : OS;
  ex_ob : OB;
  ex_hw : HW;
}.
Arguments code {OS OB HW} _.
Arguments lines {OS OB HW} _.
Arguments freed {OS OB HW} _.
Arguments ex_os {OS OB HW} _.
Arguments ex_ob {OS OB HW} _.
Arguments ex_hw {OS OB HW} _.

Section program.
Context {HW : Type} `{!Verbs HW, !CompletionSource HW}.
Implicit Types (s : Program HW) (conn : Connection).

Definition set_hw s (h : HW) : Program HW :=
  {| hw := h; mem := mem s; buffer_pool := buffer_pool s; dispatcher := dispatcher s |}.

Definition set_pool s (p : LocalBufferPool.LocalBufferPool) : Program HW :=
  {| hw := hw s; mem := mem s; buffer_pool := p; dispatcher := dispatcher s |}.

Definition set_dispatcher s (d : CompletionDispatcher.CompletionDispatcher) : Program HW :=
  {| hw := hw s; mem := mem s; buffer_pool := buffer_pool s; dispatcher := d |}.

Definition set_mem s (m : memory) : Program HW :=
  {| hw := hw s; mem := m; buffer_pool := buffer_pool s; dispatcher := dispatcher s |}.

(** [cq->Poll(wc_buffer.data(), wc_buffer.size())] and the loop over the [n]
    completions; the dispatcher calls the handlers as it goes, which only print. *)
Definition poll_queue s (cq : Z) : option (Program HW * list Line) :=
  match ibv_poll_cq (hw s) cq 32 with
  | (h, inl _) => Some (set_hw s h, [])
  | (h, inr wcs) =>
      '(d, evs) ← CompletionDispatcher.DispatchBatchSimple (dispatcher s) wcs;
      Some (set_dispatcher (set_hw s h) d, evs ≫= on_event)
  end.

Definition poll_both s (send_cq recv_cq : Z) : option (Program HW * list Line) :=
  '(s, l1) ← poll_queue s send_cq;
  '(s, l2) ← poll_queue s recv_cq;
  Some (s, l1 ++ l2).

(** The loop that posts receive buffers, from [i] on; [n] are left. The status of
    [PostRecv] is dropped. *)
Fixpoint post_recvs (n : nat) (i : Z) s conn : option (Program HW) :=
  match n with
  | O => Some s
  | S n =>
      '(p, buf) ← LocalBufferPool.Allocate (buffer_pool s);
      let s := set_pool s p in
      let s := if Buffer.IsValid buf
               then set_hw s (Connection.PostRecv (hw s) conn buf (WrId.Encode (Connection.conn_id_ conn) RECV 0 i)).1
               else s in
      post_recvs n (i + 1) s conn
  end.

(** Registration and receives of a connection just established; [self] is its
    address, [handler] that of [OnCompletion]. *)
Definition start (self handler : Z) s conn : option (Program HW) :=
  d ← CompletionDispatcher.RegisterConnection (dispatcher s) (Connection.conn_id_ conn) self handler;
  post_recvs 16 0 (set_dispatcher s d) conn.

Section setup.
Context {OB : Type} `{!VerbsObjects OB}.

(** The allocator, the registration and the allocation of the ring. *)
Variables (allocate : bool -> Z -> Z -> Z) (reg : Z -> Z -> Result MemoryRegion.MemoryRegion) (ring : bool).

(** Device, protection domain, queues and pool, up to the first failure. *)
Definition setup (ob : OB)
    : option (OB * Resources.Resources * option LocalBufferPool.LocalBufferPool * list LocalBufferPool.Event * list Line) :=
  '(ob, r, ok) ← Resources.setup ob 4096;
  if negb ok then
    let message := match Resources.device r, Resources.pd r with
                   | None, _ => "Failed to open RDMA device"
                   | Some _, None => "Failed to create PD"
                   | _, _ => "Failed to create CQs"
                   end in
    Some (ob, r, None, [], [LFail message])
  else
    match LocalBufferPool.Create allocate reg ring (Some tt) bp_config with
    | (RErr _, evs) => Some (ob, r, None, evs, [LFail "Failed to create buffer pool"])
    | (RVal p, evs) => Some (ob, r, Some p, evs, [])
    end.

End setup.

(** [dispatcher.SetErrorHandler(nullptr, OnError)] on the new objects. *)
Definition program (on_error : Z) (h : HW) (m : memory) (p : LocalBufferPool.LocalBufferPool) : Program HW :=
  {| hw := h; mem := m; buffer_pool := p;
     dispatcher := CompletionDispatcher.SetErrorHandler CompletionDispatcher.CompletionDispatcher_new 0 on_error |}.

End program.
End Demo.

(** ** [server.cpp] *)

Module DemoServer.
Import Demo.

Section server.
Context {HW OS OB : Type} `{!Verbs HW, !CompletionSource HW, !Sockets OS, !VerbsObjects OB}.
Implicit Types (s : Program HW) (conn : Connection) (os : OS) (ob : OB).

(** The addresses of the handlers, and of the connection made in a round. *)
Variables (on_completion on_error : Z) (address : nat -> Z).

(** The padding bytes of a [HandshakeMessage]. *)
Variables (pad1 : list Z) (pad2 : Z) (pad3 : list Z).

(** What [QueuePair::Create], the uninitialised member of a connection and the
    queries of the device give in the round that [n] reads of the flag follow. *)
Variables (qp_result : nat -> Result QueuePair.QueuePair) (junk : nat -> RemoteMemoryInfo)
  (local_params : nat -> Result QpConnParams).

(** The raw protection domain and queues. *)
Variables (pd send_cq recv_cq : Z).

(** From the accepted channel to the established connection; on an error the
    connection, if there is one, is destroyed by [continue]. *)
Definition establish (fuel n : nat) os (h : HW) (channel : TcpHandshakeChannel)
    : option (OS * HW * list Line * option Connection) :=
  match Connection.Create (Some pd) (qp_result n) 1 0 (junk n) with
  | RErr _ => Some (os, h, [LFail "Failed to create connection"], None)
  | RVal conn =>
      let fail os h conn message := Some (os, (Connection.destroy h conn).1, [LFail message], None) in
      match local_params n with
      | RErr _ => fail os h conn "Failed to get local params"
      | RVal params =>
          '(os, status) ← TcpHandshakeChannel.Send fuel os channel (HandshakeMessage.bytes pad1 pad2 pad3 (greeting params));
          if negb (status_ok status) then fail os h conn "Failed to send handshake"
          else
            '(os, status, data) ← TcpHandshakeChannel.Receive fuel os channel;
            if negb (status_ok status) then fail os h conn "Failed to receive handshake"
            else
              let remote := HandshakeMessage.qp_params (HandshakeMessage.of_bytes data) in
              let '(h, conn, status) := Connection.Connect h conn remote in
              if negb (status_ok status) then fail os h conn "Failed to connect"
              else Some (os, h, [LConnected (qp_num remote)], Some conn)
      end
  end.

(** The message loop; [n] reads of the flag are left, before and after. *)
Fixpoint serve (n : nat) s conn : option (nat * Program HW * list Line) :=
  match n with
  | O => Some (O, s, [])
  | S n =>
      if bool_decide (Connection.state_ conn = CONNECTED) then
        '(s, l1) ← poll_both s send_cq recv_cq;
        '(n, s, l2) ← serve n s conn;
        Some (n, s, l1 ++ l2)
      else Some (n, s, [])
  end.

(** The accept loop. Each round reads the flag at least once, so [n] rounds are
    enough; [fuel] bounds the transfers of a handshake. *)
Fixpoint accept_loop (rounds fuel n : nat) os s (server : TcpHandshakeServer.TcpHandshakeServer)
    : option (OS * Program HW * list Line) :=
  match n, rounds with
  | O, _ => Some (os, s, [])
  | S _, O => None
  | S n, S rounds =>
      match TcpHandshakeServer.Accept os server 100 with
      | (os, RErr _) => accept_loop rounds fuel n os s server
      | (os, RVal channel) =>
          let close os := (TcpHandshakeChannel.Close os channel).1 in
          '(os, h, l1, conn) ← establish fuel n os (hw s) channel;
          let s := set_hw s h in
          match conn with
          | None =>
              '(os, s, l2) ← accept_loop rounds fuel n (close os) s server;
              Some (os, s, l1 ++ l2)
          | Some conn =>
              s ← start (address n) on_completion s conn;
              '(n, s, l2) ← serve n s conn;
              let s := set_hw s (Connection.destroy (hw s) conn).1 in
              '(os, s, l3) ← accept_loop rounds fuel n (close os) s server;
              Some (os, s, l1 ++ l2 ++ l3)
          end
      end
  end.

End server.

Section main.
Context {HW OS OB : Type} `{!Verbs HW, !CompletionSource HW, !Sockets OS, !VerbsObjects OB}.
Variables (on_completion on_error : Z) (address : nat -> Z) (pad1 : list Z) (pad2 : Z) (pad3 : list Z).
Variables (qp_result : nat -> Result QueuePair.QueuePair) (junk : nat -> RemoteMemoryInfo)
  (local_params : nat -> Result QpConnParams).
Variables (allocate : bool -> Z -> Z -> Z) (reg : Z -> Z -> Result MemoryRegion.MemoryRegion) (ring : bool).

Definition main (fuel n : nat) (argv : list string) (os : OS) (ob : OB) (h : HW) (m : memory)
    : option (Exit OS OB HW) :=
  port ← port_of argv 1;
  '(ob, r, pool, evs, ls) ← setup allocate reg ring ob;
  let finish code ls evs os h :=
    ob ← Resources.teardown ob r;
    Some {| code := code; lines := ls; freed := evs; ex_os := os; ex_ob := ob; ex_hw := h |} in
  match pool, Resources.pd r, Resources.send_cq r, Resources.recv_cq r with
  | Some p, Some pd, Some send_cq, Some recv_cq =>
      let evs := LocalBufferPool.destroy (LocalBufferPool.base_addr_ p) (LocalBufferPool.total_size_ p) in
      match TcpHandshakeServer.Create os "" port 128 with
      | (os, RErr _) => finish 1 [LFail "Failed to create handshake server"] evs os h
      | (os, RVal server) =>
          '(os, s, ls) ← accept_loop on_completion address pad1 pad2 pad3 qp_result junk local_params
             (ProtectionDomain.GetRawPD pd) (CompletionQueue.GetRawCQ send_cq) (CompletionQueue.GetRawCQ recv_cq)
             n fuel n os (program on_error h m p) server;
          finish 0 ls evs (TcpHandshakeServer.Close os server).1 (hw s)
      end
  | _, _, _, _ => finish 1 ls evs os h
  end.

End main.
End DemoServer.

(** ** [client.cpp] *)

Module DemoClient.
Import Demo.

(** ["Hello, RDMA!"] and its terminating zero. *)
Definition message : list Z := [72; 101; 108; 108; 111; 44; 32; 82; 68; 77; 65; 33; 0].

Section client.
Context {HW OS OB : Type} `{!Verbs HW, !CompletionSource HW, !Sockets OS, !VerbsObjects OB}.
Implicit Types (s : Program HW) (conn : Connection) (os : OS) (ob : OB).

(** One message; [count] is [message_count], which the number of buffers bounds. *)
Definition send_message s conn (count : Z) : option (Program HW * Connection * Z * list Line) :=
  '(p, buf) ← LocalBufferPool.Allocate (buffer_pool s);
  let s := set_pool s p in
  if Buffer.IsValid buf then
    m ← buf_write (mem s) buf 0 message;
    let wr_id := WrId.Encode (Connection.conn_id_ conn) REQUEST_SEND 0 (u32 count) in
    let '(h, conn, status) := Connection.Send (hw s) conn buf wr_id in
    Some (set_hw (set_mem s m) h, conn, count + 1, if status_ok status then [LSent (count + 1)] else [])
  else Some (s, conn, count, []).

(** The message loop over the times read, in nanoseconds; the sleep is left out. *)
Fixpoint message_loop (send_cq recv_cq : Z) (times : list Z) s conn (last_send count : Z)
    : option (Program HW * Connection * list Line) :=
  match times with
  | [] => Some (s, conn, [])
  | now :: times =>
      if bool_decide (Connection.state_ conn = CONNECTED) then
        '(s, conn, count, last_send, l1) ←
          (if 1 <=? Z.quot (now - last_send) 1000000000 then
             '(s, conn, count, l) ← send_message s conn count; Some (s, conn, count, now, l)
           else Some (s, conn, count, last_send, []));
        '(s, l2) ← poll_both s send_cq recv_cq;
        '(s, conn, l3) ← message_loop send_cq recv_cq times s conn last_send count;
        Some (s, conn, l1 ++ l2 ++ l3)
      else Some (s, conn, [])
  end.

(** From the established connection on; [t0] initialises [last_send]. *)
Definition talk (self on_completion send_cq recv_cq t0 : Z) (times : list Z) s conn
    : option (Program HW * Connection * list Line) :=
  s ← start self on_completion s conn;
  message_loop send_cq recv_cq times s conn t0 0.

(** The padding bytes of a [HandshakeMessage]. *)
Variables (pad1 : list Z) (pad2 : Z) (pad3 : list Z).
Variables (qp_result : Result QueuePair.QueuePair) (junk : RemoteMemoryInfo) (local_params : Result QpConnParams).

(** Connection and handshake; the client receives first. The connection is there
    from its creation to the end of [main]. *)
Definition establish (fuel : nat) os (h : HW) (channel : TcpHandshakeChannel) (pd : Z)
    : option (OS * HW * list Line * option Connection * bool) :=
  match Connection.Create (Some pd) qp_result 1 0 junk with
  | RErr _ => Some (os, h, [LFail "Failed to create connection"], None, false)
  | RVal conn =>
      let fail os h conn message := Some (os, h, [LFail message], Some conn, false) in
      match local_params with
      | RErr _ => fail os h conn "Failed to get local params"
      | RVal params =>
          '(os, status, data) ← TcpHandshakeChannel.Receive fuel os channel;
          if negb (status_ok status) then fail os h conn "Failed to receive handshake"
          else
            '(os, status) ← TcpHandshakeChannel.Send fuel os channel (HandshakeMessage.bytes pad1 pad2 pad3 (greeting params));
            if negb (status_ok status) then fail os h conn "Failed to send handshake"
            else
              let '(h, conn, status) := Connection.Connect h conn (HandshakeMessage.qp_params (HandshakeMessage.of_bytes data)) in
              if negb (status_ok status) then fail os h conn "Failed to connect"
              else Some (os, h, [], Some conn, true)
      end
  end.

Variables (self on_completion on_error : Z).
Variables (allocate : bool -> Z -> Z -> Z) (reg : Z -> Z -> Result MemoryRegion.MemoryRegion) (ring : bool).

Definition main (fuel : nat) (t0 : Z) (times : list Z) (argv : list string) os ob (h : HW) (m : memory)
    : option (Exit OS OB HW) :=
  match argv !! 1%nat with
  | None => Some {| code := 1; lines := [LFail "Usage"]; freed := []; ex_os := os; ex_ob := ob; ex_hw := h |}
  | Some host =>
      port ← port_of argv 2;
      '(ob, r, pool, evs, ls) ← setup allocate reg ring ob;
      let finish code ls evs os h :=
        ob ← Resources.teardown ob r;
        Some {| code := code; lines := ls; freed := evs; ex_os := os; ex_ob := ob; ex_hw := h |} in
      match pool, Resources.pd r, Resources.send_cq r, Resources.recv_cq r with
      | Some p, Some pd, Some send_cq, Some recv_cq =>
          let evs := LocalBufferPool.destroy (LocalBufferPool.base_addr_ p) (LocalBufferPool.total_size_ p) in
          match TcpHandshakeChannel.Connect os host port 5000 with
          | (os, RErr _) => finish 1 [LFail "Failed to connect to server"] evs os h
          | (os, RVal channel) =>
              '(os, h, l1, conn, ok) ← establish fuel os h channel (ProtectionDomain.GetRawPD pd);
              let close os := (TcpHandshakeChannel.Close os channel).1 in
              match conn with
              | None => finish 1 l1 evs (close os) h
              | Some conn =>
                  if ok : bool then
                    '(s, conn, l2) ← talk self on_completion (CompletionQueue.GetRawCQ send_cq)
                                       (CompletionQueue.GetRawCQ recv_cq) t0 times (program on_error h m p) conn;
                    finish 0 (l1 ++ l2) evs (close os) (Connection.destroy (hw s) conn).1
                  else finish 1 l1 evs (close os) (Connection.destroy h conn).1
              end
          end
      | _, _, _, _ => finish 1 ls evs os h
      end
  end.

End client.
End DemoClient.

(** ** Specification *)

Section specification.
Import Demo.

(** The ids of the receives from the [i]-th on. *)
Definition recv_ids (id i : Z) (n : nat) : list Z := (fun i => WrId.Encode id RECV 0 i) <$> seqZ i (Z.of_nat n).

Definition is_sent (l : Line) : bool := match l with LSent _ => true | _ => false end.
Definition is_connected (l : Line) : bool := match l with LConnected _ => true | _ => false end.

(** The lines of the two handlers. *)
Definition is_reaction (l : Line) : bool :=
  match l with LReceived _ | LSendCompleted | LWcError _ | LError _ _ => true | _ => false end.

(** How many of the rounds are due to send: a second after the last that was. *)
Fixpoint due (last : Z) (times : list Z) : Z :=
  match times with
  | [] => 0
  | now :: times => if 1 <=? Z.quot (now - last) 1000000000 then 1 + due now times else due last times
  end.

(** The [i]-th message: its id and the element that points to its buffer. *)
Definition message_wr (p : LocalBufferPool.LocalBufferPool) (id i : Z) : Z * list ibv_sge :=
  (WrId.Encode id REQUEST_SEND 0 i,
   [QueuePair.sge_of_buffer (buffer_at p ((16 + i) * LocalBufferPool.buffer_size_ p))]).

(** The text is in the buffer of the [i]-th message. *)
Definition message_at (m : memory) (p : LocalBufferPool.LocalBufferPool) (i : Z) : Prop :=
  buf_read m (buffer_at p ((16 + i) * LocalBufferPool.buffer_size_ p)) 0 (Z.of_nat (length DemoClient.message))
  = Some DemoClient.message.

Definition wr_view (wr : ibv_send_wr) : Z * list ibv_sge := (wr_id wr, sg_list wr).

(** What an attempt at a connection comes to. *)
Definition established (l : list Line) (conn : option Connection) : Prop :=
  match conn with
  | None => exists m, l = [LFail m]
  | Some c => Connection.state_ c = CONNECTED /\ Connection.conn_id_ c = 0 /\ exists q, l = [LConnected q]
  end.

(** The memory of the pool is released with its registration. *)
Definition pool_released (allocate : bool -> Z -> Z -> Z) (reg : Z -> Z -> Result MemoryRegion.MemoryRegion)
    : list LocalBufferPool.Event :=
  let total := 4096 * 256 in
  let memory := allocate false (-1) total in
  if memory =? 0 then []
  else match reg memory total with
       | RErr _ => [LocalBufferPool.EFreeMemory memory total]
       | RVal _ => [LocalBufferPool.EFreeMemory memory total; LocalBufferPool.EDeregister]
       end.

(** The ways to fail before the pool is created. *)
Definition early_failures : list Line :=
  [LFail "Failed to open RDMA device"; LFail "Failed to create PD"; LFail "Failed to create CQs"].

(** The program has returned and everything it made is gone: the objects of the
    verbs library, the descriptors and the pool. *)
Definition ends_clean {OS OB HW} `{!Sockets OS, !VerbsObjects OB} (allocate : bool -> Z -> Z -> Z)
    (reg : Z -> Z -> Result MemoryRegion.MemoryRegion) (os : OS) (ob : OB) (e : Exit OS OB HW) : Prop :=
  objects (ex_ob e) = objects ob /\ open_fds (ex_os e) = open_fds os
  /\ (code e = 0 \/ code e = 1 /\ exists m, lines e = [LFail m])
  /\ (freed e = pool_released allocate reg
      \/ freed e = [] /\ exists l, l ∈ early_failures /\ lines e = [l]).

(** Allocating is defined, whatever the memory. *)
Definition pool_safe (p : LocalBufferPool.LocalBufferPool) : Prop :=
  LocalBufferPool.policy_ p = FIFO /\ 0 <= LocalBufferPool.head_ p < LocalBufferPool.buffer_count_ p
  /\ Z.of_nat (length (LocalBufferPool.offset_ring_ p)) = LocalBufferPool.buffer_count_ p.

Context {HW : Type} `{!Verbs HW, !CompletionSource HW, !WorkQueues HW}.

(** The device takes every send. *)
Definition sends_accepted : Prop := forall (h : HW) q wr, (ibv_post_send h q wr).2 = 0.

(** Every id that can still complete names a connection. *)
Definition ids_valid (h : HW) : Prop := Forall (fun i => WrId.GetConnId i <> 0xFFFF) (unfinished h).

(** The program polls, posts and handles what completes without getting stuck. *)
Definition program_ok (s : Program HW) : Prop :=
  ids_valid (hw s) /\ pool_safe (buffer_pool s) /\ exists sp, represents (dispatcher s) sp.

(** A step that reacts to completions: at most one line for each. *)
Definition reacts (s s' : Program HW) (ls : list Line) : Prop :=
  posted (hw s') = posted (hw s) /\ mem s' = mem s /\ buffer_pool s' = buffer_pool s
  /\ Forall is_reaction ls
  /\ exists done, done ++ unfinished (hw s') ⊆+ unfinished (hw s) /\ (length ls <= length done)%nat.

End specification.

(** ** Lemmas *)

Section lemmas.
Import Demo.

(** *** The pool *)

Lemma pool_safe_allocate p : pool_safe p ->
  exists p' b, LocalBufferPool.Allocate p = Some (p', b) /\ pool_safe p'
    /\ (Buffer.IsValid b = true -> Buffer.length_ b = LocalBufferPool.buffer_size_ p)
    /\ LocalBufferPool.buffer_size_ p' = LocalBufferPool.buffer_size_ p.
Proof.
  intros (Hp & Hh & Hr). unfold LocalBufferPool.Allocate. destruct (Z.eqb_spec (LocalBufferPool.count_ p) 0).
  { exists p, Buffer.Buffer_default. by repeat split; try lia. }
  rewrite bool_decide_true by done.
  destruct (aget_is_Some (LocalBufferPool.offset_ring_ p) (LocalBufferPool.head_ p)) as [o ->]; [lia|]. sbind.
  do 2 eexists. split; [done|]. split; [|done]. split; [done|]. split; [|done]. apply Z.mod_pos_bound. cbn. lia.
Qed.

(** *** Setting up *)

Section setup.
Variables (allocate : bool -> Z -> Z -> Z) (reg : Z -> Z -> Result MemoryRegion.MemoryRegion) (ring : bool).

Lemma pool_Create_ok :
  match LocalBufferPool.Create allocate reg ring (Some tt) bp_config with
  | (RErr _, evs) => evs = pool_released allocate reg
  | (RVal p, evs) => pool_safe p /\ LocalBufferPool.buffer_size_ p = 4096
      /\ LocalBufferPool.destroy (LocalBufferPool.base_addr_ p) (LocalBufferPool.total_size_ p) = pool_released allocate reg
  end.
Proof.
  unfold LocalBufferPool.Create, pool_released. cbn [bp_config LocalBufferPool.buffer_size LocalBufferPool.buffer_count
    LocalBufferPool.max_buffer_count LocalBufferPool.use_hugepage LocalBufferPool.numa_node LocalBufferPool.policy].
  change (u64 (4096 * 256)) with (4096 * 256).
  cbn [Z.ltb Z.compare Z.eqb orb Pos.compare Pos.compare_cont].
  destruct (allocate false (-1) (4096 * 256) =? 0) eqn:Em; [done|].
  destruct (reg _ _) as [mr|st]; [|done]. unfold LocalBufferPool.destroy.
  destruct ring; cbn [negb LocalBufferPool.base_addr_ LocalBufferPool.total_size_]; rewrite Em; [|done].
  split; [|done]. split; [done|]. split; [by cbn|done].
Qed.

Lemma setup_ok {OB} `{!VerbsObjects OB} (ob : OB) :
  closed (objects ob) ->
  exists ob1 r p evs ls ob2,
    setup allocate reg ring ob = Some (ob1, r, p, evs, ls)
    /\ Resources.teardown ob1 r = Some ob2 /\ objects ob2 = objects ob
    /\ match p with
       | None => exists m, ls = [LFail m] /\ (evs = pool_released allocate reg \/ evs = [] /\ LFail m ∈ early_failures)
       | Some p => (exists pd sq rq, Resources.pd r = Some pd /\ Resources.send_cq r = Some sq /\ Resources.recv_cq r = Some rq)
                   /\ pool_safe p /\ LocalBufferPool.buffer_size_ p = 4096
                   /\ LocalBufferPool.destroy (LocalBufferPool.base_addr_ p) (LocalBufferPool.total_size_ p)
                      = pool_released allocate reg
       end.
Proof.
  intros Hc. unfold setup. destruct (setup_spec ob 4096 Hc) as (ob1 & r & ok & ob2 & -> & Hok & Ht & Ho). sbind.
  destruct ok; cbn [negb].
  2:{ do 6 eexists. split; [done|]. split; [done|]. split; [done|]. eexists. split; [done|]. right. split; [done|].
      destruct (Resources.device r), (Resources.pd r); set_solver. }
  destruct (proj1 Hok eq_refl) as (d & pd & sq & rq & ->).
  pose proof pool_Create_ok as H. destruct (LocalBufferPool.Create _ _ _ _ _) as [[p|st] evs];
    do 6 eexists; (split; [done|]; split; [done|]; split; [done|]); [|eexists; split; [done|by left]].
  split; [by do 3 eexists|done].
Qed.

(** The pool of the two programs, when its memory lies below [2^64]. *)
Lemma demo_Create memory mr :
  allocate false (-1) (4096 * 256) = memory -> reg memory (4096 * 256) = RVal mr ->
  0 < memory -> memory + 4096 * 256 <= 2 ^ 64 ->
  exists p, LocalBufferPool.Create allocate reg true (Some tt) bp_config = (RVal p, []) /\ fresh_pool p
    /\ LocalBufferPool.buffer_size_ p = 4096 /\ LocalBufferPool.buffer_count_ p = 256.
Proof.
  intros Ha Hr Hm Hs. destruct (Create_fresh allocate reg bp_config memory mr Ha Hr) as (p & E & Hp & Hsz & Hn).
  - split_and!; cbn; lia.
  - done.
  - by exists p.
Qed.

End setup.

(** *** Polling *)

Section device.
Context {HW : Type} `{!Verbs HW, !CompletionSource HW, !WorkQueues HW}.
Implicit Types (s : Program HW) (conn : Connection).

(** Each completion is handled at most once, and handlers only print. *)
Lemma handled sp wc : Forall is_reaction (spec_dispatch sp wc ≫= on_event) /\ (length (spec_dispatch sp wc ≫= on_event) <= 1)%nat.
Proof.
  assert (H : forall e, Forall is_reaction (on_event e) /\ (length (on_event e) <= 1)%nat).
  { intros [h x w|h x i st]; cbn [on_event]; [|by split; [repeat constructor|simpl; lia]].
    unfold OnCompletion. repeat (destruct (negb _) || destruct (_ =? _) || destruct (_ || _));
      (split; [repeat constructor|simpl; lia]). }
  assert (H1 : forall e, [e] ≫= on_event = on_event e) by (intros e; apply app_nil_r).
  unfold spec_dispatch. repeat case_match; rewrite ?H1; try apply H; (split; [constructor|simpl; lia]).
Qed.

Lemma handled_all sp wcs :
  Forall is_reaction ((wcs ≫= spec_dispatch sp) ≫= on_event)
  /\ (length ((wcs ≫= spec_dispatch sp) ≫= on_event) <= length wcs)%nat.
Proof.
  induction wcs as [|wc wcs [IH1 IH2]]; [by split; [constructor|simpl; lia]|].
  rewrite bind_cons, bind_app, length_app. destruct (handled sp wc) as [H1 H2].
  split; [by apply Forall_app|]. simpl. lia.
Qed.

Lemma valid_submseteq (done l l' : list Z) :
  done ++ l' ⊆+ l -> Forall (fun i => WrId.GetConnId i <> 0xFFFF) l ->
  Forall (fun i => WrId.GetConnId i <> 0xFFFF) done /\ Forall (fun i => WrId.GetConnId i <> 0xFFFF) l'.
Proof.
  intros [k Hk]%submseteq_Permutation Hl. apply Forall_app. rewrite Hk in Hl. by apply Forall_app in Hl as [? _].
Qed.

Lemma reacts_trans s1 s2 s3 l1 l2 : reacts s1 s2 l1 -> reacts s2 s3 l2 -> reacts s1 s3 (l1 ++ l2).
Proof.
  intros (P1 & M1 & B1 & L1 & d1 & D1 & N1) (P2 & M2 & B2 & L2 & d2 & D2 & N2).
  split_and!; [congruence..|by apply Forall_app|]. exists (d1 ++ d2). rewrite !length_app. split; [|lia].
  rewrite <- app_assoc, <- D1. by apply submseteq_skips_l.
Qed.

Lemma reacts_refl s : reacts s s [].
Proof. split_and!; [done..|constructor|]. by exists []. Qed.

Lemma poll_queue_ok s cq :
  program_ok s -> exists s' ls, poll_queue s cq = Some (s', ls) /\ program_ok s' /\ reacts s s' ls.
Proof.
  intros (Hi & Hp & sp & Hr). unfold poll_queue.
  pose proof (unfinished_poll (hw s) cq 32) as Hu. pose proof (posted_poll (hw s) cq 32) as Hq.
  destruct (ibv_poll_cq (hw s) cq 32) as [h [e|wcs]]; cbn [fst snd] in *.
  - do 2 eexists. split; [done|]. split; [split; [unfold ids_valid; cbn; by rewrite Hu|split; [done|by exists sp]]|].
    split_and!; [done..|constructor|]. exists []. cbn. by rewrite Hu.
  - destruct (valid_submseteq _ _ _ Hu Hi) as [Hw Hi']. rewrite Forall_fmap in Hw.
    destruct (DispatchBatchSimple_spec (dispatcher s) sp wcs Hr Hw) as (d & -> & Hr'). sbind.
    destruct (handled_all sp wcs) as [H1 H2]. do 2 eexists. split; [done|].
    split; [split; [done|split; [done|by exists sp]]|]. split_and!; [done..|].
    exists (wc_wr_id <$> wcs). rewrite length_fmap. by split.
Qed.

Lemma poll_both_ok s sq rq :
  program_ok s -> exists s' ls, poll_both s sq rq = Some (s', ls) /\ program_ok s' /\ reacts s s' ls.
Proof.
  intros H. unfold poll_both. destruct (poll_queue_ok s sq H) as (s1 & l1 & -> & H1 & R1). sbind.
  destruct (poll_queue_ok s1 rq H1) as (s2 & l2 & -> & H2 & R2). sbind.
  do 2 eexists. split; [done|]. split; [done|]. by eapply reacts_trans.
Qed.

(** *** Receives *)

Lemma PostRecv_unfinished (h : HW) conn b i :
  posted (Connection.PostRecv h conn b i).1 = posted h
  /\ (unfinished (Connection.PostRecv h conn b i).1 ≡ₚ unfinished h
      \/ unfinished (Connection.PostRecv h conn b i).1 ≡ₚ i :: unfinished h).
Proof.
  unfold Connection.PostRecv, QueuePair.PostRecv.
  match goal with |- context [ibv_post_recv h ?q ?w] =>
    pose proof (posted_post_recv h q w) as Hp; pose proof (unfinished_post_recv h q w) as Hu;
    destruct (ibv_post_recv h q w) as [h' ret] end.
  cbn [fst snd] in *. destruct (ret =? 0); cbn [negb fst]; (split; [done|]); [by right|by left].
Qed.

Lemma recv_ids_S id i n : recv_ids id i (S n) = WrId.Encode id RECV 0 i :: recv_ids id (i + 1) n.
Proof.
  unfold recv_ids. rewrite seqZ_cons by lia. rewrite fmap_cons. do 3 f_equal; lia.
Qed.

(** Posting [n] receives; from a fresh pool it takes exactly [n] buffers. *)
Lemma post_recvs_ok n i s conn :
  pool_safe (buffer_pool s) ->
  exists s', post_recvs n i s conn = Some s' /\ pool_safe (buffer_pool s')
    /\ dispatcher s' = dispatcher s /\ mem s' = mem s /\ posted (hw s') = posted (hw s)
    /\ LocalBufferPool.buffer_size_ (buffer_pool s') = LocalBufferPool.buffer_size_ (buffer_pool s)
    /\ (exists l, l ⊆+ recv_ids (Connection.conn_id_ conn) i n /\ unfinished (hw s') ≡ₚ l ++ unfinished (hw s))
    /\ forall p k, fresh_pool p -> 0 <= k -> k + Z.of_nat n <= LocalBufferPool.buffer_count_ p ->
         buffer_pool s = taken p k -> buffer_pool s' = taken p (k + Z.of_nat n).
Proof.
  revert i s. induction n as [|n IH]; intros i s Hp; cbn [post_recvs].
  - exists s. split_and!; try done; [by exists []|]. intros p k _ _ _ ->. by rewrite Z.add_0_r.
  - destruct (pool_safe_allocate _ Hp) as (p & b & E & Hp' & _ & Hsz). rewrite E. sbind.
    match goal with |- context [post_recvs n (i + 1) ?s1 conn] => set (s1' := s1);
      destruct (IH (i + 1) s1') as (s' & -> & H1 & H2 & H3 & H4 & H5 & (l & Hl & Hu) & H6) end.
    { subst s1'. by destruct (Buffer.IsValid b). }
    destruct (PostRecv_unfinished (hw s) conn b (WrId.Encode (Connection.conn_id_ conn) RECV 0 i)) as [Hq Hu'].
    exists s'. rewrite recv_ids_S.
    assert (Hs1 : buffer_pool s1' = p /\ dispatcher s1' = dispatcher s /\ mem s1' = mem s)
      by (subst s1'; by destruct (Buffer.IsValid b)). destruct Hs1 as (B1 & D1 & M1).
    split_and!; [done|done|congruence|congruence| |congruence| |].
    + rewrite H4. subst s1'. by destruct (Buffer.IsValid b).
    + subst s1'. destruct (Buffer.IsValid b).
      * cbn [hw set_hw set_pool] in Hu. destruct Hu' as [Hu'|Hu']; rewrite Hu' in Hu.
        -- exists l. split; [by apply submseteq_cons|done].
        -- eexists (_ :: l). split; [by apply submseteq_skip|]. by rewrite Hu, <- Permutation_middle.
      * exists l. split; [by apply submseteq_cons|done].
    + intros p0 k Hf Hk Hn Hb. rewrite Hb, (taken_allocate p0 k Hf) in E by lia. injection E as <- _.
      rewrite (H6 p0 (k + 1) Hf) by (done || lia). f_equal. lia.
Qed.

(** *** Connections *)

Lemma Connect_frame h conn r :
  posted (Connection.Connect h conn r).1.1 = posted h /\ unfinished (Connection.Connect h conn r).1.1 = unfinished h.
Proof. split; apply connection_frame; [apply posted_modify|apply unfinished_modify]. Qed.

Lemma destroy_frame h conn :
  posted (Connection.destroy h conn).1 = posted h /\ unfinished (Connection.destroy h conn).1 = unfinished h.
Proof.
  pose proof (fun T (f : HW -> T) => connection_frame f h conn {| lid := 0; qp_num := 0; psn := 0; gid := []; port_num := 0; gid_index := 0; mtu := 0 |}) as H.
  split; apply H; [apply posted_modify|apply unfinished_modify].
Qed.

(** Registration and the receives of a new connection. *)
Lemma start_ok self handler s conn m e :
  coherent (dispatcher s) m -> tidy (dispatcher s) -> (CompletionDispatcher.error_ctx (dispatcher s),
    CompletionDispatcher.error_handler (dispatcher s)) = e ->
  handler <> 0 -> 0 <= Connection.conn_id_ conn < 0xFFFF -> ids_valid (hw s) -> pool_safe (buffer_pool s) ->
  exists s', start self handler s conn = Some s' /\ program_ok s' /\ mem s' = mem s /\ posted (hw s') = posted (hw s)
    /\ LocalBufferPool.buffer_size_ (buffer_pool s') = LocalBufferPool.buffer_size_ (buffer_pool s)
    /\ (exists l, l ⊆+ recv_ids (Connection.conn_id_ conn) 0 16 /\ unfinished (hw s') ≡ₚ l ++ unfinished (hw s))
    /\ forall p, fresh_pool p -> 16 <= LocalBufferPool.buffer_count_ p -> buffer_pool s = p -> buffer_pool s' = taken p 16.
Proof.
  intros Hco Ht He Hh Hid Hv Hp. unfold start.
  destruct (RegisterConnection_spec (dispatcher s) m (Connection.conn_id_ conn) self handler Hco Ht Hid Hh)
    as (d & -> & Hco' & Ht' & He'). sbind.
  destruct (post_recvs_ok 16 0 (set_dispatcher s d) conn Hp) as (s' & -> & H1 & H2 & H3 & H4 & H5 & (l & Hl & Hu) & H6).
  cbn [hw set_dispatcher dispatcher mem buffer_pool] in *.
  exists s'. split_and!; [done| |done|done|done|by exists l|].
  - split; [|split; [done|]].
    + unfold ids_valid. rewrite Hu. apply Forall_app. split; [|done].
      apply submseteq_Permutation in Hl as [k Hk].
      assert (Hall : Forall (fun i => WrId.GetConnId i <> 0xFFFF) (recv_ids (Connection.conn_id_ conn) 0 16)).
      { apply Forall_forall. intros i (j & -> & Hj%elem_of_seqZ)%list_elem_of_fmap.
        rewrite WrId_GetConnId_Encode by (unfold is_u; lia). lia. }
      rewrite Hk in Hall. by apply Forall_app in Hall as [? _].
    + exists {| sp_map := <[Connection.conn_id_ conn := (self, handler)]> m; sp_err := e |}.
      split; [by rewrite H2|]. cbn [sp_err]. rewrite H2. congruence.
  - intros p Hf Hn Hb. rewrite <- (taken_0 p Hf) in Hb. by apply (H6 p 0 Hf).
Qed.

(** *** The server *)

Lemma reactions_only ls : Forall is_reaction ls ->
  List.filter is_sent ls = [] /\ List.filter is_connected ls = [] /\ List.filter is_reaction ls = ls.
Proof.
  induction 1 as [|l ls Hl _ (IH1 & IH2 & IH3)]; [done|]. cbn [List.filter]. rewrite IH1, IH2, IH3. by destruct l.
Qed.

Section server.
Import DemoServer.
Context {OS : Type} `{!Sockets OS}.
Variables (on_completion : Z) (address : nat -> Z) (pad1 : list Z) (pad2 : Z) (pad3 : list Z).
Variables (qp_result : nat -> Result QueuePair.QueuePair) (junk : nat -> RemoteMemoryInfo)
  (local_params : nat -> Result QpConnParams) (pd send_cq recv_cq : Z).

(** A connection is served until the flag is cleared: nothing else ends its loop. *)
Lemma serve_ok n s conn :
  program_ok s -> Connection.state_ conn = CONNECTED ->
  exists s' ls, serve send_cq recv_cq n s conn = Some (O, s', ls) /\ program_ok s' /\ reacts s s' ls.
Proof.
  revert s. induction n as [|n IH]; intros s H Hc; cbn [serve].
  { do 2 eexists. split; [done|]. split; [done|apply reacts_refl]. }
  rewrite bool_decide_true by done. destruct (poll_both_ok s send_cq recv_cq H) as (s1 & l1 & -> & H1 & R1). sbind.
  destruct (IH s1 H1 Hc) as (s2 & l2 & -> & H2 & R2). sbind. do 2 eexists. split; [done|]. split; [done|].
  by eapply reacts_trans.
Qed.

(** The handshake ends: with a connection, or with nothing but a message. *)
Lemma establish_ok n (os : OS) (h : HW) ch :
  exists k os' h' l r,
    (forall fuel, (k <= fuel)%nat ->
      establish pad1 pad2 pad3 qp_result junk local_params pd fuel n os h ch = Some (os', h', l, r))
    /\ open_fds os' = open_fds os /\ posted h' = posted h /\ unfinished h' = unfinished h
    /\ established l r.
Proof.
  unfold establish. destruct (Connection.Create (Some pd) (qp_result n) 1 0 (junk n)) as [c|st] eqn:Ec.
  2:{ exists O. do 4 eexists. split; [done|]. split_and!; try done. by eexists. }
  assert (Hc : Connection.conn_id_ c = 0) by (unfold Connection.Create in Ec; destruct (qp_result n); by simplify_eq).
  assert (Hfail : forall os1 h1 c1 m k, open_fds os1 = open_fds os -> posted h1 = posted h -> unfinished h1 = unfinished h ->
    forall F : nat -> option (OS * HW * list Line * option Connection),
    (forall fuel, (k <= fuel)%nat -> F fuel = Some (os1, (Connection.destroy h1 c1).1, [LFail m], None)) ->
    exists k os' h' l r, (forall fuel, (k <= fuel)%nat -> F fuel = Some (os', h', l, r))
    /\ open_fds os' = open_fds os /\ posted h' = posted h /\ unfinished h' = unfinished h
    /\ established l r).
  { intros os1 h1 c1 m k Ho Hp Hu F HF. exists k. do 4 eexists. split; [exact HF|].
    destruct (destroy_frame h1 c1) as [-> ->]. split_and!; [done..|by eexists]. }
  destruct (local_params n) as [params|st]; [|by eapply (Hfail _ _ _ _ O)].
  set (msg := HandshakeMessage.bytes _ _ _ _). destruct (Send_total os ch msg) as (os1 & st1 & E1).
  destruct (Receive_total os1 ch) as (os2 & st2 & data & E2).
  pose proof (Send_fds _ _ _ _ _ _ (E1 _ (le_n _))) as F1. pose proof (Receive_fds _ _ _ _ _ _ (E2 _ (le_n _))) as F2.
  destruct (status_ok st1) eqn:H1.
  2:{ eapply (Hfail os1 h c _ _); [done..|]. intros fuel Hf. rewrite E1 by exact Hf. sbind. by rewrite H1. }
  set (k := Nat.max (length msg + stalls os) (128 + stalls os1)).
  destruct (status_ok st2) eqn:H2.
  2:{ eapply (Hfail os2 h c _ k); [congruence|done..|]. intros fuel Hf. rewrite E1 by lia. sbind. rewrite H1. cbn [negb].
      rewrite E2 by lia. sbind. by rewrite H2. }
  set (remote := HandshakeMessage.qp_params (HandshakeMessage.of_bytes data)).
  destruct (Connect_frame h c remote) as [P3 U3]. pose proof (Connect_result h c remote) as R3.
  pose proof (Connect_conn_id h c remote) as I3.
  destruct (Connection.Connect h c remote) as [[h3 c3] st3] eqn:E3. cbn [fst snd] in *. destruct (status_ok st3) eqn:H3.
  - exists k. do 4 eexists. split.
    + intros fuel Hf. rewrite E1 by lia. sbind. rewrite H1. cbn [negb]. rewrite E2 by lia. sbind. rewrite H2. cbn [negb].
      fold remote. rewrite E3, H3. reflexivity.
    + split_and!; [congruence|done|done|]. split; [by apply R3|]. split; [congruence|by eexists].
  - eapply (Hfail os2 h3 c3 _ k); [congruence|done..|]. intros fuel Hf. rewrite E1 by lia. sbind. rewrite H1. cbn [negb].
    rewrite E2 by lia. sbind. rewrite H2. cbn [negb]. fold remote. by rewrite E3, H3.
Qed.

(** What the accept loop does: receives are posted for one connection at most,
    nothing is sent, and each completion is printed once. *)
Definition one_client s s' ls : Prop :=
  posted (hw s') = posted (hw s) /\ (length (List.filter is_connected ls) <= 1)%nat
  /\ List.filter is_sent ls = []
  /\ exists l done, l ⊆+ recv_ids 0 0 16 /\ done ++ unfinished (hw s') ⊆+ l ++ unfinished (hw s)
       /\ (length (List.filter is_reaction ls) <= length done)%nat.

(** An attempt that failed, before the rest. *)
Lemma one_client_fail s h s' l m ls :
  posted h = posted (hw s) -> unfinished h = unfinished (hw s) -> l = [LFail m] ->
  one_client (set_hw s h) s' ls -> one_client s s' (l ++ ls).
Proof.
  intros Hp Hu -> (P & C & N & r & d & Hl & Hd & Hn). cbn [hw set_hw] in *. split_and!; [congruence|done|done|].
  exists r, d. by rewrite <- Hu.
Qed.

Lemma one_client_serve s h conn s1 s2 q l2 :
  posted h = posted (hw s) -> unfinished h = unfinished (hw s) ->
  posted (hw s1) = posted h -> (exists l, l ⊆+ recv_ids 0 0 16 /\ unfinished (hw s1) ≡ₚ l ++ unfinished h) ->
  reacts s1 s2 l2 -> one_client s (set_hw s2 (Connection.destroy (hw s2) conn).1) ([LConnected q] ++ l2 ++ []).
Proof.
  intros Hp Hu Hp1 (l & Hl & Hu1) (P2 & _ & _ & R & d & Hd & Hn). destruct (reactions_only _ R) as (F1 & F2 & F3).
  rewrite app_nil_r. destruct (destroy_frame (hw s2) conn) as [P3 U3]. unfold one_client. cbn [hw set_hw List.filter app is_connected is_sent is_reaction].
  rewrite F1, F2, F3, P3, U3. split_and!; [congruence|done|done|]. exists l, d. rewrite <- Hu, <- Hu1. by split_and!.
Qed.

Lemma accept_loop_ok rounds n (os : OS) s srv :
  (n <= rounds)%nat -> on_completion <> 0 -> coherent (dispatcher s) ∅ -> tidy (dispatcher s) -> ids_valid (hw s) ->
  pool_safe (buffer_pool s) ->
  exists k os' s' ls,
    (forall fuel, (k <= fuel)%nat ->
      accept_loop on_completion address pad1 pad2 pad3 qp_result junk local_params pd send_cq recv_cq rounds fuel n os s srv
      = Some (os', s', ls))
    /\ open_fds os' = open_fds os /\ one_client s s' ls.
Proof.
  intros Hr Hh. revert n os s Hr. induction rounds as [|rounds IH]; intros [|n] os s Hr Hco Ht Hv Hp; try lia.
  1,2: exists O, os, s, []; cbn [accept_loop]; (split; [done|]; split; [done|]);
    (split; [done|]; split; [simpl; lia|]; split; [done|]); exists [], []; (split_and!; [apply submseteq_nil_l|done|simpl; lia]).
  cbn [accept_loop]. pose proof (Accept_opens os (TcpHandshakeServer.listen_fd_ srv) 100) as Ha.
  unfold TcpHandshakeServer.Accept. destruct (TcpHandshakeChannel.Accept os (TcpHandshakeServer.listen_fd_ srv) 100) as [os1 [ch|st]].
  2:{ cbn [opens_one] in Ha. destruct (IH n os1 s) as (k & os' & s' & ls & E & Ho & Hc); [lia|done..|].
      exists k, os', s', ls. split; [done|]. split; [congruence|done]. }
  destruct Ha as (Hfd & Hnew & Hopen).
  destruct (establish_ok n os1 (hw s) ch) as (k1 & os2 & h & l1 & r & E1 & Ho2 & Hpo & Hun & Hest).
  assert (Hclose : open_fds (TcpHandshakeChannel.Close os2 ch).1 = open_fds os) by (rewrite Close_fds, Ho2, Hopen by done; set_solver).
  destruct r as [conn|].
  - destruct Hest as (Hst & Hid & q & ->).
    destruct (start_ok (address n) on_completion (set_hw s h) conn ∅ _ Hco Ht eq_refl Hh)
      as (s1 & E2 & Hok1 & _ & Hp1 & _ & Hl & _); [lia|unfold ids_valid; cbn; by rewrite Hun|done|].
    destruct (serve_ok n s1 conn Hok1 Hst) as (s2 & l2 & E3 & Hok2 & R). rewrite Hid in Hl.
    exists k1. do 3 eexists. split.
    + intros fuel Hf. rewrite E1 by done. sbind. rewrite E2. sbind. rewrite E3. sbind. destruct rounds; cbn [accept_loop]; sbind; reflexivity.
    + split; [done|]. by eapply one_client_serve.
  - destruct Hest as [m Hm]. destruct (IH n (TcpHandshakeChannel.Close os2 ch).1 (set_hw s h)) as (k & os' & s' & ls & E & Ho & Hc);
      [lia|done|done|unfold ids_valid; cbn; by rewrite Hun|done|].
    exists (Nat.max k1 k), os', s', (l1 ++ ls). split.
    + intros fuel Hf. rewrite E1 by lia. sbind. rewrite E by lia. reflexivity.
    + split; [congruence|]. by eapply one_client_fail.
Qed.

End server.

(** *** The client *)

Section client.
Import DemoClient.

Lemma demo_Send_spec (h : HW) conn b w :
  Connection.state_ conn = CONNECTED ->
  exists h' st, Connection.Send h conn b w = (h', Connection.set_qp conn (QueuePair.ShouldSignal (Connection.qp conn)).1, st)
    /\ (unfinished h' ≡ₚ unfinished h \/ unfinished h' ≡ₚ w :: unfinished h)
    /\ (sends_accepted (HW := HW) -> status_ok st = true
        /\ wr_view <$> posted h' = (wr_view <$> posted h) ++ [(w, [QueuePair.sge_of_buffer b])]).
Proof.
  intros Hc. unfold Connection.Send. rewrite bool_decide_true by done. cbn [negb].
  unfold Connection.on_qp, QueuePair.PostSend, QueuePair.DoPostSend, QueuePair.post.
  destruct (QueuePair.ShouldSignal (Connection.qp conn)) as [q sig]. cbn [fst snd].
  match goal with |- context [ibv_post_send h ?q ?w] =>
    pose proof (posted_post_send h q w) as Hp; pose proof (unfinished_post_send h q w) as Hu;
    pose proof (fun H : sends_accepted => H h q w) as Ha; destruct (ibv_post_send h q w) as [h' ret] end.
  cbn [fst snd] in *. destruct (ret =? 0) eqn:Hr; cbn [negb]; do 2 eexists; (split; [done|]).
  - split; [by right|]. intros _. split; [done|]. by rewrite Hp, fmap_app.
  - split; [by left|]. intros Hacc. apply Ha in Hacc. by apply Z.eqb_neq in Hr.
Qed.

(** A request of the connection is valid. *)
Lemma ids_valid_cons (h h' : HW) conn o c :
  0 <= Connection.conn_id_ conn < 0xFFFF -> ids_valid h ->
  unfinished h' ≡ₚ unfinished h \/ unfinished h' ≡ₚ WrId.Encode (Connection.conn_id_ conn) o 0 (u32 c) :: unfinished h ->
  ids_valid h'.
Proof.
  intros Hid Hv [Hu|Hu]; unfold ids_valid; rewrite Hu; [done|]. constructor; [|done].
  rewrite WrId_GetConnId_Encode by (done || (unfold is_u; lia) || (apply (wrap_range 32); lia)). lia.
Qed.

Lemma send_message_ok s conn c :
  program_ok s -> LocalBufferPool.buffer_size_ (buffer_pool s) = 4096 -> 0 <= Connection.conn_id_ conn < 0xFFFF ->
  Connection.state_ conn = CONNECTED ->
  exists s' conn' c' ls, send_message s conn c = Some (s', conn', c', ls) /\ program_ok s'
    /\ LocalBufferPool.buffer_size_ (buffer_pool s') = 4096 /\ Connection.conn_id_ conn' = Connection.conn_id_ conn.
Proof.
  intros (Hv & Hp & Hr) Hsz Hid Hc. unfold send_message.
  destruct (pool_safe_allocate _ Hp) as (p & b & -> & Hp' & Hlen & Hs'). sbind.
  destruct (Buffer.IsValid b) eqn:Hb; [|by do 4 eexists; split_and!; [done|done|cbn; congruence|done]].
  rewrite buf_write_Some by (rewrite ?Hlen by done; cbn; lia). sbind. cbn [hw set_pool].
  match goal with |- context [Connection.Send (hw s) conn b ?w] =>
    destruct (demo_Send_spec (hw s) conn b w Hc) as (h' & st & -> & Hu & _) end.
  do 4 eexists. split; [done|]. split; [|split; [cbn; congruence|done]].
  split; [by eapply ids_valid_cons|by split].
Qed.

Lemma message_loop_ok sq rq times s conn last c :
  program_ok s -> LocalBufferPool.buffer_size_ (buffer_pool s) = 4096 -> 0 <= Connection.conn_id_ conn < 0xFFFF ->
  exists s' conn' ls, message_loop sq rq times s conn last c = Some (s', conn', ls).
Proof.
  revert s conn last c. induction times as [|now times IH]; intros s conn last c Hok Hsz Hid; cbn [message_loop].
  { by do 3 eexists. }
  destruct (bool_decide_reflect (Connection.state_ conn = CONNECTED)) as [Hc|]; [|by do 3 eexists].
  assert (exists s1 conn1 c1 last1 l1,
    (if 1 <=? Z.quot (now - last) 1000000000 then
       '(s, conn, count, l) ← send_message s conn c; Some (s, conn, count, now, l)
     else Some (s, conn, c, last, [])) = Some (s1, conn1, c1, last1, l1)
    /\ program_ok s1 /\ LocalBufferPool.buffer_size_ (buffer_pool s1) = 4096 /\ 0 <= Connection.conn_id_ conn1 < 0xFFFF)
    as (s1 & conn1 & c1 & last1 & l1 & -> & Hok1 & Hsz1 & Hid1).
  { destruct (_ <=? _); [|by do 5 eexists].
    destruct (send_message_ok s conn c Hok Hsz Hid Hc) as (s1 & conn1 & c1 & l1 & -> & H1 & H2 & H3). sbind.
    do 5 eexists. split; [done|]. by rewrite H3. }
  sbind. destruct (poll_both_ok s1 sq rq Hok1) as (s2 & l2 & -> & Hok2 & _ & _ & B2 & _). sbind.
  destruct (IH s2 conn1 last1 c1 Hok2) as (s3 & conn3 & l3 & ->); [congruence|done|]. sbind. by do 3 eexists.
Qed.

Lemma due_nonneg last times : 0 <= due last times.
Proof. revert last. induction times as [|now times IH]; intros last; cbn [due]; [lia|]. destruct (_ <=? _); [|done]. specialize (IH now). lia. Qed.

(** The messages sent up to [c], from a pool [p] whose first buffers are the
    receives. *)
Record sent_upto (p : LocalBufferPool.LocalBufferPool) s conn (c : Z) : Prop := {
  su_ok : program_ok s;
  su_pool : buffer_pool s = taken p (16 + c);
  su_count : 0 <= c /\ 16 + c <= LocalBufferPool.buffer_count_ p;
  su_id : 0 <= Connection.conn_id_ conn < 0xFFFF;
  su_state : Connection.state_ conn = CONNECTED;
  su_mem : forall i, 0 <= i < c -> message_at (mem s) p i;
}.

Lemma sent_upto_reacts p s s' conn c ls :
  sent_upto p s conn c -> program_ok s' -> reacts s s' ls -> sent_upto p s' conn c.
Proof. intros [H1 H2 H3 H4 H5 H6] Hok (_ & M & B & _). split; [done|congruence|done|done|done|by rewrite M]. Qed.

Section exact.
Variable p : LocalBufferPool.LocalBufferPool.
Hypothesis Hp : fresh_pool p.
Hypothesis Hsize : Z.of_nat (length message) <= LocalBufferPool.buffer_size_ p.
Hypothesis Hbuffers : LocalBufferPool.buffer_count_ p <= 2 ^ 32.
Hypothesis Hacc : sends_accepted (HW := HW).

Lemma send_message_sends s conn c :
  sent_upto p s conn c -> 16 + c < LocalBufferPool.buffer_count_ p ->
  exists s' conn', send_message s conn c = Some (s', conn', c + 1, [LSent (c + 1)])
    /\ sent_upto p s' conn' (c + 1) /\ Connection.conn_id_ conn' = Connection.conn_id_ conn
    /\ wr_view <$> posted (hw s') = (wr_view <$> posted (hw s)) ++ [message_wr p (Connection.conn_id_ conn) c].
Proof.
  intros [(Hv & Hs & Hr) Hpool [Hc Hn] Hid Hst Hmem] Hlt. unfold send_message.
  destruct (pool_safe_allocate _ Hs) as (p' & b & E & Hs' & _). rewrite Hpool, (taken_allocate p (16 + c) Hp) in E by lia.
  apply (inj Some) in E. apply pair_equal_spec in E as [<- <-].
  rewrite Hpool, (taken_allocate p (16 + c) Hp) by lia. sbind. rewrite (taken_valid p (16 + c) Hp) by lia.
  set (b := buffer_at p _). assert (Hb : Z.of_nat (length message) <= Buffer.length_ b) by done.
  destruct (buf_write (mem s) b 0 message) as [m|] eqn:Em; [|by rewrite buf_write_Some in Em by lia].
  cbn [hw mem set_pool]. rewrite Em. sbind.
  destruct (demo_Send_spec (hw s) conn b (WrId.Encode (Connection.conn_id_ conn) REQUEST_SEND 0 (u32 c)) Hst)
    as (h' & st & -> & Hu & Ha). destruct (Ha Hacc) as [Hok Hpost]. rewrite Hok.
  do 2 eexists. split; [done|]. split; [|split; [done|]].
  - split; [|cbn [buffer_pool set_hw set_mem set_pool]; by rewrite Z.add_assoc|lia|done|done|].
    + split; [by eapply ids_valid_cons|by split].
    + intros i Hi. unfold message_at. cbn [mem set_hw set_mem]. destruct (decide (i = c)) as [->|Hne].
      * exact (buf_read_written _ _ _ _ Em).
      * rewrite (buf_read_frame _ _ _ _ _ _ _ _ Em); [apply Hmem; lia|]. intros x. apply taken_apart; [done|lia].
  - cbn [hw set_hw]. rewrite Hpost. unfold message_wr, b. rewrite (wrap_id 32) by (unfold is_u; lia). done.
Qed.

Lemma send_message_empty s conn c :
  sent_upto p s conn c -> 16 + c = LocalBufferPool.buffer_count_ p -> send_message s conn c = Some (s, conn, c, []).
Proof.
  intros H Hn. unfold send_message. rewrite (su_pool _ _ _ _ H), Hn, (taken_empty p Hp). sbind.
  rewrite <- Hn, <- (su_pool _ _ _ _ H). by destruct s.
Qed.

(** Message after message until the pool is empty, then nothing. *)
Lemma message_loop_sends sq rq times s conn last c :
  sent_upto p s conn c ->
  let m := Z.min (LocalBufferPool.buffer_count_ p - 16 - c) (due last times) in
  exists s' conn' ls, message_loop sq rq times s conn last c = Some (s', conn', ls)
    /\ sent_upto p s' conn' (c + m)
    /\ List.filter is_sent ls = (fun i => LSent (i + 1)) <$> seqZ c m
    /\ wr_view <$> posted (hw s') = (wr_view <$> posted (hw s)) ++ (message_wr p (Connection.conn_id_ conn) <$> seqZ c m).
Proof.
  revert s conn last c. induction times as [|now times IH]; intros s conn last c H; cbn [message_loop due].
  { destruct (su_count _ _ _ _ H). rewrite Z.min_r by lia. do 3 eexists. split; [done|]. rewrite Z.add_0_r, app_nil_r. by cbn. }
  rewrite bool_decide_true by apply H. destruct (su_count _ _ _ _ H) as [Hc0 Hcn]. pose proof (due_nonneg now times) as Hd.
  assert (Hrest : forall s1 conn1 c1 last1, sent_upto p s1 conn1 c1 -> Connection.conn_id_ conn1 = Connection.conn_id_ conn ->
    let m := Z.min (LocalBufferPool.buffer_count_ p - 16 - c1) (due last1 times) in
    exists s' conn' ls, ('(s, l2) ← poll_both s1 sq rq;
        '(s, conn, l3) ← message_loop sq rq times s conn1 last1 c1; Some (s, conn, l2 ++ l3)) = Some (s', conn', ls)
      /\ sent_upto p s' conn' (c1 + m) /\ List.filter is_sent ls = (fun i => LSent (i + 1)) <$> seqZ c1 m
      /\ wr_view <$> posted (hw s') = (wr_view <$> posted (hw s1)) ++ (message_wr p (Connection.conn_id_ conn) <$> seqZ c1 m)).
  { intros s1 conn1 c1 last1 H1 Hid. destruct (poll_both_ok s1 sq rq (su_ok _ _ _ _ H1)) as (s2 & l2 & -> & Hok2 & R). sbind.
    destruct (IH s2 conn1 last1 c1 (sent_upto_reacts _ _ _ _ _ _ H1 Hok2 R)) as (s3 & conn3 & l3 & -> & H3 & F3 & W3). sbind.
    destruct R as (P2 & _ & _ & R2 & _). do 3 eexists. split; [done|]. split; [done|].
    rewrite List.filter_app, (proj1 (reactions_only _ R2)), W3, P2, Hid. by split. }
  destruct (_ <=? _) eqn:Edue.
  2:{ sbind. exact (Hrest s conn c last H eq_refl). }
  destruct (decide (16 + c = LocalBufferPool.buffer_count_ p)) as [Hn|Hn].
  - rewrite (send_message_empty s conn c H Hn). sbind. specialize (Hrest s conn c now H eq_refl). cbn zeta in *.
    rewrite Z.min_l in Hrest |- * by lia. exact Hrest.
  - destruct (send_message_sends s conn c H) as (s1 & conn1 & -> & H1 & Hid & W1); [lia|]. sbind.
    destruct (Hrest s1 conn1 (c + 1) now H1 Hid) as (s3 & conn3 & l3 & E & H3 & F3 & W3). cbn zeta in *.
    destruct (poll_both s1 sq rq) as [[s2 l2]|]; [|done]. cbn [mbind option_bind] in E |- *.
    destruct (message_loop _ _ _ _ _ _ _) as [[[s4 conn4] l4]|]; [|done]. cbn [mbind option_bind] in E |- *.
    apply (inj Some) in E. simplify_eq. do 3 eexists. split; [done|].
    replace (Z.min (LocalBufferPool.buffer_count_ p - 16 - c) (1 + due now times))
      with (1 + Z.min (LocalBufferPool.buffer_count_ p - 16 - (c + 1)) (due now times)) by lia.
    set (m := Z.min _ _) in *. replace (c + (1 + m)) with (c + 1 + m) by lia. split; [done|].
    rewrite (seqZ_cons c) by lia. replace (Z.succ c) with (c + 1) by lia. replace (Z.pred (1 + m)) with m by lia.
    cbn [List.filter app is_sent]. rewrite F3, W3, W1, <- app_assoc. by split.
Qed.

End exact.

End client.

(** *** The two [main] functions *)

Lemma program_fresh on_error (h : HW) m p :
  let s := program on_error h m p in
  coherent (dispatcher s) ∅ /\ tidy (dispatcher s)
  /\ (CompletionDispatcher.error_ctx (dispatcher s), CompletionDispatcher.error_handler (dispatcher s)) = (0, on_error).
Proof. destruct represents_new as [[[] _] ?]. by split_and!. Qed.

Section server_main.
Context {OS OB : Type} `{!Sockets OS, !VerbsObjects OB}.
Variables (on_completion on_error : Z) (address : nat -> Z) (pad1 : list Z) (pad2 : Z) (pad3 : list Z).
Variables (qp_result : nat -> Result QueuePair.QueuePair) (junk : nat -> RemoteMemoryInfo)
  (local_params : nat -> Result QpConnParams).
Variables (allocate : bool -> Z -> Z -> Z) (reg : Z -> Z -> Result MemoryRegion.MemoryRegion) (ring : bool).
Hypothesis Hhandler : on_completion <> 0.

Lemma server_main_ok n argv port (os : OS) (ob : OB) (h : HW) m :
  port_of argv 1 = Some port -> closed (objects ob) -> unfinished h = [] ->
  exists k e,
    (forall fuel, (k <= fuel)%nat ->
      DemoServer.main on_completion on_error address pad1 pad2 pad3 qp_result junk local_params allocate reg ring
        fuel n argv os ob h m = Some e)
    /\ ends_clean allocate reg os ob e
    /\ posted (ex_hw e) = posted h /\ (length (List.filter is_connected (lines e)) <= 1)%nat
    /\ (length (List.filter is_reaction (lines e)) <= 16)%nat /\ List.filter is_sent (lines e) = [].
Proof.
  intros Hport Hc Hun. unfold DemoServer.main. rewrite Hport. sbind.
  destruct (setup_ok allocate reg ring ob Hc) as (ob1 & r & p & evs & ls & ob2 & -> & Et & Ho & Hres). sbind.
  destruct p as [p|].
  2:{ destruct Hres as (msg & -> & Hevs). exists O. eexists. split; [intros fuel _; rewrite Et; reflexivity|].
      split; [|by split_and!; [|simpl; lia|simpl; lia|]]. split; [done|]. split; [done|]. split; [right; by split; [|eexists]|].
      destruct Hevs as [?|[??]]; [by left|right; split; [done|by eexists]]. }
  destruct Hres as ((pd & sq & rq & -> & -> & ->) & Hsafe & Hsz & Hd). rewrite Hd.
  pose proof (server_opens os "" port 128) as Hs.
  destruct (TcpHandshakeServer.Create os "" port 128) as [os1 [srv|st]].
  2:{ exists O. eexists. split; [intros fuel _; rewrite Et; reflexivity|].
      split; [|by split_and!; [|simpl; lia|simpl; lia|]]. split; [done|]. split; [done|]. split; [right; by split; [|eexists]|by left]. }
  destruct Hs as (Hfd & Hnew & Hopen). destruct (program_fresh on_error h m p) as (F1 & F2 & _).
  destruct (accept_loop_ok on_completion address pad1 pad2 pad3 qp_result junk local_params
    (ProtectionDomain.GetRawPD pd) (CompletionQueue.GetRawCQ sq) (CompletionQueue.GetRawCQ rq) n n os1
    (program on_error h m p) srv (le_n _) Hhandler F1 F2) as (k & os2 & s & ls1 & E & Ho2 & P & C & N & l & d & Hl & Hdn & Hn);
    [unfold ids_valid; cbn; by rewrite Hun|done|].
  cbn [hw program] in Hdn, P. rewrite Hun, app_nil_r in Hdn.
  exists k. eexists. split; [intros fuel Hf; rewrite E by done; sbind; rewrite Et; reflexivity|]. cbn [lines ex_hw].
  split; [|split_and!; [done|done| |done]].
  - split; [done|]. split; [|split; [by left|by left]]. cbn [ex_os]. unfold TcpHandshakeServer.Close.
    destruct (Z.leb_spec 0 (TcpHandshakeServer.listen_fd_ srv)); [|lia]. cbn [fst]. rewrite close_law, Ho2, Hopen. set_solver.
  - apply submseteq_length in Hdn, Hl. rewrite length_app in Hdn. unfold recv_ids in Hl. rewrite length_fmap, length_seqZ in Hl. lia.
Qed.

End server_main.

Section client_main.
Context {OS OB : Type} `{!Sockets OS, !VerbsObjects OB}.
Variables (on_completion on_error : Z) (pad1 : list Z) (pad2 : Z) (pad3 : list Z).
Variables (allocate : bool -> Z -> Z -> Z) (reg : Z -> Z -> Result MemoryRegion.MemoryRegion) (ring : bool).
Hypothesis Hhandler : on_completion <> 0.

Lemma client_establish_ok (qp : Result QueuePair.QueuePair) jk lp (os : OS) (h : HW) ch pd :
  exists k os' h' l r ok,
    (forall fuel, (k <= fuel)%nat -> DemoClient.establish pad1 pad2 pad3 qp jk lp fuel os h ch pd = Some (os', h', l, r, ok))
    /\ open_fds os' = open_fds os /\ posted h' = posted h /\ unfinished h' = unfinished h
    /\ (if ok : bool then l = [] /\ exists c, r = Some c /\ Connection.state_ c = CONNECTED /\ Connection.conn_id_ c = 0
        else exists m, l = [LFail m]).
Proof.
  unfold DemoClient.establish. destruct (Connection.Create (Some pd) qp 1 0 jk) as [c|st] eqn:Ec.
  2:{ exists O. do 5 eexists. split; [done|]. split_and!; try done. by eexists. }
  assert (Hc : Connection.conn_id_ c = 0) by (unfold Connection.Create in Ec; destruct qp; by simplify_eq).
  destruct lp as [params|st]; [|exists O; do 5 eexists; split; [done|]; split_and!; try done; by eexists].
  destruct (Receive_total os ch) as (os1 & st1 & data & E1).
  set (msg := HandshakeMessage.bytes _ _ _ _). destruct (Send_total os1 ch msg) as (os2 & st2 & E2).
  pose proof (Receive_fds _ _ _ _ _ _ (E1 _ (le_n _))) as F1. pose proof (Send_fds _ _ _ _ _ _ (E2 _ (le_n _))) as F2.
  exists (Nat.max (length msg + stalls os1) (128 + stalls os)).
  destruct (status_ok st1) eqn:H1.
  2:{ do 5 eexists. split; [intros fuel Hf; rewrite E1 by lia; sbind; rewrite H1; reflexivity|]. split_and!; try done. by eexists. }
  destruct (status_ok st2) eqn:H2.
  2:{ do 5 eexists. split; [intros fuel Hf; rewrite E1 by lia; sbind; rewrite H1; cbn [negb]; rewrite E2 by lia; sbind; rewrite H2; reflexivity|].
      split_and!; [congruence|done|done|by eexists]. }
  set (remote := HandshakeMessage.qp_params (HandshakeMessage.of_bytes data)).
  destruct (Connect_frame h c remote) as [P3 U3]. pose proof (Connect_result h c remote) as R3. pose proof (Connect_conn_id h c remote) as I3.
  destruct (Connection.Connect h c remote) as [[h3 c3] st3] eqn:E3. cbn [fst snd] in *.
  destruct (status_ok st3) eqn:H3; do 5 eexists;
    (split; [intros fuel Hf; rewrite E1 by lia; sbind; rewrite H1; cbn [negb]; rewrite E2 by lia; sbind; rewrite H2; cbn [negb];
             fold remote; rewrite E3, H3; reflexivity|]); (split; [congruence|]; split; [done|]; split; [done|]); [|by eexists].
  split; [done|]. eexists. split; [done|]. split; [by apply R3|congruence].
Qed.

Lemma client_main_ok (qp : Result QueuePair.QueuePair) jk lp self t0 times argv port (os : OS) (ob : OB) (h : HW) m :
  port_of argv 2 = Some port -> closed (objects ob) -> unfinished h = [] ->
  exists k e,
    (forall fuel, (k <= fuel)%nat ->
      DemoClient.main pad1 pad2 pad3 qp jk lp self on_completion on_error allocate reg ring fuel t0 times argv os ob h m = Some e)
    /\ (argv !! 1%nat = None /\ code e = 1 /\ ex_os e = os /\ ex_ob e = ob /\ freed e = [] \/ ends_clean allocate reg os ob e).
Proof.
  intros Hport Hc Hun. unfold DemoClient.main. destruct (argv !! 1%nat) as [host|]; [|by exists O; eexists; split; [|left]].
  rewrite Hport. sbind. destruct (setup_ok allocate reg ring ob Hc) as (ob1 & r & p & evs & ls & ob2 & -> & Et & Ho & Hres). sbind.
  assert (Hend : forall c l evs os1 h1 k (F : nat -> option (Exit OS OB HW)), open_fds os1 = open_fds os ->
    c = 0 \/ c = 1 /\ (exists m, l = [LFail m]) ->
    evs = pool_released allocate reg \/ evs = [] /\ (exists x, x ∈ early_failures /\ l = [x]) ->
    (forall fuel, (k <= fuel)%nat ->
      F fuel = (ob ← Resources.teardown ob1 r;
                Some {| code := c; lines := l; freed := evs; ex_os := os1; ex_ob := ob; ex_hw := h1 |})) ->
    exists k e, (forall fuel, (k <= fuel)%nat -> F fuel = Some e)
      /\ (Some host = None /\ code e = 1 /\ ex_os e = os /\ ex_ob e = ob /\ freed e = [] \/ ends_clean allocate reg os ob e)).
  { intros c l ev os1 h1 k F H1 H2 H3 HF. exists k. eexists. split; [intros fuel Hf; rewrite HF, Et by done; reflexivity|]. by right. }
  destruct p as [p|].
  2:{ destruct Hres as (msg & -> & Hevs). eapply (Hend 1 _ _ _ _ O); [done|right; split; [done|by eexists]| |intros fuel _; reflexivity].
      destruct Hevs as [?|[??]]; [by left|right; split; [done|by eexists]]. }
  destruct Hres as ((pd & sq & rq & -> & -> & ->) & Hsafe & Hsz & Hd).
  pose proof (Connect_opens os host port 5000) as Hs.
  destruct (TcpHandshakeChannel.Connect os host port 5000) as [os1 [ch|st]].
  2:{ eapply (Hend 1 _ _ _ _ O); [exact Hs|right; split; [done|by eexists]|left; exact Hd|intros fuel _; reflexivity]. }
  destruct Hs as (Hfd & Hnew & Hopen).
  destruct (client_establish_ok qp jk lp os1 h ch (ProtectionDomain.GetRawPD pd)) as (k & os2 & h2 & l1 & conn & ok & E & Ho2 & P2 & U2 & Hok).
  assert (Hclose : open_fds (TcpHandshakeChannel.Close os2 ch).1 = open_fds os) by (rewrite Close_fds, Ho2, Hopen by done; set_solver).
  destruct ok.
  2:{ destruct conn; (eapply (Hend 1 _ _ _ _ k); [exact Hclose|right; by split|left; exact Hd|]); intros fuel Hf; rewrite E by done; reflexivity. }
  destruct Hok as (-> & c & -> & Hst & Hid). destruct (program_fresh on_error h2 m p) as (F1 & F2 & F3).
  destruct (start_ok self on_completion (program on_error h2 m p) c ∅ _ F1 F2 F3 Hhandler) as (s & Es & Hs & _ & _ & Hb & _);
    [lia|unfold ids_valid; cbn; by rewrite U2, Hun|done|].
  destruct (message_loop_ok (CompletionQueue.GetRawCQ sq) (CompletionQueue.GetRawCQ rq) times s c t0 0 Hs) as (s' & c' & l2 & El);
    [by rewrite Hb|lia|].
  eapply (Hend 0 _ _ _ _ k); [exact Hclose|by left|left; exact Hd|]. intros fuel Hf. rewrite E by done. sbind.
  unfold DemoClient.talk. rewrite Es. sbind. rewrite El. reflexivity.
Qed.

End client_main.

End device.

End lemmas.

(** *** Examples *)

Section example.
Import Demo.

(** A device that takes everything; a message arrives for each receive as soon as
    it is posted, at queue 4, and sends do not complete. *)
Record Lab := { lab_sends : list ibv_send_wr; lab_recvs : list Z }.

Definition arrived (id : Z) : ibv_wc :=
  {| wc_wr_id := id; wc_status := IBV_WC_SUCCESS; wc_byte_len := 13; wc_imm_data := 0 |}.

#[export, refine] Instance lab_verbs : Verbs Lab := {|
  ibv_post_send h _ wr := ({| lab_sends := lab_sends h ++ [wr]; lab_recvs := lab_recvs h |}, 0);
  ibv_post_recv h _ wr := ({| lab_sends := lab_sends h; lab_recvs := lab_recvs h ++ [rwr_id wr] |}, 0);
  ibv_modify_qp h _ _ _ := (h, 0);
  QueuePair.errno _ := 0;
  posted := lab_sends;
|}.
Proof. all: done. Defined.

#[export, refine] Instance lab_queues : CompletionSource Lab := {|
  ibv_poll_cq h cq max :=
    if cq =? 4 then ({| lab_sends := lab_sends h; lab_recvs := drop (Z.to_nat max) (lab_recvs h) |},
                     inr (arrived <$> take (Z.to_nat max) (lab_recvs h)))
    else (h, inr []);
  pending h cq := if cq =? 4 then arrived <$> lab_recvs h else [];
|}.
Proof.
  - intros h cq max. destruct (cq =? 4) eqn:Ec; [|split; [simpl; lia|done]]. cbn. rewrite length_fmap, length_take.
    split; [lia|]. split; [by rewrite <- fmap_app, take_drop|].
    intros Hm E. destruct (lab_recvs h) as [|x l]; [done|]. destruct (Z.to_nat max) eqn:En; [lia|done].
  - intros h cq max cq' Hne. destruct (cq =? 4) eqn:Ec; [|done]. apply Z.eqb_eq in Ec as ->. cbn [fst].
    by rewrite (proj2 (Z.eqb_neq cq' 4)).
Defined.

#[export, refine] Instance lab_work : WorkQueues Lab := {|
  unfinished h := (wr_id <$> lab_sends h) ++ lab_recvs h;
|}.
Proof.
  - intros h q wr. cbn. rewrite fmap_app, <- app_assoc. symmetry. apply Permutation_middle.
  - intros h q wr. cbn. rewrite app_assoc. symmetry. apply Permutation_cons_append.
  - done.
  - intros h cq max. unfold ibv_poll_cq, lab_queues. destruct (cq =? 4); [|by cbn]. cbn [fst snd lab_sends lab_recvs].
    assert (H : forall l : list Z, wc_wr_id <$> (arrived <$> l) = l) by (intros l; induction l as [|i l IH]; [done|cbn; by f_equal]).
    by rewrite H, Permutation_app_swap_app, take_drop.
  - intros h cq max. unfold ibv_poll_cq, lab_queues. by destruct (cq =? 4).
Defined.

Definition lab : Lab := {| lab_sends := []; lab_recvs := [] |}.

Definition lab_allocate (huge : bool) (node size : Z) : Z := 65536.

(** A queue pair and its parameters, for every round. *)
Definition lab_qp : Result QueuePair.QueuePair := RVal (Connection.qp example_connection).

Definition lab_server (n : nat) : option (Exit Script Objects Lab) :=
  DemoServer.main (VerbsObjects0 := toy_verbs) 1 2 (fun n => 100 + Z.of_nat n) [0; 0] 0 [0; 0; 0; 0] (fun _ => lab_qp)
    (fun _ => {| rmi_addr := 0; rmi_rkey := 0; rmi_length := 0 |}) (fun _ => RVal example_params)
    lab_allocate example_register true 400 n ["server"; "4791"] example_receiver ∅ lab (fun _ => 0).

(** A client connects; the messages of its sixteen receives are printed, in one
    poll; after that nothing happens until the signal. *)
Example lab_server_prints :
  (fun e => (code e, lines e)) <$> lab_server 5 = Some (0, LConnected 77 :: replicate 16 (LReceived 13)).
Proof. vm_compute. reflexivity. Qed.

Example ports : port_of ["server"; "  4791"] 1 = Some 4791 /\ port_of ["server"] 1 = Some 12345
  /\ port_of ["server"; "-1"] 1 = Some 65535 /\ port_of ["server"; "x"] 1 = Some 0
  /\ port_of ["server"; "99999999999"] 1 = None.
Proof. vm_compute. by split_and!. Qed.

End example.

(** ** Properties *)

Section properties.
Import Demo.

(** Both programs end and leave nothing behind. Whatever the device, the peer
    and the network do, once the flag is cleared - or at the first step that
    fails - [main] returns 0, or 1 after one message, without undefined behaviour:
    the objects of the verbs library and the open descriptors are those there
    were before, and the memory of the pool has been unregistered and freed, if
    the program came as far as allocating it. *)
Theorem demo_programs_end_clean {HW OS OB} `{!Verbs HW, !CompletionSource HW, !WorkQueues HW, !Sockets OS, !VerbsObjects OB}
    on_completion on_error address pad1 pad2 pad3 qp_result junk local_params allocate reg ring
    (os : OS) (ob : OB) (h : HW) m argv :
  on_completion <> 0 -> closed (objects ob) -> unfinished h = [] ->
  (forall n port, port_of argv 1 = Some port -> exists k e,
    (forall fuel, (k <= fuel)%nat ->
      DemoServer.main on_completion on_error address pad1 pad2 pad3 qp_result junk local_params allocate reg ring
        fuel n argv os ob h m = Some e)
    /\ ends_clean allocate reg os ob e)
  /\ (forall self t0 times host port, argv !! 1%nat = Some host -> port_of argv 2 = Some port -> exists k e,
    (forall fuel, (k <= fuel)%nat ->
      DemoClient.main pad1 pad2 pad3 (qp_result O) (junk O) (local_params O) self on_completion on_error allocate reg ring
        fuel t0 times argv os ob h m = Some e)
    /\ ends_clean allocate reg os ob e).
Proof.
  intros Hh Hc Hu. split.
  - intros n port Hp. destruct (server_main_ok on_completion on_error address pad1 pad2 pad3 qp_result junk local_params
      allocate reg ring Hh n argv port os ob h m Hp Hc Hu) as (k & e & E & H & _). by exists k, e.
  - intros self t0 times host port Hhost Hp. destruct (client_main_ok on_completion on_error pad1 pad2 pad3 allocate reg ring Hh
      (qp_result O) (junk O) (local_params O) self t0 times argv port os ob h m Hp Hc Hu) as (k & e & E & [[? _]|H]);
      [congruence|by exists k, e].
Qed.

Lemma demo_programs_end_clean_witness :
  exists k e, (forall fuel, (k <= fuel)%nat ->
      DemoServer.main (VerbsObjects0 := toy_verbs) 1 2 (fun n => 100 + Z.of_nat n) [0; 0] 0 [0; 0; 0; 0] (fun _ => lab_qp)
        (fun _ => {| rmi_addr := 0; rmi_rkey := 0; rmi_length := 0 |}) (fun _ => RVal example_params)
        lab_allocate example_register true fuel 5 ["server"; "4791"] example_receiver ∅ lab (fun _ => 0) = Some e)
    /\ ends_clean (VerbsObjects0 := toy_verbs) lab_allocate example_register example_receiver (∅ : Objects) e.
Proof.
  destruct (demo_programs_end_clean (VerbsObjects0 := toy_verbs) 1 2 (fun n => 100 + Z.of_nat n) [0; 0] 0 [0; 0; 0; 0]
    (fun _ => lab_qp) (fun _ => {| rmi_addr := 0; rmi_rkey := 0; rmi_length := 0 |}) (fun _ => RVal example_params)
    lab_allocate example_register true example_receiver (∅ : Objects) lab (fun _ => 0) ["server"; "4791"]) as [H _];
    [discriminate|exact closed_empty|reflexivity|]. exact (H 5%nat 4791 eq_refl).
Defined.

(** C34: The server serves one client, and for sixteen messages. However long it
    runs and whoever connects, it establishes at most one connection, whose loop
    only the signal ends; it sends nothing at all, so it echoes nothing; and as it
    never posts a receive again, it prints at most sixteen completions. *)
Theorem demo_server_one_client {HW OS OB} `{!Verbs HW, !CompletionSource HW, !WorkQueues HW, !Sockets OS, !VerbsObjects OB}
    on_completion on_error address pad1 pad2 pad3 qp_result junk local_params allocate reg ring
    (os : OS) (ob : OB) (h : HW) m n argv port :
  on_completion <> 0 -> closed (objects ob) -> unfinished h = [] -> port_of argv 1 = Some port ->
  exists k e,
    (forall fuel, (k <= fuel)%nat ->
      DemoServer.main on_completion on_error address pad1 pad2 pad3 qp_result junk local_params allocate reg ring
        fuel n argv os ob h m = Some e)
    /\ (length (List.filter is_connected (lines e)) <= 1)%nat /\ posted (ex_hw e) = posted h
    /\ (length (List.filter is_reaction (lines e)) <= 16)%nat.
Proof.
  intros Hh Hc Hu Hp. destruct (server_main_ok on_completion on_error address pad1 pad2 pad3 qp_result junk local_params
    allocate reg ring Hh n argv port os ob h m Hp Hc Hu) as (k & e & E & _ & H1 & H2 & H3 & _). by exists k, e.
Qed.

Lemma demo_server_one_client_witness :
  exists k e, (forall fuel, (k <= fuel)%nat ->
      DemoServer.main (VerbsObjects0 := toy_verbs) 1 2 (fun n => 100 + Z.of_nat n) [0; 0] 0 [0; 0; 0; 0] (fun _ => lab_qp)
        (fun _ => {| rmi_addr := 0; rmi_rkey := 0; rmi_length := 0 |}) (fun _ => RVal example_params)
        lab_allocate example_register true fuel 50 ["server"] example_receiver ∅ lab (fun _ => 0) = Some e)
    /\ (length (List.filter is_reaction (lines e)) <= 16)%nat.
Proof.
  destruct (demo_server_one_client (VerbsObjects0 := toy_verbs) 1 2 (fun n => 100 + Z.of_nat n) [0; 0] 0 [0; 0; 0; 0]
    (fun _ => lab_qp) (fun _ => {| rmi_addr := 0; rmi_rkey := 0; rmi_length := 0 |}) (fun _ => RVal example_params)
    lab_allocate example_register true example_receiver (∅ : Objects) lab (fun _ => 0) 50 ["server"] 12345) as (k & e & E & _ & _ & H);
    [discriminate|exact closed_empty|reflexivity|reflexivity|]. exists k, e. split; [exact E|exact H].
Defined.

(** C33: The client sends a message a second, 240 in all. Connected, over a device that
    takes its sends, the client sends the text, numbered from 1, in every round
    that is due - each from a buffer of its own that nothing overwrites - until the
    240 buffers that the receives left are gone. It never gives one back, so from
    then on it loops and sends nothing, and says nothing either. *)
Theorem demo_client_stops {HW} `{!Verbs HW, !CompletionSource HW, !WorkQueues HW} allocate reg memory mr :
  allocate false (-1) (4096 * 256) = memory -> reg memory (4096 * 256) = RVal mr -> 0 < memory -> memory + 4096 * 256 <= 2 ^ 64 ->
  exists p, LocalBufferPool.Create allocate reg true (Some tt) bp_config = (RVal p, [])
    /\ forall self on_completion on_error sq rq t0 times (h : HW) m conn,
         on_completion <> 0 -> Connection.state_ conn = CONNECTED -> 0 <= Connection.conn_id_ conn < 0xFFFF ->
         sends_accepted (HW := HW) -> unfinished h = [] ->
         let n := Z.min 240 (due t0 times) in
         exists s conn' ls,
           DemoClient.talk self on_completion sq rq t0 times (program on_error h m p) conn = Some (s, conn', ls)
           /\ List.filter is_sent ls = (fun i => LSent (i + 1)) <$> seqZ 0 n
           /\ wr_view <$> posted (hw s)
              = (wr_view <$> posted h) ++ (message_wr p (Connection.conn_id_ conn) <$> seqZ 0 n)
           /\ (forall i, 0 <= i < n -> message_at (mem s) p i)
           /\ LocalBufferPool.AvailableCount (buffer_pool s) = 240 - n.
Proof.
  intros Ha Hr Hm Hs. destruct (demo_Create allocate reg memory mr Ha Hr Hm Hs) as (p & E & Hp & Hsz & Hn). exists p. split; [done|].
  intros self on_completion on_error sq rq t0 times h m conn Hh Hst Hid Hacc Hu.
  destruct (program_fresh on_error h m p) as (F1 & F2 & F3).
  assert (Hsafe : pool_safe p).
  { split; [apply Hp|]. rewrite (fp_head _ Hp), (fp_ring _ Hp), length_fmap, length_seqZ, Hn. lia. }
  destruct (start_ok self on_completion (program on_error h m p) conn ∅ _ F1 F2 F3 Hh) as (s & Es & Hs1 & M & P & _ & _ & B);
    [done|unfold ids_valid; cbn; by rewrite Hu|done|].
  destruct (message_loop_sends p Hp) with (sq := sq) (rq := rq) (times := times) (s := s) (conn := conn) (last := t0) (c := 0)
    as (s' & conn' & ls & El & Hup & Hl & Hw); [by rewrite Hsz|by rewrite Hn|done| |].
  { split; [done|by apply B; [|rewrite Hn|]|by rewrite Hn|done|done|lia]. }
  cbn zeta. rewrite Hn in Hup, Hl, Hw. rewrite Z.add_0_l in Hup. unfold DemoClient.talk. rewrite Es. sbind.
  do 3 eexists. split; [exact El|]. split; [exact Hl|]. split; [by rewrite Hw, P|]. split; [apply Hup|].
  unfold LocalBufferPool.AvailableCount. rewrite (su_pool _ _ _ _ Hup). cbn [taken LocalBufferPool.set_head LocalBufferPool.count_].
  unfold taken. cbn. rewrite (fp_count _ Hp), Hn. lia.
Qed.

Lemma demo_client_stops_witness :
  exists p s conn' ls,
    DemoClient.talk 100 1 3 4 0 (Z.mul 1000000000 <$> seqZ 1 300) (program 2 lab (fun _ => 0) p)
      (Connection.set_state example_connection CONNECTED) = Some (s, conn', ls)
    /\ length (List.filter is_sent ls) = 240%nat /\ LocalBufferPool.AvailableCount (buffer_pool s) = 0.
Proof.
  destruct (demo_client_stops (HW := Lab) lab_allocate example_register 65536
    {| MemoryRegion.mr_ := Some (7, 8); MemoryRegion.addr_ := 65536; MemoryRegion.size_ := 1048576 |}) as (p & _ & H);
    [reflexivity|reflexivity|lia|lia|].
  destruct (H 100 1 2 3 4 0 (Z.mul 1000000000 <$> seqZ 1 300) lab (fun _ => 0) (Connection.set_state example_connection CONNECTED))
    as (s & conn' & ls & E & Hl & _ & _ & Ha); [discriminate|reflexivity|cbn; lia|intros ? ? ?; reflexivity|reflexivity|].
  assert (Hd : due 0 (Z.mul 1000000000 <$> seqZ 1 300) = 300) by (vm_compute; reflexivity).
  rewrite Hd in Hl, Ha. exists p, s, conn', ls. split; [exact E|]. split; [rewrite Hl; reflexivity|rewrite Ha; reflexivity].
Defined.

End properties.
